(* ===== verification/_CoqProject ===== *)
-Q . S2P
Prelude.v
GoLib.v
GoNet.v
NetFacts.v
GoTime.v
HttpParse.v
Variables.v
Types.v
Collections.v
BodyBuffer.v
Transaction.v
Macro.v
Rule.v
TransactionOps.v
Actions.v
Transformations.v
Operators.v
RuleEval.v
EvalFacts.v
RuleGroup.v
BodyProcessors.v
Phases.v
Engine.v
PhaseFacts.v
BodyFacts.v
Examples.v
EngineProps.v
PhaseProps.v
StoreProps.v
TextProps.v
RuleProps.v
TransformProps.v
RuleParser.v
Directives.v
SecLang.v
ParserFacts.v
ConfigExamples.v
OperatorProps.v
SecLangProps.v
RuleTextProps.v
DirectiveProps.v
RateLimit.v
RateLimitFacts.v
RateLimitProps.v
IpAllow.v
IpAllowProps.v
Security.v
ApiKeys.v
AccessProps.v
HttpMiddleware.v
HttpEngine.v
HttpProps.v
