(* ===== verification/Prelude.v ===== *)
(** * Obsidian Sentinel WAF, modelled and verified

    The repository is a web application firewall in Go.  Its core, under
    internal/, is an engine that feeds the parts of an HTTP exchange into a
    transaction, evaluates the configured rules in five phases, and tells the
    connector whether to interrupt.  A parser turns configuration texts into
    the rules and settings of a WAF, a middleware puts the engine between
    net/http and a handler, and the service around it limits rates, keeps an
    allow list of addresses, finds out the client's address and checks keys.
    This library models these parts as executable definitions and proves the
    properties that make them correct.

    ** The program's parts and the files that model them

    - Values: byte strings, 64-bit integers, panics and record update are in
      [Prelude]; what the sources use of Go's strings, strconv, unicode and
      utf8 is in [GoLib], of the clock in [GoTime].  The tables of Unicode
      case mapping, the order of a range over a map, the address of a
      string's bytes and the local time zone are classes ([GoUnicode],
      [MapOrder], [StringData], [LocalZone]): every theorem holds for all
      their instances.  Addresses and networks of package net are in [GoNet],
      with their facts (texts are read back, networks contain what has their
      prefix) in [NetFacts].
    - [HttpParse]: internal/strings, internal/url and internal/cookies.
    - [Variables], [Types]: internal/variables, types, internal/corazatypes.
    - [Collections]: internal/collections, the stores behind the variables
      that rules name: maps with a case rule, views of their names,
      concatenations, sizes.  A range over a map takes an order that may
      change with every use.
    - [BodyBuffer]: internal/corazawaf/body_buffer.go; a body in memory that
      moves to a temporary file, with the readers handed out on it.  Every
      system call may fail ([OsEnv]).
    - [Transaction]: the state of a transaction and its table of variables
      (transaction.go), and the monad [M] of computations that change it or
      panic; [TransactionOps]: headers, arguments, connection, URI, captures,
      matches, target selection and exclusions.
    - [Macro]: experimental/plugins/macro, the text templates of rules.
    - [Rule]: rules and their construction, the identifiers of transformation
      pipelines (rule.go), settings and validation of a WAF (waf.go).
    - [Actions]: internal/actions, every action's [Init] and [Evaluate].
    - [RuleEval]: [doEvaluate] of rule.go: targets, transformations with the
      cache, operator, chain, messages, actions.  [RuleGroup]: rulegroup.go,
      the loop of a phase with its gates, and the editing of rule groups.
    - [BodyProcessors]: internal/bodyprocessors (raw, urlencoded, json).
    - [Phases]: the calls of a connector, from [ProcessRequestHeaders] to
      [ProcessLogging] and [Close], and [newTransaction] on a pooled
      transaction.
    - [Transformations]: internal/transformations and its registry.
    - [Operators]: internal/operators, the tests of rules, all of those of the
      default build: comparisons, string tests, validators, addresses, and the
      operators around regular expressions, dictionaries, files, processes,
      name servers, schemas and the injection detectors.
    - [RuleParser]: rule_parser.go of internal/seclang, rules, targets,
      operators, actions and default actions.  [Directives]: directives.go and
      the table of directives.  [SecLang]: parser.go, lines, continuations and
      inclusion, and waf.go and config.go of the root, the public [NewWAF].
    - [HttpMiddleware]: the directory http, the request fed into a transaction
      and the interceptor that holds back a response; [HttpEngine] makes the
      engine's transactions an instance of what the middleware uses.
    - [RateLimit], [IpAllow], [Security], [ApiKeys]: the packages ratelimit,
      ipallow, security and apikeys of internal/app.  Time, random bytes and
      the outcome of storing are arguments of the operations.

    Interfaces: an operator is a function that the rule carries; what the
    engine needs of one is the predicate [op_ok] (it may change variables
    only), and [OperatorProps] shows that every registered operator meets it.  A body
    processor is a record of two functions, and [bp_ok] is what a phase needs
    of it; the modelled processors meet it.  [EngineRel] (in [EvalFacts]) is
    the class of relations on transactions that the steps of the engine keep;
    a fact about a whole phase follows from an instance.  What is outside of
    the sources is a class too: [MatcherLibs] (libraries that operators call),
    [Registries] and [Environment] (plugins and the file system of the
    parser), [GoRange] (the order of a range), [RedisBackend],
    [AllowlistStore], [KeyStore] and [KeyHashing].  [TransactionAPI] is the
    interface of transactions, [Inspects] what the interceptor relies on while
    it holds a response; [engine_transaction] and [engine_inspects] are the
    engine's instances.

    ** What the theorems show

    - [Engine], [EngineProps]: a phase is a run of a step relation over its
      rules; it evaluates a subsequence of them, respects exclusions, skips,
      markers, [allow] and interruptions, and in detection-only mode never
      interrupts.
    - [PhaseFacts], [PhaseProps]: the connector's calls as a step relation;
      phases only advance, interruptions and matches persist, whatever the
      order of calls; the body functions at, below and above their limits;
      bodies reach the rules unchanged; a recycled transaction is fresh, but
      for two leaks that are stated as theorems.
    - [StoreProps]: the buffer refines a bounded byte sequence; collections
      keep names apart.
    - [RuleProps]: matching rules, [setvar], [ctl], exclusions, the argument
      limit, the transformation cache (transparent exactly when its keys are
      faithful, with the collisions stated), identifiers of pipelines and of
      rules.
    - [TextProps]: query strings, macros, numbers and JSON documents are read
      back as what they encode.
    - [TransformProps]: decoders undo encoders and fit their buffers, paths
      lose their dot-dot components, and which transformations report their
      changes truthfully.
    - [OperatorProps]: operators meet the engine's interface, comparisons are
      those of the numbers, validators match exactly what they say.
    - [SecLangProps], [RuleTextProps], [DirectiveProps]: a configuration text
      is the sequence of its logical lines, inclusion terminates, no text makes
      the parser panic, targets and actions that are written out are read back,
      directives keep identifiers unique (and the ones that do not work are
      stated as such), and a WAF that is built has valid limits.
    - [RateLimitProps]: sharding is not visible, the limit of a minute holds
      for every interleaving, exceeding it blocks, waiting helps, and the
      longest prefix decides.  [IpAllowProps]: an address is allowed exactly
      when an entry covers it.  [AccessProps]: the client's address cannot be
      forged through trusted proxies, generated keys authenticate until they
      are revoked, and their rate is bounded.
    - [HttpProps]: an inspected response is sent whole or not at all, and the
      handler reads the body that the client sent.
    - [BodyFacts], [EvalFacts], [ParserFacts], [RateLimitFacts] hold the lemmas
      these share, [Examples] and [ConfigExamples] a small WAF and its
      configuration, on which witnesses evaluate.

    ** Bounds and fuel

    Integers are [Z]; where the code computes on int64 the result is wrapped
    ([wrap64]) or the range is a hypothesis.  Loops that are not structural
    take fuel: parsing pieces of a query and the runes of a string takes the
    length of the string, since every step consumes a byte; [CopyN] and
    [ReadAll] take the number of chunks or bytes left plus one.  Inclusion of
    files takes 102, more than the 100 inclusions a parser allows, and
    [inclusion_terminates] shows that it never runs out; an IPv6 text has at
    most eight groups.  The theorems about them state the result, not only
    what holds if there is one.

    ** Not modelled

    The records of the audit log and their formats, debug output and stop
    watches (output only); the multipart and XML processors, which wrap library
    parsers; the Redis limiter (a remote service, of which the local limiter
    sees an interface); authentication, storage, alerts, reports, threat
    intelligence and the handlers of internal/app, and the programs under cmd.
    The build tags for multi-phase evaluation and for case-sensitive argument
    names are off, as in the default build; the latter is a parameter where it
    matters.  Locks are not modelled: every operation of the services is atomic
    but for those that release their lock in between, whose parts are steps of
    their own (the additions of [IpAllow]).

    ** Plan

    Next: the Redis limiter, the multipart processor around its library, the
    audit log's records, sessions and passwords of internal/app/auth, and the
    stores of internal/app. *)

From stdpp Require Export gmap strings list fin_maps functions.
From stdpp Require Import options.
From Stdlib Require Export ZArith Lia.
From Stdlib Require Import Strings.Byte.

#[global] Open Scope Z_scope.

(** ** Go byte strings *)

(** A Go [string] or [[]byte] is a sequence of bytes. *)
Abbreviation gostring := (list byte).

(** A string literal of the source. *)
Definition lit (s : string) : gostring := String.list_byte_of_string s.

(** The numeric value of a byte, and the conversion [byte(z)], which wraps. *)
Definition bz (b : byte) : Z := Z.of_N (Byte.to_N b).

Definition zb (z : Z) : byte :=
  default Byte.x00 (Byte.of_N (Z.to_N (z mod 256))).

#[global] Instance byte_eq_dec : EqDecision byte.
Proof. exact Byte.byte_eq_dec. Defined.

#[global] Instance byte_countable : Countable byte :=
  inj_countable Byte.to_N Byte.of_N Byte.of_to_N.

Lemma bz_range b : 0 <= bz b < 256.
Proof.
  unfold bz. pose proof (Byte.to_N_bounded b). lia.
Qed.

Lemma zb_bz b : zb (bz b) = b.
Proof. destruct b; reflexivity. Qed.

Lemma bz_zb z : bz (zb z) = z mod 256.
Proof.
  assert (0 <= z mod 256 < 256) as Hr by (apply Z.mod_pos_bound; lia).
  unfold bz, zb. destruct (Byte.of_N (Z.to_N (z mod 256))) as [b|] eqn:E; simpl.
  - apply Byte.to_of_N in E. rewrite E. lia.
  - apply Byte.of_N_None_iff in E. lia.
Qed.

Lemma bz_zb_small z : 0 <= z < 256 -> bz (zb z) = z.
Proof. intros. rewrite bz_zb, Z.mod_small; lia. Qed.

#[global] Instance bz_inj : Inj (=) (=) bz.
Proof. intros a b H. by rewrite <- (zb_bz a), <- (zb_bz b), H. Qed.

(** Length of a string as a Go [int]. *)
Definition zlen {A} (l : list A) : Z := Z.of_nat (length l).

Lemma zlen_nonneg {A} (l : list A) : 0 <= zlen l.
Proof. unfold zlen. lia. Qed.

Lemma zlen_app {A} (l k : list A) : zlen (l ++ k) = zlen l + zlen k.
Proof. unfold zlen. rewrite length_app. lia. Qed.

Lemma zlen_cons {A} (x : A) (l : list A) : zlen (x :: l) = 1 + zlen l.
Proof. unfold zlen. simpl. lia. Qed.

Lemma zlen_nil {A} : zlen ([] : list A) = 0.
Proof. reflexivity. Qed.

Lemma zlen_0_inv {A} (l : list A) : zlen l = 0 -> l = [].
Proof. destruct l; [done|]. unfold zlen. simpl. lia. Qed.

Lemma zlen_take {A} (n : nat) (l : list A) :
  zlen (take n l) = Z.min (Z.of_nat n) (zlen l).
Proof. unfold zlen. rewrite length_take. lia. Qed.

Lemma zlen_drop {A} (n : nat) (l : list A) :
  zlen (drop n l) = Z.max 0 (zlen l - Z.of_nat n).
Proof. unfold zlen. rewrite length_drop. lia. Qed.

Lemma filter_sublist {A} (p : A -> bool) (l : list A) : List.filter p l `sublist_of` l.
Proof. induction l as [|x l IH]; simpl; [done|]. by destruct (p x); constructor. Qed.

(** ** Machine integers *)

(** [int] and [int64] values wrap around at 64 bits. *)
Definition maxInt64 : Z := 9223372036854775807.

Definition wrap64 (z : Z) : Z :=
  (z + 9223372036854775808) mod 18446744073709551616 - 9223372036854775808.

Definition in_int64 (z : Z) : Prop := - 9223372036854775808 <= z <= maxInt64.

Lemma wrap64_id z : in_int64 z -> wrap64 z = z.
Proof.
  unfold in_int64, wrap64, maxInt64. intros H. rewrite Z.mod_small; lia.
Qed.

Lemma wrap64_range z : in_int64 (wrap64 z).
Proof.
  unfold in_int64, wrap64, maxInt64.
  pose proof (Z.mod_pos_bound (z + 9223372036854775808) 18446744073709551616).
  lia.
Qed.

(** ** Outcomes: a Go computation returns or panics *)

Inductive outcome (A : Type) : Type :=
| Ok (a : A)
| Panic.
Arguments Ok {A} a.
Arguments Panic {A}.

#[global] Instance outcome_eq_dec {A} `{EqDecision A} : EqDecision (outcome A).
Proof. solve_decision. Defined.

Definition obind {A B} (m : outcome A) (k : A -> outcome B) : outcome B :=
  match m with Ok a => k a | Panic => Panic end.

(** ** Record update *)

(** [r <| proj := v |>] is the record [r] with the field [proj] replaced.  The
    class is solved by abstracting the projection out of the constructor form
    [mk_of r] of the record. *)
Class RecordForm (R : Type) := mk_of : R -> R.

Class FieldSetter {R E : Type} (getter : R -> E) := set_field : (E -> E) -> R -> R.
Arguments set_field {R E} getter {_} / _ _.

Ltac solve_field_setter :=
  match goal with
  | |- @FieldSetter ?R ?E ?getter =>
      let form := eval hnf in (@mk_of R _) in
      lazymatch form with context [getter] => idtac end;
      let abs := eval pattern getter in form in
      lazymatch abs with
      | ?F getter =>
          exact (fun (f : E -> E) (r : R) => F (fun x : R => f (getter x)) r)
      end
  end.

#[global] Hint Extern 0 (@FieldSetter _ _ _) => solve_field_setter : typeclass_instances.

Declare Scope record_scope.
Notation "r <| p := v |>" := (set_field p (fun _ => v) r)
  (at level 1, left associativity, p at level 200,
   format "r  <|  p  :=  v  |>") : record_scope.
#[global] Open Scope record_scope.
