(* ===== verification/GoLib.v ===== *)
(** * The parts of Go's standard library that the engine uses

    [strings] (case mapping, [Cut], [Index], trimming), [unicode/utf8]
    (decoding and encoding of runes) and [strconv] ([Itoa], [Atoi],
    [ParseInt]).  The Unicode case tables are a parameter ([GoUnicode]): only
    their values above the ASCII range are left open. *)

From stdpp Require Import options.
From Stdlib Require Import Strings.Byte.
From S2P Require Import Prelude.

(** ** unicode/utf8 *)

Module Utf8.

Definition RuneError : Z := 0xFFFD.

Definition is_cont (lo hi : Z) (b : byte) : bool := (lo <=? bz b) && (bz b <=? hi).

Definition payload (b : byte) : Z := Z.land (bz b) 0x3F.

(** Ranges allowed for the second byte after a given lead byte. *)
Definition second_range (b0 : Z) : Z * Z :=
  if b0 =? 0xE0 then (0xA0, 0xBF)
  else if b0 =? 0xED then (0x80, 0x9F)
  else if b0 =? 0xF0 then (0x90, 0xBF)
  else if b0 =? 0xF4 then (0x80, 0x8F)
  else (0x80, 0xBF).

(** [utf8.DecodeRuneInString]: the first rune and its width; an invalid
    encoding is [RuneError] of width one. *)
Definition DecodeRune (s : gostring) : Z * nat :=
  match s with
  | [] => (RuneError, 0%nat)
  | b0 :: s1 =>
    let z0 := bz b0 in
    let rng := second_range z0 in
    if z0 <? 0x80 then (z0, 1%nat)
    else if (z0 <? 0xC2) || (0xF4 <? z0) then (RuneError, 1%nat)
    else match s1 with
    | [] => (RuneError, 1%nat)
    | b1 :: s2 =>
      if negb (is_cont (fst rng) (snd rng) b1) then (RuneError, 1%nat)
      else if z0 <? 0xE0 then
        (Z.lor (Z.shiftl (Z.land z0 0x1F) 6) (payload b1), 2%nat)
      else match s2 with
      | [] => (RuneError, 1%nat)
      | b2 :: s3 =>
        if negb (is_cont 0x80 0xBF b2) then (RuneError, 1%nat)
        else if z0 <? 0xF0 then
          (Z.lor (Z.lor (Z.shiftl (Z.land z0 0x0F) 12) (Z.shiftl (payload b1) 6))
                 (payload b2), 3%nat)
        else match s3 with
        | [] => (RuneError, 1%nat)
        | b3 :: _ =>
          if negb (is_cont 0x80 0xBF b3) then (RuneError, 1%nat)
          else
            (Z.lor (Z.lor (Z.lor (Z.shiftl (Z.land z0 0x07) 18)
                                 (Z.shiftl (payload b1) 12))
                          (Z.shiftl (payload b2) 6)) (payload b3), 4%nat)
        end
      end
    end
  end.

(** [utf8.AppendRune] on an empty buffer. *)
Definition EncodeRune (r0 : Z) : gostring :=
  let r := if (r0 <? 0) || (0x10FFFF <? r0) || ((0xD800 <=? r0) && (r0 <=? 0xDFFF))
           then RuneError else r0 in
  let cont z := zb (Z.lor 0x80 (Z.land z 0x3F)) in
  if r <? 0x80 then [zb r]
  else if r <? 0x800 then [zb (Z.lor 0xC0 (Z.shiftr r 6)); cont r]
  else if r <? 0x10000 then
    [zb (Z.lor 0xE0 (Z.shiftr r 12)); cont (Z.shiftr r 6); cont r]
  else [zb (Z.lor 0xF0 (Z.shiftr r 18)); cont (Z.shiftr r 12);
        cont (Z.shiftr r 6); cont r].

(** The runes a [range] over the string visits, each with its bytes. *)
Fixpoint runes_go (fuel : nat) (s : gostring) : list (Z * gostring) :=
  match fuel, s with
  | O, _ | _, [] => []
  | S fuel, _ =>
    let '(r, w) := DecodeRune s in
    (r, take w s) :: runes_go fuel (drop w s)
  end.

Definition runes (s : gostring) : list (Z * gostring) := runes_go (length s) s.

Lemma DecodeRune_width s : s <> [] -> (1 <= snd (DecodeRune s) <= length s)%nat.
Proof.
  intros Hs. destruct s as [|b0 s1]; [done|]. unfold DecodeRune.
  repeat case_match; simpl in *; lia.
Qed.

(** Decoding visits every byte of the string exactly once, in order. *)
Lemma runes_concat s : concat (map snd (runes s)) = s.
Proof.
  unfold runes.
  assert (forall n s, (length s <= n)%nat -> concat (map snd (runes_go n s)) = s) as H.
  { clear s. induction n as [|n IH]; intros s Hn.
    - destruct s; [done|]. simpl in Hn. lia.
    - destruct s as [|b s]; [done|].
      change (runes_go (S n) (b :: s)) with
        (let '(r, w) := DecodeRune (b :: s) in
         (r, take w (b :: s)) :: runes_go n (drop w (b :: s))).
      pose proof (DecodeRune_width (b :: s) ltac:(done)) as Hw.
      destruct (DecodeRune (b :: s)) as [r w]. simpl snd in Hw.
      cbn [map concat snd]. rewrite IH by (rewrite length_drop; lia).
      apply take_drop. }
  by apply H.
Qed.

(** ASCII text has one rune per byte. *)
Lemma runes_ascii s :
  Forall (fun b => bz b < 0x80) s -> runes s = map (fun b => (bz b, [b])) s.
Proof.
  unfold runes. induction 1 as [|b s Hb _ IH]; [done|]. cbn [length runes_go map].
  unfold DecodeRune. rewrite (proj2 (Z.ltb_lt _ _) Hb). cbn [take drop]. by rewrite take_0, drop_0, IH.
Qed.

End Utf8.

(** ** unicode *)

(** The simple case mappings of [unicode.ToLower] and [unicode.ToUpper]. *)
Class GoUnicode := {
  unicode_ToLower : Z -> Z;
  unicode_ToUpper : Z -> Z;
}.

(** [unicode.IsSpace]. *)
Definition unicode_IsSpace (r : Z) : bool :=
  bool_decide (r ∈ [0x09; 0x0A; 0x0B; 0x0C; 0x0D; 0x20; 0x85; 0xA0; 0x1680;
                    0x2028; 0x2029; 0x202F; 0x205F; 0x3000])
  || ((0x2000 <=? r) && (r <=? 0x200A)).

(** ** strings *)

Module Strings.

Definition is_ascii (b : byte) : bool := bz b <? 128.

Definition lower_byte (b : byte) : byte :=
  if (65 <=? bz b) && (bz b <=? 90) then zb (bz b + 32) else b.

Definition upper_byte (b : byte) : byte :=
  if (97 <=? bz b) && (bz b <=? 122) then zb (bz b - 32) else b.

(** [strings.Map] with a mapping that never returns a negative rune. *)
Definition Map (f : Z -> Z) (s : gostring) : gostring :=
  concat (map (fun rb => Utf8.EncodeRune (f (fst rb))) (Utf8.runes s)).

Definition ToLower `{GoUnicode} (s : gostring) : gostring :=
  if forallb is_ascii s then map lower_byte s else Map unicode_ToLower s.

Definition ToUpper `{GoUnicode} (s : gostring) : gostring :=
  if forallb is_ascii s then map upper_byte s else Map unicode_ToUpper s.

Fixpoint HasPrefix (s p : gostring) {struct p} : bool :=
  match p, s with
  | [], _ => true
  | _ :: _, [] => false
  | x :: p, y :: s => bool_decide (x = y) && HasPrefix s p
  end.

Definition HasSuffix (s p : gostring) : bool := HasPrefix (rev s) (rev p).

(** [strings.IndexByte]: position of the first occurrence. *)
Fixpoint IndexByte (s : gostring) (c : byte) : option nat :=
  match s with
  | [] => None
  | x :: s => if bool_decide (x = c) then Some 0%nat else S <$> IndexByte s c
  end.

(** [strings.Index] and [strings.Contains]. *)
Fixpoint Index (s p : gostring) : option nat :=
  if HasPrefix s p then Some 0%nat
  else match s with [] => None | _ :: s => S <$> Index s p end.

Definition Contains (s p : gostring) : bool := bool_decide (is_Some (Index s p)).

(** [strings.Cut] with a separator of one byte: before, after, found. *)
Definition Cut (s : gostring) (sep : byte) : gostring * gostring * bool :=
  match IndexByte s sep with
  | Some i => (take i s, drop (S i) s, true)
  | None => (s, [], false)
  end.

(** Trimming of the bytes that satisfy a predicate, at both ends. *)
Fixpoint trim_left (p : byte -> bool) (s : gostring) : gostring :=
  match s with
  | [] => []
  | x :: s' => if p x then trim_left p s' else s
  end.

Definition trim_right (p : byte -> bool) (s : gostring) : gostring :=
  rev (trim_left p (rev s)).

Definition trim (p : byte -> bool) (s : gostring) : gostring :=
  trim_right p (trim_left p s).

(** [textproto.TrimString] trims ASCII blanks. *)
Definition isASCIISpace (b : byte) : bool :=
  bool_decide (bz b ∈ [32; 9; 10; 13]).

Definition TrimString (s : gostring) : gostring := trim isASCIISpace s.

(** [strings.TrimSpace] trims the runes that are Unicode white space. *)
Fixpoint drop_space (l : list (Z * gostring)) : list (Z * gostring) :=
  match l with
  | [] => []
  | rb :: l' => if unicode_IsSpace (fst rb) then drop_space l' else l
  end.

Definition TrimSpace (s : gostring) : gostring :=
  concat (map snd (rev (drop_space (rev (drop_space (Utf8.runes s)))))).

(** *** Facts *)

Lemma lower_byte_ascii b : is_ascii b = true -> is_ascii (lower_byte b) = true.
Proof. destruct b; vm_compute; congruence. Qed.

Lemma lower_byte_idemp b : lower_byte (lower_byte b) = lower_byte b.
Proof. destruct b; reflexivity. Qed.

Definition ascii_string (s : gostring) : Prop := forallb is_ascii s = true.

Lemma ToLower_ascii `{GoUnicode} s : ascii_string s -> ToLower s = map lower_byte s.
Proof. unfold ToLower, ascii_string. by intros ->. Qed.

Lemma ToLower_ascii_string `{GoUnicode} s : ascii_string s -> ascii_string (ToLower s).
Proof.
  intros Hs. rewrite ToLower_ascii by done. unfold ascii_string in *.
  rewrite forallb_forall in *. intros b (c & <- & Hc)%in_map_iff.
  auto using lower_byte_ascii.
Qed.

Lemma ToLower_idemp_ascii `{GoUnicode} s :
  ascii_string s -> ToLower (ToLower s) = ToLower s.
Proof.
  intros Hs. rewrite (ToLower_ascii (ToLower s)) by auto using ToLower_ascii_string.
  rewrite ToLower_ascii by done. rewrite map_map.
  apply map_ext. intros. apply lower_byte_idemp.
Qed.

Lemma HasPrefix_spec s p : HasPrefix s p = true <-> exists t, s = p ++ t.
Proof.
  revert s. induction p as [|x p IH]; intros s; simpl.
  - split; eauto.
  - destruct s as [|y s].
    + split; [done|]. by intros [t ?].
    + rewrite andb_true_iff, bool_decide_eq_true, IH. split.
      * intros [-> [t ->]]. by exists t.
      * intros [t ?]. simplify_eq. eauto.
Qed.

Lemma IndexByte_Some s c i :
  IndexByte s c = Some i <->
  exists t, s = take i s ++ c :: t /\ c ∉ take i s /\ t = drop (S i) s.
Proof.
  revert i. induction s as [|x s IH]; intros i; simpl.
  - split; [done|]. intros (t & Ht & _). exfalso. by destruct i.
  - case_bool_decide as Hx.
    + subst. split.
      * intros [= <-]. exists s. simpl. split; [done|]. split; [apply not_elem_of_nil|done].
      * intros (t & Ht & Hn & _). destruct i; [done|]. simpl in Hn. set_solver.
    + destruct i as [|i]; simpl.
      * split; [by destruct (IndexByte s c)|].
        intros (t & Ht & _). simplify_eq.
      * trans (IndexByte s c = Some i).
        { destruct (IndexByte s c); simpl; split; intros; simplify_eq; done. }
        rewrite IH. split; intros (t & Ht & Hn & Hd); exists t; split_and!; try done.
        -- by f_equal.
        -- set_solver.
        -- by simplify_eq.
        -- set_solver.
Qed.

Lemma IndexByte_None s c : IndexByte s c = None <-> c ∉ s.
Proof.
  induction s as [|x s IH]; simpl; [set_solver|].
  case_bool_decide; subst.
  - split; [done|]. set_solver.
  - rewrite fmap_None, IH. set_solver.
Qed.

Lemma IndexByte_lt s c i : IndexByte s c = Some i -> (i < length s)%nat.
Proof.
  revert i. induction s as [|x s IH]; intros i; simpl; [done|].
  case_bool_decide.
  - intros [= <-]. lia.
  - destruct (IndexByte s c); simpl; [|done]. intros [= <-].
    specialize (IH _ eq_refl). lia.
Qed.

(** [Cut] splits at the first separator and loses only that byte. *)
Lemma Cut_spec s c :
  match Cut s c with
  | (a, b, true) => s = a ++ c :: b /\ c ∉ a
  | (a, b, false) => a = s /\ b = [] /\ c ∉ s
  end.
Proof.
  unfold Cut. destruct (IndexByte s c) as [i|] eqn:E.
  - apply IndexByte_Some in E as (t & Ht & Hn & ->). split; done.
  - apply IndexByte_None in E. done.
Qed.

Lemma Cut_app a b c : c ∉ a -> Cut (a ++ c :: b) c = (a, b, true).
Proof.
  intros Ha. pose proof (Cut_spec (a ++ c :: b) c) as H.
  destruct (Cut (a ++ c :: b) c) as [[x y] [|]].
  - destruct H as [He Hx].
    assert (x = a /\ y = b) as [-> ->]; [|done].
    clear -Ha Hx He. revert x Hx He. induction a as [|z a IH]; intros [|w x] Hx He;
      simpl in *; simplify_eq; try set_solver.
    destruct (IH ltac:(set_solver) x ltac:(set_solver) ltac:(done)) as [-> ->]. done.
  - destruct H as (_ & _ & Hn). set_solver.
Qed.

Lemma Cut_none s c : c ∉ s -> Cut s c = (s, [], false).
Proof. intros H. unfold Cut. by rewrite (proj2 (IndexByte_None s c)). Qed.

(** Text without a space is not trimmed. *)
Definition solid (b : byte) : Prop := bz b < 0x80 /\ unicode_IsSpace (bz b) = false.

Lemma drop_space_solid l : Forall solid l -> drop_space (map (fun b => (bz b, [b])) l) = map (fun b => (bz b, [b])) l.
Proof. intros [|b l' [_ Hb] _]; [done|]. simpl. by rewrite Hb. Qed.

Lemma TrimSpace_solid s : Forall solid s -> TrimSpace s = s.
Proof.
  intros Hs. unfold TrimSpace.
  rewrite Utf8.runes_ascii by (eapply Forall_impl; [|exact Hs]; by intros b [? _]).
  rewrite drop_space_solid, <- map_rev, drop_space_solid, <- map_rev, rev_involutive; [|by apply Forall_rev|done].
  rewrite map_map. induction s as [|b s IH]; [done|]. inversion Hs; subst. simpl. f_equal. auto.
Qed.

End Strings.

(** ** strconv *)

Module Strconv.

Inductive NumError := ErrSyntax | ErrRange.

#[global] Instance NumError_eq_dec : EqDecision NumError.
Proof. solve_decision. Defined.

(** Decimal digits of a non-negative number; the fuel is a bound on the
    number of bits, of which every division by ten removes at least one. *)
Fixpoint dec_go (fuel : nat) (n : Z) (acc : gostring) : gostring :=
  match fuel with
  | O => acc
  | S fuel =>
    let acc := zb (48 + n mod 10) :: acc in
    if n <? 10 then acc else dec_go fuel (n / 10) acc
  end.

Definition dec (n : Z) : gostring := dec_go (S (Z.to_nat (Z.log2 n))) n [].

(** [strconv.Itoa] and [strconv.FormatInt(_, 10)]. *)
Definition Itoa (z : Z) : gostring :=
  if z <? 0 then "-"%byte :: dec (- z) else dec z.

Definition is_digit (b : byte) : bool := (48 <=? bz b) && (bz b <=? 57).

(** The digit loop of [ParseUint(_, 10, _)]. *)
Fixpoint parse_go (maxVal n : Z) (s : gostring) : Z * option NumError :=
  match s with
  | [] => (n, None)
  | c :: s =>
    if negb (is_digit c) then (0, Some ErrSyntax)
    else let n1 := n * 10 + (bz c - 48) in
         if maxVal <? n1 then (maxVal, Some ErrRange) else parse_go maxVal n1 s
  end.

Definition ParseUint (s : gostring) (bitSize : Z) : Z * option NumError :=
  match s with
  | [] => (0, Some ErrSyntax)
  | _ => parse_go (2 ^ bitSize - 1) 0 s
  end.

(** [strconv.ParseInt(s, 10, bitSize)]: out-of-range values are clamped and
    reported. *)
Definition ParseInt (s : gostring) (bitSize : Z) : Z * option NumError :=
  match s with
  | [] => (0, Some ErrSyntax)
  | c :: rest =>
    let neg := bool_decide (c = "-"%byte) in
    let digits := if bool_decide (c = "+"%byte) || neg then rest else s in
    let '(un, err) := ParseUint digits bitSize in
    match err with
    | Some ErrSyntax => (0, Some ErrSyntax)
    | _ =>
      let cutoff := 2 ^ (bitSize - 1) in
      if negb neg && (cutoff <=? un) then (cutoff - 1, Some ErrRange)
      else if neg && (cutoff <? un) then (- cutoff, Some ErrRange)
      else (if neg then - un else un, None)
    end
  end.

(** [strconv.Atoi] on a 64-bit platform. *)
Definition Atoi (s : gostring) : Z * option NumError := ParseInt s 64.

(** *** Round trip *)

Lemma digit_byte d : 0 <= d < 10 -> is_digit (zb (48 + d)) = true /\ bz (zb (48 + d)) - 48 = d.
Proof.
  intros. unfold is_digit. rewrite bz_zb_small by lia.
  split; [|lia]. apply andb_true_iff. lia.
Qed.

Lemma parse_go_digit m n d s :
  0 <= d < 10 -> n * 10 + d <= m ->
  parse_go m n (zb (48 + d) :: s) = parse_go m (n * 10 + d) s.
Proof.
  intros Hd Hm. cbn [parse_go]. destruct (digit_byte d Hd) as [-> ->]. simpl.
  by rewrite (proj2 (Z.ltb_ge m (n * 10 + d))) by lia.
Qed.

Lemma parse_dec_go fuel m n acc :
  0 <= n <= m -> n < 2 ^ Z.of_nat fuel ->
  parse_go m 0 (dec_go fuel n acc) = parse_go m n acc.
Proof.
  revert n acc. induction fuel as [|fuel IH]; intros n acc Hn Hf.
  - replace n with 0 by (simpl in Hf; lia). done.
  - cbn [dec_go]. pose proof (Z.mod_pos_bound n 10).
    pose proof (Z.div_mod n 10). destruct (Z.ltb_spec n 10).
    + rewrite parse_go_digit by lia.
      f_equal. rewrite Z.mod_small by lia. lia.
    + rewrite IH.
      * rewrite parse_go_digit by lia. f_equal. lia.
      * split; [apply Z.div_pos; lia|]. apply Z.div_le_upper_bound; lia.
      * rewrite Nat2Z.inj_succ, Z.pow_succ_r in Hf by lia.
        apply Z.div_lt_upper_bound; lia.
Qed.

Lemma dec_cons n : exists c s, dec n = c :: s.
Proof.
  unfold dec. cbn [dec_go].
  assert (forall fuel m acc, exists c s, dec_go fuel m (acc : gostring) = c :: s \/ acc = []) as H.
  { induction fuel as [|fuel IH]; intros m acc; cbn [dec_go].
    - destruct acc as [|c s]; [by exists "0"%byte, []; right|]. exists c, s. by left.
    - case_match; [eexists _, _; by left|].
      destruct (IH (m / 10) (zb (48 + m mod 10) :: acc)) as (c & s & [->|?]); [|done].
      exists c, s. by left. }
  case_match; [by eexists _, _|].
  destruct (H (Z.to_nat (Z.log2 n)) (n / 10) [zb (48 + n mod 10)]) as (c & s & [->|?]); [|done].
  by eexists _, _.
Qed.

Lemma ParseUint_dec n bits :
  0 <= n <= 2 ^ bits - 1 -> ParseUint (dec n) bits = (n, None).
Proof.
  intros Hn. unfold ParseUint. destruct (dec_cons n) as (c & s & E). rewrite E.
  rewrite <- E. unfold dec. rewrite parse_dec_go; [done|lia|].
  rewrite Nat2Z.inj_succ, Z2Nat.id by apply Z.log2_nonneg.
  destruct (decide (n = 0)) as [->|]; [vm_compute; done|].
  apply Z.log2_spec. lia.
Qed.

Lemma dec_go_digits fuel n acc :
  0 <= n -> Forall (fun b => is_digit b = true) acc ->
  Forall (fun b => is_digit b = true) (dec_go fuel n acc).
Proof.
  revert n acc. induction fuel as [|fuel IH]; intros n acc Hn Ha; cbn [dec_go]; [done|].
  pose proof (Z.mod_pos_bound n 10).
  assert (is_digit (zb (48 + n mod 10)) = true) by (apply digit_byte; lia).
  case_match; [by constructor|]. apply IH; [apply Z.div_pos; lia|by constructor].
Qed.

Lemma dec_digits n : 0 <= n -> Forall (fun b => is_digit b = true) (dec n).
Proof. intros. by apply dec_go_digits. Qed.

(** Every [int64] survives being printed and parsed. *)
Lemma Atoi_Itoa z : in_int64 z -> Atoi (Itoa z) = (z, None).
Proof.
  intros Hz. unfold in_int64, maxInt64 in Hz. unfold Atoi, Itoa.
  destruct (Z.ltb_spec z 0).
  - unfold ParseInt. rewrite (bool_decide_eq_true_2 ("-" = "-")%byte) by done.
    rewrite orb_true_r. rewrite ParseUint_dec by lia.
    rewrite (proj2 (Z.ltb_ge (2 ^ (64 - 1)) (- z))) by lia. simpl. f_equal. lia.
  - pose proof (dec_digits z ltac:(done)) as Hd.
    destruct (dec_cons z) as (c & s & E). rewrite E in Hd |- *. unfold ParseInt.
    pose proof (Forall_inv Hd) as Hc. simpl in Hc.
    assert (c <> "-"%byte /\ c <> "+"%byte) as [H1 H2]
      by (split; intros ->; discriminate Hc).
    rewrite !bool_decide_eq_false_2 by done.
    cbn [orb]. rewrite <- E. rewrite ParseUint_dec by lia.
    cbn [negb andb]. by rewrite (proj2 (Z.leb_gt (2 ^ (64 - 1)) z)) by lia.
Qed.

End Strconv.

(** ** Maps *)

(** The order in which a [range] over a map visits its entries. *)
Class GoRange := {
  range_map {V : Type} : gmap gostring V -> list (gostring * V);
  range_map_perm {V : Type} (m : gmap gostring V) : range_map m ≡ₚ map_to_list m;
}.
