(* ===== verification/GoNet.v ===== *)
(** * Go library: the part of package net that the program uses

    Addresses are lists of bytes, of length 4 or 16, as in [net.IP]; [nil] is
    the empty list.  [ParseIP], [ParseCIDR], [IPNet.Contains], the printers
    and [SplitHostPort]. *)

From stdpp Require Import options.
From Stdlib Require Import Strings.Byte.
From S2P Require Import Prelude GoLib.

Module Net.

Abbreviation IP := (list Z).

Record IPNet := mkIPNet {
  net_IP : IP;
  Mask : list Z;
}.

#[global] Instance IPNet_eq_dec : EqDecision IPNet.
Proof. solve_decision. Defined.

Definition IPv4len : nat := 4.
Definition IPv6len : nat := 16.

Definition v4InV6Prefix : list Z := [0; 0; 0; 0; 0; 0; 0; 0; 0; 0; 255; 255].

(** ** Parsing *)

(** The loop of [netip.parseIPv4Fields]: [val] is the octet being read, with
    [digLen] digits; [fields] are the octets before it, last first. *)
Fixpoint parseIPv4Fields (s : gostring) (val : Z) (digLen : nat) (fields : list Z) : option (list Z) :=
  match s with
  | [] => if bool_decide (length fields = 3%nat) && negb (digLen =? 0)%nat then Some (rev (val :: fields)) else None
  | c :: s =>
    if Strconv.is_digit c then
      if (digLen =? 1)%nat && (val =? 0) then None
      else
        let val := val * 10 + (bz c - 48) in
        if 255 <? val then None else parseIPv4Fields s val (S digLen) fields
    else if bool_decide (c = "."%byte) then
      if (digLen =? 0)%nat || (length fields =? 3)%nat then None
      else parseIPv4Fields s 0 0 (val :: fields)
    else None
  end.

Definition parseIPv4 (s : gostring) : option (list Z) := parseIPv4Fields s 0 0 [].

Definition hex_value (c : byte) : option Z :=
  let z := bz c in
  if (48 <=? z) && (z <=? 57) then Some (z - 48)
  else if (97 <=? z) && (z <=? 102) then Some (z - 87)
  else if (65 <=? z) && (z <=? 70) then Some (z - 55)
  else None.

(** The group of hexadecimal digits at the start, the number of digits and
    the rest; [None] when it is too long. *)
Fixpoint hex_group (s : gostring) (acc : Z) (off : nat) : option (Z * nat * gostring) :=
  match s with
  | [] => Some (acc, off, [])
  | c :: rest =>
    match hex_value c with
    | None => Some (acc, off, s)
    | Some d => if (3 <? off)%nat then None else hex_group rest (acc * 16 + d) (S off)
    end
  end.

(** The loop of [netip.parseIPv6]: [ip] are the bytes read, [ellipsis] where
    the double colon was.  Every round reads a group, so eight are enough. *)
Fixpoint parseIPv6_go (fuel : nat) (s : gostring) (ip : list Z) (ellipsis : option nat) : option (list Z * option nat) :=
  match fuel with
  | O => if bool_decide (s = []) then Some (ip, ellipsis) else None
  | S fuel =>
    match hex_group s 0 0 with
    | None => None
    | Some (_, O, _) => None
    | Some (acc, _, rest) =>
      match rest with
      | [] => Some (ip ++ [acc / 256; acc mod 256], ellipsis)
      | c :: rest' =>
        if bool_decide (c = "."%byte) then
          if bool_decide (ellipsis = None) && negb (length ip =? 12)%nat then None
          else if (16 <? length ip + 4)%nat then None
          else match parseIPv4 s with
               | Some v4 => Some (ip ++ v4, ellipsis)
               | None => None
               end
        else if bool_decide (c = ":"%byte) then
          let ip := ip ++ [acc / 256; acc mod 256] in
          match rest' with
          | [] => None
          | c' :: rest'' =>
            if bool_decide (c' = ":"%byte) then
              match ellipsis with
              | Some _ => None
              | None => if bool_decide (rest'' = []) then Some (ip, Some (length ip))
                        else parseIPv6_go fuel rest'' ip (Some (length ip))
              end
            else parseIPv6_go fuel rest' ip ellipsis
          end
        else None
      end
    end
  end.

(** The ellipsis stands for the missing bytes, at least one group. *)
Definition expand_ellipsis (r : list Z * option nat) : option (list Z) :=
  let '(ip, ellipsis) := r in
  match ellipsis with
  | None => if (length ip =? 16)%nat then Some ip else None
  | Some e => if (length ip <? 16)%nat
              then Some (take e ip ++ replicate (16 - length ip) 0 ++ drop e ip) else None
  end.

Definition parseIPv6 (s : gostring) : option (list Z) :=
  match s with
  | c1 :: c2 :: rest =>
    if bool_decide (c1 = ":"%byte) && bool_decide (c2 = ":"%byte) then
      if bool_decide (rest = []) then Some (replicate 16 0)
      else parseIPv6_go 8 rest [] (Some 0%nat) ≫= expand_ellipsis
    else parseIPv6_go 8 s [] None ≫= expand_ellipsis
  | _ => parseIPv6_go 8 s [] None ≫= expand_ellipsis
  end.

(** [netip.ParseAddr] for addresses without a zone: the bytes, 4 or 16.  All
    callers here refuse an address with a zone. *)
Definition ParseAddr (s : gostring) : option (list Z) :=
  if bool_decide ("%"%byte ∈ s) then None
  else match List.find (fun c => bool_decide (c = "."%byte) || bool_decide (c = ":"%byte)) s with
       | Some c => if bool_decide (c = "."%byte) then parseIPv4 s else parseIPv6 s
       | None => None
       end.

Definition As16 (a : list Z) : IP := if (length a =? 4)%nat then v4InV6Prefix ++ a else a.

Definition ParseIP (s : gostring) : option IP := As16 <$> ParseAddr s.

(** ** Addresses *)

Definition To4 (ip : IP) : option IP :=
  if (length ip =? 4)%nat then Some ip
  else if (length ip =? 16)%nat && bool_decide (take 12 ip = v4InV6Prefix) then Some (drop 12 ip) else None.

Definition IPv6loopback : IP := replicate 15 0 ++ [1].

(** [IP.IsLoopback] for an address of [ParseIP], which has 16 bytes. *)
Definition IsLoopback (ip : IP) : bool :=
  match To4 ip with
  | Some ip4 => bool_decide (head ip4 = Some 127)
  | None => bool_decide (ip = IPv6loopback)
  end.

(** ** Networks *)

(** The loop of [CIDRMask] over [l] bytes. *)
Fixpoint mask_bytes (l : nat) (n : Z) : list Z :=
  match l with
  | O => []
  | S l => if 8 <=? n then 255 :: mask_bytes l (n - 8) else (255 - Z.shiftr 255 n) :: mask_bytes l 0
  end.

Definition CIDRMask (ones : Z) (bytes : nat) : list Z := mask_bytes bytes ones.

Definition mask_ip (ip mask : list Z) : list Z := zip_with Z.land ip mask.

(** [dtoi]: a decimal number below 0xFFFFFF that is the whole string. *)
Fixpoint dtoi_go (s : gostring) (n : Z) : option Z :=
  match s with
  | [] => Some n
  | c :: s =>
    if Strconv.is_digit c then
      let n := n * 10 + (bz c - 48) in
      if 0xFFFFFF <=? n then None else dtoi_go s n
    else None
  end.

Definition dtoi (s : gostring) : option Z := if bool_decide (s = []) then None else dtoi_go s 0.

(** [ParseCIDR]; the callers use the network only. *)
Definition ParseCIDR (s : gostring) : option IPNet :=
  let '(addr, mask, found) := Strings.Cut s "/"%byte in
  if negb found then None
  else
    match ParseAddr addr, dtoi mask with
    | Some a, Some n =>
      if 8 * zlen a <? n then None
      else
        let m := CIDRMask n (length a) in
        Some (mkIPNet (mask_ip a m) m)
    | _, _ => None
    end.

Definition networkNumberAndMask (n : IPNet) : option (list Z * list Z) :=
  let ip := match To4 (net_IP n) with Some ip => ip | None => net_IP n end in
  if (length ip =? 4)%nat then
    if (length (Mask n) =? 4)%nat then Some (ip, Mask n)
    else if (length (Mask n) =? 16)%nat then Some (ip, drop 12 (Mask n)) else None
  else if (length ip =? 16)%nat && (length (Mask n) =? 16)%nat then Some (ip, Mask n) else None.

Definition IPNet_Contains (n : IPNet) (ip : IP) : bool :=
  let '(nn, m) := default ([], []) (networkNumberAndMask n) in
  let ip := default ip (To4 ip) in
  (length ip =? length nn)%nat && bool_decide (mask_ip nn m = mask_ip ip m).

(** ** Printing *)

Fixpoint join_dots (l : list gostring) : gostring :=
  match l with
  | [] => []
  | [x] => x
  | x :: l => x ++ "."%byte :: join_dots l
  end.

Definition print_v4 (a : list Z) : gostring := join_dots (Strconv.dec <$> a).

Definition hex_digit (n : Z) : byte := zb (if n <? 10 then 48 + n else 87 + n).

(** [appendHex] *)
Definition print_group (g : Z) : gostring :=
  (if 0x1000 <=? g then [hex_digit (g / 4096)] else [])
  ++ (if 0x100 <=? g then [hex_digit (g / 256 mod 16)] else [])
  ++ (if 0x10 <=? g then [hex_digit (g / 16 mod 16)] else [])
  ++ [hex_digit (g mod 16)].

Fixpoint groups (a : list Z) : list Z :=
  match a with
  | hi :: lo :: a => (hi * 256 + lo) :: groups a
  | _ => []
  end.

(** The length of the run of zero groups at the start. *)
Fixpoint zero_run (l : list Z) : nat :=
  match l with
  | 0 :: l => S (zero_run l)
  | _ => O
  end.

(** The first of the longest runs of at least two zero groups: its start and
    its end, both 255 when there is none. *)
Fixpoint longest_run (l : list Z) (i : nat) (best : nat * nat) : nat * nat :=
  match l with
  | [] => best
  | _ :: l' =>
    let r := zero_run l in
    longest_run l' (S i) (if (2 <=? r)%nat && (snd best - fst best <? r)%nat then (i, i + r)%nat else best)
  end.

Fixpoint join_colons (l : list Z) : gostring :=
  match l with
  | [] => []
  | [x] => print_group x
  | x :: l => print_group x ++ ":"%byte :: join_colons l
  end.

Definition print_v6 (a : list Z) : gostring :=
  let l := groups a in
  let '(zs, ze) := longest_run l 0 (255, 255)%nat in
  if (zs =? 255)%nat then join_colons l
  else join_colons (take zs l) ++ lit "::" ++ join_colons (drop ze l).

(** [IP.String] for an address of 4 or 16 bytes. *)
Definition IP_String (ip : IP) : gostring :=
  match To4 ip with
  | Some a => print_v4 a
  | None => print_v6 ip
  end.

(** [IPNet.String] for the networks of [ParseCIDR], whose mask is a prefix. *)
Definition mask_length (m : list Z) : Z :=
  foldr (fun b n => zlen (List.filter (fun i => Z.testbit b i) [0; 1; 2; 3; 4; 5; 6; 7]) + n) 0 m.

Definition IPNet_String (n : IPNet) : gostring :=
  match networkNumberAndMask n with
  | None => lit "<nil>"
  | Some (nn, m) => IP_String nn ++ "/"%byte :: Strconv.dec (mask_length m)
  end.

(** ** [SplitHostPort]; the callers use the host only *)

Definition has (c : byte) (s : gostring) : bool := bool_decide (c ∈ s).

(** The text before and after the last [c]. *)
Definition cut_last (s : gostring) (c : byte) : option (gostring * gostring) :=
  let '(after, before, found) := Strings.Cut (rev s) c in
  if found then Some (rev before, rev after) else None.

Definition SplitHostPort (hostport : gostring) : option gostring :=
  match cut_last hostport ":"%byte with
  | None => None
  | Some (before, port) =>
    match hostport with
    | "["%byte :: inner =>
      let '(host, rest, found) := Strings.Cut inner "]"%byte in
      (* the first bracket must be right before the last colon *)
      if negb found || negb (bool_decide (rest = ":"%byte :: port)) then None
      else if has "["%byte inner || has "]"%byte rest then None
      else Some host
    | _ =>
      if has ":"%byte before || has "["%byte hostport || has "]"%byte hostport then None else Some before
    end
  end.
End Net.
