(* ===== verification/NetFacts.v ===== *)
(** * Facts on addresses

    Printing and parsing an address are inverse to each other; a network
    contains exactly the addresses that have its prefix. *)

From stdpp Require Import options.
From Stdlib Require Import Strings.Byte.
From S2P Require Import Prelude GoLib GoNet.

Import Net.

Definition octet (x : Z) : Prop := 0 <= x < 256.

(** An address as [ParseIP] returns it. *)
Definition address (ip : IP) : Prop := length ip = 16%nat /\ Forall octet ip.

(** ** Printing and parsing IPv4 *)

Ltac octet_cases x :=
  let H := fresh in
  match goal with
  | H' : octet x |- _ => pose proof H' as H
  end;
  let n := fresh "n" in
  assert (exists n : nat, (n < 256)%nat /\ x = Z.of_nat n) as (n & ? & ->)
    by (exists (Z.to_nat x); unfold octet in H; lia);
  clear H.

Lemma dec_octet x rest fields : octet x ->
  parseIPv4Fields (Strconv.dec x ++ rest) 0 0 fields = parseIPv4Fields rest x (length (Strconv.dec x)) fields
  /\ (length (Strconv.dec x) =? 0)%nat = false.
Proof.
  intros Hx. octet_cases x. do 256 (destruct n as [|n]; [done|]). lia.
Qed.

Lemma parse_dot x rest fields n : (n =? 0)%nat = false -> (length fields < 3)%nat ->
  parseIPv4Fields ("."%byte :: rest) x n fields = parseIPv4Fields rest 0 0 (x :: fields).
Proof.
  intros Hn Hf. simpl. rewrite Hn. simpl. by rewrite (proj2 (Nat.eqb_neq (length fields) 3)) by lia.
Qed.

Lemma parse_print_v4 a b c d : octet a -> octet b -> octet c -> octet d ->
  parseIPv4 (print_v4 [a; b; c; d]) = Some [a; b; c; d].
Proof.
  intros Ha Hb Hc Hd. unfold parseIPv4, print_v4. cbn [join_dots fmap list_fmap].
  assert (forall x, octet x -> (length (Strconv.dec x) =? 0)%nat = false) as Hn by (intros; by apply (dec_octet x [] [])).
  rewrite (proj1 (dec_octet a _ _ Ha)), parse_dot by (auto || simpl; lia).
  rewrite (proj1 (dec_octet b _ _ Hb)), parse_dot by (auto || simpl; lia).
  rewrite (proj1 (dec_octet c _ _ Hc)), parse_dot by (auto || simpl; lia).
  rewrite <- (app_nil_r (Strconv.dec d)), (proj1 (dec_octet d _ _ Hd)). simpl. by rewrite Hn.
Qed.

(** A printed octet has digits only. *)
Lemma dec_octet_digits x c : octet x -> c ∈ Strconv.dec x -> Strconv.is_digit c = true.
Proof.
  intros Hx. octet_cases x. intros Hc.
  assert (forallb Strconv.is_digit (Strconv.dec (Z.of_nat n)) = true) as Hall.
  { clear Hc. do 256 (destruct n as [|n]; [done|]). lia. }
  rewrite forallb_forall in Hall. apply Hall. by apply list_elem_of_In.
Qed.

Lemma find_app {A} (p : A -> bool) l k : (forall x, x ∈ l -> p x = false) -> List.find p (l ++ k) = List.find p k.
Proof.
  induction l as [|x l IH]; intros Hl; [done|]. simpl. rewrite (Hl x) by set_solver. apply IH. set_solver.
Qed.

Lemma not_percent_v4 a b c d : octet a -> octet b -> octet c -> octet d -> "%"%byte ∉ print_v4 [a; b; c; d].
Proof.
  intros Ha Hb Hc Hd. unfold print_v4. cbn [join_dots fmap list_fmap].
  assert (forall x, octet x -> "%"%byte ∉ Strconv.dec x) as Hn.
  { intros x Hx Hin. by apply dec_octet_digits in Hin. }
  specialize (Hn a Ha) as Na. specialize (Hn b Hb) as Nb. specialize (Hn c Hc) as Nc. specialize (Hn d Hd) as Nd.
  clear -Na Nb Nc Nd. rewrite !elem_of_app, !elem_of_cons, !elem_of_app, !elem_of_cons, !elem_of_app, !elem_of_cons.
  intuition discriminate.
Qed.

Lemma ParseAddr_v4 a b c d : octet a -> octet b -> octet c -> octet d ->
  ParseAddr (print_v4 [a; b; c; d]) = Some [a; b; c; d].
Proof.
  intros Ha Hb Hc Hd. unfold ParseAddr. rewrite bool_decide_false by by apply not_percent_v4.
  rewrite <- (parse_print_v4 a b c d) by done. unfold print_v4 at 1. cbn [join_dots fmap list_fmap].
  rewrite find_app; [done|]. intros x Hx%dec_octet_digits; [|done].
  apply orb_false_iff. split; apply bool_decide_eq_false; intros ->; discriminate.
Qed.

(** ** Printing and parsing IPv6 *)

Definition group (g : Z) : Prop := 0 <= g < 65536.

Lemma hex_digit_value d : 0 <= d < 16 -> hex_value (hex_digit d) = Some d.
Proof.
  intros Hd. assert (exists n : nat, (n < 16)%nat /\ d = Z.of_nat n) as (n & ? & ->) by (exists (Z.to_nat d); lia).
  do 16 (destruct n as [|n]; [done|]). lia.
Qed.

(** The text after a group. *)
Definition group_end (s : gostring) : Prop := head s ≫= hex_value = None.

Lemma hex_group_end s acc off : group_end s -> hex_group s acc off = Some (acc, off, s).
Proof. destruct s as [|c s]; [done|]. unfold group_end. simpl. by intros ->. Qed.

Lemma hex_group_digit d s acc off : 0 <= d < 16 -> (off <= 3)%nat ->
  hex_group (hex_digit d :: s) acc off = hex_group s (acc * 16 + d) (S off).
Proof.
  intros Hd Ho. cbn [hex_group]. rewrite hex_digit_value by done.
  by rewrite (proj2 (Nat.ltb_ge 3 off)) by lia.
Qed.

Lemma hex_group_print g s : group g -> group_end s ->
  exists n, hex_group (print_group g ++ s) 0 0 = Some (g, S n, s).
Proof.
  intros Hg Hs. unfold group in Hg. unfold print_group.
  assert (0 <= g / 4096 < 16) by (split; [apply Z.div_pos; lia|apply Z.div_lt_upper_bound; lia]).
  pose proof (Z.mod_pos_bound (g / 256) 16). pose proof (Z.mod_pos_bound (g / 16) 16).
  pose proof (Z.mod_pos_bound g 16).
  assert (g = (((g / 4096) * 16 + g / 256 mod 16) * 16 + g / 16 mod 16) * 16 + g mod 16) as E.
  { pose proof (Z.div_mod g 16). pose proof (Z.div_mod (g / 16) 16). pose proof (Z.div_mod (g / 256) 16).
    rewrite !Z.div_div in * by lia. change (16 * 16) with 256 in *. change (256 * 16) with 4096 in *. lia. }
  destruct (Z.leb_spec 0x1000 g), (Z.leb_spec 0x100 g), (Z.leb_spec 0x10 g); try lia; cbn [app].
  - exists 3%nat. rewrite !hex_group_digit by lia. rewrite hex_group_end by done. rewrite Z.mul_0_l, Z.add_0_l, <- E. done.
  - exists 2%nat. rewrite !hex_group_digit by lia. rewrite hex_group_end by done. do 3 f_equal.
    rewrite E at 4. rewrite (Z.div_small g 4096) by lia. lia.
  - exists 1%nat. rewrite !hex_group_digit by lia. rewrite hex_group_end by done. do 3 f_equal.
    rewrite E at 3. rewrite (Z.div_small g 4096), (Z.div_small g 256) by lia. rewrite Z.mod_0_l by lia. lia.
  - exists 0%nat. rewrite !hex_group_digit by lia. rewrite hex_group_end by done. do 3 f_equal.
    rewrite Z.mod_small by lia. lia.
Qed.

Definition bytes_of (l : list Z) : list Z := concat ((fun g => [g / 256; g mod 256]) <$> l).

Lemma bytes_of_app l k : bytes_of (l ++ k) = bytes_of l ++ bytes_of k.
Proof. unfold bytes_of. by rewrite fmap_app, concat_app. Qed.

Lemma bytes_of_length l : length (bytes_of l) = (2 * length l)%nat.
Proof.
  induction l as [|g l IH]; [done|].
  change (bytes_of (g :: l)) with ([g / 256; g mod 256] ++ bytes_of l). simpl. rewrite IH. lia.
Qed.

Lemma bytes_of_zeros n : bytes_of (replicate n 0) = replicate (2 * n) 0.
Proof.
  induction n as [|n IH]; [done|]. change (bytes_of (replicate (S n) 0)) with ([0; 0] ++ bytes_of (replicate n 0)).
  rewrite IH. by replace (2 * S n)%nat with (S (S (2 * n))) by lia.
Qed.

Lemma print_group_head g : group g -> exists c s, print_group g = c :: s /\ is_Some (hex_value c).
Proof.
  intros Hg. unfold group in Hg. unfold print_group.
  assert (0 <= g / 4096 < 16) by (split; [apply Z.div_pos; lia|apply Z.div_lt_upper_bound; lia]).
  pose proof (Z.mod_pos_bound (g / 256) 16). pose proof (Z.mod_pos_bound (g / 16) 16).
  pose proof (Z.mod_pos_bound g 16).
  destruct (0x1000 <=? g), (0x100 <=? g), (0x10 <=? g); simpl; eexists _, _; (split; [done|]);
    rewrite hex_digit_value by lia; eauto.
Qed.

Lemma join_colons_head l : Forall group l -> l <> [] -> exists c s, join_colons l = c :: s /\ is_Some (hex_value c).
Proof.
  intros Hl Hne. destruct Hl as [|g l Hg Hl]; [done|]. destruct (print_group_head g Hg) as (c & s & E & Hc).
  destruct l as [|g' l]; simpl; rewrite E; eexists _, _; eauto.
Qed.

Lemma join_colons_cons g l : l <> [] -> join_colons (g :: l) = print_group g ++ ":"%byte :: join_colons l.
Proof. by destruct l. Qed.

Lemma parse_groups fuel l ip e : Forall group l -> l <> [] -> (length l <= fuel)%nat ->
  parseIPv6_go fuel (join_colons l) ip e = Some (ip ++ bytes_of l, e).
Proof.
  revert l ip. induction fuel as [|fuel IH]; intros l ip Hl Hne Hlen; [destruct l; simpl in *; [done|lia]|].
  destruct Hl as [|g l Hg Hl]; [done|]. destruct (decide (l = [])) as [->|Hl0].
  - destruct (hex_group_print g [] Hg eq_refl) as [n E]. rewrite app_nil_r in E. cbn [parseIPv6_go join_colons].
    by rewrite E.
  - rewrite join_colons_cons by done. cbn [parseIPv6_go].
    destruct (hex_group_print g (":"%byte :: join_colons l) Hg eq_refl) as [n E]. rewrite E.
    destruct (join_colons_head l Hl Hl0) as (c & s & Ej & [d Hc]). rewrite Ej.
    rewrite (bool_decide_false (":"%byte = "."%byte)), (bool_decide_true (":"%byte = ":"%byte)) by done.
    rewrite (bool_decide_false (c = ":"%byte)) by (intros ->; discriminate Hc).
    rewrite <- Ej, IH by (done || simpl in *; lia).
    change (bytes_of (g :: l)) with ([g / 256; g mod 256] ++ bytes_of l). by rewrite <- (assoc_L app).
Qed.

Lemma parse_groups_ellipsis fuel l k ip : Forall group l -> Forall group k -> l <> [] ->
  (length l + length k <= fuel)%nat ->
  parseIPv6_go fuel (join_colons l ++ lit "::" ++ join_colons k) ip None
  = Some (ip ++ bytes_of l ++ bytes_of k, Some (length ip + 2 * length l)%nat).
Proof.
  revert l ip. induction fuel as [|fuel IH]; intros l ip Hl Hk Hne Hlen; [destruct l; simpl in *; [done|lia]|].
  destruct Hl as [|g l Hg Hl]; [done|]. destruct (decide (l = [])) as [->|Hl0].
  - cbn [parseIPv6_go join_colons].
    destruct (hex_group_print g (lit "::" ++ join_colons k) Hg eq_refl) as [n E]. rewrite E. cbn [lit].
    change (lit "::" ++ join_colons k) with (":"%byte :: ":"%byte :: join_colons k). cbn.
    rewrite length_app. simpl. destruct (decide (k = [])) as [->|Hk0]; [done|].
    destruct (join_colons_head k Hk Hk0) as (c & s & Ej & [d Hc]).
    rewrite bool_decide_false by (by rewrite Ej). rewrite parse_groups by (done || simpl in *; lia).
    by rewrite <- (assoc_L app).
  - rewrite join_colons_cons by done. cbn [parseIPv6_go].
    rewrite <- (assoc_L app), <- app_comm_cons.
    destruct (hex_group_print g (":"%byte :: join_colons l ++ lit "::" ++ join_colons k) Hg eq_refl) as [n E].
    rewrite E. destruct (join_colons_head l Hl Hl0) as (c & s & Ej & [d Hc]). rewrite Ej, <- app_comm_cons.
    rewrite (bool_decide_false (":"%byte = "."%byte)), (bool_decide_true (":"%byte = ":"%byte)) by done.
    rewrite (bool_decide_false (c = ":"%byte)) by (intros ->; discriminate Hc).
    rewrite app_comm_cons, <- Ej, IH by (done || simpl in *; lia). rewrite length_app.
    change (bytes_of (g :: l)) with ([g / 256; g mod 256] ++ bytes_of l). rewrite <- !(assoc_L app).
    do 2 f_equal. simpl. f_equal. lia.
Qed.

(** *** The longest run of zeros *)

Lemma zero_run_spec l : (zero_run l <= length l)%nat /\ take (zero_run l) l = replicate (zero_run l) 0.
Proof.
  induction l as [|x l [IH1 IH2]]; [done|]. simpl. destruct x; simpl; [|split; [lia|done]..].
  split; [lia|]. by rewrite IH2.
Qed.

Lemma longest_run_spec l i best : longest_run l i best = best
  \/ exists k n, longest_run l i best = (i + k, i + k + n)%nat /\ (2 <= n)%nat /\ (k + n <= length l)%nat
       /\ take n (drop k l) = replicate n 0.
Proof.
  revert i best. induction l as [|x l IH]; intros i best; [by left|]. cbn [longest_run].
  set (r := zero_run (x :: l)). set (b := (2 <=? r)%nat && (snd best - fst best <? r)%nat).
  destruct (IH (S i) (if b then (i, i + r)%nat else best)) as [->|(k & n & -> & Hn & Hk & E)].
  - destruct b eqn:Eb; [|by left]. right. exists 0%nat, r.
    apply andb_true_iff in Eb as [Hr%Nat.leb_le _]. destruct (zero_run_spec (x :: l)) as [H1 H2]. fold r in H1, H2.
    split_and!; [f_equal; lia|done|done|done].
  - right. exists (S k), n. split_and!; [f_equal; lia|done|simpl; lia|done].
Qed.

Lemma groups_bytes a : Forall octet a -> Nat.Even (length a) -> bytes_of (groups a) = a /\ Forall group (groups a).
Proof.
  intros Ha [n Hn]. revert a Ha Hn. induction n as [|n IH]; intros a Ha Hn.
  - destruct a; [done|simpl in Hn; lia].
  - destruct Ha as [|hi a Hhi Ha]; [simpl in Hn; lia|]. destruct Ha as [|lo a Hlo Ha]; [simpl in Hn; lia|].
    destruct (IH a Ha) as [E Hg]; [simpl in Hn; lia|]. unfold octet in Hhi, Hlo. cbn [groups].
    change (bytes_of ((hi * 256 + lo) :: groups a)) with
      ([(hi * 256 + lo) / 256; (hi * 256 + lo) mod 256] ++ bytes_of (groups a)).
    rewrite E, (Z.add_comm (hi * 256)), Z.div_add, Z_mod_plus_full, Z.div_small, Z.mod_small by lia.
    split; [done|]. constructor; [unfold group; lia|done].
Qed.

(** The groups around the run that is left out. *)
Lemma print_v6_cases l : Forall group l -> length l = 8%nat ->
  let r := longest_run l 0 (255, 255)%nat in
  r = (255, 255)%nat
  \/ exists l1 n l2, l = l1 ++ replicate n 0 ++ l2 /\ (2 <= n)%nat /\ (length l1 <=? 7)%nat = true
       /\ r = (length l1, length l1 + n)%nat /\ take (fst r) l = l1 /\ drop (snd r) l = l2.
Proof.
  intros Hl H8 r. destruct (longest_run_spec l 0 (255, 255)%nat) as [E|(k & n & E & Hn & Hk & Ez)]; [by left|].
  right. exists (take k l), n, (drop (k + n) l). fold r in E. simpl in E. rewrite E. simpl.
  assert (length (take k l) = k) as Ek by (rewrite length_take; lia). rewrite Ek.
  split_and!; [|done|apply Nat.leb_le; lia|done..].
  rewrite <- Ez, <- (drop_drop l n k), take_drop, take_drop. done.
Qed.

Lemma parse_print_v6 a : length a = 16%nat -> Forall octet a -> parseIPv6 (print_v6 a) = Some a.
Proof.
  intros Hlen Ha. destruct (groups_bytes a Ha) as [Eb Hg]; [rewrite Hlen; by exists 8%nat|].
  assert (length (groups a) = 8%nat) as H8 by (pose proof (bytes_of_length (groups a)) as E; rewrite Eb in E; lia).
  unfold print_v6. set (l := groups a) in *. rewrite <- Eb. clearbody l. clear Ha Hlen Eb a.
  destruct (print_v6_cases l Hg H8) as [E|(l1 & n & l2 & El & Hn & Hl1 & E & E1 & E2)].
  - rewrite E. simpl. destruct (join_colons_head l Hg) as (c & s & Ej & [d Hc]); [by intros ->|].
    assert (parseIPv6 (join_colons l) = parseIPv6_go 8 (join_colons l) [] None ≫= expand_ellipsis) as ->.
    { rewrite Ej. destruct s; [done|]. unfold parseIPv6.
      by rewrite (bool_decide_false (c = ":"%byte)) by (intros ->; discriminate Hc). }
    rewrite parse_groups by (done || (rewrite H8; lia) || (intros ->; done)). simpl.
    by rewrite bytes_of_length, H8.
  - assert (Forall group l1 /\ Forall group l2) as [Hg1 Hg2].
    { subst l. apply Forall_app in Hg as [? [_ ?]%Forall_app]. done. }
    rewrite E in *. simpl in E1, E2. rewrite E1, E2.
    assert (length l1 + n + length l2 = 8)%nat as Hsum
      by (rewrite El, !length_app, length_replicate in H8; lia).
    apply Nat.leb_le in Hl1. rewrite (proj2 (Nat.eqb_neq (length l1) 255)) by lia.
    rewrite El, !bytes_of_app, bytes_of_zeros.
    assert (forall ip, length ip = (2 * length l1)%nat ->
      expand_ellipsis (ip ++ bytes_of l2, Some (length ip)) = Some (ip ++ replicate (2 * n) 0 ++ bytes_of l2)) as Hexp.
    { intros ip Hip. unfold expand_ellipsis. rewrite length_app, bytes_of_length, Hip.
      rewrite (proj2 (Nat.ltb_lt _ 16)) by lia. rewrite <- Hip, take_app_length, drop_app_length. do 4 f_equal. lia. }
    destruct (decide (l1 = [])) as [->|Hne].
    + change (parseIPv6 (join_colons [] ++ lit "::" ++ join_colons l2)) with
        (if bool_decide (join_colons l2 = []) then Some (replicate 16 0)
         else parseIPv6_go 8 (join_colons l2) [] (Some 0%nat) ≫= expand_ellipsis).
      destruct (decide (l2 = [])) as [->|Hne2].
      { simpl. replace n with 8%nat by (simpl in Hsum; lia). done. }
      destruct (join_colons_head l2 Hg2 Hne2) as (c & s & Ej & _).
      rewrite bool_decide_false by (by rewrite Ej). rewrite parse_groups by (done || simpl in *; lia). simpl.
      apply (Hexp []). done.
    + destruct (join_colons_head l1 Hg1 Hne) as (c & s & Ej & [d Hc]).
      assert (forall s', parseIPv6 (join_colons l1 ++ s') = parseIPv6_go 8 (join_colons l1 ++ s') [] None ≫= expand_ellipsis) as ->.
      { intros s'. rewrite Ej, <- app_comm_cons. unfold parseIPv6. destruct (s ++ s'); [done|].
        by rewrite (bool_decide_false (c = ":"%byte)) by (intros ->; discriminate Hc). }
      rewrite parse_groups_ellipsis by (done || lia). cbn [app length Nat.add]. rewrite <- bytes_of_length.
      apply Hexp. by rewrite bytes_of_length.
Qed.

(** A printed address has hexadecimal digits and colons, and a colon. *)
Definition v6_byte (c : byte) : Prop := is_Some (hex_value c) \/ c = ":"%byte.

Lemma print_group_bytes g c : group g -> c ∈ print_group g -> v6_byte c.
Proof.
  intros Hg Hc. left. unfold group in Hg.
  assert (0 <= g / 4096 < 16) by (split; [apply Z.div_pos; lia|apply Z.div_lt_upper_bound; lia]).
  pose proof (Z.mod_pos_bound (g / 256) 16). pose proof (Z.mod_pos_bound (g / 16) 16).
  pose proof (Z.mod_pos_bound g 16).
  assert (exists d, 0 <= d < 16 /\ c = hex_digit d) as (d & Hd & ->); [|rewrite hex_digit_value by done; eauto].
  unfold print_group in Hc. rewrite !elem_of_app in Hc.
  assert (forall (b : bool) d, 0 <= d < 16 -> c ∈ (if b then [hex_digit d] else []) ->
    exists d, 0 <= d < 16 /\ c = hex_digit d) as Hif.
  { intros [|] d Hd Hin; [apply list_elem_of_singleton in Hin; eauto|by apply elem_of_nil in Hin]. }
  destruct Hc as [Hc|[Hc|[Hc|Hc]]]; [eapply Hif; [|exact Hc]; lia..|].
  apply list_elem_of_singleton in Hc. exists (g mod 16). split; [lia|done].
Qed.

Lemma join_colons_bytes l c : Forall group l -> c ∈ join_colons l -> v6_byte c.
Proof.
  induction 1 as [|g l Hg Hl IH]; intros Hc; [by apply elem_of_nil in Hc|].
  destruct (decide (l = [])) as [->|Hne]; [by apply (print_group_bytes g)|].
  rewrite join_colons_cons in Hc by done. apply elem_of_app in Hc as [Hc|[->|Hc]%elem_of_cons].
  - by apply (print_group_bytes g).
  - by right.
  - auto.
Qed.

Lemma print_v6_bytes a : length a = 16%nat -> Forall octet a ->
  (forall c, c ∈ print_v6 a -> v6_byte c) /\ ":"%byte ∈ print_v6 a.
Proof.
  intros Hlen Ha. destruct (groups_bytes a Ha) as [Eb Hg]; [rewrite Hlen; by exists 8%nat|].
  assert (length (groups a) = 8%nat) as H8 by (pose proof (bytes_of_length (groups a)) as E; rewrite Eb in E; lia).
  unfold print_v6. set (l := groups a) in *. clearbody l. destruct (longest_run l 0 _) as [zs ze].
  destruct (zs =? 255)%nat.
  - split; [intros c; by apply join_colons_bytes|]. destruct l as [|g l]; [done|].
    rewrite join_colons_cons by (intros ->; done). set_solver.
  - split; [|set_solver]. intros c. rewrite !elem_of_app. intros [Hc|[Hc|Hc]].
    + apply (join_colons_bytes (take zs l)); [|done]. by apply Forall_take.
    + right. by repeat (apply elem_of_cons in Hc as [->|Hc]; [done|]); apply elem_of_nil in Hc.
    + apply (join_colons_bytes (drop ze l)); [|done]. by apply Forall_drop.
Qed.

Lemma find_colon s : (forall c, c ∈ s -> v6_byte c) -> ":"%byte ∈ s ->
  List.find (fun c => bool_decide (c = "."%byte) || bool_decide (c = ":"%byte)) s = Some ":"%byte.
Proof.
  induction s as [|c s IH]; intros Hs Hin; [by apply elem_of_nil in Hin|]. simpl.
  destruct (decide (c = ":"%byte)) as [->|Hne]; [done|].
  rewrite (bool_decide_false (c = ":"%byte)), (bool_decide_false (c = "."%byte)).
  - apply IH; set_solver.
  - destruct (Hs c ltac:(set_solver)) as [[d Hd]| ->]; [intros ->; discriminate Hd|done].
  - done.
Qed.

Lemma ParseAddr_v6 a : length a = 16%nat -> Forall octet a -> ParseAddr (print_v6 a) = Some a.
Proof.
  intros Hlen Ha. destruct (print_v6_bytes a Hlen Ha) as [Hb Hc]. unfold ParseAddr.
  rewrite bool_decide_false by (intros Hp; destruct (Hb _ Hp) as [[d Hd]|]; discriminate).
  rewrite find_colon by done. simpl. by apply parse_print_v6.
Qed.

(** Parsing the printed form of an address gives it back. *)
Lemma ParseIP_String ip : address ip -> ParseIP (IP_String ip) = Some ip.
Proof.
  intros [Hlen Ha]. unfold ParseIP, IP_String, To4. rewrite (proj2 (Nat.eqb_neq _ 4)) by lia.
  rewrite Hlen. simpl. case_bool_decide as Hp.
  - destruct (drop 12 ip) as [|a [|b [|c [|d [|]]]]] eqn:E;
      try (apply (f_equal length) in E; rewrite length_drop, Hlen in E; done).
    assert (Forall octet (drop 12 ip)) as Ho by by apply Forall_drop. rewrite E in Ho.
    repeat apply Forall_cons_1 in Ho as [? Ho]. rewrite ParseAddr_v4 by done. simpl.
    change (Some (v4InV6Prefix ++ [a; b; c; d]) = Some ip). by rewrite <- Hp, <- E, take_drop.
  - rewrite ParseAddr_v6 by done. simpl. unfold As16. by rewrite (proj2 (Nat.eqb_neq _ 4)) by lia.
Qed.

Lemma IP_String_inj ip ip' : address ip -> address ip' -> IP_String ip = IP_String ip' -> ip = ip'.
Proof.
  intros Ha Ha' E. apply (f_equal ParseIP) in E. rewrite !ParseIP_String in E by done. congruence.
Qed.

(** ** Networks *)

(** The number that the bytes stand for, most significant first. *)
Fixpoint value (a : list Z) : Z :=
  match a with
  | [] => 0
  | x :: a => x * 2 ^ (8 * zlen a) + value a
  end.

(** The first [n] bits. *)
Definition prefix (n : Z) (a : list Z) : Z := value a / 2 ^ (8 * zlen a - n).

Lemma value_bounds a : Forall octet a -> 0 <= value a < 2 ^ (8 * zlen a).
Proof.
  induction 1 as [|x a Hx Ha IH]; [done|]. simpl. rewrite zlen_cons.
  replace (8 * (1 + zlen a)) with (8 + 8 * zlen a) by lia. rewrite Z.pow_add_r by (pose proof (zlen_nonneg a); lia).
  unfold octet in Hx. change (2 ^ 8) with 256. nia.
Qed.

(** The masks of a byte. *)
Lemma mask_byte x n : octet x -> 0 <= n < 8 -> Z.land x (255 - Z.shiftr 255 n) = x / 2 ^ (8 - n) * 2 ^ (8 - n).
Proof.
  intros Hx Hn. assert (n = 0 \/ n = 1 \/ n = 2 \/ n = 3 \/ n = 4 \/ n = 5 \/ n = 6 \/ n = 7) as Hc by lia.
  assert (forall k, 0 <= k <= 8 -> Z.land x (Z.shiftl (Z.ones (8 - k)) k) = x / 2 ^ k * 2 ^ k) as Hland.
  { intros k Hk. rewrite <- Z.shiftl_mul_pow2, <- Z.shiftr_div_pow2 by lia. apply Z.bits_inj'. intros i Hi.
    rewrite Z.land_spec, !Z.shiftl_spec by lia. destruct (Z.lt_ge_cases i k) as [Hlt|Hge].
    - rewrite !(Z.testbit_neg_r _ (i - k)) by lia. by rewrite andb_false_r.
    - rewrite Z.shiftr_spec by lia. replace (i - k + k) with i by lia.
      destruct (Z.lt_ge_cases i 8) as [H8|H8].
      + rewrite Z.ones_spec_low by lia. by rewrite andb_true_r.
      + rewrite Z.ones_spec_high by lia. rewrite andb_false_r. symmetry. unfold octet in Hx.
        destruct (Z.eq_dec x 0) as [->|Hx0]; [apply Z.testbit_0_l|]. apply Z.bits_above_log2; [lia|].
        apply Z.log2_lt_pow2; [lia|]. assert (2 ^ 8 <= 2 ^ i) by (apply Z.pow_le_mono_r; lia). lia. }
  rewrite <- (Hland (8 - n)) by lia. f_equal. by destruct Hc as [->|[->|[->|[->|[->|[->|[->| ->]]]]]]].
Qed.

Lemma mask_nothing l a : length a = l -> mask_ip a (mask_bytes l 0) = replicate l 0.
Proof.
  revert a. induction l as [|l IH]; intros [|x a] Hl; simplify_eq/=; [done|].
  unfold mask_ip in *. rewrite IH by done. by rewrite Z.land_0_r.
Qed.

Lemma prefix_cons_high n x a : octet x -> Forall octet a -> 8 <= n <= 8 * zlen (x :: a) ->
  prefix n (x :: a) = x * 2 ^ (n - 8) + prefix (n - 8) a /\ 0 <= prefix (n - 8) a < 2 ^ (n - 8).
Proof.
  intros Hx Ha Hn. rewrite zlen_cons in Hn. unfold prefix. rewrite zlen_cons. simpl.
  set (k := 8 * (1 + zlen a) - n). replace (8 * zlen a - (n - 8)) with k by lia.
  replace (8 * zlen a) with ((n - 8) + k) by lia. rewrite Z.pow_add_r by lia.
  pose proof (value_bounds a Ha) as Hv. replace (8 * zlen a) with ((n - 8) + k) in Hv by lia.
  rewrite Z.pow_add_r in Hv by lia. assert (0 < 2 ^ k) by (apply Z.pow_pos_nonneg; lia). split.
  - rewrite Z.mul_assoc, Z.div_add_l by lia. done.
  - split; [apply Z.div_pos; lia|]. apply Z.div_lt_upper_bound; lia.
Qed.

Lemma prefix_cons_low n x a : octet x -> Forall octet a -> 0 <= n < 8 -> prefix n (x :: a) = x / 2 ^ (8 - n).
Proof.
  intros Hx Ha Hn. unfold prefix. rewrite zlen_cons. simpl.
  pose proof (value_bounds a Ha) as Hv. pose proof (zlen_nonneg a).
  replace (8 * (1 + zlen a) - n) with (8 * zlen a + (8 - n)) by lia. rewrite Z.pow_add_r by lia.
  assert (0 < 2 ^ (8 * zlen a)) by (apply Z.pow_pos_nonneg; lia).
  assert (0 < 2 ^ (8 - n)) by (apply Z.pow_pos_nonneg; lia).
  rewrite <- Z.div_div by lia. by rewrite Z.div_add_l, (Z.div_small (value a)), Z.add_0_r by lia.
Qed.

(** Masked addresses agree exactly when the prefixes do. *)
Lemma mask_prefix a b n : length a = length b -> Forall octet a -> Forall octet b -> 0 <= n <= 8 * zlen a ->
  mask_ip a (mask_bytes (length a) n) = mask_ip b (mask_bytes (length a) n) <-> prefix n a = prefix n b.
Proof.
  intros Hl Ha. revert b n Hl. induction Ha as [|x a Hx Ha IH]; intros [|y b] n Hl Hb Hn; simplify_eq/=; [done|].
  apply Forall_cons_1 in Hb as [Hy Hb]. destruct (Z.leb_spec 8 n) as [H8|H8]; unfold mask_ip in *; simpl.
  - assert (zlen b = zlen a) as Ez by (unfold zlen; congruence).
    rewrite zlen_cons in Hn.
    destruct (prefix_cons_high n x a) as [-> Hpa]; [done..|rewrite zlen_cons; lia|].
    destruct (prefix_cons_high n y b) as [-> Hpb]; [done..|rewrite zlen_cons; lia|].
    assert (forall z, octet z -> Z.land z 255 = z) as Hff.
    { intros z Hz. change 255 with (Z.ones 8). rewrite Z.land_ones by lia. apply Z.mod_small, Hz. }
    rewrite !Hff by done. specialize (IH b (n - 8) Hl Hb). split.
    + intros [= <- E]. f_equal. apply IH; [lia|done].
    + intros E. assert (x = y /\ prefix (n - 8) a = prefix (n - 8) b) as [-> E']
        by (apply (Z.div_mod_unique (2 ^ (n - 8))); lia).
      f_equal. apply IH; [lia|done].
  - rewrite !mask_byte by (done || lia). rewrite !prefix_cons_low by (done || lia).
    assert (0 < 2 ^ (8 - n)) by (apply Z.pow_pos_nonneg; lia).
    pose proof (mask_nothing (length a) a eq_refl) as E1. pose proof (mask_nothing (length a) b ltac:(done)) as E2.
    unfold mask_ip in *. rewrite E1, E2. split; [intros [= E]; nia|by intros ->].
Qed.

(** ** What the parser returns *)

Lemma parseIPv4Fields_octets s val digLen fields r : octet val -> Forall octet fields ->
  parseIPv4Fields s val digLen fields = Some r -> length r = 4%nat /\ Forall octet r.
Proof.
  revert val digLen fields. induction s as [|c s IH]; intros val digLen fields Hv Hf E; simpl in E.
  - case_bool_decide as Hl; [|done]. destruct (digLen =? 0)%nat; simplify_eq/=.
    rewrite length_app, length_rev, Hl. split; [done|]. apply Forall_app. split; [by apply Forall_rev|constructor; [done|constructor]].
  - destruct (Strconv.is_digit c) eqn:Ed.
    + destruct (_ && _); [done|]. destruct (Z.ltb_spec 255 (val * 10 + (bz c - 48))); [done|].
      eapply IH; [| |exact E]; [|done]. unfold Strconv.is_digit in Ed. unfold octet in *. lia.
    + case_bool_decide; [|done]. destruct (_ || _); [done|].
      eapply IH; [| |exact E]; [unfold octet; lia|by constructor].
Qed.

Lemma hex_value_range c d : hex_value c = Some d -> 0 <= d < 16.
Proof. unfold hex_value. repeat case_match; intros [= <-]; lia. Qed.

Lemma hex_group_range s acc off acc' off' rest : 0 <= acc < 16 ^ Z.of_nat off -> (off <= 4)%nat ->
  hex_group s acc off = Some (acc', off', rest) -> group acc'.
Proof.
  assert (forall off acc, 0 <= acc < 16 ^ Z.of_nat off -> (off <= 4)%nat -> group acc) as Hg.
  { intros o a Ha Ho. unfold group. assert (16 ^ Z.of_nat o <= 16 ^ 4) by (apply Z.pow_le_mono_r; lia). lia. }
  revert acc off. induction s as [|c s IH]; intros acc off Ha Ho E; simpl in E; [simplify_eq; eauto|].
  destruct (hex_value c) as [d|] eqn:Ed; [|simplify_eq; eauto]. apply hex_value_range in Ed.
  destruct (Nat.ltb_spec 3 off); [done|]. eapply IH; [| |exact E]; [|lia].
  rewrite Nat2Z.inj_succ, Z.pow_succ_r by lia. lia.
Qed.

Lemma group_octets g : group g -> Forall octet [g / 256; g mod 256].
Proof.
  unfold group. intros Hg. pose proof (Z.mod_pos_bound g 256).
  assert (0 <= g / 256 < 256) by (split; [apply Z.div_pos; lia|apply Z.div_lt_upper_bound; lia]).
  repeat constructor; lia.
Qed.

Lemma parseIPv6_go_octets fuel s ip e r : Forall octet ip -> parseIPv6_go fuel s ip e = Some r -> Forall octet (fst r).
Proof.
  revert s ip e. induction fuel as [|fuel IH]; intros s ip e Hip E; cbn [parseIPv6_go] in E.
  - case_bool_decide; by simplify_eq/=.
  - destruct (hex_group s 0 0) as [[[acc [|n]] rest]|] eqn:Eh; [done| |done].
    apply hex_group_range in Eh; [|simpl; lia|lia].
    assert (Forall octet (ip ++ [acc / 256; acc mod 256])) as Hip' by (apply Forall_app; split; [done|by apply group_octets]).
    destruct rest as [|c rest]; [by simplify_eq/=|].
    destruct (bool_decide (c = "."%byte)).
    + destruct (bool_decide _ && _); [done|]. destruct (_ <? _)%nat; [done|].
      destruct (parseIPv4 s) as [v4|] eqn:E4; simplify_eq/=. apply Forall_app. split; [done|].
      apply parseIPv4Fields_octets in E4 as [_ E4]; [done|unfold octet; lia|constructor].
    + destruct (bool_decide (c = ":"%byte)); [|done]. destruct rest as [|c' rest]; [done|].
      destruct (bool_decide (c' = ":"%byte)); [|eauto].
      destruct e; [done|]. case_bool_decide; [by simplify_eq/=|eauto].
Qed.

Lemma expand_ellipsis_address r a : Forall octet (fst r) -> expand_ellipsis r = Some a -> address a.
Proof.
  destruct r as [ip [e|]]; simpl; intros Hip.
  - destruct (Nat.ltb_spec (length ip) 16); [|done]. intros [= <-]. split.
    + rewrite !length_app, length_replicate, length_take, length_drop. lia.
    + rewrite !Forall_app. split_and!; [by apply Forall_take|apply Forall_replicate; unfold octet; lia|by apply Forall_drop].
  - destruct (Nat.eqb_spec (length ip) 16); [|done]. by intros [= <-].
Qed.

Lemma parseIPv6_address s a : parseIPv6 s = Some a -> address a.
Proof.
  assert (forall s e, parseIPv6_go 8 s [] e ≫= expand_ellipsis = Some a -> address a) as Hgo.
  { intros s' e (r & Hr & He)%bind_Some. eapply expand_ellipsis_address, He.
    eapply parseIPv6_go_octets, Hr. constructor. }
  unfold parseIPv6. destruct s as [|c1 [|c2 rest]]; [apply Hgo..|].
  destruct (_ && _); [|apply Hgo]. destruct (bool_decide _); [|apply Hgo].
  intros [= <-]. split; [done|]. apply (Forall_replicate _ 16). unfold octet. lia.
Qed.

(** The address of a text has 4 or 16 bytes. *)
Lemma ParseAddr_octets s a : ParseAddr s = Some a -> Forall octet a /\ (length a = 4%nat \/ length a = 16%nat).
Proof.
  unfold ParseAddr. destruct (bool_decide _); [done|]. destruct (List.find _ s) as [c|]; [|done].
  destruct (bool_decide _).
  - intros [? ?]%parseIPv4Fields_octets; [eauto|unfold octet; lia|constructor].
  - intros [? ?]%parseIPv6_address. eauto.
Qed.

Lemma ParseIP_address s ip : ParseIP s = Some ip -> address ip.
Proof.
  unfold ParseIP. intros (a & Ha & ->)%fmap_Some. apply ParseAddr_octets in Ha as [Ho [Hl|Hl]]; unfold As16; rewrite Hl.
  - change (address (v4InV6Prefix ++ a)). split; [rewrite length_app, Hl; done|]. apply Forall_app. split; [|done].
    unfold v4InV6Prefix. repeat (constructor; [unfold octet; lia|]). constructor.
  - by split.
Qed.

#[export] Hint Resolve ParseIP_address : net.

(** ** Networks of a text *)

Lemma mask_ip_idemp a m : mask_ip (mask_ip a m) m = mask_ip a m.
Proof.
  unfold mask_ip. revert m. induction a as [|x a IH]; intros [|y m]; simpl; [done..|].
  by rewrite IH, <- Z.land_assoc, Z.land_diag.
Qed.

Lemma mask_ip_length a n : length (mask_ip a (mask_bytes (length a) n)) = length a.
Proof.
  unfold mask_ip. assert (forall l n, length (mask_bytes l n) = l) as Hm.
  { clear. induction l as [|l IH]; intros n; simpl; [done|]. destruct (8 <=? n); simpl; by rewrite IH. }
  rewrite length_zip_with, Hm. lia.
Qed.

Lemma mask_bytes_length l n : length (mask_bytes l n) = l.
Proof. revert n. induction l as [|l IH]; intros n; simpl; [done|]. destruct (8 <=? n); simpl; by rewrite IH. Qed.

Lemma dtoi_nonneg s n : dtoi s = Some n -> 0 <= n.
Proof.
  unfold dtoi. destruct (bool_decide _); [done|].
  assert (forall s n0, 0 <= n0 -> dtoi_go s n0 = Some n -> 0 <= n) as Hgo; [|by apply Hgo].
  clear. induction s as [|c s IH]; intros n0 H0 E; simpl in E; [by simplify_eq|].
  destruct (Strconv.is_digit c) eqn:Ed; [|done]. destruct (_ <=? _); [done|].
  eapply IH, E. unfold Strconv.is_digit in Ed. lia.
Qed.

Lemma To4_length ip ip4 : address ip -> To4 ip = Some ip4 -> length ip4 = 4%nat /\ Forall octet ip4.
Proof.
  intros [Hip Ho]. unfold To4. rewrite Hip. simpl. case_bool_decide; [|done]. intros [= <-].
  split; [rewrite length_drop; lia|by apply Forall_drop].
Qed.

(** The network of [a] and a mask of [n] bits. *)
Lemma masked_net a n l : length a = l -> Forall octet a -> 0 <= n <= 8 * Z.of_nat l ->
  let m := CIDRMask n l in
  length m = l /\ length (mask_ip a m) = l
  /\ forall b, length b = l -> Forall octet b -> mask_ip (mask_ip a m) m = mask_ip b m <-> prefix n b = prefix n a.
Proof.
  intros <- Ha Hn m. split_and!; [apply mask_bytes_length|apply mask_ip_length|].
  intros b Hb Ho. rewrite mask_ip_idemp. unfold m, CIDRMask. rewrite mask_prefix by (done || (unfold zlen; lia)). done.
Qed.

(** An IPv4 network contains the IPv4 addresses that have its prefix. *)
Lemma cidr_v4_contains a n ip : length a = 4%nat -> Forall octet a -> address ip -> 0 <= n <= 32 ->
  IPNet_Contains (mkIPNet (mask_ip a (CIDRMask n 4)) (CIDRMask n 4)) ip = true
  <-> exists ip4, To4 ip = Some ip4 /\ prefix n ip4 = prefix n a.
Proof.
  intros Hl Ha Hip Hn. unfold IPNet_Contains, networkNumberAndMask. cbn [net_IP Mask].
  destruct (masked_net a n 4 Hl Ha) as (Hm & Hlm & Hag); [lia|].
  set (m := CIDRMask n 4) in *. set (mi := mask_ip a m) in *. clearbody mi m.
  assert (To4 mi = Some mi) as -> by (unfold To4; by rewrite Hlm).
  rewrite Hlm, Hm. simpl. rewrite Hlm, andb_true_iff, bool_decide_eq_true.
  destruct (To4 ip) as [ip4|] eqn:E4; simpl.
  - destruct (To4_length ip ip4 Hip E4) as [Hl4 Ho4]. rewrite Hl4, Hag by done.
    split; [intros [_ E]; eauto|]. intros (? & [= <-] & ->). done.
  - destruct Hip as [-> _]. simpl. split; [by intros [? _]|]. by intros (? & ? & _).
Qed.

(** An IPv6 network contains the other addresses that have its prefix. *)
Lemma cidr_v6_contains a n ip : address a -> address ip -> 0 <= n <= 128 ->
  To4 (mask_ip a (CIDRMask n 16)) = None ->
  IPNet_Contains (mkIPNet (mask_ip a (CIDRMask n 16)) (CIDRMask n 16)) ip = true
  <-> To4 ip = None /\ prefix n ip = prefix n a.
Proof.
  intros [Hl Ha] Hip Hn E4a. unfold IPNet_Contains, networkNumberAndMask. cbn [net_IP Mask].
  destruct (masked_net a n 16 Hl Ha) as (Hm & Hlm & Hag); [lia|].
  set (m := CIDRMask n 16) in *. set (mi := mask_ip a m) in *. clearbody mi m.
  rewrite E4a, Hlm, Hm. simpl. rewrite Hlm, andb_true_iff, bool_decide_eq_true.
  destruct (To4 ip) as [ip4|] eqn:E4; simpl.
  - destruct (To4_length ip ip4 Hip E4) as [-> _]. split; [by intros [? _]|]. by intros [? _].
  - destruct Hip as [Hip Ho]. rewrite Hip, Hag by done. split; intros [? ?]; by split.
Qed.

(** ** Networks as prefixes *)

Inductive network := V4Net (a : list Z) (n : Z) | V6Net (a : list Z) (n : Z).

(** The networks that a text can name; one of IPv6 is not within the addresses
    that stand for IPv4. *)
Definition network_ok (net : network) : Prop :=
  match net with
  | V4Net a n => length a = 4%nat /\ Forall octet a /\ 0 <= n <= 32
  | V6Net a n => address a /\ 0 <= n <= 128 /\ To4 (mask_ip a (CIDRMask n 16)) = None
  end.

Definition print_network (net : network) : gostring :=
  match net with
  | V4Net a n => print_v4 a ++ "/"%byte :: Strconv.dec n
  | V6Net a n => print_v6 a ++ "/"%byte :: Strconv.dec n
  end.

(** The address has the prefix of the network. *)
Definition in_network (ip : IP) (net : network) : bool :=
  match net, To4 ip with
  | V4Net a n, Some ip4 => prefix n ip4 =? prefix n a
  | V6Net a n, None => prefix n ip =? prefix n a
  | _, _ => false
  end.

(** The bytes of printed addresses and networks. *)
Definition net_byte (c : byte) : Prop := v6_byte c \/ c = "."%byte.

Lemma print_v4_bytes a c : length a = 4%nat -> Forall octet a -> c ∈ print_v4 a -> net_byte c.
Proof.
  intros Hl Ha Hc. destruct a as [|w [|x [|y [|z [|]]]]]; try discriminate Hl.
  repeat apply Forall_cons_1 in Ha as [? Ha]. unfold print_v4 in Hc. cbn [join_dots fmap list_fmap] in Hc.
  assert (forall x, octet x -> c ∈ Strconv.dec x -> net_byte c) as Hd.
  { intros x' Hx Hin. apply dec_octet_digits in Hin; [|done]. left. left. unfold hex_value.
    unfold Strconv.is_digit in Hin. rewrite Hin. eauto. }
  rewrite !elem_of_app, !elem_of_cons, !elem_of_app, !elem_of_cons, !elem_of_app, !elem_of_cons in Hc.
  destruct Hc as [Hc|[Hc|[Hc|[Hc|[Hc|[Hc|Hc]]]]]]; eauto; by right.
Qed.

Lemma dtoi_dec n : 0 <= n <= 128 -> dtoi (Strconv.dec n) = Some n.
Proof.
  intros Hn. assert (exists k : nat, (k < 129)%nat /\ n = Z.of_nat k) as (k & ? & ->) by (exists (Z.to_nat n); lia).
  do 129 (destruct k as [|k]; [done|]). lia.
Qed.

Lemma network_address net : network_ok net ->
  exists addr a n, print_network net = addr ++ "/"%byte :: Strconv.dec n /\ ParseAddr addr = Some a
    /\ (forall c, c ∈ addr -> net_byte c) /\ 0 <= n <= 8 * zlen a /\ zlen a <= 16
    /\ forall ip, address ip ->
         IPNet_Contains (mkIPNet (mask_ip a (CIDRMask n (length a))) (CIDRMask n (length a))) ip = in_network ip net.
Proof.
  destruct net as [a n|a n]; cbn [network_ok print_network in_network].
  - intros (Hl & Ha & Hn). exists (print_v4 a), a, n. split_and!; [done| | | | |unfold zlen; lia..|].
    + destruct a as [|w [|x [|y [|z [|]]]]]; try discriminate Hl.
      repeat apply Forall_cons_1 in Ha as [? Ha]. by apply ParseAddr_v4.
    + intros c. by apply print_v4_bytes.
    + unfold zlen. lia.
    + unfold zlen. lia.
    + intros ip Hip. rewrite Hl. apply eq_true_iff_eq. rewrite cidr_v4_contains by done.
      destruct (To4 ip) as [ip4|]; [rewrite Z.eqb_eq|]; split; [by intros (? & [= <-] & ?)|eauto|by intros (? & ? & ?)|done].
  - intros ([Hl Ha] & Hn & H4). exists (print_v6 a), a, n. split_and!; [done| | | | |unfold zlen; lia..|].
    + by apply ParseAddr_v6.
    + intros c Hc. left. by apply (print_v6_bytes a Hl Ha).
    + unfold zlen. lia.
    + unfold zlen. lia.
    + intros ip Hip. rewrite Hl. apply eq_true_iff_eq. rewrite cidr_v6_contains by done.
      destruct (To4 ip) as [ip4|]; [|rewrite Z.eqb_eq]; split; [by intros [? _]|done|by intros [_ ?]|done].
Qed.

(** Parsing a printed network gives one that contains the addresses with its prefix. *)
Lemma ParseCIDR_print net : network_ok net ->
  exists N, ParseCIDR (print_network net) = Some N /\ forall ip, address ip -> IPNet_Contains N ip = in_network ip net.
Proof.
  intros (addr & a & n & -> & Ea & Hb & Hn & Hl & Hc)%network_address. unfold ParseCIDR.
  rewrite Strings.Cut_app by (intros [[[d Hd]|]|]%Hb; discriminate). simpl. rewrite Ea, dtoi_dec by lia.
  rewrite (proj2 (Z.ltb_ge _ _)) by lia. eauto.
Qed.
