(* ===== verification/GoTime.v ===== *)
(** * Go time values (package time)

    The calendar fields of an instant, as far as the engine reads them: the
    Unix time, the date, the weekday and the clock in the local zone. *)

From stdpp Require Import options.
From Stdlib Require Import Strings.Byte.
From S2P Require Import Prelude GoLib.

(** The local time zone: its offset from UTC in seconds at an instant. *)
Class LocalZone := zone_offset : Z -> Z.

Section time.
Context `{LocalZone}.

(** [time.Unix(0, ns).Unix()] *)
Definition time_Unix (ns : Z) : Z := ns / 1000000000.

Definition local_seconds (ns : Z) : Z := time_Unix ns + zone_offset (time_Unix ns).

Definition local_days (ns : Z) : Z := local_seconds ns / 86400.

Definition hour (ns : Z) : Z := local_seconds ns mod 86400 / 3600.
Definition minute (ns : Z) : Z := local_seconds ns mod 3600 / 60.
Definition second (ns : Z) : Z := local_seconds ns mod 60.

Definition Weekday (ns : Z) : Z := (local_days ns + 4) mod 7.

(** Year, month and day of a number of days since 1970-01-01 in the
    proleptic Gregorian calendar; years begin in March inside. *)
Definition civil (days : Z) : Z * Z * Z :=
  let z := days + 719468 in
  let era := z / 146097 in
  let doe := z mod 146097 in
  let yoe := (doe - doe / 1460 + doe / 36524 - doe / 146096) / 365 in
  let doy := doe - (365 * yoe + yoe / 4 - yoe / 100) in
  let mp := (5 * doy + 2) / 153 in
  let d := doy - (153 * mp + 2) / 5 + 1 in
  let m := if mp <? 10 then mp + 3 else mp - 9 in
  ((yoe + era * 400) + (if m <=? 2 then 1 else 0), m, d).

Definition Date (ns : Z) : Z * Z * Z := civil (local_days ns).

Definition pad2 (n : Z) : gostring := [zb (48 + n / 10); zb (48 + n mod 10)].

(** [Format(time.TimeOnly)], that is "15:04:05" *)
Definition TimeOnly (ns : Z) : gostring :=
  pad2 (hour ns) ++ lit ":" ++ pad2 (minute ns) ++ lit ":" ++ pad2 (second ns).

Lemma clock_range ns : 0 <= hour ns < 24 /\ 0 <= minute ns < 60 /\ 0 <= second ns < 60.
Proof.
  unfold hour, minute, second.
  pose proof (Z.mod_pos_bound (local_seconds ns) 86400).
  pose proof (Z.mod_pos_bound (local_seconds ns) 3600).
  pose proof (Z.mod_pos_bound (local_seconds ns) 60).
  split_and!; try lia;
    try (apply Z.div_pos; lia); apply Z.div_lt_upper_bound; lia.
Qed.
End time.
