(* ===== verification/HttpParse.v ===== *)
(** * Parsing of queries, cookies and quoted strings
    (internal/url, internal/cookies, internal/strings) *)

From stdpp Require Import options.
From Stdlib Require Import Strings.Byte.
From S2P Require Import Prelude GoLib.

(** A parsed query or cookie header: the values of each name, in order. *)
Abbreviation multimap := (gmap gostring (list gostring)).

(** [m[k] = append(m[k], v)] *)
Definition mm_append (m : multimap) (k v : gostring) : multimap :=
  <[k := default [] (m !! k) ++ [v]]> m.

(** ** internal/strings *)

Definition ValidHex (x : byte) : bool :=
  ((48 <=? bz x) && (bz x <=? 57)) || ((97 <=? bz x) && (bz x <=? 102))
  || ((65 <=? bz x) && (bz x <=? 70)).

(** [X2c] on two bytes, in 8-bit arithmetic. *)
Definition X2c (a b : byte) : byte :=
  let digit (c : byte) := if 65 <=? bz c then Z.land (bz c) 0xdf - 65 + 10 else bz c - 48 in
  zb ((digit a * 16) mod 256 + digit b).

Definition MaybeRemoveQuotes (s : gostring) : gostring :=
  if zlen s <? 2 then s
  else
    match head s with
    | Some q =>
      if bool_decide (q = x22 \/ q = "'"%byte)
      then if bool_decide (list.last s = Some q) then take (length s - 2) (drop 1 s) else s
      else s
    | None => s
    end.

Fixpoint InSlice (a : gostring) (l : list gostring) : bool :=
  match l with
  | [] => false
  | b :: l => if bool_decide (b = a) then true else InSlice a l
  end.

(** ** internal/url *)

Definition hexDigitToByte (digit : byte) : option Z :=
  if (48 <=? bz digit) && (bz digit <=? 57) then Some (bz digit - 48)
  else if (97 <=? bz digit) && (bz digit <=? 102) then Some (bz digit - 97 + 10)
  else if (65 <=? bz digit) && (bz digit <=? 70) then Some (bz digit - 65 + 10)
  else None.

(** [queryUnescape]: malformed escapes are kept as they are. *)
Fixpoint queryUnescape (input : gostring) : gostring :=
  match input with
  | [] => []
  | ci :: rest =>
    if bool_decide (ci = "+"%byte) then " "%byte :: queryUnescape rest
    else if bool_decide (ci = "%"%byte) then
      match rest with
      | h :: l :: rest' =>
        match hexDigitToByte h, hexDigitToByte l with
        | Some hi, Some lo => zb (Z.lor (Z.shiftl hi 4) lo) :: queryUnescape rest'
        | _, _ => ci :: queryUnescape rest
        end
      | _ => ci :: queryUnescape rest
      end
    else ci :: queryUnescape rest
  end.

(** What one piece [key=value] of a query adds. *)
Definition add_piece (unescape : bool) (m : multimap) (piece : gostring) : multimap :=
  if bool_decide (piece = []) then m
  else
    let '(key, value) :=
      match Strings.IndexByte piece "="%byte with
      | Some i => (take i piece, drop (S i) piece)
      | None => (piece, [])
      end in
    if unescape then mm_append m (queryUnescape key) (queryUnescape value)
    else mm_append m key value.

(** The loop of [doParseQuery]; every round consumes at least one byte. *)
Fixpoint doParseQuery_go (fuel : nat) (query : gostring) (separator : byte) (unescape : bool)
  (m : multimap) : multimap :=
  match fuel with
  | O => m
  | S fuel =>
    if bool_decide (query = []) then m
    else
      let '(key, rest) :=
        match Strings.IndexByte query separator with
        | Some i => (take i query, drop (S i) query)
        | None => (query, [])
        end in
      doParseQuery_go fuel rest separator unescape (add_piece unescape m key)
  end.

Definition doParseQuery (query : gostring) (separator : byte) (unescape : bool) : multimap :=
  doParseQuery_go (length query) query separator unescape ∅.

Definition ParseQuery (query : gostring) (separator : byte) : multimap :=
  doParseQuery query separator true.

(** ** internal/cookies *)

(** What one part [name=value] of a cookie header adds. *)
Definition add_cookie (m : multimap) (part0 : gostring) : multimap :=
  let part := Strings.TrimString part0 in
  if bool_decide (part = []) then m
  else
    let '(name0, val, _) := Strings.Cut part "="%byte in
    let name := Strings.TrimString name0 in
    if bool_decide (name = []) then m else mm_append m name val.

Fixpoint ParseCookies_go (fuel : nat) (raw : gostring) (m : multimap) : multimap :=
  match fuel with
  | O => m
  | S fuel =>
    if bool_decide (raw = []) then m
    else
      let '(part, rest, _) := Strings.Cut raw ";"%byte in
      ParseCookies_go fuel rest (add_cookie m part)
  end.

Definition ParseCookies (rawCookies : gostring) : multimap :=
  let raw := Strings.TrimString rawCookies in
  ParseCookies_go (length raw) raw ∅.

(** ** The loops visit the pieces between separators *)

(** The pieces of a string between separators. *)
Fixpoint split_on (sep : byte) (s : gostring) : list gostring :=
  match s with
  | [] => [[]]
  | c :: s =>
    if bool_decide (c = sep) then [] :: split_on sep s
    else match split_on sep s with
         | [] => [[c]]
         | p :: l => (c :: p) :: l
         end
  end.

(** ** Lines ([bufio.Scanner]) *)

(** [bufio.MaxScanTokenSize]. *)
Definition MaxScanTokenSize : Z := 65536.

(** [bufio.ScanLines]: the pieces between line feeds, without an empty last
    one. *)
Definition raw_lines (data : gostring) : list gostring :=
  let l := split_on x0a data in
  if bool_decide (list.last l = Some []) then removelast l else l.

(** [dropCR] *)
Definition dropCR (line : gostring) : gostring :=
  if bool_decide (list.last line = Some x0d) then removelast line else line.

(** [bufio.Scanner.Scan]: a line that does not fit the buffer ends the scan,
    and no error is looked for. *)
Fixpoint scan (l : list gostring) : list gostring :=
  match l with
  | [] => []
  | line :: l => if MaxScanTokenSize <=? zlen line then [] else dropCR line :: scan l
  end.

Definition scan_lines (data : gostring) : list gostring := scan (raw_lines data).

(** ** Facts on the pieces *)

Lemma split_on_not_nil sep s : split_on sep s <> [].
Proof. destruct s as [|c s]; simpl; [done|]. by repeat case_match. Qed.

Lemma split_on_nosep sep s : sep ∉ s -> split_on sep s = [s].
Proof.
  induction s as [|c s IH]; simpl; [done|]. intros Hs.
  rewrite bool_decide_eq_false_2 by set_solver. rewrite IH by set_solver. done.
Qed.

Lemma split_on_app sep a b : sep ∉ a -> split_on sep (a ++ sep :: b) = a :: split_on sep b.
Proof.
  induction a as [|c a IH]; simpl; intros Ha.
  - by rewrite bool_decide_eq_true_2.
  - rewrite bool_decide_eq_false_2 by set_solver. by rewrite IH by set_solver.
Qed.

(** The pieces put together again. *)
Fixpoint join (sep : byte) (l : list gostring) : gostring :=
  match l with
  | [] => []
  | [p] => p
  | p :: l => p ++ sep :: join sep l
  end.

Lemma split_on_join sep l :
  l <> [] -> Forall (fun p => sep ∉ p) l -> split_on sep (join sep l) = l.
Proof.
  intros Hne Hl. induction Hl as [|p l Hp Hl IH]; [done|]. destruct l as [|q l].
  - by apply split_on_nosep.
  - change (join sep (p :: q :: l)) with (p ++ sep :: join sep (q :: l)).
    by rewrite split_on_app, IH.
Qed.

Lemma join_snoc sep l : l <> [] -> join sep (l ++ [[]]) = join sep l ++ [sep].
Proof.
  induction l as [|p [|q l] IH]; intros Hl; [done|done|].
  change (join sep ((p :: q :: l) ++ [[]])) with (p ++ sep :: join sep ((q :: l) ++ [[]])).
  rewrite IH by done. change (join sep (p :: q :: l)) with (p ++ sep :: join sep (q :: l)).
  by rewrite <- app_assoc.
Qed.

Lemma split_on_pieces sep s : Forall (fun p => sep ∉ p) (split_on sep s).
Proof.
  induction s as [|c s IH]; simpl; [by repeat constructor; apply not_elem_of_nil|].
  destruct (bool_decide_reflect (c = sep)) as [->|Hc]; [by constructor; [apply not_elem_of_nil|]|].
  destruct IH as [|p l Hp Hl]; constructor; set_solver.
Qed.

(** A loop that cuts a string at each separator and handles the piece before
    it folds the handler over the pieces, if an empty last piece is ignored. *)
Lemma cut_loop_fold {A} (sep : byte) (handle : A -> gostring -> A)
  (loop : nat -> gostring -> A -> A) :
  (forall m, handle m [] = m) ->
  (forall s m, loop 0%nat s m = m) ->
  (forall n s m, loop (S n) s m =
     if bool_decide (s = []) then m
     else let '(a, b, _) := Strings.Cut s sep in loop n b (handle m a)) ->
  forall n s m, (length s <= n)%nat -> loop n s m = foldl handle m (split_on sep s).
Proof.
  intros Hnil H0 HS n. induction n as [|n IH]; intros s m Hn.
  - destruct s; [|simpl in Hn; lia]. rewrite H0. simpl. by rewrite Hnil.
  - rewrite HS. case_bool_decide as Es; [subst; simpl; by rewrite Hnil|].
    pose proof (Strings.Cut_spec s sep) as Hc.
    destruct (Strings.Cut s sep) as [[a b] [|]].
    + destruct Hc as [-> Ha]. rewrite split_on_app by done. simpl.
      apply IH. rewrite length_app in Hn. simpl in Hn. lia.
    + destruct Hc as (-> & -> & Hs). rewrite split_on_nosep by done. simpl.
      rewrite IH by (simpl; lia). simpl. by rewrite Hnil.
Qed.

Lemma doParseQuery_pieces query sep u :
  doParseQuery query sep u = foldl (add_piece u) ∅ (split_on sep query).
Proof.
  unfold doParseQuery.
  apply (cut_loop_fold sep (add_piece u) (fun n s m => doParseQuery_go n s sep u m)); try done.
  intros n s m. cbn [doParseQuery_go]. unfold Strings.Cut.
  by destruct (Strings.IndexByte s sep).
Qed.

Lemma ParseCookies_pieces raw :
  ParseCookies raw = foldl add_cookie ∅ (split_on ";"%byte (Strings.TrimString raw)).
Proof.
  unfold ParseCookies. by apply (cut_loop_fold ";"%byte add_cookie ParseCookies_go).
Qed.

(** *** Decoding of escapes *)

Lemma hexDigitToByte_range d z : hexDigitToByte d = Some z -> 0 <= z < 16.
Proof. unfold hexDigitToByte. repeat case_match; intros; simplify_eq; lia. Qed.

Lemma queryUnescape_plain s :
  "+"%byte ∉ s -> "%"%byte ∉ s -> queryUnescape s = s.
Proof.
  induction s as [|c s IH]; intros Hp Hq; [done|]. cbn [queryUnescape].
  rewrite !bool_decide_eq_false_2 by set_solver. f_equal. apply IH; set_solver.
Qed.

Lemma queryUnescape_length s : (length (queryUnescape s) <= length s)%nat.
Proof.
  induction s as [s IH] using (induction_ltof1 _ (@length byte)). unfold ltof in IH.
  destruct s as [|c s]; [done|]. cbn [queryUnescape].
  assert (length (queryUnescape s) <= length s)%nat by (apply IH; simpl; lia).
  repeat case_match; subst; simpl in *; try lia.
  match goal with |- (S (length (queryUnescape ?l)) <= _)%nat =>
    assert (length (queryUnescape l) <= length l)%nat by (apply IH; simpl; lia) end.
  lia.
Qed.
