(* ===== verification/Variables.v ===== *)
(** * Rule variables (internal/variables)

    The enumeration [RuleVariable], its names ([Name]), the reverse table used
    by [Parse], and the selectable ones ([CanBeSelected]). *)

From stdpp Require Import options.
From S2P Require Import Prelude GoLib.

Module variables.

Inductive RuleVariable : Set :=
| Unknown
| ResponseContentType
| UniqueID
| ArgsCombinedSize
| FilesCombinedSize
| FullRequestLength
| InboundDataError
| MatchedVar
| MatchedVarName
| MultipartDataAfter
| OutboundDataError
| QueryString
| RemoteAddr
| RemoteHost
| RemotePort
| ReqbodyError
| ReqbodyErrorMsg
| ReqbodyProcessorError
| ReqbodyProcessorErrorMsg
| ReqbodyProcessor
| RequestBasename
| RequestBody
| RequestBodyLength
| RequestFilename
| RequestLine
| RequestMethod
| RequestProtocol
| RequestURI
| RequestURIRaw
| ResponseBody
| ResponseContentLength
| ResponseProtocol
| ResponseStatus
| ServerAddr
| ServerName
| ServerPort
| HighestSeverity
| StatusLine
| Duration
| ResponseHeadersNames
| RequestHeadersNames
| Args
| ArgsGet
| ArgsPost
| ArgsPath
| FilesSizes
| FilesNames
| FilesTmpContent
| MultipartFilename
| MultipartName
| MatchedVarsNames
| MatchedVars
| Files
| RequestCookies
| RequestHeaders
| ResponseHeaders
| ResBodyProcessor
| Geo
| RequestCookiesNames
| FilesTmpNames
| ArgsNames
| ArgsGetNames
| ArgsPostNames
| TX
| Rule
| JSON
| Env
| UrlencodedError
| ResponseArgs
| ResponseXML
| RequestXML
| XML
| MultipartPartHeaders
| AuthType
| FullRequest
| MultipartBoundaryQuoted
| MultipartBoundaryWhitespace
| MultipartCrlfLfLines
| MultipartDataBefore
| MultipartFileLimitExceeded
| MultipartHeaderFolding
| MultipartInvalidHeaderFolding
| MultipartInvalidPart
| MultipartInvalidQuoting
| MultipartLfLine
| MultipartMissingSemicolon
| MultipartStrictError
| MultipartUnmatchedBoundary
| PathInfo
| Sessionid
| Userid
| IP
| ResBodyError
| ResBodyErrorMsg
| ResBodyProcessorError
| ResBodyProcessorErrorMsg
| Time
| TimeDay
| TimeEpoch
| TimeHour
| TimeMin
| TimeMon
| TimeSec
| TimeWday
| TimeYear.

(** The numeric value of a variable ([iota]). *)
Definition to_nat (v : RuleVariable) : nat :=
  match v with
  | Unknown => 0
  | ResponseContentType => 1
  | UniqueID => 2
  | ArgsCombinedSize => 3
  | FilesCombinedSize => 4
  | FullRequestLength => 5
  | InboundDataError => 6
  | MatchedVar => 7
  | MatchedVarName => 8
  | MultipartDataAfter => 9
  | OutboundDataError => 10
  | QueryString => 11
  | RemoteAddr => 12
  | RemoteHost => 13
  | RemotePort => 14
  | ReqbodyError => 15
  | ReqbodyErrorMsg => 16
  | ReqbodyProcessorError => 17
  | ReqbodyProcessorErrorMsg => 18
  | ReqbodyProcessor => 19
  | RequestBasename => 20
  | RequestBody => 21
  | RequestBodyLength => 22
  | RequestFilename => 23
  | RequestLine => 24
  | RequestMethod => 25
  | RequestProtocol => 26
  | RequestURI => 27
  | RequestURIRaw => 28
  | ResponseBody => 29
  | ResponseContentLength => 30
  | ResponseProtocol => 31
  | ResponseStatus => 32
  | ServerAddr => 33
  | ServerName => 34
  | ServerPort => 35
  | HighestSeverity => 36
  | StatusLine => 37
  | Duration => 38
  | ResponseHeadersNames => 39
  | RequestHeadersNames => 40
  | Args => 41
  | ArgsGet => 42
  | ArgsPost => 43
  | ArgsPath => 44
  | FilesSizes => 45
  | FilesNames => 46
  | FilesTmpContent => 47
  | MultipartFilename => 48
  | MultipartName => 49
  | MatchedVarsNames => 50
  | MatchedVars => 51
  | Files => 52
  | RequestCookies => 53
  | RequestHeaders => 54
  | ResponseHeaders => 55
  | ResBodyProcessor => 56
  | Geo => 57
  | RequestCookiesNames => 58
  | FilesTmpNames => 59
  | ArgsNames => 60
  | ArgsGetNames => 61
  | ArgsPostNames => 62
  | TX => 63
  | Rule => 64
  | JSON => 65
  | Env => 66
  | UrlencodedError => 67
  | ResponseArgs => 68
  | ResponseXML => 69
  | RequestXML => 70
  | XML => 71
  | MultipartPartHeaders => 72
  | AuthType => 73
  | FullRequest => 74
  | MultipartBoundaryQuoted => 75
  | MultipartBoundaryWhitespace => 76
  | MultipartCrlfLfLines => 77
  | MultipartDataBefore => 78
  | MultipartFileLimitExceeded => 79
  | MultipartHeaderFolding => 80
  | MultipartInvalidHeaderFolding => 81
  | MultipartInvalidPart => 82
  | MultipartInvalidQuoting => 83
  | MultipartLfLine => 84
  | MultipartMissingSemicolon => 85
  | MultipartStrictError => 86
  | MultipartUnmatchedBoundary => 87
  | PathInfo => 88
  | Sessionid => 89
  | Userid => 90
  | IP => 91
  | ResBodyError => 92
  | ResBodyErrorMsg => 93
  | ResBodyProcessorError => 94
  | ResBodyProcessorErrorMsg => 95
  | Time => 96
  | TimeDay => 97
  | TimeEpoch => 98
  | TimeHour => 99
  | TimeMin => 100
  | TimeMon => 101
  | TimeSec => 102
  | TimeWday => 103
  | TimeYear => 104
  end%nat.

(** All variables in the order of their declaration. *)
Definition all_variables : list RuleVariable :=
  [Unknown; ResponseContentType; UniqueID; ArgsCombinedSize;
   FilesCombinedSize; FullRequestLength; InboundDataError; MatchedVar;
   MatchedVarName; MultipartDataAfter; OutboundDataError; QueryString;
   RemoteAddr; RemoteHost; RemotePort; ReqbodyError;
   ReqbodyErrorMsg; ReqbodyProcessorError; ReqbodyProcessorErrorMsg; ReqbodyProcessor;
   RequestBasename; RequestBody; RequestBodyLength; RequestFilename;
   RequestLine; RequestMethod; RequestProtocol; RequestURI;
   RequestURIRaw; ResponseBody; ResponseContentLength; ResponseProtocol;
   ResponseStatus; ServerAddr; ServerName; ServerPort;
   HighestSeverity; StatusLine; Duration; ResponseHeadersNames;
   RequestHeadersNames; Args; ArgsGet; ArgsPost;
   ArgsPath; FilesSizes; FilesNames; FilesTmpContent;
   MultipartFilename; MultipartName; MatchedVarsNames; MatchedVars;
   Files; RequestCookies; RequestHeaders; ResponseHeaders;
   ResBodyProcessor; Geo; RequestCookiesNames; FilesTmpNames;
   ArgsNames; ArgsGetNames; ArgsPostNames; TX;
   Rule; JSON; Env; UrlencodedError;
   ResponseArgs; ResponseXML; RequestXML; XML;
   MultipartPartHeaders; AuthType; FullRequest; MultipartBoundaryQuoted;
   MultipartBoundaryWhitespace; MultipartCrlfLfLines; MultipartDataBefore; MultipartFileLimitExceeded;
   MultipartHeaderFolding; MultipartInvalidHeaderFolding; MultipartInvalidPart; MultipartInvalidQuoting;
   MultipartLfLine; MultipartMissingSemicolon; MultipartStrictError; MultipartUnmatchedBoundary;
   PathInfo; Sessionid; Userid; IP;
   ResBodyError; ResBodyErrorMsg; ResBodyProcessorError; ResBodyProcessorErrorMsg;
   Time; TimeDay; TimeEpoch; TimeHour;
   TimeMin; TimeMon; TimeSec; TimeWday;
   TimeYear].

Lemma all_variables_to_nat v : all_variables !! to_nat v = Some v.
Proof. destruct v; reflexivity. Qed.

#[global] Instance to_nat_inj : Inj (=) (=) to_nat.
Proof.
  intros v w E. pose proof (all_variables_to_nat v) as Hv.
  rewrite E, all_variables_to_nat in Hv. congruence.
Qed.

#[global] Instance RuleVariable_eq_dec : EqDecision RuleVariable.
Proof.
  refine (fun v w => cast_if (decide (to_nat v = to_nat w))).
  - abstract (by apply (inj to_nat)).
  - abstract congruence.
Defined.

#[global] Instance RuleVariable_countable : Countable RuleVariable :=
  inj_countable to_nat (fun n => all_variables !! n) all_variables_to_nat.

Lemma elem_of_all_variables v : v ∈ all_variables.
Proof. apply list_elem_of_lookup. exists (to_nat v). apply all_variables_to_nat. Qed.

(** [RuleVariable.Name]. *)
Definition Name (v : RuleVariable) : gostring :=
  lit match v with
  | Unknown => "UNKNOWN"
  | ResponseContentType => "RESPONSE_CONTENT_TYPE"
  | UniqueID => "UNIQUE_ID"
  | ArgsCombinedSize => "ARGS_COMBINED_SIZE"
  | FilesCombinedSize => "FILES_COMBINED_SIZE"
  | FullRequestLength => "FULL_REQUEST_LENGTH"
  | InboundDataError => "INBOUND_DATA_ERROR"
  | MatchedVar => "MATCHED_VAR"
  | MatchedVarName => "MATCHED_VAR_NAME"
  | MultipartDataAfter => "MULTIPART_DATA_AFTER"
  | OutboundDataError => "OUTBOUND_DATA_ERROR"
  | QueryString => "QUERY_STRING"
  | RemoteAddr => "REMOTE_ADDR"
  | RemoteHost => "REMOTE_HOST"
  | RemotePort => "REMOTE_PORT"
  | ReqbodyError => "REQBODY_ERROR"
  | ReqbodyErrorMsg => "REQBODY_ERROR_MSG"
  | ReqbodyProcessorError => "REQBODY_PROCESSOR_ERROR"
  | ReqbodyProcessorErrorMsg => "REQBODY_PROCESSOR_ERROR_MSG"
  | ReqbodyProcessor => "REQBODY_PROCESSOR"
  | RequestBasename => "REQUEST_BASENAME"
  | RequestBody => "REQUEST_BODY"
  | RequestBodyLength => "REQUEST_BODY_LENGTH"
  | RequestFilename => "REQUEST_FILENAME"
  | RequestLine => "REQUEST_LINE"
  | RequestMethod => "REQUEST_METHOD"
  | RequestProtocol => "REQUEST_PROTOCOL"
  | RequestURI => "REQUEST_URI"
  | RequestURIRaw => "REQUEST_URI_RAW"
  | ResponseBody => "RESPONSE_BODY"
  | ResponseContentLength => "RESPONSE_CONTENT_LENGTH"
  | ResponseProtocol => "RESPONSE_PROTOCOL"
  | ResponseStatus => "RESPONSE_STATUS"
  | ServerAddr => "SERVER_ADDR"
  | ServerName => "SERVER_NAME"
  | ServerPort => "SERVER_PORT"
  | HighestSeverity => "HIGHEST_SEVERITY"
  | StatusLine => "STATUS_LINE"
  | Duration => "DURATION"
  | ResponseHeadersNames => "RESPONSE_HEADERS_NAMES"
  | RequestHeadersNames => "REQUEST_HEADERS_NAMES"
  | Args => "ARGS"
  | ArgsGet => "ARGS_GET"
  | ArgsPost => "ARGS_POST"
  | ArgsPath => "ARGS_PATH"
  | FilesSizes => "FILES_SIZES"
  | FilesNames => "FILES_NAMES"
  | FilesTmpContent => "FILES_TMP_CONTENT"
  | MultipartFilename => "MULTIPART_FILENAME"
  | MultipartName => "MULTIPART_NAME"
  | MatchedVarsNames => "MATCHED_VARS_NAMES"
  | MatchedVars => "MATCHED_VARS"
  | Files => "FILES"
  | RequestCookies => "REQUEST_COOKIES"
  | RequestHeaders => "REQUEST_HEADERS"
  | ResponseHeaders => "RESPONSE_HEADERS"
  | ResBodyProcessor => "RES_BODY_PROCESSOR"
  | Geo => "GEO"
  | RequestCookiesNames => "REQUEST_COOKIES_NAMES"
  | FilesTmpNames => "FILES_TMPNAMES"
  | ArgsNames => "ARGS_NAMES"
  | ArgsGetNames => "ARGS_GET_NAMES"
  | ArgsPostNames => "ARGS_POST_NAMES"
  | TX => "TX"
  | Rule => "RULE"
  | JSON => "JSON"
  | Env => "ENV"
  | UrlencodedError => "URLENCODED_ERROR"
  | ResponseArgs => "RESPONSE_ARGS"
  | ResponseXML => "RESPONSE_XML"
  | RequestXML => "REQUEST_XML"
  | XML => "XML"
  | MultipartPartHeaders => "MULTIPART_PART_HEADERS"
  | AuthType => "AUTH_TYPE"
  | FullRequest => "FULL_REQUEST"
  | MultipartBoundaryQuoted => "MULTIPART_BOUNDARY_QUOTED"
  | MultipartBoundaryWhitespace => "MULTIPART_BOUNDARY_WHITESPACE"
  | MultipartCrlfLfLines => "MULTIPART_CRLF_LF_LINES"
  | MultipartDataBefore => "MULTIPART_DATA_BEFORE"
  | MultipartFileLimitExceeded => "MULTIPART_FILE_LIMIT_EXCEEDED"
  | MultipartHeaderFolding => "MULTIPART_HEADER_FOLDING"
  | MultipartInvalidHeaderFolding => "MULTIPART_INVALID_HEADER_FOLDING"
  | MultipartInvalidPart => "MULTIPART_INVALID_PART"
  | MultipartInvalidQuoting => "MULTIPART_INVALID_QUOTING"
  | MultipartLfLine => "MULTIPART_LF_LINE"
  | MultipartMissingSemicolon => "MULTIPART_MISSING_SEMICOLON"
  | MultipartStrictError => "MULTIPART_STRICT_ERROR"
  | MultipartUnmatchedBoundary => "MULTIPART_UNMATCHED_BOUNDARY"
  | PathInfo => "PATH_INFO"
  | Sessionid => "SESSIONID"
  | Userid => "USERID"
  | IP => "IP"
  | ResBodyError => "RES_BODY_ERROR"
  | ResBodyErrorMsg => "RES_BODY_ERROR_MSG"
  | ResBodyProcessorError => "RES_BODY_PROCESSOR_ERROR"
  | ResBodyProcessorErrorMsg => "RES_BODY_PROCESSOR_ERROR_MSG"
  | Time => "TIME"
  | TimeDay => "TIME_DAY"
  | TimeEpoch => "TIME_EPOCH"
  | TimeHour => "TIME_HOUR"
  | TimeMin => "TIME_MIN"
  | TimeMon => "TIME_MON"
  | TimeSec => "TIME_SEC"
  | TimeWday => "TIME_WDAY"
  | TimeYear => "TIME_YEAR"
  end.

(** The table [rulemapRev] of variable names. *)
Definition rulemapRev : list (string * RuleVariable) :=
  [("UNKNOWN", Unknown);
   ("RESPONSE_CONTENT_TYPE", ResponseContentType);
   ("UNIQUE_ID", UniqueID);
   ("ARGS_COMBINED_SIZE", ArgsCombinedSize);
   ("FILES_COMBINED_SIZE", FilesCombinedSize);
   ("FULL_REQUEST_LENGTH", FullRequestLength);
   ("INBOUND_DATA_ERROR", InboundDataError);
   ("MATCHED_VAR", MatchedVar);
   ("MATCHED_VAR_NAME", MatchedVarName);
   ("MULTIPART_DATA_AFTER", MultipartDataAfter);
   ("OUTBOUND_DATA_ERROR", OutboundDataError);
   ("QUERY_STRING", QueryString);
   ("REMOTE_ADDR", RemoteAddr);
   ("REMOTE_HOST", RemoteHost);
   ("REMOTE_PORT", RemotePort);
   ("REQBODY_ERROR", ReqbodyError);
   ("REQBODY_ERROR_MSG", ReqbodyErrorMsg);
   ("REQBODY_PROCESSOR_ERROR", ReqbodyProcessorError);
   ("REQBODY_PROCESSOR_ERROR_MSG", ReqbodyProcessorErrorMsg);
   ("REQBODY_PROCESSOR", ReqbodyProcessor);
   ("REQUEST_BASENAME", RequestBasename);
   ("REQUEST_BODY", RequestBody);
   ("REQUEST_BODY_LENGTH", RequestBodyLength);
   ("REQUEST_FILENAME", RequestFilename);
   ("REQUEST_LINE", RequestLine);
   ("REQUEST_METHOD", RequestMethod);
   ("REQUEST_PROTOCOL", RequestProtocol);
   ("REQUEST_URI", RequestURI);
   ("REQUEST_URI_RAW", RequestURIRaw);
   ("RESPONSE_BODY", ResponseBody);
   ("RESPONSE_CONTENT_LENGTH", ResponseContentLength);
   ("RESPONSE_PROTOCOL", ResponseProtocol);
   ("RESPONSE_STATUS", ResponseStatus);
   ("SERVER_ADDR", ServerAddr);
   ("SERVER_NAME", ServerName);
   ("SERVER_PORT", ServerPort);
   ("HIGHEST_SEVERITY", HighestSeverity);
   ("STATUS_LINE", StatusLine);
   ("DURATION", Duration);
   ("RESPONSE_HEADERS_NAMES", ResponseHeadersNames);
   ("REQUEST_HEADERS_NAMES", RequestHeadersNames);
   ("ARGS", Args);
   ("ARGS_GET", ArgsGet);
   ("ARGS_POST", ArgsPost);
   ("ARGS_PATH", ArgsPath);
   ("FILES_SIZES", FilesSizes);
   ("FILES_NAMES", FilesNames);
   ("FILES_TMP_CONTENT", FilesTmpContent);
   ("MULTIPART_FILENAME", MultipartFilename);
   ("MULTIPART_NAME", MultipartName);
   ("MATCHED_VARS_NAMES", MatchedVarsNames);
   ("MATCHED_VARS", MatchedVars);
   ("FILES", Files);
   ("REQUEST_COOKIES", RequestCookies);
   ("REQUEST_HEADERS", RequestHeaders);
   ("RESPONSE_HEADERS", ResponseHeaders);
   ("RES_BODY_PROCESSOR", ResBodyProcessor);
   ("GEO", Geo);
   ("REQUEST_COOKIES_NAMES", RequestCookiesNames);
   ("FILES_TMPNAMES", FilesTmpNames);
   ("ARGS_NAMES", ArgsNames);
   ("ARGS_GET_NAMES", ArgsGetNames);
   ("ARGS_POST_NAMES", ArgsPostNames);
   ("TX", TX);
   ("RULE", Rule);
   ("JSON", JSON);
   ("ENV", Env);
   ("URLENCODED_ERROR", UrlencodedError);
   ("RESPONSE_ARGS", ResponseArgs);
   ("RESPONSE_XML", ResponseXML);
   ("REQUEST_XML", RequestXML);
   ("XML", XML);
   ("MULTIPART_PART_HEADERS", MultipartPartHeaders);
   ("AUTH_TYPE", AuthType);
   ("FULL_REQUEST", FullRequest);
   ("MULTIPART_BOUNDARY_QUOTED", MultipartBoundaryQuoted);
   ("MULTIPART_BOUNDARY_WHITESPACE", MultipartBoundaryWhitespace);
   ("MULTIPART_CRLF_LF_LINES", MultipartCrlfLfLines);
   ("MULTIPART_DATA_BEFORE", MultipartDataBefore);
   ("MULTIPART_FILE_LIMIT_EXCEEDED", MultipartFileLimitExceeded);
   ("MULTIPART_HEADER_FOLDING", MultipartHeaderFolding);
   ("MULTIPART_INVALID_HEADER_FOLDING", MultipartInvalidHeaderFolding);
   ("MULTIPART_INVALID_PART", MultipartInvalidPart);
   ("MULTIPART_INVALID_QUOTING", MultipartInvalidQuoting);
   ("MULTIPART_LF_LINE", MultipartLfLine);
   ("MULTIPART_MISSING_SEMICOLON", MultipartMissingSemicolon);
   ("MULTIPART_STRICT_ERROR", MultipartStrictError);
   ("MULTIPART_UNMATCHED_BOUNDARY", MultipartUnmatchedBoundary);
   ("PATH_INFO", PathInfo);
   ("SESSIONID", Sessionid);
   ("USERID", Userid);
   ("IP", IP);
   ("RES_BODY_ERROR", ResBodyError);
   ("RES_BODY_ERROR_MSG", ResBodyErrorMsg);
   ("RES_BODY_PROCESSOR_ERROR", ResBodyProcessorError);
   ("RES_BODY_PROCESSOR_ERROR_MSG", ResBodyProcessorErrorMsg);
   ("TIME", Time);
   ("TIME_DAY", TimeDay);
   ("TIME_EPOCH", TimeEpoch);
   ("TIME_HOUR", TimeHour);
   ("TIME_MIN", TimeMin);
   ("TIME_MON", TimeMon);
   ("TIME_SEC", TimeSec);
   ("TIME_WDAY", TimeWday);
   ("TIME_YEAR", TimeYear)].

Fixpoint assoc_lookup (k : gostring) (l : list (string * RuleVariable)) : option RuleVariable :=
  match l with
  | [] => None
  | (n, v) :: l => if bool_decide (lit n = k) then Some v else assoc_lookup k l
  end.

(** [variables.Parse]; [None] is [errUnknownVariable]. *)
Definition Parse `{GoUnicode} (v : gostring) : option RuleVariable :=
  assoc_lookup (Strings.ToUpper v) rulemapRev.

(** [RuleVariable.CanBeSelected]. *)
Definition CanBeSelected (v : RuleVariable) : bool :=
  match v with
  | ResponseHeadersNames | RequestHeadersNames | Args | ArgsGet | ArgsPost | ArgsPath | FilesSizes | FilesNames
  | FilesTmpContent | MultipartFilename | MultipartName | MatchedVarsNames | MatchedVars | Files
  | RequestCookies | RequestHeaders | ResponseHeaders | Geo | RequestCookiesNames | FilesTmpNames
  | ArgsNames | ArgsGetNames | ArgsPostNames | TX | Rule | JSON
  | Env | ResponseArgs | ResponseXML | RequestXML | XML | MultipartPartHeaders
    => true
  | _ => false
  end.

(** Parsing the name of a variable, whatever the case of its letters, gives
    the variable back. *)
Lemma Parse_Name `{GoUnicode} v : Parse (Name v) = Some v.
Proof. destruct v; vm_compute; reflexivity. Qed.

Lemma Parse_lower_Name `{GoUnicode} v : Parse (Strings.ToLower (Name v)) = Some v.
Proof. destruct v; vm_compute; reflexivity. Qed.

#[global] Instance Name_inj : Inj (=) (=) Name.
Proof.
  intros v w E.
  pose proof (@Parse_Name (Build_GoUnicode id id) v) as Hv.
  rewrite E, Parse_Name in Hv. congruence.
Qed.

End variables.

Abbreviation RuleVariable := variables.RuleVariable.
