(* ===== verification/Types.v ===== *)
(** * Public types (types/, internal/corazatypes)

    Phases, severities, engine and audit statuses with their parsers, body
    limit actions, audit log parts, interruptions and body buffer options. *)

From stdpp Require Import options.
From Stdlib Require Import Strings.Byte.
From S2P Require Import Prelude GoLib.

Module types.

(** ** Phases (types/phase.go) *)

Definition RulePhase := Z.
Definition PhaseUnknown : RulePhase := 0.
Definition PhaseRequestHeaders : RulePhase := 1.
Definition PhaseRequestBody : RulePhase := 2.
Definition PhaseResponseHeaders : RulePhase := 3.
Definition PhaseResponseBody : RulePhase := 4.
Definition PhaseLogging : RulePhase := 5.

(** [ParseRulePhase]; [None] is the error "invalid phase". *)
Definition ParseRulePhase (phase : gostring) : option RulePhase :=
  let i := if bool_decide (phase = lit "request") then 2
           else if bool_decide (phase = lit "response") then 4
           else if bool_decide (phase = lit "logging") then 5
           else fst (Strconv.Atoi phase) in
  if (5 <? i) || (i <? 1) then None else Some i.

(** ** Severities (types/severity.go) *)

Definition RuleSeverity := Z.

Definition severity_name (rs : RuleSeverity) : gostring :=
  lit (if rs =? 0 then "emergency"
       else if rs =? 1 then "alert"
       else if rs =? 2 then "critical"
       else if rs =? 3 then "error"
       else if rs =? 4 then "warning"
       else if rs =? 5 then "notice"
       else if rs =? 6 then "info"
       else if rs =? 7 then "debug"
       else "unknown").

(** [ParseRuleSeverity]: the value and whether it succeeded. *)
Definition ParseRuleSeverity `{GoUnicode} (input : gostring) : RuleSeverity * bool :=
  if zlen input =? 1 then
    match Strconv.Atoi input with
    | (_, Some _) => (0, false)
    | (s, None) => if (s <? 0) || (7 <? s) then (0, false) else (s, true)
    end
  else
    let l := Strings.ToLower input in
    if bool_decide (l = lit "emergency") then (0, true)
    else if bool_decide (l = lit "alert") then (1, true)
    else if bool_decide (l = lit "critical") then (2, true)
    else if bool_decide (l = lit "error") then (3, true)
    else if bool_decide (l = lit "warning") then (4, true)
    else if bool_decide (l = lit "notice") then (5, true)
    else if bool_decide (l = lit "info") then (6, true)
    else if bool_decide (l = lit "debug") then (7, true)
    else (0, false).

(** ** Engine and audit status (types/waf.go) *)

Inductive AuditEngineStatus := AuditEngineOn | AuditEngineOff | AuditEngineRelevantOnly.
#[global] Instance AuditEngineStatus_eq_dec : EqDecision AuditEngineStatus.
Proof. solve_decision. Defined.

Definition ParseAuditEngineStatus `{GoUnicode} (s : gostring) : option AuditEngineStatus :=
  let l := Strings.ToLower s in
  if bool_decide (l = lit "on") then Some AuditEngineOn
  else if bool_decide (l = lit "off") then Some AuditEngineOff
  else if bool_decide (l = lit "relevantonly") then Some AuditEngineRelevantOnly
  else None.

Inductive RuleEngineStatus := RuleEngineOn | RuleEngineDetectionOnly | RuleEngineOff.
#[global] Instance RuleEngineStatus_eq_dec : EqDecision RuleEngineStatus.
Proof. solve_decision. Defined.

Definition ParseRuleEngineStatus `{GoUnicode} (s : gostring) : option RuleEngineStatus :=
  let l := Strings.ToLower s in
  if bool_decide (l = lit "on") then Some RuleEngineOn
  else if bool_decide (l = lit "detectiononly") then Some RuleEngineDetectionOnly
  else if bool_decide (l = lit "off") then Some RuleEngineOff
  else None.

Definition RuleEngineStatus_String (re : RuleEngineStatus) : gostring :=
  match re with
  | RuleEngineOn => lit "On"
  | RuleEngineDetectionOnly => lit "DetectionOnly"
  | RuleEngineOff => lit "Off"
  end.

Inductive BodyLimitAction := BodyLimitActionProcessPartial | BodyLimitActionReject.
#[global] Instance BodyLimitAction_eq_dec : EqDecision BodyLimitAction.
Proof. solve_decision. Defined.

(** ** Audit log parts *)

Definition validOpts : list byte :=
  ["B"; "C"; "D"; "E"; "F"; "G"; "H"; "I"; "J"; "K"]%byte.

(** [ParseAuditLogParts]: the loop ranges over the runes of the string and
    converts each one to a byte, keeping its low eight bits. *)
Definition ParseAuditLogParts (opts : gostring) : option (list byte) :=
  if negb (Strings.HasPrefix opts (lit "A")) then None
  else if negb (Strings.HasSuffix opts (lit "Z")) then None
  else
    let parts := take (length opts - 2) (drop 1 opts) in
    if forallb (fun rb => bool_decide (zb (fst rb) ∈ validOpts)) (Utf8.runes parts)
    then Some parts else None.

(** ** Interruptions and body buffer options *)

Record Interruption := mkInterruption {
  RuleID : Z;
  Action : gostring;
  Status : Z;
  Data : gostring;
}.
#[global] Instance Interruption_eq_dec : EqDecision Interruption.
Proof. solve_decision. Defined.

Record BodyBufferOptions := mkBodyBufferOptions {
  TmpPath : gostring;
  MemoryLimit : Z;
  Limit : Z;
}.
#[global] Instance BodyBufferOptions_eq_dec : EqDecision BodyBufferOptions.
Proof. solve_decision. Defined.

(** ** Allow types (internal/corazatypes/allow.go) *)

Inductive AllowType := AllowTypeUnset | AllowTypeAll | AllowTypePhase | AllowTypeRequest.
#[global] Instance AllowType_eq_dec : EqDecision AllowType.
Proof. solve_decision. Defined.

(** ** Facts *)

Lemma ParseRulePhase_range p ph : ParseRulePhase p = Some ph -> 1 <= ph <= 5.
Proof.
  unfold ParseRulePhase. cbv zeta.
  set (i := if bool_decide (p = lit "request") then 2 else _).
  destruct ((5 <? i) || (i <? 1)) eqn:E; [done|]. intros [= <-].
  apply orb_false_iff in E as [?%Z.ltb_ge ?%Z.ltb_ge]. lia.
Qed.

Lemma ParseRuleSeverity_range `{GoUnicode} s :
  0 <= fst (ParseRuleSeverity s) <= 7.
Proof.
  unfold ParseRuleSeverity. cbv zeta. case_match.
  - destruct (Strconv.Atoi s) as [z [|]]; simpl; [lia|].
    destruct ((z <? 0) || (7 <? z)) eqn:E; simpl; [lia|].
    apply orb_false_iff in E as [?%Z.ltb_ge ?%Z.ltb_ge]. lia.
  - repeat case_match; simpl; lia.
Qed.

(** Printing a severity as a number or by its name and parsing it back. *)
Lemma ParseRuleSeverity_roundtrip `{GoUnicode} rs :
  0 <= rs <= 7 ->
  ParseRuleSeverity (Strconv.Itoa rs) = (rs, true) /\
  ParseRuleSeverity (severity_name rs) = (rs, true).
Proof.
  intros Hr.
  assert (rs = 0 \/ rs = 1 \/ rs = 2 \/ rs = 3 \/ rs = 4 \/ rs = 5 \/ rs = 6 \/ rs = 7)
    as Hc by lia.
  destruct_or! Hc; subst; split; vm_compute; reflexivity.
Qed.

End types.
