(* ===== verification/Collections.v ===== *)
(** * Collections (internal/collections, internal/corazarules)

    The stores behind the rule variables: [Single], [Map], [NamedCollection]
    and the read-only views [NamedCollectionNames], [ConcatKeyed],
    [ConcatCollection], [SizeCollection] and [Noop].  Go does not fix the
    order in which a [range] over a map visits its keys: every such loop takes
    its order from the class [MapOrder], which may choose another one at every
    moment, for every collection and every content. *)

From stdpp Require Import options.
From S2P Require Import Prelude GoLib Variables.

(** ** Match data (internal/corazarules/rule_match.go) *)

Record MatchData := mkMatchData {
  Variable_ : RuleVariable;
  Key_ : gostring;
  Value_ : gostring;
  Message_ : gostring;
  Data_ : gostring;
  ChainLevel_ : Z;
}.

#[global] Instance MatchData_eq_dec : EqDecision MatchData.
Proof. solve_decision. Defined.

#[global] Instance MatchData_form : RecordForm MatchData :=
  fun m => mkMatchData (Variable_ m) (Key_ m) (Value_ m) (Message_ m) (Data_ m) (ChainLevel_ m).

(** A match of which only the variable, the key and the value are set. *)
Definition newMatchData (v : RuleVariable) (k x : gostring) : MatchData :=
  mkMatchData v k x [] [] 0.

(** ** Regular expressions *)

(** A compiled [*regexp.Regexp]: the strings it matches. *)
Abbreviation Regexp := (gostring -> bool).

(** ** Maps (internal/collections/map.go) *)

Record keyValue := mkKeyValue { kv_key : gostring; kv_value : gostring }.

#[global] Instance keyValue_eq_dec : EqDecision keyValue.
Proof. solve_decision. Defined.

Abbreviation slots := (gmap gostring (list keyValue)).

(** The order of the loops [for k, data := range c.data]: any enumeration of
    the map's entries, at each moment and for each collection. *)
Class MapOrder := {
  range_order {V : Type} : nat -> RuleVariable -> gmap gostring V -> list (gostring * V);
  range_order_perm {V : Type} t v (m : gmap gostring V) :
    range_order t v m ≡ₚ map_to_list m;
}.

Record Map := mkMap {
  isCaseSensitive : bool;
  data : slots;
  variable : RuleVariable;
}.

#[global] Instance Map_form : RecordForm Map :=
  fun m => mkMap (isCaseSensitive m) (data m) (variable m).

Section collections.
Context `{GoUnicode} `{MapOrder}.

Definition NewMap (v : RuleVariable) : Map := mkMap false ∅ v.

Definition NewCaseSensitiveKeyMap (v : RuleVariable) : Map := mkMap true ∅ v.

(** The key under which a name is stored. *)
Definition norm (c : Map) (key : gostring) : gostring :=
  if isCaseSensitive c then key else Strings.ToLower key.

Definition slot (c : Map) (k : gostring) : list keyValue := default [] (data c !! k).

Definition Map_Get (c : Map) (key : gostring) : list gostring :=
  kv_value <$> slot c (norm c key).

(** The matches of one slot, with the value or the name as the value. *)
Definition slot_matches (v : RuleVariable) (l : list keyValue) : list MatchData :=
  (fun d => newMatchData v (kv_key d) (kv_value d)) <$> l.

Definition slot_names (v : RuleVariable) (l : list keyValue) : list MatchData :=
  (fun d => newMatchData v (kv_key d) (kv_key d)) <$> l.

Definition Map_FindRegex (t : nat) (c : Map) (rx : Regexp) : list MatchData :=
  flat_map (fun kd => if rx (fst kd) then slot_matches (variable c) (snd kd) else [])
    (range_order t (variable c) (data c)).

Definition Map_FindAll (t : nat) (c : Map) : list MatchData :=
  flat_map (fun kd => slot_matches (variable c) (snd kd))
    (range_order t (variable c) (data c)).

Definition Map_FindString (t : nat) (c : Map) (key : gostring) : list MatchData :=
  if bool_decide (key = []) then Map_FindAll t c
  else slot_matches (variable c) (slot c (norm c key)).

Definition Map_Add (c : Map) (key value : gostring) : Map :=
  let k := norm c key in
  c <| data := <[k := slot c k ++ [mkKeyValue key value]]> (data c) |>.

Definition Map_Set (c : Map) (key : gostring) (values : list gostring) : Map :=
  c <| data := <[norm c key := mkKeyValue key <$> values]> (data c) |>.

(** The index is never negative in the sources. *)
Definition Map_SetIndex (c : Map) (key : gostring) (index : nat) (value : gostring) : Map :=
  let k := norm c key in
  let values := slot c k in
  let av := mkKeyValue key value in
  c <| data :=
    <[k := if bool_decide (values = []) then [av]
           else if bool_decide (length values <= index)%nat then values ++ [av]
           else <[index := av]> values]> (data c) |>.

Definition Map_Remove (c : Map) (key : gostring) : Map :=
  c <| data := delete (norm c key) (data c) |>.

Definition Map_Reset (c : Map) : Map := c <| data := ∅ |>.

Definition Map_Len (c : Map) : Z := Z.of_nat (size (data c)).

(** [NamedCollection.Data] (internal/collections/named.go): the values by
    stored key. *)
Definition NamedCollection_Data (c : Map) : gmap gostring (list gostring) :=
  (fun l : list keyValue => kv_value <$> l) <$> data c.

(** ** Views (named.go, concat.go, sized.go) *)

(** A collection whose elements can be selected by key: a map, a named
    collection, its names, or a concatenation of such collections. *)
Inductive Keyed :=
| KMap (c : Map)
| KNamed (c : Map)
| KNames (v : RuleVariable) (c : Map)
| KConcat (v : RuleVariable) (l : list Keyed).

Definition Names_FindRegex (t : nat) (v : RuleVariable) (c : Map) (rx : Regexp) :=
  flat_map (fun kd => if negb (rx (fst kd)) then [] else slot_names v (snd kd))
    (range_order t v (data c)).

Definition Names_FindString (t : nat) (v : RuleVariable) (c : Map) (key : gostring) :=
  flat_map (fun kd => if bool_decide (fst kd <> key) then [] else slot_names v (snd kd))
    (range_order t v (data c)).

Definition Names_FindAll (t : nat) (v : RuleVariable) (c : Map) : list MatchData :=
  flat_map (fun kd => slot_names v (snd kd)) (range_order t v (data c)).

Definition replaceVariable (v : RuleVariable) (md : list MatchData) : list MatchData :=
  (fun m => m <| Variable_ := v |>) <$> md.

Fixpoint Keyed_Get (k : Keyed) (key : gostring) : list gostring :=
  match k with
  | KMap c | KNamed c | KNames _ c => Map_Get c key
  | KConcat _ l => flat_map (fun d => Keyed_Get d (Strings.ToLower key)) l
  end.

Fixpoint Keyed_FindRegex (t : nat) (k : Keyed) (rx : Regexp) : list MatchData :=
  match k with
  | KMap c | KNamed c => Map_FindRegex t c rx
  | KNames v c => Names_FindRegex t v c rx
  | KConcat v l => flat_map (fun d => replaceVariable v (Keyed_FindRegex t d rx)) l
  end.

Fixpoint Keyed_FindString (t : nat) (k : Keyed) (key : gostring) : list MatchData :=
  match k with
  | KMap c | KNamed c => Map_FindString t c key
  | KNames v c => Names_FindString t v c key
  | KConcat v l => flat_map (fun d => replaceVariable v (Keyed_FindString t d key)) l
  end.

Fixpoint Keyed_FindAll (t : nat) (k : Keyed) : list MatchData :=
  match k with
  | KMap c | KNamed c => Map_FindAll t c
  | KNames v c => Names_FindAll t v c
  | KConcat v l => flat_map (fun d => replaceVariable v (Keyed_FindAll t d)) l
  end.

(** [SizeCollection.size]: the bytes of all keys and values. *)
Definition kv_size (d : keyValue) : Z := zlen (kv_key d) + zlen (kv_value d).

Definition slot_size (l : list keyValue) : Z := foldr Z.add 0 (kv_size <$> l).

Definition Map_size (t : nat) (v : RuleVariable) (c : Map) : Z :=
  foldr Z.add 0 ((fun kd => slot_size (snd kd)) <$> range_order t v (data c)).

Definition SizeCollection_size (t : nat) (v : RuleVariable) (l : list Map) : Z :=
  wrap64 (foldr Z.add 0 (Map_size t v <$> l)).

(** ** The collections a variable can stand for *)

Inductive Collection :=
| CSingle (v : RuleVariable) (s : gostring)
| CKeyed (k : Keyed)
| CSize (v : RuleVariable) (l : list Map)
| CNoop.

Definition FindAll (t : nat) (c : Collection) : list MatchData :=
  match c with
  | CSingle v s => [newMatchData v [] s]
  | CKeyed k => Keyed_FindAll t k
  | CSize v l => [newMatchData v [] (Strconv.Itoa (SizeCollection_size t v l))]
  | CNoop => []
  end.
End collections.

(** ** Properties of the stores *)

Section facts.
Context `{GoUnicode} `{MapOrder}.

Lemma slot_insert c k l k' :
  slot (c <| data := <[k := l]> (data c) |>) k' = if decide (k = k') then l else slot c k'.
Proof. unfold slot. simpl. rewrite lookup_insert. by case_decide. Qed.

(** The entries of a slot carry names that are stored under that slot. *)
Definition Map_wf (c : Map) : Prop :=
  map_Forall (fun k l => Forall (fun d => norm c (kv_key d) = k) l) (data c).

Lemma Map_wf_slot c k : Map_wf c -> Forall (fun d => norm c (kv_key d) = k) (slot c k).
Proof.
  intros Hc. unfold slot. destruct (data c !! k) as [l|] eqn:E; simpl; [|constructor].
  apply (Hc k l E).
Qed.

Lemma Map_wf_insert c k l :
  Map_wf c -> Forall (fun d => norm c (kv_key d) = k) l ->
  Map_wf (c <| data := <[k := l]> (data c) |>).
Proof.
  intros Hc Hl k' l'. simpl. rewrite lookup_insert_Some.
  intros [[<- <-]|[_ E]]; [done|]. apply (Hc k' l' E).
Qed.

Lemma Map_wf_new v : Map_wf (NewMap v) /\ Map_wf (NewCaseSensitiveKeyMap v).
Proof. split; apply map_Forall_empty. Qed.

Lemma Map_wf_Add c k v : Map_wf c -> Map_wf (Map_Add c k v).
Proof.
  intros Hc. apply Map_wf_insert; [done|].
  apply Forall_app. split; [by apply Map_wf_slot|]. by constructor.
Qed.

Lemma Map_wf_Set c k vs : Map_wf c -> Map_wf (Map_Set c k vs).
Proof.
  intros Hc. apply Map_wf_insert; [done|].
  rewrite Forall_fmap. by apply Forall_forall.
Qed.

Lemma Map_wf_SetIndex c k i v : Map_wf c -> Map_wf (Map_SetIndex c k i v).
Proof.
  intros Hc. apply Map_wf_insert; [done|].
  pose proof (Map_wf_slot c (norm c k) Hc).
  repeat case_bool_decide; [by constructor|apply Forall_app; split; [done|by constructor]|].
  by apply Forall_insert.
Qed.

Lemma Map_wf_Remove c k : Map_wf c -> Map_wf (Map_Remove c k).
Proof. intros Hc. by apply map_Forall_delete. Qed.

Lemma Map_wf_Reset c : Map_wf (Map_Reset c).
Proof. apply map_Forall_empty. Qed.

(** What is added under a name is found under every spelling of it, after
    what was there; other names are not touched. *)
Lemma Map_Get_Add c k v k' :
  Map_Get (Map_Add c k v) k' =
  if decide (norm c k = norm c k') then Map_Get c k' ++ [v] else Map_Get c k'.
Proof.
  unfold Map_Get, Map_Add. rewrite slot_insert. cbn [isCaseSensitive norm].
  change (norm _ k') with (norm c k').
  case_decide as E; [|done]. by rewrite fmap_app, E.
Qed.

Lemma Map_Get_Set c k vs k' :
  Map_Get (Map_Set c k vs) k' =
  if decide (norm c k = norm c k') then vs else Map_Get c k'.
Proof.
  unfold Map_Get, Map_Set. rewrite slot_insert. change (norm _ k') with (norm c k').
  case_decide as E; [|done]. rewrite <- list_fmap_compose. apply list_fmap_id.
Qed.

Lemma Map_Get_Remove c k k' :
  Map_Get (Map_Remove c k) k' =
  if decide (norm c k = norm c k') then [] else Map_Get c k'.
Proof.
  unfold Map_Get, Map_Remove, slot. simpl. change (norm _ k') with (norm c k').
  rewrite lookup_delete. by case_decide.
Qed.

Lemma Map_Get_SetIndex_0 c k v k' :
  Map_Get (Map_SetIndex c k 0 v) k' =
  if decide (norm c k = norm c k') then v :: drop 1 (Map_Get c k') else Map_Get c k'.
Proof.
  unfold Map_Get, Map_SetIndex. rewrite slot_insert. change (norm _ k') with (norm c k').
  case_decide as E; [|done]. rewrite E. clear E.
  destruct (slot c (norm c k')) as [|d l]; [done|].
  rewrite bool_decide_eq_false_2 by done.
  rewrite bool_decide_eq_false_2 by (simpl; lia). done.
Qed.

Lemma Map_Get_Reset c k : Map_Get (Map_Reset c) k = [].
Proof. reflexivity. Qed.

(** *** Enumeration *)

(** Every entry of the map, as matches. *)
Definition entries (c : Map) : list keyValue :=
  concat (snd <$> map_to_list (data c)).

Lemma flat_map_perm {A B} (f : A -> list B) (l l' : list A) :
  l ≡ₚ l' -> flat_map f l ≡ₚ flat_map f l'.
Proof.
  induction 1; simpl; try done.
  - by apply Permutation_app_head.
  - rewrite !app_assoc. apply Permutation_app_tail, Permutation_app_comm.
  - by etrans.
Qed.

Lemma flat_map_slots {B} (g : keyValue -> B) (l : list (gostring * list keyValue)) :
  flat_map (fun kd => g <$> snd kd) l = g <$> concat (snd <$> l).
Proof.
  induction l as [|[k d] l IH]; [done|]. simpl. by rewrite fmap_app, IH.
Qed.

(** Whatever the iteration order, [FindAll] yields each stored pair once. *)
Lemma Map_FindAll_perm t c :
  Map_FindAll t c ≡ₚ slot_matches (variable c) (entries c).
Proof.
  unfold Map_FindAll, slot_matches, entries.
  rewrite (flat_map_perm _ _ _ (range_order_perm t (variable c) (data c))).
  by rewrite flat_map_slots.
Qed.

Lemma Names_FindAll_perm t v c : Names_FindAll t v c ≡ₚ slot_names v (entries c).
Proof.
  unfold Names_FindAll, slot_names, entries.
  rewrite (flat_map_perm _ _ _ (range_order_perm t v (data c))).
  by rewrite flat_map_slots.
Qed.

Lemma entries_insert c k l :
  entries (c <| data := <[k := slot c k ++ l]> (data c) |>) ≡ₚ entries c ++ l.
Proof.
  unfold entries, slot. simpl. destruct (data c !! k) as [l0|] eqn:E; simpl.
  - assert (<[k := l0 ++ l]> (data c) = <[k := l0 ++ l]> (delete k (data c))) as ->
      by by rewrite insert_delete_eq.
    rewrite map_to_list_insert by apply lookup_delete_eq.
    rewrite <- (insert_id (data c) k l0 E) at 2.
    rewrite <- (insert_delete_eq (data c) k l0).
    rewrite (map_to_list_insert (delete k (data c)) k l0) by apply lookup_delete_eq.
    simpl. rewrite <- !app_assoc. apply Permutation_app_head, Permutation_app_comm.
  - rewrite map_to_list_insert by done. simpl. apply Permutation_app_comm.
Qed.

(** Adding a pair adds exactly one match to the enumeration. *)
Lemma Map_FindAll_Add t t' c k v :
  Map_FindAll t (Map_Add c k v) ≡ₚ Map_FindAll t' c ++ [newMatchData (variable c) k v].
Proof.
  rewrite !Map_FindAll_perm. change (variable (Map_Add c k v)) with (variable c).
  unfold slot_matches, Map_Add. cbv zeta. rewrite entries_insert. by rewrite fmap_app.
Qed.

(** Selecting a non-empty name returns exactly the entries whose name is
    stored under the same key, in insertion order. *)
Lemma Map_FindString_spec t c key :
  key <> [] -> Map_wf c ->
  Map_FindString t c key = slot_matches (variable c) (slot c (norm c key)) /\
  Forall (fun m => norm c (Key_ m) = norm c key) (Map_FindString t c key).
Proof.
  intros Hk Hc. unfold Map_FindString. rewrite bool_decide_eq_false_2 by done.
  split; [done|]. unfold slot_matches. rewrite Forall_fmap.
  exact (Map_wf_slot c (norm c key) Hc).
Qed.

Lemma sum_list_perm (l l' : list Z) : l ≡ₚ l' -> foldr Z.add 0 l = foldr Z.add 0 l'.
Proof. induction 1; simpl; lia. Qed.

Lemma slot_size_app l l' : slot_size (l ++ l') = slot_size l + slot_size l'.
Proof.
  unfold slot_size. rewrite fmap_app. induction (kv_size <$> l); simpl in *; lia.
Qed.

Lemma Map_size_entries t v c : Map_size t v c = slot_size (entries c).
Proof.
  unfold Map_size, entries.
  rewrite (sum_list_perm _ _ (fmap_Permutation _ _ _ (range_order_perm t v (data c)))).
  induction (map_to_list (data c)) as [|[k d] l IH]; [done|].
  rewrite !fmap_cons. cbn [foldr concat snd]. rewrite slot_size_app. lia.
Qed.

(** The size of a map counts the bytes of the added pair, independently of
    the iteration order. *)
Lemma Map_size_Add t t' v c k x :
  Map_size t v (Map_Add c k x) = Map_size t' v c + zlen k + zlen x.
Proof.
  rewrite !Map_size_entries. unfold Map_Add.
  assert (forall l l', l ≡ₚ l' -> slot_size l = slot_size l') as Hp.
  { intros l l' Hl. apply sum_list_perm. by rewrite Hl. }
  rewrite (Hp _ _ (entries_insert c (norm c k) [mkKeyValue k x])).
  rewrite slot_size_app. unfold slot_size at 2. simpl. unfold kv_size. simpl. lia.
Qed.
End facts.
