(* ===== verification/BodyBuffer.v ===== *)
(** * Body buffers (internal/corazawaf/body_buffer.go)

    [BodyBuffer] keeps a body in memory up to [MemoryLimit] bytes and in a
    temporary file beyond; it hands out readers that it can close.  The
    operating system may refuse to create, write, close or remove the file:
    every call takes the outcomes of its system calls from an [OsEnv].  The
    buffer implements an append-only byte sequence bounded by [Limit]. *)

From stdpp Require Import options.
From S2P Require Import Prelude GoLib Types.
Import types.

(** Errors of the buffer. *)
Inductive BufErr :=
| ErrLimitReached
| ErrMemoryLimitReached
| ErrCreateTemp
| ErrFileWrite
| ErrFileClose
| ErrFileRemove
| EOF.

#[global] Instance BufErr_eq_dec : EqDecision BufErr.
Proof. solve_decision. Defined.

(** An open temporary file: its content and the position of its cursor. *)
Record File := mkFile { fcontent : gostring; foffset : nat }.

#[global] Instance File_eq_dec : EqDecision File.
Proof. solve_decision. Defined.

(** Outcomes of the system calls of one operation.  A short write stops after
    the given number of bytes and reports an error. *)
Record OsEnv := mkOsEnv {
  create_ok : bool;
  dump_short : option nat;
  write_short : option nat;
  close_ok : bool;
  remove_ok : bool;
}.

Definition os_ok : OsEnv := mkOsEnv true None None true true.

(** [os.File.Write] at the cursor, which is at the end of the file. *)
Definition File_Write (short : option nat) (f : File) (d : gostring) : File * Z * option BufErr :=
  let n := match short with None => length d | Some n => Nat.min n (length d) end in
  (mkFile (take (foffset f) (fcontent f) ++ take n d ++ drop (foffset f + n) (fcontent f))
          (foffset f + n),
   Z.of_nat n,
   match short with None => None | Some _ => Some ErrFileWrite end).

(** [os.File.Read] with a slice of [n] bytes, at the cursor. *)
Definition File_Read (f : File) (n : nat) : File * gostring * option BufErr :=
  let d := take n (drop (foffset f) (fcontent f)) in
  (mkFile (fcontent f) (foffset f + length d), d,
   if bool_decide (d = [] /\ n <> 0%nat) then Some EOF else None).

(** [os.File.ReadAt] does not move the cursor and reports a short read. *)
Definition File_ReadAt (f : File) (n off : nat) : gostring * option BufErr :=
  let d := take n (drop off (fcontent f)) in
  (d, if bool_decide (length d < n)%nat then Some EOF else None).

(** [bodyBufferReader]: its position and whether it is still attached. *)
Record bodyBufferReader := mkReader { pos : nat; attached : bool }.

#[global] Instance bodyBufferReader_eq_dec : EqDecision bodyBufferReader.
Proof. solve_decision. Defined.

(** [BodyBuffer]; a reader is named by its index in [readers], which keeps
    the detached ones too, since connectors may still hold them. *)
Record BodyBuffer := mkBodyBuffer {
  options : BodyBufferOptions;
  buffer : gostring;
  writer : option File;
  length_ : Z;
  readers : list bodyBufferReader;
}.

#[global] Instance BodyBuffer_eq_dec : EqDecision BodyBuffer.
Proof. solve_decision. Defined.

#[global] Instance BodyBuffer_form : RecordForm BodyBuffer :=
  fun b => mkBodyBuffer (options b) (buffer b) (writer b) (length_ b) (readers b).

Definition NewBodyBuffer (o : BodyBufferOptions) : BodyBuffer := mkBodyBuffer o [] None 0 [].

Section body_buffer.
(** [environment.HasAccessToFS]. *)
Context (HasAccessToFS : bool).

Definition Write (env : OsEnv) (br : BodyBuffer) (d : gostring)
  : BodyBuffer * Z * option BufErr :=
  if bool_decide (d = []) then (br, 0, None)
  else if wrap64 (Limit (options br) - zlen d) <? length_ br then (br, 0, Some ErrLimitReached)
  else
    let targetLen := wrap64 (length_ br + zlen d) in
    if MemoryLimit (options br) <? targetLen then
      if negb HasAccessToFS then (br, 0, Some ErrMemoryLimitReached)
      else
        match writer br with
        | None =>
          if negb (create_ok env) then (br, 0, Some ErrCreateTemp)
          else
            let '(f, _, err) := File_Write (dump_short env) (mkFile [] 0) (buffer br) in
            match err with
            | Some e => (br <| writer := Some f |>, 0, Some e)
            | None =>
              let '(f', n, err') := File_Write (write_short env) f d in
              (br <| buffer := [] |> <| length_ := targetLen |> <| writer := Some f' |>, n, err')
            end
        | Some f =>
          let '(f', n, err') := File_Write (write_short env) f d in
          (br <| length_ := targetLen |> <| writer := Some f' |>, n, err')
        end
    else (br <| length_ := targetLen |> <| buffer := buffer br ++ d |>, zlen d, None).

(** [WriteTo] into a writer that accepts everything it is given: the bytes
    handed over, or the error. *)
Definition WriteTo (br : BodyBuffer) : BodyBuffer * gostring * option BufErr :=
  match writer br with
  | None => (br <| buffer := [] |>, buffer br, None)
  | Some f =>
    let '(f', d, err) := File_Read f (Z.to_nat (length_ br)) in
    match err with
    | Some e => (br <| writer := Some f' |>, [], Some e)
    | None => (br <| writer := Some f' |>, d, None)
    end
  end.

(** [Reader]: the new reader's index. *)
Definition Reader (br : BodyBuffer) : BodyBuffer * nat :=
  (br <| readers := readers br ++ [mkReader 0 true] |>, length (readers br)).

Definition set_reader (br : BodyBuffer) (i : nat) (r : bodyBufferReader) : BodyBuffer :=
  br <| readers := <[i := r]> (readers br) |>.

(** [bodyBufferReader.Read] into a slice of [n] bytes. *)
Definition Read (br : BodyBuffer) (i n : nat)
  : outcome (BodyBuffer * gostring * option BufErr) :=
  match readers br !! i with
  | None => Panic
  | Some r =>
    if negb (attached r) then Ok (br, [], Some EOF)
    else
      let memory :=
        let n' := if bool_decide (length (buffer br) < pos r + n)%nat
                  then Z.of_nat (length (buffer br)) - Z.of_nat (pos r) else Z.of_nat n in
        if n' =? 0 then Ok (br, [], Some EOF)
        else if n' <? 0 then Panic
        else
          let d := take (Z.to_nat n') (drop (pos r) (buffer br)) in
          Ok (set_reader br i (mkReader (pos r + length d) true), d, None) in
      if negb HasAccessToFS then memory
      else match writer br with
      | None => memory
      | Some f =>
        let '(d, err) := File_ReadAt f n (pos r) in
        Ok (set_reader br i (mkReader (pos r + length d) true), d, err)
      end
  end.

Definition Size (br : BodyBuffer) : Z := length_ br.

Definition Reset (env : OsEnv) (br : BodyBuffer) : BodyBuffer * option BufErr :=
  let br1 := br <| buffer := [] |> <| length_ := 0 |>
                <| readers := (fun _ => mkReader 0 false) <$> readers br |> in
  if HasAccessToFS then
    match writer br with
    | None => (br1, None)
    | Some _ =>
      (br1 <| writer := None |>,
       if negb (close_ok env) then Some ErrFileClose
       else if negb (remove_ok env) then Some ErrFileRemove else None)
    end
  else (br1, None).

(** [io.ReadAll]: read chunks of [n] bytes until the reader reports the end
    of the body or another error. *)
Fixpoint ReadAll (fuel : nat) (br : BodyBuffer) (i n : nat) (acc : gostring)
  : outcome (BodyBuffer * gostring * option BufErr) :=
  match fuel with
  | O => Panic
  | S fuel =>
    match Read br i n with
    | Panic => Panic
    | Ok (br', d, Some EOF) => Ok (br', acc ++ d, None)
    | Ok (br', d, Some e) => Ok (br', acc ++ d, Some e)
    | Ok (br', d, None) => ReadAll fuel br' i n (acc ++ d)
    end
  end.
End body_buffer.

(** ** The specification: a bounded byte sequence *)

(** What the buffer holds, wherever it is. *)
Definition contents (br : BodyBuffer) : gostring :=
  match writer br with Some f => fcontent f | None => buffer br end.

(** The specification state is a byte sequence with a bound. *)
Module spec.
Definition write (lim : Z) (c d : gostring) : gostring * Z * option BufErr :=
  if bool_decide (d = []) then (c, 0, None)
  else if lim <? zlen c + zlen d then (c, 0, Some ErrLimitReached)
  else (c ++ d, zlen d, None).
End spec.

(** The representation invariant. *)
Record Buf_inv (br : BodyBuffer) : Prop := {
  inv_options : 0 <= Limit (options br) <= maxInt64 /\ 0 <= MemoryLimit (options br);
  inv_length : length_ br = zlen (contents br);
  inv_limit : length_ br <= Limit (options br);
  inv_memory : writer br = None -> length_ br <= MemoryLimit (options br);
  inv_file : forall f, writer br = Some f ->
    buffer br = [] /\ foffset f = length (fcontent f) /\ MemoryLimit (options br) < length_ br;
}.

Section facts.
Lemma File_Write_append f d :
  foffset f = length (fcontent f) ->
  File_Write None f d =
  (mkFile (fcontent f ++ d) (length (fcontent f ++ d)), zlen d, None).
Proof.
  intros Hf. unfold File_Write. rewrite Hf, take_ge by lia.
  rewrite (take_ge d) by lia. rewrite drop_ge by lia.
  rewrite app_nil_r, length_app. done.
Qed.

Lemma Buf_inv_new o :
  0 <= Limit o <= maxInt64 -> 0 <= MemoryLimit o -> Buf_inv (NewBodyBuffer o).
Proof. intros. constructor; simpl; try done; lia. Qed.

(** The limit test of [Write] cannot overflow in a well-formed buffer: it
    rejects exactly the writes that would exceed the limit. *)
Lemma Write_limit_test br (d : gostring) :
  Buf_inv br -> zlen d <= maxInt64 ->
  (wrap64 (Limit (options br) - zlen d) <? length_ br) =
  (Limit (options br) <? zlen (contents br) + zlen d).
Proof.
  intros [Ho Hl Hm _ _] Hd. rewrite wrap64_id.
  - rewrite <- Hl. destruct (Z.ltb_spec (Limit (options br)) (length_ br + zlen d));
      [apply Z.ltb_lt|apply Z.ltb_ge]; lia.
  - pose proof (zlen_nonneg d). unfold in_int64, maxInt64 in *. lia.
Qed.

(** With a working file system, [Write] refines the specification: same
    result, same abstract content, and the invariant is kept. *)
Lemma Write_refines br (d : gostring) br' n err :
  Buf_inv br -> zlen d <= maxInt64 ->
  Write true os_ok br d = (br', n, err) ->
  Buf_inv br' /\ options br' = options br /\ readers br' = readers br /\
  spec.write (Limit (options br)) (contents br) d = (contents br', n, err).
Proof.
  intros Hi Hd. unfold Write, spec.write. cbn [os_ok create_ok dump_short write_short].
  case_bool_decide as Hnil; [intros; by simplify_eq|].
  rewrite Write_limit_test by done.
  destruct (Z.ltb_spec (Limit (options br)) (zlen (contents br) + zlen d)) as [|Hlim];
    [intros; by simplify_eq|].
  pose proof Hi as [Ho Hl Hm Hmem Hf]. pose proof (zlen_nonneg d).
  pose proof (zlen_nonneg (contents br)).
  rewrite wrap64_id by (unfold in_int64, maxInt64 in *; lia).
  assert (forall br1 c, options br1 = options br -> contents br1 = c ++ d ->
    c = contents br -> length_ br1 = length_ br + zlen d ->
    (writer br1 = None -> length_ br1 <= MemoryLimit (options br)) ->
    (forall f, writer br1 = Some f -> buffer br1 = [] /\ foffset f = length (fcontent f) /\
       MemoryLimit (options br) < length_ br1) -> Buf_inv br1) as Hmk.
  { intros br1 c Eo Ec -> El Hm1 Hf1. constructor; rewrite ?Eo; try done.
    - rewrite El, Ec, zlen_app. lia.
    - lia. }
  destruct (Z.ltb_spec (MemoryLimit (options br)) (length_ br + zlen d)).
  - destruct (writer br) as [f|] eqn:Ew; cbn [negb].
    + destruct (Hf f eq_refl) as (Hb & Hoff & Hgt). rewrite File_Write_append by done.
      intros ?; simplify_eq. split_and!; try done.
      * apply (Hmk _ (fcontent f)); simpl; try done; [by unfold contents; rewrite Ew|].
        intros f' [= <-]. simpl. split_and!; try done; lia.
      * unfold contents. by rewrite Ew.
    + rewrite !File_Write_append by done. cbn [fcontent app].
      intros ?; simplify_eq. split_and!; try done.
      * apply (Hmk _ (buffer br)); simpl; try done; [by unfold contents; rewrite Ew|].
        intros f' [= <-]. simpl. split_and!; try done; lia.
      * unfold contents. by rewrite Ew.
  - assert (writer br = None) as Ew.
    { destruct (writer br) eqn:Ew; [|done]. destruct (Hf _ eq_refl) as (_ & _ & ?). lia. }
    intros ?; simplify_eq. split_and!; try done.
    + apply (Hmk _ (buffer br)); simpl; try done;
        [by unfold contents; simpl; rewrite Ew|by unfold contents; rewrite Ew|].
      intros f Hf'. congruence.
    + unfold contents. simpl. by rewrite Ew.
Qed.

(** A read returns the next bytes of the content and advances the reader. *)
Lemma Read_spec br i n r :
  Buf_inv br -> readers br !! i = Some r -> attached r = true ->
  (pos r <= length (contents br))%nat -> (0 < n)%nat ->
  exists br' err, let d := take n (drop (pos r) (contents br)) in
    Read true br i n = Ok (br', d, err) /\
    br' = set_reader br i (mkReader (pos r + length d) true) /\
    (err = None -> d <> []) /\
    (err = None \/ (err = Some EOF /\ drop (pos r + length d) (contents br) = [])).
Proof.
  intros Hi Hr Ha Hp Hn. unfold Read. rewrite Hr, Ha. cbn [negb].
  destruct (writer br) as [f|] eqn:Ew; unfold contents in *; rewrite Ew in *.
  - eexists _, _. simpl. split; [reflexivity|]. split; [done|].
    set (d := take n (drop (pos r) (fcontent f))).
    assert (length d = Nat.min n (length (fcontent f) - pos r)) as Hd
      by (unfold d; rewrite length_take, length_drop; lia).
    case_bool_decide; split; try done.
    + right. split; [done|]. apply drop_ge. lia.
    + intros _ E. rewrite E in *. simpl in *. lia.
    + by left.
  - set (d := take n (drop (pos r) (buffer br))).
    assert (length d = Nat.min n (length (buffer br) - pos r)) as Hd
      by (unfold d; rewrite length_take, length_drop; lia).
    case_bool_decide as Hlt.
    + destruct (decide (pos r = length (buffer br))) as [Hpe|Hpe].
      * exists br, (Some EOF). simpl. rewrite (proj2 (Z.eqb_eq _ 0)) by lia.
        assert (d = []) as -> by (apply length_zero_iff_nil; lia).
        split_and!; try done.
        -- simpl. rewrite Nat.add_0_r. unfold set_reader. destruct br; simpl in *.
           f_equal. symmetry. apply list_insert_id. rewrite Hr. f_equal.
           destruct r; simpl in *; congruence.
        -- right. split; [done|]. simpl. apply drop_ge. lia.
      * eexists _, None. simpl. rewrite (proj2 (Z.eqb_neq _ 0)) by lia.
        rewrite (proj2 (Z.ltb_ge _ 0)) by lia.
        replace (take (Z.to_nat _) (drop (pos r) (buffer br))) with d.
        -- split_and!; try done; [|by left]. intros _ E. rewrite E in Hd. simpl in Hd. lia.
        -- unfold d. rewrite !take_ge; [done|rewrite length_drop; lia..].
    + eexists _, None. simpl. rewrite (proj2 (Z.eqb_neq _ 0)) by lia.
      rewrite (proj2 (Z.ltb_ge _ 0)) by lia. rewrite Nat2Z.id.
      split_and!; try done; [|by left]. intros _ E. rewrite E in Hd. simpl in Hd. lia.
Qed.

Lemma set_reader_inv br i r : Buf_inv br -> Buf_inv (set_reader br i r).
Proof. intros []. by constructor. Qed.

(** [io.ReadAll] on an attached reader terminates and returns everything
    from the reader's position on, in memory or on disk. *)
Lemma ReadAll_from br i n r acc fuel :
  Buf_inv br -> readers br !! i = Some r -> attached r = true ->
  (pos r <= length (contents br))%nat -> (0 < n)%nat ->
  (length (contents br) - pos r < fuel)%nat ->
  exists br', ReadAll true fuel br i n acc =
    Ok (br', acc ++ drop (pos r) (contents br), None) /\
    Buf_inv br' /\ contents br' = contents br.
Proof.
  revert br r acc. induction fuel as [|fuel IH]; intros br r acc Hi Hr Ha Hp Hn Hf; [lia|].
  destruct (Read_spec br i n r Hi Hr Ha Hp Hn) as (br' & err & HR & -> & Hnone & Herr).
  cbn [ReadAll]. rewrite HR.
  set (d := take n (drop (pos r) (contents br))) in *.
  assert (drop (pos r) (contents br) = d ++ drop (pos r + length d) (contents br)) as Hsplit.
  { rewrite <- drop_drop. unfold d. rewrite length_take.
    rewrite <- (take_drop n (drop (pos r) (contents br))) at 1. f_equal.
    destruct (decide (n <= length (drop (pos r) (contents br)))%nat).
    - by rewrite Nat.min_l by lia.
    - rewrite Nat.min_r by lia. by rewrite !drop_ge by lia. }
  assert (length d <= length (contents br) - pos r)%nat as Hdl.
  { apply (f_equal length) in Hsplit. rewrite length_app, !length_drop in Hsplit. lia. }
  destruct Herr as [->|[-> Hend]].
  - specialize (Hnone eq_refl).
    assert (0 < length d)%nat by (destruct d; [done|simpl; lia]).
    destruct (IH (set_reader br i (mkReader (pos r + length d) true))
                 (mkReader (pos r + length d) true) (acc ++ d))
      as (br' & HA & Hi' & Hc'); simpl.
    + by apply set_reader_inv.
    + apply list_lookup_insert_eq. by eapply lookup_lt_Some.
    + done.
    + change (contents (set_reader _ _ _)) with (contents br). lia.
    + done.
    + change (contents (set_reader _ _ _)) with (contents br). lia.
    + exists br'. rewrite HA. rewrite <- app_assoc.
      change (contents (set_reader _ _ _)) with (contents br). cbn [pos].
      by rewrite <- Hsplit.
  - eexists. split; [|split; [by apply set_reader_inv|done]].
    rewrite Hsplit, Hend, app_nil_r. done.
Qed.

Lemma Reset_spec env br br' err :
  Reset true env br = (br', err) ->
  contents br' = [] /\ length_ br' = 0 /\ options br' = options br /\
  Forall (fun r => attached r = false) (readers br').
Proof.
  unfold Reset. destruct (writer br) eqn:Ew; intros ?; simplify_eq; unfold contents; simpl;
    rewrite ?Ew; split_and!; try done; apply Forall_fmap, Forall_forall; done.
Qed.
End facts.
