(* ===== verification/Transaction.v ===== *)
(** * Transaction state (internal/corazawaf/transaction.go)

    The variables of a transaction, the collection behind each variable
    ([Collection]), the transaction record and the monad of computations that
    read and change it and may panic. *)

From stdpp Require Import options.
From S2P Require Import Prelude GoLib Variables Types Collections BodyBuffer.
Import variables types.

(** ** Variables *)

(** [TransactionVariables]: the values of the single variables and the maps of
    the others, by the variable they were created with. *)
Record TransactionVariables := mkVariables {
  singles : RuleVariable -> gostring;
  maps : RuleVariable -> Map;
}.

#[global] Instance TransactionVariables_form : RecordForm TransactionVariables :=
  fun v => mkVariables (singles v) (maps v).

(** [NewTransactionVariables]; [cs] is the build option
    [shouldUseCaseSensitiveNamedCollection]. *)
Definition NewTransactionVariables (cs : bool) : TransactionVariables :=
  mkVariables (fun _ => [])
    (fun v => match v with
              | ArgsGet | ArgsPost | ArgsPath =>
                if cs then NewCaseSensitiveKeyMap v else NewMap v
              | _ => NewMap v
              end).

Definition single_get (v : RuleVariable) (vs : TransactionVariables) : gostring := singles vs v.

Definition single_set (v : RuleVariable) (s : gostring) (vs : TransactionVariables)
  : TransactionVariables := vs <| singles := <[v := s]> (singles vs) |>.

Definition map_upd (v : RuleVariable) (f : Map -> Map) (vs : TransactionVariables)
  : TransactionVariables := vs <| maps := <[v := f (maps vs v)]> (maps vs) |>.

(** [Transaction.Collection]; [None] is the [nil] that stands for JSON. *)
Definition Collection_of (vs : TransactionVariables) (idx : RuleVariable) : option Collection :=
  match idx with
  | ResponseContentType | UniqueID | FilesCombinedSize | FullRequestLength
  | InboundDataError | MatchedVar | MatchedVarName | MultipartDataAfter
  | OutboundDataError | QueryString | RemoteAddr | RemoteHost
  | RemotePort | ReqbodyError | ReqbodyErrorMsg | ReqbodyProcessorError
  | ReqbodyProcessorErrorMsg | ReqbodyProcessor | RequestBasename | RequestBody
  | RequestBodyLength | RequestFilename | RequestLine | RequestMethod
  | RequestProtocol | RequestURI | RequestURIRaw | ResponseBody
  | ResponseContentLength | ResponseProtocol | ResponseStatus | ServerAddr
  | ServerName | ServerPort | HighestSeverity | StatusLine
  | Duration | ResBodyProcessor | UrlencodedError | MultipartStrictError
  | Time | TimeDay | TimeEpoch | TimeHour
  | TimeMin | TimeMon | TimeSec | TimeWday
  | TimeYear
    => Some (CSingle idx (singles vs idx))
  | FilesSizes | FilesNames | FilesTmpContent | MultipartFilename
  | MultipartName | Files | Geo | FilesTmpNames
  | TX | Rule | Env | ResponseArgs
  | ResponseXML | RequestXML | MultipartPartHeaders
    => Some (CKeyed (KMap (maps vs idx)))
  | ArgsGet | ArgsPost | ArgsPath | MatchedVars
  | RequestCookies | RequestHeaders | ResponseHeaders
    => Some (CKeyed (KNamed (maps vs idx)))
  | ArgsCombinedSize =>
    Some (CSize ArgsCombinedSize [maps vs ArgsGet; maps vs ArgsPost])
  | ResponseHeadersNames =>
    Some (CKeyed (KNames ResponseHeadersNames (maps vs ResponseHeaders)))
  | RequestHeadersNames =>
    Some (CKeyed (KNames RequestHeadersNames (maps vs RequestHeaders)))
  | Args =>
    Some (CKeyed (KConcat Args
      [KNamed (maps vs ArgsGet); KNamed (maps vs ArgsPost); KNamed (maps vs ArgsPath)]))
  | MatchedVarsNames =>
    Some (CKeyed (KNames MatchedVarsNames (maps vs MatchedVars)))
  | RequestCookiesNames =>
    Some (CKeyed (KNames RequestCookiesNames (maps vs RequestCookies)))
  | ArgsNames =>
    Some (CKeyed (KConcat ArgsNames
      [KNames ArgsGetNames (maps vs ArgsGet); KNames ArgsPostNames (maps vs ArgsPost);
       KNames Unknown (maps vs ArgsPath)]))
  | ArgsGetNames =>
    Some (CKeyed (KNames ArgsGetNames (maps vs ArgsGet)))
  | ArgsPostNames =>
    Some (CKeyed (KNames ArgsPostNames (maps vs ArgsPost)))
  | XML =>
    Some (CKeyed (KMap (maps vs RequestXML)))
  | JSON => None
  | _ => Some CNoop
  end.

(** The store that [Reset] clears when the iterator [All] reaches a variable:
    a single, a map, or nothing for the views that have no [Reset]. *)
Inductive resettable := RSingle (v : RuleVariable) | RMap (v : RuleVariable) | RNone.

#[global] Instance resettable_eq_dec : EqDecision resettable.
Proof. solve_decision. Defined.

(** [TransactionVariables.All]: the variables it visits, in order, each with
    the store behind its collection. *)
Definition All : list (RuleVariable * resettable) :=
  [(Args, RNone); (ArgsCombinedSize, RNone);
   (ArgsGet, RMap ArgsGet); (ArgsGetNames, RNone);
   (ArgsNames, RNone); (ArgsPath, RMap ArgsPath);
   (ArgsPost, RMap ArgsPost); (ArgsPostNames, RNone);
   (Duration, RSingle Duration); (Env, RMap Env);
   (Files, RMap Files); (FilesCombinedSize, RSingle FilesCombinedSize);
   (FilesNames, RMap FilesNames); (FilesSizes, RMap FilesSizes);
   (FilesTmpContent, RMap FilesTmpContent); (FilesTmpNames, RMap FilesTmpNames);
   (FullRequestLength, RSingle FullRequestLength); (Geo, RMap Geo);
   (HighestSeverity, RSingle HighestSeverity); (InboundDataError, RSingle InboundDataError);
   (MatchedVar, RSingle MatchedVar); (MatchedVarName, RSingle MatchedVarName);
   (MatchedVars, RMap MatchedVars); (MatchedVarsNames, RNone);
   (MultipartDataAfter, RSingle MultipartDataAfter); (MultipartFilename, RMap MultipartFilename);
   (MultipartName, RMap MultipartName); (MultipartPartHeaders, RMap MultipartPartHeaders);
   (MultipartStrictError, RSingle MultipartStrictError); (OutboundDataError, RSingle OutboundDataError);
   (QueryString, RSingle QueryString); (RemoteAddr, RSingle RemoteAddr);
   (RemoteHost, RSingle RemoteHost); (RemotePort, RSingle RemotePort);
   (ReqbodyError, RSingle ReqbodyError); (ReqbodyErrorMsg, RSingle ReqbodyErrorMsg);
   (ReqbodyProcessor, RSingle ReqbodyProcessor); (ReqbodyProcessorError, RSingle ReqbodyProcessorError);
   (ReqbodyProcessorErrorMsg, RSingle ReqbodyProcessorErrorMsg); (RequestBasename, RSingle RequestBasename);
   (RequestBody, RSingle RequestBody); (RequestBodyLength, RSingle RequestBodyLength);
   (RequestCookies, RMap RequestCookies); (RequestCookiesNames, RNone);
   (RequestFilename, RSingle RequestFilename); (RequestHeaders, RMap RequestHeaders);
   (RequestHeadersNames, RNone); (RequestLine, RSingle RequestLine);
   (RequestMethod, RSingle RequestMethod); (RequestProtocol, RSingle RequestProtocol);
   (RequestURI, RSingle RequestURI); (RequestURIRaw, RSingle RequestURIRaw);
   (RequestXML, RMap RequestXML); (ResponseBody, RSingle ResponseBody);
   (ResponseContentLength, RSingle ResponseContentLength); (ResponseContentType, RSingle ResponseContentType);
   (ResponseHeaders, RMap ResponseHeaders); (ResponseHeadersNames, RNone);
   (ResponseProtocol, RSingle ResponseProtocol); (ResponseStatus, RSingle ResponseStatus);
   (ResponseXML, RMap ResponseXML); (ResponseArgs, RMap ResponseArgs);
   (ResBodyProcessor, RSingle ResBodyProcessor); (Rule, RMap Rule);
   (ServerAddr, RSingle ServerAddr); (ServerName, RSingle ServerName);
   (ServerPort, RSingle ServerPort); (StatusLine, RSingle StatusLine);
   (TX, RMap TX); (UniqueID, RSingle UniqueID);
   (UrlencodedError, RSingle UrlencodedError); (XML, RMap RequestXML);
   (Time, RSingle Time); (TimeDay, RSingle TimeDay);
   (TimeEpoch, RSingle TimeEpoch); (TimeHour, RSingle TimeHour);
   (TimeMin, RSingle TimeMin); (TimeMon, RSingle TimeMon);
   (TimeSec, RSingle TimeSec); (TimeWday, RSingle TimeWday);
   (TimeYear, RSingle TimeYear)].

Definition reset_one (vs : TransactionVariables) (r : resettable) : TransactionVariables :=
  match r with
  | RSingle v => single_set v [] vs
  | RMap v => map_upd v Map_Reset vs
  | RNone => vs
  end.

(** [TransactionVariables.reset]. *)
Definition variables_reset (vs : TransactionVariables) : TransactionVariables :=
  foldl reset_one vs (snd <$> All).

(** ** Rule metadata and matched rules (internal/corazarules) *)

Record RuleMetadata := mkRuleMetadata {
  ID_ : Z;
  LogID_ : gostring;
  File_ : gostring;
  Line_ : Z;
  Rev_ : gostring;
  Severity_ : RuleSeverity;
  Version_ : gostring;
  Tags_ : list gostring;
  Maturity_ : Z;
  Accuracy_ : Z;
  Operator_ : gostring;
  Phase_ : RulePhase;
  Raw_ : gostring;
  SecMark_ : gostring;
  ParentID_ : Z;
}.

#[global] Instance RuleMetadata_form : RecordForm RuleMetadata :=
  fun m => mkRuleMetadata (ID_ m) (LogID_ m) (File_ m) (Line_ m) (Rev_ m) (Severity_ m)
    (Version_ m) (Tags_ m) (Maturity_ m) (Accuracy_ m) (Operator_ m) (Phase_ m) (Raw_ m)
    (SecMark_ m) (ParentID_ m).

Inductive DisruptiveAction :=
| DisruptiveActionUnknown | DisruptiveActionAllow | DisruptiveActionDeny
| DisruptiveActionDrop | DisruptiveActionPass | DisruptiveActionRedirect.

#[global] Instance DisruptiveAction_eq_dec : EqDecision DisruptiveAction.
Proof. solve_decision. Defined.

Record MatchedRule := mkMatchedRule {
  mr_Message : gostring;
  mr_Data : gostring;
  URI_ : gostring;
  TransactionID_ : gostring;
  Disruptive_ : bool;
  DisruptiveAction_ : DisruptiveAction;
  Log_ : bool;
  ServerIPAddress_ : gostring;
  ClientIPAddress_ : gostring;
  MatchedDatas_ : list MatchData;
  Rule_ : RuleMetadata;
}.

#[global] Instance MatchedRule_form : RecordForm MatchedRule :=
  fun m => mkMatchedRule (mr_Message m) (mr_Data m) (URI_ m) (TransactionID_ m)
    (Disruptive_ m) (DisruptiveAction_ m) (Log_ m) (ServerIPAddress_ m)
    (ClientIPAddress_ m) (MatchedDatas_ m) (Rule_ m).

(** ** Rule targets (internal/corazawaf/rule.go) *)

Record ruleVariableException := mkException {
  ex_KeyStr : gostring;
  ex_KeyRx : option Regexp;
}.

Record ruleVariableParams := mkRuleVariableParams {
  rv_Count : bool;
  rv_Variable : RuleVariable;
  rv_KeyRx : option Regexp;
  rv_KeyStr : gostring;
  rv_Exceptions : list ruleVariableException;
}.

#[global] Instance ruleVariableParams_form : RecordForm ruleVariableParams :=
  fun p => mkRuleVariableParams (rv_Count p) (rv_Variable p) (rv_KeyRx p) (rv_KeyStr p) (rv_Exceptions p).

(** ** The transformation cache (internal/corazawaf/rulegroup.go) *)

(** [transformationKey]: the address of the bytes of the argument's key, the
    argument's index, its variable and the identifier of the transformation
    pipeline. *)
Definition transformationKey : Type := N * nat * RuleVariable * Z.

#[global] Instance transformationKey_eq_dec : EqDecision transformationKey.
Proof. unfold transformationKey. typeclasses eauto. Defined.

#[global] Instance transformationKey_countable : Countable transformationKey.
Proof. unfold transformationKey. typeclasses eauto. Defined.

(** [unsafe.StringData] of the key of an argument, at a moment of the
    transaction.  Which keys share their bytes depends on how the strings were
    made, so the development holds for every assignment of addresses. *)
Class StringData := unsafe_StringData : nat -> MatchData -> N.

Record transformationValue := mkTransformationValue {
  tv_arg : gostring;
  tv_errs : list gostring;
}.

(** ** Transactions *)

Record Transaction := mkTransaction {
  id : gostring;
  matchedRules : list MatchedRule;
  interruption : option Interruption;
  SkipAfter : gostring;
  AllowType_ : AllowType;
  AuditEngine : AuditEngineStatus;
  AuditLogParts : gostring;
  AuditLogFormat : gostring;
  ForceRequestBodyVariable : bool;
  RequestBodyAccess : bool;
  RequestBodyLimit : Z;
  ForceResponseBodyVariable : bool;
  ResponseBodyAccess : bool;
  ResponseBodyLimit : Z;
  RuleEngine : RuleEngineStatus;
  lastPhase : RulePhase;
  requestBodyBuffer : BodyBuffer;
  responseBodyBuffer : BodyBuffer;
  ruleRemoveByID : list Z;
  ruleRemoveTargetByID : gmap Z (list ruleVariableParams);
  Skip : Z;
  Capture : bool;
  Timestamp : Z;
  audit : bool;
  variables_ : TransactionVariables;
  transformationCache : gmap transformationKey transformationValue;
  (** matched rules handed to the WAF's error callback, oldest first *)
  errorLog : list MatchedRule;
  (** number of loops over maps so far: the moment of [range_order] *)
  tick : nat;
}.

#[global] Instance Transaction_form : RecordForm Transaction :=
  fun t => mkTransaction (id t) (matchedRules t) (interruption t) (SkipAfter t)
    (AllowType_ t) (AuditEngine t) (AuditLogParts t) (AuditLogFormat t)
    (ForceRequestBodyVariable t) (RequestBodyAccess t) (RequestBodyLimit t)
    (ForceResponseBodyVariable t) (ResponseBodyAccess t) (ResponseBodyLimit t)
    (RuleEngine t) (lastPhase t) (requestBodyBuffer t) (responseBodyBuffer t)
    (ruleRemoveByID t) (ruleRemoveTargetByID t) (Skip t) (Capture t) (Timestamp t)
    (audit t) (variables_ t) (transformationCache t) (errorLog t) (tick t).

(** ** Computations on a transaction *)

Definition M (A : Type) : Type := Transaction -> outcome (A * Transaction).

Definition ret {A} (a : A) : M A := fun tx => Ok (a, tx).

Definition bind {A B} (m : M A) (k : A -> M B) : M B :=
  fun tx => obind (m tx) (fun p => k (fst p) (snd p)).

Definition panic {A} : M A := fun _ => Panic.

Definition gets {A} (f : Transaction -> A) : M A := fun tx => Ok (f tx, tx).

Definition modify (f : Transaction -> Transaction) : M unit := fun tx => Ok (tt, f tx).

Declare Scope waf_scope.
Notation "'let!' x ':=' m 'in' k" := (bind m (fun x => k))
  (at level 200, x pattern, m at level 100, k at level 200) : waf_scope.
Notation "m ';;' k" := (bind m (fun _ => k))
  (at level 100, k at level 200, right associativity) : waf_scope.
#[global] Open Scope waf_scope.

(** [for _, x := range l { body }] *)
Fixpoint forM {A} (l : list A) (body : A -> M unit) : M unit :=
  match l with
  | [] => ret tt
  | x :: l => body x ;; forM l body
  end.

(** Changes of the variables. *)
Definition setSingle (v : RuleVariable) (s : gostring) : M unit :=
  modify (fun tx => tx <| variables_ := single_set v s (variables_ tx) |>).

Definition getSingle (v : RuleVariable) : M gostring :=
  gets (fun tx => single_get v (variables_ tx)).

Definition updMap (v : RuleVariable) (f : Map -> Map) : M unit :=
  modify (fun tx => tx <| variables_ := map_upd v f (variables_ tx) |>).

(** ** Reasoning about computations *)

(** Every run of [m] that returns relates its initial and final states. *)
Definition keeps {A} (R : Transaction -> Transaction -> Prop) (m : M A) : Prop :=
  forall tx a tx', m tx = Ok (a, tx') -> R tx tx'.

Create HintDb waf.
#[export] Hint Constants Opaque : waf.

Section keeps.
#[local] Set Default Proof Using "Type*".
Context (R : Transaction -> Transaction -> Prop) `{!PreOrder R}.

Lemma keeps_ret {A} (a : A) : keeps R (ret a).
Proof. intros tx ? ? [= <- <-]. reflexivity. Qed.

Lemma keeps_gets {A} (f : Transaction -> A) : keeps R (gets f).
Proof. intros tx ? ? [= <- <-]. reflexivity. Qed.

Lemma keeps_panic {A} : keeps R (@panic A).
Proof. intros tx ? ? [=]. Qed.

Lemma keeps_modify f : (forall tx, R tx (f tx)) -> keeps R (modify f).
Proof. intros Hf tx ? ? [= <- <-]. apply Hf. Qed.

Lemma keeps_bind {A B} (m : M A) (k : A -> M B) :
  keeps R m -> (forall a, keeps R (k a)) -> keeps R (bind m k).
Proof.
  intros Hm Hk tx b tx'. unfold bind. destruct (m tx) as [[a tx1]|] eqn:E; [|done].
  simpl. intros Hb. etrans; [by eapply Hm|by eapply Hk].
Qed.

Lemma keeps_forM {A} (l : list A) body :
  (forall x, x ∈ l -> keeps R (body x)) -> keeps R (forM l body).
Proof.
  induction l as [|x l IH]; intros Hb; simpl; [apply keeps_ret|].
  apply keeps_bind; [apply Hb; set_solver|]. intros _. apply IH. set_solver.
Qed.

Lemma keeps_mono {A} (R' : Transaction -> Transaction -> Prop) (m : M A) :
  (forall tx tx', R' tx tx' -> R tx tx') -> keeps R' m -> keeps R m.
Proof. intros HR Hm tx a tx' E. apply HR. by eapply Hm. Qed.
End keeps.

#[export] Hint Resolve keeps_ret keeps_gets keeps_panic : waf.

Lemma bind_ret_l {A B} (a : A) (k : A -> M B) tx : bind (ret a) k tx = k a tx.
Proof. reflexivity. Qed.

Lemma bind_Ok {A B} (m : M A) (k : A -> M B) tx b tx' :
  bind m k tx = Ok (b, tx') <->
  exists a tx1, m tx = Ok (a, tx1) /\ k a tx1 = Ok (b, tx').
Proof.
  unfold bind. destruct (m tx) as [[a tx1]|]; simpl.
  - split; [eauto|]. intros (? & ? & [= <- <-] & ?). done.
  - split; [done|]. intros (? & ? & ? & _). done.
Qed.

(** Case analysis on everything a computation branches on, until only
    elementary computations are left. *)
Ltac solve_preorder := try match goal with |- PreOrder _ => typeclasses eauto end.

Ltac keeps_step :=
  match goal with
  | |- keeps _ (bind _ _) => apply keeps_bind; [solve_preorder..|intros ?]
  | |- keeps _ (ret _) => apply keeps_ret; solve_preorder
  | |- keeps _ (gets _) => apply keeps_gets; solve_preorder
  | |- keeps _ panic => apply keeps_panic; solve_preorder
  | |- keeps _ (forM _ _) => apply keeps_forM; [solve_preorder..|intros ? ?]
  | |- keeps _ (match ?x with _ => _ end) => destruct x eqn:?
  end.

Ltac keeps_auto := repeat (keeps_step || (progress auto with waf)).
