(* ===== verification/Macro.v ===== *)
(** * Macro expansion (experimental/plugins/macro/macro.go)

    Strings with references to variables, such as [some %{tx.var} text], are
    compiled once into tokens and expanded against a transaction. *)

From stdpp Require Import options.
From Stdlib Require Import Strings.Byte.
From S2P Require Import Prelude GoLib Variables Collections Transaction.

Record macroToken := mkMacroToken {
  text : gostring;
  tok_variable : RuleVariable;
  tok_key : gostring;
}.

#[global] Instance macroToken_eq_dec : EqDecision macroToken.
Proof. solve_decision. Defined.

Record macro := mkMacro {
  original : gostring;
  tokens : list macroToken;
}.

Inductive MacroErr :=
| errEmptyData
| errEmptyVariableName
| errUnknownVariable (name : gostring)
| errMalformedVariable (cur : gostring)
| errNoClosingBraces.

Definition text_token (s : gostring) : macroToken := mkMacroToken s variables.Unknown [].

Definition isValidMacroChar (c : byte) : bool :=
  bool_decide (c ∈ ["["; "]"; "."; "_"; "-"]%byte)
  || ((48 <=? bz c) && (bz c <=? 57))
  || ((65 <=? bz c) && (bz c <=? 90))
  || ((97 <=? bz c) && (bz c <=? 122)).

Section macro.
Context `{GoUnicode} `{MapOrder}.

(** The current text, if any, becomes a token. *)
Definition flush (cur : gostring) (toks : list macroToken) : list macroToken :=
  if bool_decide (cur = []) then toks else toks ++ [text_token cur].

(** The loop of [compile]: the rest of the input, the byte before it, the
    current token, whether it is inside braces, and the tokens so far. *)
Fixpoint compile_go (input : gostring) (prev : byte) (cur : gostring) (isMacro : bool)
  (toks : list macroToken) : list macroToken + MacroErr :=
  match input with
  | [] => inl (flush cur toks)
  | c :: rest =>
    let body :=
      if isMacro then
        if bool_decide (c = "}"%byte) then
          if bool_decide (prev = "."%byte) then inr errEmptyVariableName
          else
            let '(varName, key, _) := Strings.Cut cur "."%byte in
            match variables.Parse varName with
            | None => inr (errUnknownVariable varName)
            | Some v =>
              compile_go rest c [] false
                (toks ++ [mkMacroToken cur v (Strings.ToLower key)])
            end
        else if negb (isValidMacroChar c) then inr (errMalformedVariable cur)
        else if bool_decide (rest = []) then inr errNoClosingBraces
        else compile_go rest c (cur ++ [c]) true toks
      else compile_go rest c (cur ++ [c]) false toks in
    match rest with
    | b :: rest' =>
      if bool_decide (c = "%"%byte /\ b = "{"%byte)
      then compile_go rest' b [] true (flush cur toks)
      else body
    | [] => body
    end
  end.

(** [NewMacro] and [compile]. *)
Definition NewMacro (input : gostring) : macro + MacroErr :=
  match input with
  | [] => inr errEmptyData
  | _ => match compile_go input "000"%byte [] false [] with
         | inl toks => inl (mkMacro input toks)
         | inr e => inr e
         end
  end.

(** [expandToken]; the type switch panics on the [nil] collection. *)
Definition expandToken (tx : Transaction) (t : macroToken) : outcome gostring :=
  if bool_decide (tok_variable t = variables.Unknown) then Ok (text t)
  else
    match Collection_of (variables_ tx) (tok_variable t) with
    | None => Panic
    | Some (CKeyed k) => Ok (default (text t) (head (Keyed_Get k (tok_key t))))
    | Some (CSingle _ s) => Ok s
    | Some c => Ok (default (text t) (Value_ <$> head (FindAll (tick tx) c)))
    end.

Fixpoint expandTokens (tx : Transaction) (l : list macroToken) : outcome gostring :=
  match l with
  | [] => Ok []
  | t :: l => obind (expandToken tx t) (fun s =>
              obind (expandTokens tx l) (fun r => Ok (s ++ r)))
  end.

(** [Macro.Expand]. *)
Definition Expand (m : macro) (tx : Transaction) : outcome gostring :=
  match tokens m with
  | [t] => expandToken tx t
  | l => expandTokens tx l
  end.

Definition String_ (m : macro) : gostring := original m.

(** ** Compilation inverts printing *)

(** The source text of a token. *)
Definition print_token (t : macroToken) : gostring :=
  if bool_decide (tok_variable t = variables.Unknown) then text t
  else lit "%{" ++ text t ++ lit "}".

Definition print_tokens (l : list macroToken) : gostring := concat (print_token <$> l).

(** No two bytes of the text open a reference. *)
Fixpoint no_open (s : gostring) : bool :=
  match s with
  | a :: (b :: _) as s' => negb (bool_decide (a = "%"%byte /\ b = "{"%byte)) && no_open s'
  | _ => true
  end.

Definition text_wf (t : macroToken) : Prop :=
  exists s, t = text_token s /\ s <> [] /\ no_open s = true.

Definition ref_wf (t : macroToken) : Prop :=
  tok_variable t <> variables.Unknown /\ text t <> [] /\
  forallb isValidMacroChar (text t) = true /\ list.last (text t) <> Some "."%byte /\
  variables.Parse (fst (fst (Strings.Cut (text t) "."%byte))) = Some (tok_variable t) /\
  tok_key t = Strings.ToLower (snd (fst (Strings.Cut (text t) "."%byte))).

(** Texts and references, no two texts in a row. *)
Inductive tokens_wf : list macroToken -> Prop :=
| twf_nil : tokens_wf []
| twf_text t : text_wf t -> tokens_wf [t]
| twf_ref t l : ref_wf t -> tokens_wf l -> tokens_wf (t :: l)
| twf_text_ref t u l : text_wf t -> ref_wf u -> tokens_wf (u :: l) -> tokens_wf (t :: u :: l).

Definition starts_ok (rest : gostring) : Prop :=
  match rest with b :: _ => b <> "{"%byte | [] => True end.

Lemma compile_go_text s rest prev cur toks :
  no_open s = true -> starts_ok rest -> s <> [] ->
  exists prev', compile_go (s ++ rest) prev cur false toks =
                compile_go rest prev' (cur ++ s) false toks.
Proof.
  revert prev cur. induction s as [|a s IH]; intros prev cur Hs Hr Hn; [done|].
  cbn [app]. destruct s as [|b s].
  - exists a. cbn [app compile_go]. destruct rest as [|b rest]; [done|].
    rewrite bool_decide_eq_false_2; [done|]. simpl in Hr. intros [_ ?]. done.
  - change (no_open (a :: b :: s)) with
      (negb (bool_decide (a = "%"%byte /\ b = "{"%byte)) && no_open (b :: s)) in Hs.
    apply andb_true_iff in Hs as [Ho Hs].
    apply negb_true_iff, bool_decide_eq_false_1 in Ho.
    destruct (IH a (cur ++ [a]) Hs Hr ltac:(done)) as [p' Hp].
    exists p'.
    change (compile_go (a :: (b :: s) ++ rest) prev cur false toks) with
      (if bool_decide (a = "%"%byte /\ b = "{"%byte)
       then compile_go (s ++ rest) b [] true (flush cur toks)
       else compile_go ((b :: s) ++ rest) a (cur ++ [a]) false toks).
    rewrite bool_decide_eq_false_2 by done. rewrite Hp. by rewrite <- app_assoc.
Qed.

Lemma valid_not_special c :
  isValidMacroChar c = true -> c <> "%"%byte /\ c <> "}"%byte.
Proof. intros Hc. split; intros ->; vm_compute in Hc; discriminate. Qed.

Lemma compile_go_ref_body s rest prev cur toks :
  forallb isValidMacroChar s = true -> rest <> [] ->
  compile_go (s ++ rest) prev cur true toks =
  compile_go rest (default prev (list.last s)) (cur ++ s) true toks.
Proof.
  revert prev cur. induction s as [|a s IH]; intros prev cur Hs Hr.
  - simpl. by rewrite app_nil_r.
  - simpl in Hs. apply andb_true_iff in Hs as [Ha Hs].
    destruct (valid_not_special a Ha) as [Hp Hc].
    assert (s ++ rest <> []) as Hne by (destruct s; done).
    assert (compile_go ((a :: s) ++ rest) prev cur true toks =
            compile_go (s ++ rest) a (cur ++ [a]) true toks) as ->.
    { cbn [app compile_go]. rewrite (bool_decide_eq_false_2 (a = "}"%byte)) by done.
      rewrite Ha. cbn [negb]. rewrite bool_decide_eq_false_2 by done.
      destruct (s ++ rest) as [|b l]; [done|].
      rewrite bool_decide_eq_false_2; [done|]. by intros [? _]. }
    rewrite IH by done. rewrite <- app_assoc. f_equal.
    destruct s as [|b s]; [done|]. change (list.last (a :: b :: s)) with (list.last (b :: s)).
    destruct (list.last (b :: s)) eqn:E; [done|]. by apply last_None in E.
Qed.

Lemma compile_go_ref t rest prev cur toks :
  ref_wf t ->
  compile_go (print_token t ++ rest) prev cur false toks =
  compile_go rest "}"%byte [] false (flush cur toks ++ [t]).
Proof.
  intros (Hu & Hne & Hv & Hl & Hp & Hk). unfold print_token.
  rewrite bool_decide_eq_false_2 by done.
  change (lit "%{" ++ text t ++ lit "}") with ("%"%byte :: "{"%byte :: text t ++ ["}"%byte]).
  change (compile_go (("%"%byte :: "{"%byte :: text t ++ ["}"%byte]) ++ rest) prev cur false toks)
    with (compile_go ((text t ++ ["}"%byte]) ++ rest) "{"%byte [] true (flush cur toks)).
  rewrite <- app_assoc, compile_go_ref_body by done. cbn [app].
  assert (default "{"%byte (list.last (text t)) <> "."%byte) as Hd.
  { destruct (list.last (text t)) eqn:E; simpl; congruence. }
  cbn [compile_go]. rewrite (bool_decide_eq_true_2 ("}" = "}")%byte) by done.
  rewrite (bool_decide_eq_false_2 _ Hd).
  destruct (Strings.Cut (text t) "."%byte) as [[vn key] f]. cbn [fst snd] in Hp, Hk.
  rewrite Hp, <- Hk. assert (mkMacroToken (text t) (tok_variable t) (tok_key t) = t) as ->
    by by destruct t.
  destruct rest; [done|]. rewrite bool_decide_eq_false_2; [done|]. by intros [? _].
Qed.

Lemma compile_go_tokens l prev toks :
  tokens_wf l -> compile_go (print_tokens l) prev [] false toks = inl (toks ++ l).
Proof.
  intros Hl. revert prev toks. induction Hl as [|t Ht|t l Ht Hl IH|t u l Ht Hu Hl IH];
    intros prev toks.
  - simpl. by rewrite app_nil_r.
  - destruct Ht as (s & -> & Hs & Ho). unfold print_tokens, print_token. simpl.
    destruct (compile_go_text s [] prev [] toks Ho I Hs) as [p' ->].
    simpl. unfold flush. by rewrite bool_decide_eq_false_2.
  - unfold print_tokens. rewrite fmap_cons. cbn [concat].
    rewrite compile_go_ref by done. fold (print_tokens l). rewrite IH.
    unfold flush. simpl. by rewrite <- app_assoc.
  - destruct Ht as (s & -> & Hs & Ho). unfold print_tokens. rewrite fmap_cons. cbn [concat].
    fold (print_tokens (u :: l)). unfold print_token at 1. simpl.
    destruct (compile_go_text s (print_tokens (u :: l)) prev [] toks Ho) as [p' ->]; [|done|].
    { unfold print_tokens. rewrite fmap_cons. simpl. unfold print_token.
      rewrite bool_decide_eq_false_2 by apply Hu. done. }
    cbn [app]. unfold print_tokens. rewrite fmap_cons. cbn [concat].
    rewrite compile_go_ref by done. fold (print_tokens l).
    specialize (IH "}"%byte (toks ++ [text_token s])).
    unfold print_tokens in IH. rewrite fmap_cons in IH. cbn [concat] in IH.
    rewrite compile_go_ref in IH by done. unfold flush in *.
    rewrite bool_decide_eq_false_2 by done. fold (print_tokens l) in IH.
    cbn [bool_decide] in IH. rewrite bool_decide_eq_true_2 in IH by done.
    rewrite IH, <- app_assoc. done.
Qed.

(** Expanding a macro of plain text yields the text, in every transaction,
    without a panic. *)
Lemma plain_macro_expands_to_itself s :
  s <> [] -> no_open s = true ->
  exists m, NewMacro s = inl m /\ forall tx, Expand m tx = Ok s.
Proof.
  intros Hs Ho. exists (mkMacro s [text_token s]).
  assert (print_tokens [text_token s] = s) as Hp by (unfold print_tokens; simpl; apply app_nil_r).
  pose proof (compile_go_tokens [text_token s] x00 []) as Hc. rewrite Hp in Hc.
  unfold NewMacro. rewrite Hc by (constructor; by exists s). simpl.
  by destruct s.
Qed.
End macro.
