(* ===== verification/Rule.v ===== *)
(** * Rules and the WAF (internal/corazawaf/rule.go, waf.go)

    The data of a rule (metadata, targets, operator, transformations, actions
    and chain), the operations that build it, the identifiers of
    transformation pipelines, and the configuration record of the WAF. *)

From stdpp Require Import options.
From Stdlib Require Import Strings.Byte.
From S2P Require Import Prelude GoLib Variables Types Collections BodyBuffer Transaction Macro.
Import types.

(** ** Actions (internal/actions) *)

Inductive ctlFunctionType :=
| ctlUnknown | ctlRuleRemoveTargetByID | ctlRuleRemoveTargetByTag
| ctlRuleRemoveTargetByMsg | ctlAuditEngine | ctlAuditLogParts
| ctlForceRequestBodyVariable | ctlRequestBodyAccess | ctlRequestBodyLimit
| ctlRuleEngine | ctlRuleRemoveByID | ctlRuleRemoveByMsg | ctlRuleRemoveByTag
| ctlHashEngine | ctlHashEnforcement | ctlRequestBodyProcessor
| ctlForceResponseBodyVariable | ctlResponseBodyProcessor
| ctlResponseBodyAccess | ctlResponseBodyLimit | ctlDebugLogLevel.

#[global] Instance ctlFunctionType_eq_dec : EqDecision ctlFunctionType.
Proof. solve_decision. Defined.

(** An initialised action of the registry, with the data its [Init] kept. *)
Inductive action :=
| allowFn (allow : AllowType)
| auditlogFn
| blockFn
| captureFn
| chainFn
| ctlFn (act : ctlFunctionType) (value : gostring) (collection : RuleVariable) (colKey : gostring)
| denyFn
| dropFn
| execFn
| expirevarFn
| idFn
| initcolFn (collection key : gostring)
| logFn
| logdataFn
| maturityFn
| msgFn
| multimatchFn
| noauditlogFn
| nologFn
| passFn
| phaseFn
| redirectFn (target : gostring)
| revFn
| setenvFn (key : gostring) (value : macro)
| setvarFn (key : option macro) (value : option macro) (collection : RuleVariable) (isRemove : bool)
| severityFn
| skipFn (n : Z)
| skipafterFn (marker : gostring)
| statusFn
| tFn
| tagFn
| verFn.

(** plugintypes.ActionType *)
Inductive ActionType :=
| ActionTypeMetadata | ActionTypeDisruptive | ActionTypeData
| ActionTypeNondisruptive | ActionTypeFlow.

#[global] Instance ActionType_eq_dec : EqDecision ActionType.
Proof. solve_decision. Defined.

(** The [Type] methods. *)
Definition action_Type (a : action) : ActionType :=
  match a with
  | allowFn _ | blockFn | denyFn | dropFn | passFn | redirectFn _ => ActionTypeDisruptive
  | chainFn | skipFn _ | skipafterFn _ => ActionTypeFlow
  | idFn | maturityFn | msgFn | phaseFn | revFn | severityFn | tagFn | verFn =>
    ActionTypeMetadata
  | statusFn => ActionTypeData
  | auditlogFn | captureFn | ctlFn _ _ _ _ | execFn | expirevarFn | initcolFn _ _ | logFn
  | logdataFn | multimatchFn | noauditlogFn | nologFn | setenvFn _ _ | setvarFn _ _ _ _ | tFn =>
    ActionTypeNondisruptive
  end.

(** ** Rules *)

Record ruleActionParams := mkRuleActionParams {
  act_Name : gostring;
  act_Function : action;
}.

(** An operator evaluates a value and may capture fields of the transaction. *)
Record ruleOperatorParams := mkRuleOperatorParams {
  op_Operator : gostring -> M bool;
  op_Function : gostring;
  op_Data : gostring;
  op_Negation : bool;
}.

(** A transformation: the new value, whether it changed, or an error. *)
Abbreviation Transformation := (gostring -> gostring * bool * option gostring).

Inductive Rule := mkRule {
  meta : RuleMetadata;
  rule_variables : list ruleVariableParams;
  operator : option ruleOperatorParams;
  transformations : list Transformation;
  transformationsID : Z;
  actions : list ruleActionParams;
  rule_Capture : bool;
  Chain : option Rule;
  DisruptiveStatus : Z;
  Msg : option macro;
  LogData : option macro;
  Log : bool;
  Audit : bool;
  MultiMatch : bool;
  HasChain : bool;
}.

#[global] Instance Rule_form : RecordForm Rule :=
  fun r => mkRule (meta r) (rule_variables r) (operator r) (transformations r)
    (transformationsID r) (actions r) (rule_Capture r) (Chain r) (DisruptiveStatus r)
    (Msg r) (LogData r) (Log r) (Audit r) (MultiMatch r) (HasChain r).

Definition rID (r : Rule) : Z := ID_ (meta r).
Definition rParentID (r : Rule) : Z := ParentID_ (meta r).
Definition rPhase (r : Rule) : RulePhase := Phase_ (meta r).

Definition noID : Z := 0.

(** [NewRule]: phase 2 and no tags. *)
Definition NewRule : Rule :=
  mkRule (mkRuleMetadata 0 [] [] 0 [] 0 [] [] 0 0 [] 2 [] [] 0)
    [] None [] 0 [] false None 0 None None false false false false.

Definition AddAction (r : Rule) (name : gostring) (a : action) : Rule :=
  r <| actions := actions r ++ [mkRuleActionParams name a] |>.

(** [hasRegex]: a key between slashes is a regular expression. *)
Definition hasRegex (key : gostring) : bool * gostring :=
  if (2 <? zlen key) && bool_decide (head key = Some "/"%byte)
     && bool_decide (list.last key = Some "/"%byte)
  then (true, take (length key - 2) (drop 1 key)) else (false, key).

Definition caseSensitiveVariable (v : RuleVariable) : bool :=
  match v with
  | variables.Args | variables.ArgsNames | variables.ArgsGet | variables.ArgsPost
  | variables.ArgsGetNames | variables.ArgsPostNames => true
  | _ => false
  end.

Section build.
Context `{GoUnicode}.
(** [regexp.Compile]; [None] is a syntax error. *)
Context (regexp_Compile : gostring -> option Regexp).

Definition newRuleVariableParams (v : RuleVariable) (key : gostring) (re : option Regexp)
  (iscount : bool) : ruleVariableParams :=
  mkRuleVariableParams iscount v re
    (if caseSensitiveVariable v then key else Strings.ToLower key) [].

(** The compiled expression of a key, if it is one. *)
Definition keyRegexp (key : gostring) : option (option Regexp) :=
  match hasRegex key with
  | (true, rx) => Some <$> regexp_Compile rx
  | (false, _) => Some None
  end.

(** [AddVariable] in the default build (no multiphase evaluation); [None] is
    the error of the expression's compilation. *)
Definition AddVariable (r : Rule) (v : RuleVariable) (key : gostring) (iscount : bool)
  : option Rule :=
  match keyRegexp key with
  | None => None
  | Some re =>
    Some (r <| rule_variables := rule_variables r ++ [newRuleVariableParams v key re iscount] |>)
  end.

(** [AddVariableNegation] in the default build. *)
Definition AddVariableNegation (r : Rule) (v : RuleVariable) (key : gostring) : option Rule :=
  match keyRegexp key with
  | None => None
  | Some re =>
    Some (r <| rule_variables :=
      (fun rv => if bool_decide (rv_Variable rv = v)
                 then rv <| rv_Exceptions := rv_Exceptions rv ++ [mkException key re] |>
                 else rv) <$> rule_variables r |>)
  end.
End build.

Definition SetOperator (r : Rule) (op : gostring -> M bool) (functionName params : gostring) : Rule :=
  r <| operator := Some (mkRuleOperatorParams op functionName params
                           (bool_decide (head functionName = Some "!"%byte))) |>.

(** ** Identifiers of transformation pipelines *)

(** The tables [transformationIDToName] and [transformationNameToID]. *)
Record transformationIDs := mkIDs {
  idToName : list gostring;
  nameToID : gmap gostring Z;
}.

Definition initialIDs : transformationIDs := mkIDs [[]] {[ [] := 0 ]}.

(** [transformationID]: an index out of range panics. *)
Definition transformationID (t : transformationIDs) (currentID : Z) (name : gostring)
  : outcome (Z * transformationIDs) :=
  match (if currentID <? 0 then None else idToName t !! Z.to_nat currentID) with
  | None => Panic
  | Some currName =>
    let nextName := currName ++ "+"%byte :: name in
    match nameToID t !! nextName with
    | Some i => Ok (i, t)
    | None =>
      let i := zlen (idToName t) in
      Ok (i, mkIDs (idToName t ++ [nextName]) (<[nextName := i]> (nameToID t)))
    end
  end.

(** [AddTransformation]; [None] in the outcome is the error for an empty name. *)
Definition AddTransformation (t : transformationIDs) (r : Rule) (name : gostring) (f : Transformation)
  : outcome (option (Rule * transformationIDs)) :=
  if bool_decide (name = []) then Ok None
  else
    match transformationID t (transformationsID r) name with
    | Panic => Panic
    | Ok (i, t') =>
      Ok (Some (r <| transformations := transformations r ++ [f] |> <| transformationsID := i |>, t'))
    end.

Definition ClearTransformations (r : Rule) : Rule := r <| transformations := [] |>.

(** [executeTransformations]: a failing transformation is skipped. *)
Fixpoint executeTransformations_go (ts : list Transformation) (value : gostring)
  (errs : list gostring) : gostring * list gostring :=
  match ts with
  | [] => (value, errs)
  | t :: ts =>
    match t value with
    | (_, _, Some e) => executeTransformations_go ts value (errs ++ [e])
    | (v, _, None) => executeTransformations_go ts v errs
    end
  end.

Definition executeTransformations (r : Rule) (value : gostring) : gostring * list gostring :=
  executeTransformations_go (transformations r) value [].

(** [executeTransformationsMultimatch]: every changed intermediate value. *)
Fixpoint multimatch_go (ts : list Transformation) (value : gostring) (res : list gostring)
  (errs : list gostring) : list gostring * list gostring :=
  match ts with
  | [] => (res, errs)
  | t :: ts =>
    match t value with
    | (_, _, Some e) => multimatch_go ts value res (errs ++ [e])
    | (v, true, None) => multimatch_go ts v (res ++ [v]) errs
    | (_, false, None) => multimatch_go ts value res errs
    end
  end.

Definition executeTransformationsMultimatch (r : Rule) (value : gostring)
  : list gostring * list gostring := multimatch_go (transformations r) value [value] [].

(** ** The WAF (internal/corazawaf/waf.go) *)

(** The writers and formatters registered in internal/auditlog. *)
Inductive AuditLogWriter := concurrentWriter | serialWriter | httpsWriter | syslogWriter.
Inductive AuditLogFormatter := jsonFormatter | legacyJSONFormatter | nativeFormatter | ocsfFormatter.

(** [plugintypes.AuditLogConfig] *)
Record AuditLogConfig := mkAuditLogConfig {
  Target : gostring;
  FileMode : Z;
  Dir : gostring;
  DirMode : Z;
  Formatter : AuditLogFormatter;
}.

#[global] Instance AuditLogConfig_form : RecordForm AuditLogConfig :=
  fun c => mkAuditLogConfig (Target c) (FileMode c) (Dir c) (DirMode c) (Formatter c).

(** [auditlog.NewConfig]: modes 0644 and 0755. *)
Definition auditlog_NewConfig : AuditLogConfig := mkAuditLogConfig [] 420 [] 493 nativeFormatter.

(** The configuration.  Of the debug logger, the level and the path it writes
    to are kept ([None]: messages are discarded). *)
Record WAF := mkWAF {
  Rules : list Rule;
  w_RuleEngine : RuleEngineStatus;
  w_RequestBodyAccess : bool;
  w_RequestBodyLimit : Z;
  requestBodyInMemoryLimit : option Z;
  RequestBodyLimitAction : BodyLimitAction;
  w_ResponseBodyAccess : bool;
  w_ResponseBodyLimit : Z;
  ResponseBodyLimitAction : BodyLimitAction;
  ResponseBodyMimeTypes : list gostring;
  TmpDir : gostring;
  w_AuditEngine : AuditEngineStatus;
  w_AuditLogParts : gostring;
  w_AuditLogFormat : gostring;
  AuditLogRelevantStatus : option Regexp;
  ErrorLogCb : bool;
  ArgumentLimit : Z;
  WebAppID : gostring;
  ComponentNames : list gostring;
  AbortOnRemoteRulesFail : bool;
  ServerSignature : gostring;
  SensorID : gostring;
  DataDir : gostring;
  UploadKeepFiles : bool;
  UploadFileMode : Z;
  UploadFileLimit : Z;
  UploadDir : gostring;
  RequestBodyNoFilesLimit : Z;
  auditLogWriter : AuditLogWriter;
  AuditLogWriterConfig : AuditLogConfig;
  auditLogWriterInitialized : bool;
  LogLevel : Z;
  LogOutput : option gostring;
}.

#[global] Instance WAF_form : RecordForm WAF :=
  fun w => mkWAF (Rules w) (w_RuleEngine w) (w_RequestBodyAccess w) (w_RequestBodyLimit w)
    (requestBodyInMemoryLimit w) (RequestBodyLimitAction w) (w_ResponseBodyAccess w)
    (w_ResponseBodyLimit w) (ResponseBodyLimitAction w) (ResponseBodyMimeTypes w) (TmpDir w)
    (w_AuditEngine w) (w_AuditLogParts w) (w_AuditLogFormat w) (AuditLogRelevantStatus w)
    (ErrorLogCb w) (ArgumentLimit w) (WebAppID w) (ComponentNames w) (AbortOnRemoteRulesFail w)
    (ServerSignature w) (SensorID w) (DataDir w) (UploadKeepFiles w) (UploadFileMode w)
    (UploadFileLimit w) (UploadDir w) (RequestBodyNoFilesLimit w) (auditLogWriter w)
    (AuditLogWriterConfig w) (auditLogWriterInitialized w) (LogLevel w) (LogOutput w).

Definition _1gib : Z := 1073741824.

(** [NewWAF]; the temporary directory is the system's. *)
Definition NewWAF (tmp : gostring) : WAF :=
  mkWAF [] RuleEngineOn false 134217728 None BodyLimitActionReject false 524288
    BodyLimitActionProcessPartial [] tmp AuditEngineOn (lit "BCFH") (lit "Native") None false 1000
    [] [] false [] [] [] false 0 0 [] 0 serialWriter auditlog_NewConfig false 0 None.

Inductive ValidateErr :=
| ErrRequestBodyLimitLow | ErrRequestBodyLimitHigh | ErrMemoryLimitLow | ErrMemoryLimitHigh
| ErrResponseBodyLimitLow | ErrResponseBodyLimitHigh | ErrArgumentLimit.

(** [WAF.Validate]. *)
Definition Validate (w : WAF) : option ValidateErr :=
  if w_RequestBodyLimit w <=? 0 then Some ErrRequestBodyLimitLow
  else if _1gib <? w_RequestBodyLimit w then Some ErrRequestBodyLimitHigh
  else
    let mem :=
      match requestBodyInMemoryLimit w with
      | None => None
      | Some m => if m <=? 0 then Some ErrMemoryLimitLow
                  else if w_RequestBodyLimit w <? m then Some ErrMemoryLimitHigh else None
      end in
    match mem with
    | Some e => Some e
    | None =>
      if w_ResponseBodyLimit w <=? 0 then Some ErrResponseBodyLimitLow
      else if _1gib <? w_ResponseBodyLimit w then Some ErrResponseBodyLimitHigh
      else if ArgumentLimit w <=? 0 then Some ErrArgumentLimit
      else None
    end.

(** ** Well-formed tables of identifiers *)

(** The two tables are inverse to each other and the empty name is first. *)
Record ids_wf (t : transformationIDs) : Prop := {
  ids_first : idToName t !! 0%nat = Some [];
  ids_inverse : forall n i, nameToID t !! n = Some i <->
    0 <= i /\ idToName t !! Z.to_nat i = Some n;
}.

Definition ids_name (t : transformationIDs) (i : Z) : option gostring :=
  if i <? 0 then None else idToName t !! Z.to_nat i.

Lemma initialIDs_wf : ids_wf initialIDs.
Proof.
  split; [done|]. intros n i. unfold initialIDs. simpl. rewrite lookup_singleton_Some.
  split; [by intros [<- <-]|]. intros [Hi E].
  destruct (Z.to_nat i) eqn:En; simpl in E; [|done]. simplify_eq. split; [done|lia].
Qed.

Lemma transformationID_spec t cur name i :
  ids_wf t -> ids_name t i = Some cur ->
  exists j t', transformationID t i name = Ok (j, t') /\ ids_wf t' /\
    ids_name t' j = Some (cur ++ "+"%byte :: name) /\
    (forall k n, ids_name t k = Some n -> ids_name t' k = Some n).
Proof.
  intros Hwf Hi. unfold transformationID, ids_name in *. rewrite Hi.
  destruct (nameToID t !! _) as [j|] eqn:Ej.
  - exists j, t. split_and!; try done. apply (ids_inverse t Hwf) in Ej as [Hj Ej].
    by rewrite (proj2 (Z.ltb_ge _ _)) by lia.
  - set (nn := cur ++ "+"%byte :: name) in *. eexists _, _. split; [done|].
    assert (Z.to_nat (zlen (idToName t)) = length (idToName t)) as Hz by (unfold zlen; lia).
    pose proof (zlen_nonneg (idToName t)). split_and!.
    + destruct Hwf as [Hf Hinv]. split; simpl.
      * rewrite lookup_app_l; [done|]. by eapply lookup_lt_Some.
      * intros n k. rewrite lookup_insert_Some. split.
        -- intros [[<- <-]|[Hne Hk]].
           ++ split; [done|]. rewrite Hz. by apply list_lookup_middle.
           ++ apply Hinv in Hk as [? Hk]. split; [done|]. by apply lookup_app_l_Some.
        -- intros [Hk Hl]. apply lookup_app_Some in Hl as [Hl|[Hge Hl]].
           ++ right. split; [|by apply Hinv]. intros Hnn.
              assert (nameToID t !! n = Some k) by by apply Hinv. congruence.
           ++ left. destruct (Z.to_nat k - length (idToName t))%nat eqn:Ek; simpl in Hl; [|done].
              simplify_eq. split; [done|]. unfold zlen. lia.
    + simpl. rewrite (proj2 (Z.ltb_ge _ _)) by lia. rewrite Hz. by apply list_lookup_middle.
    + intros k n. simpl. destruct (k <? 0); [done|]. intros. by apply lookup_app_l_Some.
Qed.
