(* ===== verification/TransactionOps.v ===== *)
(** * Operations on a transaction (internal/corazawaf/transaction.go)

    Feeding of request and response data, captures, matched variables,
    matched rules, selection of rule targets and rule exclusions. *)

From stdpp Require Import options.
From Stdlib Require Import Strings.Byte.
From S2P Require Import Prelude GoLib HttpParse Variables Types Collections BodyBuffer.
From S2P Require Import Transaction Macro Rule.
Import types.

(** The parts of a [*url.URL] that the engine reads. *)
Record URL := mkURL { RawQuery : gostring; url_String : gostring; url_Path : gostring }.

Section ops.
Context `{GoUnicode} `{MapOrder}.

(** A loop over a Go map visits its entries in some order. *)
Definition range_entries {V} (v : RuleVariable) (m : gmap gostring V)
  : M (list (gostring * V)) :=
  fun tx => Ok (range_order (tick tx) v m, tx <| tick := S (tick tx) |>).

(** ** Interruptions *)

Definition Interrupt (i : Interruption) : M unit :=
  modify (fun tx => if bool_decide (RuleEngine tx = RuleEngineOn)
                    then tx <| interruption := Some i |> else tx).

Definition IsInterrupted (tx : Transaction) : bool := bool_decide (is_Some (interruption tx)).

(** ** Headers *)

Definition headerContentType : gostring := lit "content-type".

Definition AddRequestHeader (key value : gostring) : M unit :=
  if bool_decide (key = []) then ret tt
  else
    let keyl := Strings.ToLower key in
    updMap variables.RequestHeaders (fun c => Map_Add c key value) ;;
    if bool_decide (keyl = headerContentType) then
      let val := Strings.ToLower value in
      if bool_decide (val = lit "application/x-www-form-urlencoded")
      then setSingle variables.ReqbodyProcessor (lit "URLENCODED")
      else if Strings.HasPrefix val (lit "multipart/form-data")
      then setSingle variables.ReqbodyProcessor (lit "MULTIPART")
      else ret tt
    else if bool_decide (keyl = lit "cookie") then
      let! values := range_entries variables.RequestCookies (ParseCookies value) in
      forM values (fun kvs => forM (snd kvs) (fun v =>
        updMap variables.RequestCookies (fun c => Map_Add c (fst kvs) v)))
    else ret tt.

Definition AddResponseHeader (key value : gostring) : M unit :=
  if bool_decide (key = []) then ret tt
  else
    let keyl := Strings.ToLower key in
    updMap variables.ResponseHeaders (fun c => Map_Add c key value) ;;
    if bool_decide (keyl = headerContentType)
    then setSingle variables.ResponseContentType (fst (fst (Strings.Cut value ";"%byte)))
    else ret tt.

(** ** Captures *)

Definition CaptureField (index : Z) (value : gostring) : M unit :=
  modify (fun tx =>
    if Capture tx
    then tx <| variables_ := map_upd variables.TX
                 (fun c => Map_SetIndex c (Strconv.Itoa index) 0 value) (variables_ tx) |>
    else tx).

Definition resetCaptures : M unit :=
  forM [48; 49; 50; 51; 52; 53; 54; 55; 56; 57] (fun i =>
    updMap variables.TX (fun c => Map_SetIndex c (Utf8.EncodeRune i) 0 [])).

(** ** Matches *)

Definition matchVariable (m : MatchData) : M unit :=
  let varName := if bool_decide (Key_ m = []) then variables.Name (Variable_ m)
                 else variables.Name (Variable_ m) ++ lit ":" ++ Key_ m in
  setSingle variables.MatchedVarName [] ;;
  updMap variables.MatchedVars (fun c => Map_Add c varName (Value_ m)) ;;
  setSingle variables.MatchedVar (Value_ m) ;;
  setSingle variables.MatchedVarName varName.

(** [corazarules.DisruptiveActionMap] *)
Definition DisruptiveActionMap (name : gostring) : option DisruptiveAction :=
  if bool_decide (name = lit "allow") then Some DisruptiveActionAllow
  else if bool_decide (name = lit "deny") then Some DisruptiveActionDeny
  else if bool_decide (name = lit "drop") then Some DisruptiveActionDrop
  else if bool_decide (name = lit "pass") then Some DisruptiveActionPass
  else if bool_decide (name = lit "redirect") then Some DisruptiveActionRedirect
  else None.

(** The first disruptive action of a rule. *)
Definition disruptive_action (r : Rule) : option ruleActionParams :=
  List.find (fun a => bool_decide (action_Type (act_Function a) = ActionTypeDisruptive)) (actions r).

Definition MatchRule (w : WAF) (r : Rule) (mds : list MatchData) : M unit :=
  (if Audit r then modify (fun tx => tx <| audit := true |>) else ret tt) ;;
  let! hs := getSingle variables.HighestSeverity in
  (if fst (ParseRuleSeverity hs) <? Severity_ (meta r)
   then setSingle variables.HighestSeverity (Strconv.Itoa (Severity_ (meta r))) else ret tt) ;;
  let! tx := gets (fun tx => tx) in
  let disr := if bool_decide (RuleEngine tx = RuleEngineOn) then disruptive_action r else None in
  let msg := List.find (fun md => bool_decide (Message_ md <> [])) mds in
  let mr := mkMatchedRule
    (default [] (Message_ <$> msg)) (default [] (Data_ <$> msg))
    (single_get variables.RequestURI (variables_ tx)) (id tx)
    (bool_decide (is_Some disr))
    (match disr with
     | Some a => default DisruptiveActionUnknown (DisruptiveActionMap (act_Name a))
     | None => DisruptiveActionUnknown
     end)
    (Log r)
    (single_get variables.ServerAddr (variables_ tx))
    (single_get variables.RemoteAddr (variables_ tx))
    mds (meta r) in
  modify (fun tx => tx <| matchedRules := matchedRules tx ++ [mr] |>) ;;
  (if ErrorLogCb w && Log r
   then modify (fun tx => tx <| errorLog := errorLog tx ++ [mr] |>) else ret tt).

(** ** Targets *)

Definition is_exception (lkey : gostring) (ex : ruleVariableException) : bool :=
  match ex_KeyRx ex with Some rx => rx lkey | None => false end
  || bool_decide (Strings.ToLower (ex_KeyStr ex) = lkey).

Definition excluded (exs : list ruleVariableException) (c : MatchData) : bool :=
  existsb (is_exception (Strings.ToLower (Key_ c))) exs.

(** The selection part of [GetField]. *)
Definition select (t : nat) (col : Collection) (rv : ruleVariableParams) : list MatchData :=
  match rv_KeyRx rv with
  | Some rx => match col with CKeyed k => Keyed_FindRegex t k rx | _ => [] end
  | None =>
    if bool_decide (rv_KeyStr rv = []) then FindAll t col
    else match col with CKeyed k => Keyed_FindString t k (rv_KeyStr rv) | _ => [] end
  end.

Definition GetField (rv : ruleVariableParams) : M (list MatchData) :=
  let! col := gets (fun tx => Collection_of (variables_ tx) (rv_Variable rv)) in
  match col with
  | None => ret []
  | Some col =>
    let! t := gets tick in
    modify (fun tx => tx <| tick := S (tick tx) |>) ;;
    let matches := List.filter (fun c => negb (excluded (rv_Exceptions rv) c)) (select t col rv) in
    if rv_Count rv
    then ret [newMatchData (rv_Variable rv) (rv_KeyStr rv) (Strconv.Itoa (zlen matches))]
    else ret matches
  end.

(** [RemoveRuleTargetByID] in the default build. *)
Definition RemoveRuleTargetByID (i : Z) (v : RuleVariable) (key : gostring) : M unit :=
  let c := mkRuleVariableParams false v None key [] in
  modify (fun tx => tx <| ruleRemoveTargetByID :=
    <[i := default [] (ruleRemoveTargetByID tx !! i) ++ [c]]> (ruleRemoveTargetByID tx) |>).

Definition RemoveRuleByID (i : Z) : M unit :=
  modify (fun tx => tx <| ruleRemoveByID := ruleRemoveByID tx ++ [i] |>).

(** ** Connection, arguments and URI *)

Definition ProcessConnection (client : gostring) (cPort : Z) (server : gostring) (sPort : Z)
  : M unit :=
  setSingle variables.RemoteAddr client ;;
  setSingle variables.RemotePort (Strconv.Itoa cPort) ;;
  setSingle variables.ServerAddr server ;;
  setSingle variables.ServerPort (Strconv.Itoa sPort).

(** [checkArgumentLimit] and the [Add*Argument] methods. *)
Definition checkArgumentLimit (w : WAF) (c : Map) : bool := ArgumentLimit w <=? Map_Len c.

Definition AddArgument (w : WAF) (v : RuleVariable) (key value : gostring) : M unit :=
  let! c := gets (fun tx => maps (variables_ tx) v) in
  if checkArgumentLimit w c then ret tt
  else updMap v (fun c => Map_Add c key value).

Definition AddGetRequestArgument (w : WAF) := AddArgument w variables.ArgsGet.
Definition AddPostRequestArgument (w : WAF) := AddArgument w variables.ArgsPost.
Definition AddPathRequestArgument (w : WAF) := AddArgument w variables.ArgsPath.
Definition AddResponseArgument (w : WAF) := AddArgument w variables.ResponseArgs.

Definition ExtractGetArguments (w : WAF) (uri : gostring) : M unit :=
  let! data := range_entries variables.ArgsGet (ParseQuery uri "&"%byte) in
  forM data (fun kvs => forM (snd kvs) (fun v => AddGetRequestArgument w (fst kvs) v)).

(** [strings.LastIndexAny(path, "/\\")] *)
Definition last_slash (path : gostring) : option nat :=
  match Strings.IndexByte (rev (map (fun c => if bool_decide (c = "\"%byte) then "/"%byte else c) path))
          "/"%byte with
  | Some i => Some (length path - 1 - i)%nat
  | None => None
  end.

(** [url.ParseRequestURI]: the parsed URL, or the text of the error. *)
Context (ParseRequestURI : gostring -> URL + gostring).

Definition ProcessURI (w : WAF) (uri0 method httpVersion : gostring) : M unit :=
  setSingle variables.RequestMethod method ;;
  setSingle variables.RequestProtocol httpVersion ;;
  setSingle variables.RequestURIRaw uri0 ;;
  setSingle variables.RequestLine (method ++ lit " " ++ uri0 ++ lit " " ++ httpVersion) ;;
  let uri := match Strings.Index uri0 (lit "#") with Some i => take i uri0 | None => uri0 end in
  let! pq :=
    (match ParseRequestURI uri with
     | inr err =>
       setSingle variables.UrlencodedError err ;;
       setSingle variables.RequestURI uri ;;
       ret (uri, [])
     | inl u =>
       ExtractGetArguments w (RawQuery u) ;;
       setSingle variables.RequestURI (url_String u) ;;
       ret (url_Path u, RawQuery u)
     end) in
  let path := fst pq in
  (match last_slash path with
   | Some offset =>
     if bool_decide (offset + 1 < length path)%nat
     then setSingle variables.RequestBasename (drop (offset + 1) path)
     else setSingle variables.RequestBasename path
   | None => setSingle variables.RequestBasename path
   end) ;;
  setSingle variables.RequestFilename path ;;
  setSingle variables.QueryString (snd pq).

Definition SetServerName (serverName : gostring) : M unit :=
  setSingle variables.ServerName serverName.
End ops.
