(* ===== verification/Actions.v ===== *)
(** * Actions (internal/actions)

    The registry of actions, their [Init] functions, which parse an action's
    argument and may change the rule, and their [Evaluate] functions, which
    change the transaction when the rule matches. *)

From stdpp Require Import options.
From Stdlib Require Import Strings.Byte.
From S2P Require Import Prelude GoLib HttpParse Variables Types Collections BodyBuffer.
From S2P Require Import Transaction Macro Rule TransactionOps.
Import types.

(** The errors of the [Init] functions; [ErrText] stands for the errors that
    carry a message of their own. *)
Inductive ActionErr :=
| ErrUnexpectedArguments | ErrMissingArguments | ErrInvalidKVArguments | ErrText.

#[global] Instance ActionErr_eq_dec : EqDecision ActionErr.
Proof. solve_decision. Defined.

(** The constructors registered in [actionmap]. *)
Inductive ruleActionWrapper :=
| allow | auditlog | block | capture | chain | ctl | deny | drop_ | exec | expirevar | id_
| initcol | log | logdata | maturity | msg | multimatch | noauditlog | nolog | pass | phase_
| redirect | rev_ | setenv | setvar | severity | skip | skipafter | status | t_ | tag | ver.

#[global] Instance ruleActionWrapper_eq_dec : EqDecision ruleActionWrapper.
Proof. solve_decision. Defined.

(** [actionmap] after the package's [init]. *)
Definition actionmap : list (gostring * ruleActionWrapper) :=
  [(lit "allow", allow); (lit "auditlog", auditlog); (lit "block", block);
   (lit "capture", capture); (lit "chain", chain); (lit "ctl", ctl); (lit "deny", deny);
   (lit "drop", drop_); (lit "exec", exec); (lit "expirevar", expirevar); (lit "id", id_);
   (lit "initcol", initcol); (lit "log", log); (lit "logdata", logdata);
   (lit "maturity", maturity); (lit "msg", msg); (lit "multimatch", multimatch);
   (lit "noauditlog", noauditlog); (lit "nolog", nolog); (lit "pass", pass);
   (lit "phase", phase_); (lit "redirect", redirect); (lit "rev", rev_);
   (lit "setenv", setenv); (lit "setvar", setvar); (lit "severity", severity);
   (lit "skip", skip); (lit "skipafter", skipafter); (lit "status", status); (lit "t", t_);
   (lit "tag", tag); (lit "ver", ver)].

Section actions.
Context `{GoUnicode} `{MapOrder}.

(** [actions.Get]. *)
Definition Get (name : gostring) : option ruleActionWrapper :=
  snd <$> List.find (fun p => bool_decide (fst p = Strings.ToLower name)) actionmap.

(** ** ctl *)

(** [parseOnOff]; [None] is the second result [false]. *)
Definition parseOnOff (s : gostring) : option bool :=
  let val := Strings.ToLower s in
  if bool_decide (val = lit "on") then Some true
  else if bool_decide (val = lit "off") then Some false
  else None.

(** The [switch] of [parseCtl] on the option's name. *)
Definition ctl_of_name (action : gostring) : option ctlFunctionType :=
  if bool_decide (action = lit "auditEngine") then Some ctlAuditEngine
  else if bool_decide (action = lit "auditLogParts") then Some ctlAuditLogParts
  else if bool_decide (action = lit "requestBodyAccess") then Some ctlRequestBodyAccess
  else if bool_decide (action = lit "requestBodyLimit") then Some ctlRequestBodyLimit
  else if bool_decide (action = lit "requestBodyProcessor") then Some ctlRequestBodyProcessor
  else if bool_decide (action = lit "forceRequestBodyVariable") then Some ctlForceRequestBodyVariable
  else if bool_decide (action = lit "responseBodyProcessor") then Some ctlResponseBodyProcessor
  else if bool_decide (action = lit "responseBodyAccess") then Some ctlResponseBodyAccess
  else if bool_decide (action = lit "responseBodyLimit") then Some ctlResponseBodyLimit
  else if bool_decide (action = lit "forceResponseBodyVariable") then Some ctlForceResponseBodyVariable
  else if bool_decide (action = lit "ruleEngine") then Some ctlRuleEngine
  else if bool_decide (action = lit "ruleRemoveById") then Some ctlRuleRemoveByID
  else if bool_decide (action = lit "ruleRemoveByMsg") then Some ctlRuleRemoveByMsg
  else if bool_decide (action = lit "ruleRemoveByTag") then Some ctlRuleRemoveByTag
  else if bool_decide (action = lit "ruleRemoveTargetById") then Some ctlRuleRemoveTargetByID
  else if bool_decide (action = lit "ruleRemoveTargetByMsg") then Some ctlRuleRemoveTargetByMsg
  else if bool_decide (action = lit "ruleRemoveTargetByTag") then Some ctlRuleRemoveTargetByTag
  else if bool_decide (action = lit "hashEngine") then Some ctlHashEngine
  else if bool_decide (action = lit "hashEnforcement") then Some ctlHashEnforcement
  else if bool_decide (action = lit "debugLogLevel") then Some ctlDebugLogLevel
  else None.

(** [parseCtl]; [None] is an error. *)
Definition parseCtl (data : gostring)
  : option (ctlFunctionType * gostring * RuleVariable * gostring) :=
  match Strings.Cut data "="%byte with
  | (_, _, false) => None
  | (action, ctlVal, true) =>
    let '(value, col, ok) := Strings.Cut ctlVal ";"%byte in
    let '(colname, colkey) :=
      if ok : bool then fst (Strings.Cut col ":"%byte) else ([], []) in
    let collection := default variables.Unknown (variables.Parse (Strings.TrimSpace colname)) in
    let colkey := Strings.ToLower colkey in
    match ctl_of_name action with
    | Some act => Some (act, value, collection, Strings.TrimSpace colkey)
    | None => None
    end
  end.

(** [rangeToInts]; [None] is an error. *)
Definition rangeToInts (rules : list Rule) (input : gostring) : option (list Z) :=
  let ids start end_ :=
    rID <$> List.filter (fun r => (start <=? rID r) && (rID r <=? end_)) rules in
  if bool_decide (input = []) then None
  else
    match Strings.Cut input "-"%byte with
    | (in0, in1, true) =>
      match Strconv.Atoi in0 with
      | (_, Some _) => None
      | (start, None) =>
        match Strconv.Atoi in1 with
        | (_, Some _) => None
        | (end_, None) => if end_ <? start then None else Some (ids start end_)
        end
      end
    | (_, _, false) =>
      match Strconv.Atoi input with
      | (_, Some _) => None
      | (i, None) => Some (ids i i)
      end
    end.

(** The rules of the WAF whose message is [s] and those with tag [s]. *)
Definition has_msg (s : gostring) (r : Rule) : bool :=
  match Msg r with Some m => bool_decide (String_ m = s) | None => false end.

Definition has_tag (s : gostring) (r : Rule) : bool := InSlice s (Tags_ (meta r)).

(** [ctlFn.Evaluate]; the level of the debug logger is not part of the state. *)
Definition ctl_Evaluate (w : WAF) (act : ctlFunctionType) (value : gostring)
  (collection : RuleVariable) (colKey : gostring) : M unit :=
  let on_off f := match parseOnOff value with None => ret tt | Some b => modify (f b) end in
  let until (p : RulePhase) (m : M unit) : M unit :=
    let! lp := gets lastPhase in if lp <=? p then m else ret tt in
  match act with
  | ctlRuleRemoveTargetByID =>
    match rangeToInts (Rules w) value with
    | None => ret tt
    | Some ran => forM ran (fun i => RemoveRuleTargetByID i collection colKey)
    end
  | ctlRuleRemoveTargetByTag =>
    forM (Rules w) (fun r =>
      if has_tag value r then RemoveRuleTargetByID (rID r) collection colKey else ret tt)
  | ctlRuleRemoveTargetByMsg =>
    forM (Rules w) (fun r =>
      if has_msg value r then RemoveRuleTargetByID (rID r) collection colKey else ret tt)
  | ctlAuditEngine =>
    match ParseAuditEngineStatus value with
    | None => ret tt
    | Some ae => modify (fun tx => tx <| AuditEngine := ae |>)
    end
  | ctlAuditLogParts =>
    match ParseAuditLogParts value with
    | None => ret tt
    | Some p => modify (fun tx => tx <| AuditLogParts := p |>)
    end
  | ctlForceRequestBodyVariable => on_off (fun b tx => tx <| ForceRequestBodyVariable := b |>)
  | ctlRequestBodyAccess =>
    until PhaseRequestHeaders (on_off (fun b tx => tx <| RequestBodyAccess := b |>))
  | ctlRequestBodyLimit =>
    until PhaseRequestHeaders
      (match Strconv.ParseInt value 64 with
       | (_, Some _) => ret tt
       | (limit, None) => modify (fun tx => tx <| RequestBodyLimit := limit |>)
       end)
  | ctlRequestBodyProcessor =>
    until PhaseRequestHeaders (setSingle variables.ReqbodyProcessor (Strings.ToUpper value))
  | ctlRuleEngine =>
    match ParseRuleEngineStatus value with
    | None => ret tt
    | Some re => modify (fun tx => tx <| RuleEngine := re |>)
    end
  | ctlRuleRemoveByID =>
    match Strings.IndexByte value "-"%byte with
    | None =>
      match Strconv.Atoi value with
      | (_, Some _) => ret tt
      | (i, None) => RemoveRuleByID i
      end
    | Some _ =>
      match rangeToInts (Rules w) value with
      | None => ret tt
      | Some ran => forM ran RemoveRuleByID
      end
    end
  | ctlRuleRemoveByMsg =>
    forM (Rules w) (fun r => if has_msg value r then RemoveRuleByID (rID r) else ret tt)
  | ctlRuleRemoveByTag =>
    forM (Rules w) (fun r => if has_tag value r then RemoveRuleByID (rID r) else ret tt)
  | ctlResponseBodyAccess =>
    until PhaseResponseHeaders (on_off (fun b tx => tx <| ResponseBodyAccess := b |>))
  | ctlResponseBodyLimit =>
    until PhaseResponseHeaders
      (match Strconv.ParseInt value 64 with
       | (_, Some _) => ret tt
       | (limit, None) => modify (fun tx => tx <| ResponseBodyLimit := limit |>)
       end)
  | ctlForceResponseBodyVariable => on_off (fun b tx => tx <| ForceResponseBodyVariable := b |>)
  | ctlResponseBodyProcessor =>
    until PhaseResponseHeaders (setSingle variables.ResBodyProcessor (Strings.ToUpper value))
  | ctlHashEngine | ctlHashEnforcement | ctlDebugLogLevel | ctlUnknown => ret tt
  end.

(** ** setvar *)

(** The change [setvarFn.evaluateTxCollection] makes to the collection. *)
Definition setvar_update (isRemove : bool) (key value : gostring) (col : Map) : Map :=
  if isRemove then Map_Remove col key
  else
    let currentVal := default [] (head (Map_Get col key)) in
    match value with
    | [] => Map_Set col key [[]]
    | c :: rest =>
      if bool_decide (c = "+"%byte) || bool_decide (c = "-"%byte) then
        let val :=
          match rest with
          | [] => inl 0
          | _ => match Strconv.Atoi rest with
                 | (v, None) => inl v
                 | (_, Some _) =>
                   inr (if Strings.HasPrefix rest (lit "tx.") then col
                        else Map_Set col key [value])
                 end
          end in
        match val with
        | inr col' => col'
        | inl v =>
          match (if bool_decide (currentVal = []) then (0, None) else Strconv.Atoi currentVal) with
          | (_, Some _) => col
          | (cur, None) =>
            if bool_decide (c = "+"%byte)
            then Map_Set col key [Strconv.Itoa (wrap64 (cur + v))]
            else Map_Set col key [Strconv.Itoa (wrap64 (cur - v))]
          end
        end
      else Map_Set col key [value]
    end.

(** The variable whose map [Collection] returns: XML is an alias. *)
Definition map_store (v : RuleVariable) : RuleVariable :=
  match v with variables.XML => variables.RequestXML | _ => v end.

(** [evaluateTxCollection]: nothing happens if the collection is not a map. *)
Definition evaluateTxCollection (collection : RuleVariable) (isRemove : bool)
  (key value : gostring) : M unit :=
  let! col := gets (fun tx => Collection_of (variables_ tx) collection) in
  match col with
  | Some (CKeyed (KMap _)) | Some (CKeyed (KNamed _)) =>
    updMap (map_store collection) (setvar_update isRemove key value)
  | _ => ret tt
  end.

Definition expandM (m : macro) : M gostring :=
  fun tx => match Expand m tx with Ok s => Ok (s, tx) | Panic => Panic end.

(** Expanding a macro that was never set dereferences [nil]. *)
Definition expand_ptr (m : option macro) : M gostring :=
  match m with Some m => expandM m | None => panic end.

Definition setvar_Evaluate (key value : option macro) (collection : RuleVariable)
  (isRemove : bool) : M unit :=
  let! k := expand_ptr key in
  let! v := expand_ptr value in
  evaluateTxCollection collection isRemove (Strings.ToLower k) v.

(** ** Disruptive actions *)

Definition noStatus : Z := 0.

Definition report_id (r : Rule) : Z := if rID r =? noID then rParentID r else rID r.

Definition deny_Evaluate (r : Rule) : M unit :=
  let status := if DisruptiveStatus r =? noStatus then 403 else DisruptiveStatus r in
  Interrupt (mkInterruption (report_id r) (lit "deny") status []).

Definition drop_Evaluate (r : Rule) : M unit :=
  Interrupt (mkInterruption (report_id r) (lit "drop") (DisruptiveStatus r) []).

Definition redirect_Evaluate (r : Rule) (target : gostring) : M unit :=
  let rstatus := DisruptiveStatus r in
  let status := if (rstatus =? 301) || (rstatus =? 302) || (rstatus =? 303) || (rstatus =? 307)
                then rstatus else 302 in
  Interrupt (mkInterruption (report_id r) (lit "redirect") status target).

(** [setenvFn.Evaluate]; the environment of the process is not modelled. *)
Definition setenv_Evaluate (key : gostring) (value : macro) : M unit :=
  let! v := expandM value in
  updMap variables.Env (fun c => Map_Set c key [v]).

(** ** Evaluation of an action *)

Definition action_Evaluate (w : WAF) (r : Rule) (a : action) : M unit :=
  match a with
  | allowFn t => modify (fun tx => tx <| AllowType_ := t |>)
  | ctlFn act value collection colKey => ctl_Evaluate w act value collection colKey
  | denyFn => deny_Evaluate r
  | dropFn => drop_Evaluate r
  | redirectFn target => redirect_Evaluate r target
  | setenvFn key value => setenv_Evaluate key value
  | setvarFn key value collection isRemove => setvar_Evaluate key value collection isRemove
  | skipFn n => modify (fun tx => tx <| Skip := n |>)
  | skipafterFn marker => modify (fun tx => tx <| SkipAfter := marker |>)
  | auditlogFn | blockFn | captureFn | chainFn | execFn | expirevarFn | idFn | initcolFn _ _
  | logFn | logdataFn | maturityFn | msgFn | multimatchFn | noauditlogFn | nologFn | passFn
  | phaseFn | revFn | severityFn | statusFn | tFn | tagFn | verFn => ret tt
  end.

(** ** Initialisation *)

(** [transformations.GetTransformation]; [None] is an unknown name. *)
Context (GetTransformation : gostring -> option Transformation).

Abbreviation init_result := ((Rule * action * transformationIDs) + ActionErr)%type.

Definition upd_meta (r : Rule) (f : RuleMetadata -> RuleMetadata) : Rule :=
  r <| meta := f (meta r) |>.

(** The actions that take no argument. *)
Definition no_arguments (data : gostring) (r : Rule) (a : action) (t : transformationIDs)
  : init_result :=
  if bool_decide (data = []) then inl (r, a, t) else inr ErrUnexpectedArguments.

(** The actions that need one. *)
Definition some_argument (data : gostring) (k : init_result) : init_result :=
  if bool_decide (data = []) then inr ErrMissingArguments else k.

Definition allow_Init (t : transformationIDs) (r : Rule) (data : gostring) : init_result :=
  if bool_decide (data = lit "phase") then inl (r, allowFn AllowTypePhase, t)
  else if bool_decide (data = lit "request") then inl (r, allowFn AllowTypeRequest, t)
  else if bool_decide (data = []) then inl (r, allowFn AllowTypeAll, t)
  else inr ErrText.

Definition setvar_Init (t : transformationIDs) (r : Rule) (data0 : gostring) : init_result :=
  match data0 with
  | [] => inr ErrMissingArguments
  | c :: rest =>
    let isRemove := bool_decide (c = "!"%byte) in
    let data := if isRemove then rest else data0 in
    let '(key, val, valOk) := Strings.Cut data "="%byte in
    let '(colKey, colVal, colOk) := Strings.Cut key "."%byte in
    if negb (bool_decide (Strings.ToUpper colKey = lit "TX")) then inr ErrText
    else if bool_decide (Strings.TrimSpace colVal = []) then inr ErrText
    else
      match variables.Parse colKey with
      | None => inr ErrText
      | Some collection =>
        let macro_of (ok : bool) s : option macro + ActionErr :=
          if ok then match NewMacro s with inl m => inl (Some m) | inr _ => inr ErrText end
          else inl None in
        match macro_of colOk colVal with
        | inr e => inr e
        | inl k =>
          match macro_of valOk val with
          | inr e => inr e
          | inl v => inl (r, setvarFn k v collection isRemove, t)
          end
        end
      end
  end.

Definition setenv_Init (t : transformationIDs) (r : Rule) (data : gostring) : init_result :=
  if bool_decide (data = []) then inr ErrMissingArguments
  else
    match Strings.Cut data "="%byte with
    | (_, _, false) => inr ErrInvalidKVArguments
    | (key, val, true) =>
      if bool_decide (key = []) then inr ErrText
      else if bool_decide (val = []) then inr ErrText
      else match NewMacro val with
           | inr _ => inr ErrText
           | inl m => inl (r, setenvFn key m, t)
           end
    end.

Definition skip_Init (t : transformationIDs) (r : Rule) (data : gostring) : init_result :=
  if bool_decide (data = []) then inr ErrMissingArguments
  else match Strconv.Atoi data with
       | (_, Some _) => inr ErrText
       | (i, None) => if i <? 1 then inr ErrText else inl (r, skipFn i, t)
       end.

Definition auditlog_Init (t : transformationIDs) (r : Rule) (data : gostring) : init_result :=
  no_arguments data (r <| Audit := true |>) auditlogFn t.

Definition block_Init (t : transformationIDs) (r : Rule) (data : gostring) : init_result :=
  no_arguments data r blockFn t.

Definition capture_Init (t : transformationIDs) (r : Rule) (data : gostring) : init_result :=
  no_arguments data (r <| rule_Capture := true |>) captureFn t.

Definition chain_Init (t : transformationIDs) (r : Rule) (data : gostring) : init_result :=
  no_arguments data (r <| HasChain := true |>) chainFn t.

Definition deny_Init (t : transformationIDs) (r : Rule) (data : gostring) : init_result :=
  no_arguments data r denyFn t.

Definition drop_Init (t : transformationIDs) (r : Rule) (data : gostring) : init_result :=
  no_arguments data r dropFn t.

Definition exec_Init (t : transformationIDs) (r : Rule) (data : gostring) : init_result :=
  no_arguments data r execFn t.

Definition log_Init (t : transformationIDs) (r : Rule) (data : gostring) : init_result :=
  no_arguments data (r <| Log := true |> <| Audit := true |>) logFn t.

Definition multimatch_Init (t : transformationIDs) (r : Rule) (data : gostring) : init_result :=
  no_arguments data (r <| MultiMatch := true |>) multimatchFn t.

Definition noauditlog_Init (t : transformationIDs) (r : Rule) (data : gostring) : init_result :=
  no_arguments data (r <| Audit := false |>) noauditlogFn t.

Definition nolog_Init (t : transformationIDs) (r : Rule) (data : gostring) : init_result :=
  no_arguments data (r <| Log := false |> <| Audit := false |>) nologFn t.

Definition pass_Init (t : transformationIDs) (r : Rule) (data : gostring) : init_result :=
  no_arguments data r passFn t.

Definition expirevar_Init (t : transformationIDs) (r : Rule) (data : gostring) : init_result :=
  inl (r, expirevarFn, t).

Definition ctl_Init (t : transformationIDs) (r : Rule) (data : gostring) : init_result :=
  match parseCtl data with
  | Some (act, value, collection, colKey) => inl (r, ctlFn act value collection colKey, t)
  | None => inr ErrText
  end.

Definition id_Init (t : transformationIDs) (r : Rule) (data : gostring) : init_result :=
  some_argument data
    (match Strconv.Atoi data with
     | (_, Some _) => inr ErrText
     | (i, None) =>
       if i <=? 0 then inr ErrText
       else inl (upd_meta r (fun m => m <| ID_ := i |> <| LogID_ := Strconv.Itoa i |>), idFn, t)
     end).

Definition initcol_Init (t : transformationIDs) (r : Rule) (data : gostring) : init_result :=
  match Strings.Cut data "="%byte with
  | (_, _, false) => inr ErrInvalidKVArguments
  | (col, key, true) => inl (r, initcolFn col key, t)
  end.

Definition logdata_Init (t : transformationIDs) (r : Rule) (data : gostring) : init_result :=
  some_argument data
    (match NewMacro data with
     | inl m => inl (r <| LogData := Some m |>, logdataFn, t)
     | inr _ => inr ErrText
     end).

Definition maturity_Init (t : transformationIDs) (r : Rule) (data : gostring) : init_result :=
  match Strconv.Atoi data with
  | (_, Some _) => inr ErrText
  | (m, None) =>
    if (m <? 1) || (9 <? m) then inr ErrText
    else inl (upd_meta r (fun md => md <| Maturity_ := m |>), maturityFn, t)
  end.

Definition msg_Init (t : transformationIDs) (r : Rule) (data : gostring) : init_result :=
  let data := MaybeRemoveQuotes data in
  some_argument data
    (match NewMacro data with
     | inl m => inl (r <| Msg := Some m |>, msgFn, t)
     | inr _ => inr ErrText
     end).

Definition phase_Init (t : transformationIDs) (r : Rule) (data : gostring) : init_result :=
  some_argument data
    (match ParseRulePhase data with
     | Some p => inl (upd_meta r (fun m => m <| Phase_ := p |>), phaseFn, t)
     | None => inr ErrText
     end).

Definition redirect_Init (t : transformationIDs) (r : Rule) (data : gostring) : init_result :=
  some_argument data (inl (r, redirectFn data, t)).

Definition rev_Init (t : transformationIDs) (r : Rule) (data : gostring) : init_result :=
  some_argument data (inl (upd_meta r (fun m => m <| Rev_ := data |>), revFn, t)).

Definition severity_Init (t : transformationIDs) (r : Rule) (data : gostring) : init_result :=
  some_argument data
    (match ParseRuleSeverity data with
     | (sev, true) => inl (upd_meta r (fun m => m <| Severity_ := sev |>), severityFn, t)
     | (_, false) => inr ErrText
     end).

Definition skipafter_Init (t : transformationIDs) (r : Rule) (data : gostring) : init_result :=
  let data := MaybeRemoveQuotes data in
  some_argument data (inl (r, skipafterFn data, t)).

Definition status_Init (t : transformationIDs) (r : Rule) (data : gostring) : init_result :=
  some_argument data
    (match Strconv.Atoi data with
     | (_, Some _) => inr ErrText
     | (s, None) => inl (r <| DisruptiveStatus := s |>, statusFn, t)
     end).

(** [tFn.Init]; a panic when the identifier of the rule's transformations is
    out of range. *)
Definition t_Init (t : transformationIDs) (r : Rule) (data : gostring) : outcome init_result :=
  if bool_decide (data = lit "none") then Ok (inl (ClearTransformations r, tFn, t))
  else
    match GetTransformation data with
    | None => Ok (inr ErrText)
    | Some f =>
      match AddTransformation t r data f with
      | Panic => Panic
      | Ok None => Ok (inr ErrText)
      | Ok (Some (r', t')) => Ok (inl (r', tFn, t'))
      end
    end.

Definition tag_Init (t : transformationIDs) (r : Rule) (data : gostring) : init_result :=
  some_argument data
    (inl (upd_meta r (fun m => m <| Tags_ := Tags_ m ++ [data] |>), tagFn, t)).

Definition ver_Init (t : transformationIDs) (r : Rule) (data : gostring) : init_result :=
  some_argument data (inl (upd_meta r (fun m => m <| Version_ := data |>), verFn, t)).

(** The call [a.Init(r, data)] on a new action. *)
Definition Init (t : transformationIDs) (r : Rule) (c : ruleActionWrapper) (data : gostring)
  : outcome init_result :=
  match c with
  | allow => Ok (allow_Init t r data)
  | auditlog => Ok (auditlog_Init t r data)
  | block => Ok (block_Init t r data)
  | capture => Ok (capture_Init t r data)
  | chain => Ok (chain_Init t r data)
  | ctl => Ok (ctl_Init t r data)
  | deny => Ok (deny_Init t r data)
  | drop_ => Ok (drop_Init t r data)
  | exec => Ok (exec_Init t r data)
  | expirevar => Ok (expirevar_Init t r data)
  | id_ => Ok (id_Init t r data)
  | initcol => Ok (initcol_Init t r data)
  | log => Ok (log_Init t r data)
  | logdata => Ok (logdata_Init t r data)
  | maturity => Ok (maturity_Init t r data)
  | msg => Ok (msg_Init t r data)
  | multimatch => Ok (multimatch_Init t r data)
  | noauditlog => Ok (noauditlog_Init t r data)
  | nolog => Ok (nolog_Init t r data)
  | pass => Ok (pass_Init t r data)
  | phase_ => Ok (phase_Init t r data)
  | redirect => Ok (redirect_Init t r data)
  | rev_ => Ok (rev_Init t r data)
  | setenv => Ok (setenv_Init t r data)
  | setvar => Ok (setvar_Init t r data)
  | severity => Ok (severity_Init t r data)
  | skip => Ok (skip_Init t r data)
  | skipafter => Ok (skipafter_Init t r data)
  | status => Ok (status_Init t r data)
  | t_ => t_Init t r data
  | tag => Ok (tag_Init t r data)
  | ver => Ok (ver_Init t r data)
  end.
End actions.
