(* ===== verification/Transformations.v ===== *)
(** * Transformations (internal/transformations)

    The pure functions that normalise a value before an operator sees it: each
    returns the new value, whether it reports a change, and an error.  The code
    decodes in place into a copy of the input, writing behind its read
    position; here each decoder maps the rest of the input to the rest of the
    output.  The hashes and the HTML entity decoder of libraries are
    parameters of the registry. *)

From stdpp Require Import options.
From Stdlib Require Import Strings.Byte.
From S2P Require Import Prelude GoLib HttpParse Rule.

(** A transformation without error. *)
Definition done_ (s : gostring) (changed : bool) : gostring * bool * option gostring :=
  (s, changed, None).

(** The first loop of most transformations: the position of the first byte
    that needs work, if any. *)
Definition needs (p : byte -> bool) (s : gostring) : bool := existsb p s.

(** ** Trivial ones *)

Definition none : Transformation := fun data => done_ data false.

Definition length_T : Transformation := fun data => done_ (Strconv.Itoa (zlen data)) true.

Definition lowerCase `{GoUnicode} : Transformation := fun data =>
  let t := Strings.ToLower data in done_ t (negb (bool_decide (data = t))).

Definition upperCase `{GoUnicode} : Transformation := fun data =>
  let t := Strings.ToUpper data in done_ t (negb (bool_decide (data = t))).

(** [trimSpaces] *)
Definition is_trim_space (b : byte) : bool := bool_decide (bz b ∈ [32; 9; 10; 13; 12; 11]).

Definition trim_T : Transformation := fun data =>
  let t := Strings.trim is_trim_space data in done_ t (negb (zlen data =? zlen t)).

Definition trimLeft : Transformation := fun data =>
  let t := Strings.trim_left is_trim_space data in done_ t (negb (zlen data =? zlen t)).

Definition trimRight : Transformation := fun data =>
  let t := Strings.trim_right is_trim_space data in done_ t (negb (zlen data =? zlen t)).

Definition removeNulls : Transformation := fun data =>
  let t := List.filter (fun b => negb (bool_decide (b = x00))) data in
  done_ t (negb (zlen data =? zlen t)).

Definition replaceNulls : Transformation := fun data =>
  let t := map (fun b => if bool_decide (b = x00) then " "%byte else b) data in
  done_ t (negb (bool_decide (data = t))).

(** [removeWhitespace]: [strings.Map] drops the runes that are white space; a
    byte that is not valid UTF-8 becomes U+FFFD once something was dropped or
    such a byte is met. *)
Definition removeWhitespace : Transformation := fun data =>
  let rs := Utf8.runes data in
  done_ (concat (map (fun rb => Utf8.EncodeRune (fst rb))
                     (List.filter (fun rb => negb (unicode_IsSpace (fst rb))) rs)))
        (existsb (fun rb => unicode_IsSpace (fst rb)) rs).

(** ** White space *)

Definition isLatinSpace (c : byte) : bool :=
  bool_decide (bz c ∈ [9; 10; 11; 12; 13; 32; 0x85; 0xA0]).

(** The loop of [doCompressWhitespace]: output and the flag [changed]. *)
Fixpoint compress_go (input : gostring) (inWhiteSpace : bool) : gostring * bool :=
  match input with
  | [] => ([], false)
  | c :: rest =>
    if isLatinSpace c then
      if inWhiteSpace then (fst (compress_go rest true), true)
      else let r := compress_go rest true in (" "%byte :: fst r, snd r)
    else let r := compress_go rest false in (c :: fst r, snd r)
  end.

Definition compressWhitespace : Transformation := fun value =>
  let r := compress_go value false in done_ (fst r) (snd r).

(** ** Command lines *)

Definition needsTransform (c : byte) : bool :=
  ((65 <=? bz c) && (bz c <=? 90))
  || bool_decide (c ∈ [x22; "'"; "\"; "^"; " "; ","; ";"; x09; x0d; x0a; "/"; "("]%byte).

(** The loop of [doCMDLine] with the output so far, which a slash or a
    parenthesis may shorten by a blank. *)
Fixpoint cmd_go (input : gostring) (space : bool) (ret : gostring) : gostring :=
  match input with
  | [] => ret
  | a :: rest =>
    if bool_decide (a ∈ [x22; "'"; "\"; "^"]%byte) then cmd_go rest space ret
    else if bool_decide (a ∈ [" "; ","; ";"; x09; x0d; x0a]%byte) then
      if space then cmd_go rest true ret else cmd_go rest true (ret ++ [" "%byte])
    else if bool_decide (a ∈ ["/"; "("]%byte) then
      cmd_go rest false ((if space then take (length ret - 1) ret else ret) ++ [a])
    else cmd_go rest false (ret ++ [Strings.lower_byte a])
  end.

Definition cmdLine : Transformation := fun data =>
  if needs needsTransform data then done_ (cmd_go data false []) true else done_ data false.

(** ** Hexadecimal and base64 *)

Definition hexdigit (n : Z) : byte := zb (if n <? 10 then 48 + n else 87 + n).

(** [hex.EncodeToString] and [hex.DecodeString]. *)
Definition hex_EncodeToString (s : gostring) : gostring :=
  flat_map (fun b => [hexdigit (bz b / 16); hexdigit (bz b mod 16)]) s.

Fixpoint hex_DecodeString (s : gostring) : option gostring :=
  match s with
  | [] => Some []
  | [_] => None
  | a :: b :: s =>
    match hexDigitToByte a, hexDigitToByte b, hex_DecodeString s with
    | Some hi, Some lo, Some r => Some (zb (hi * 16 + lo) :: r)
    | _, _, _ => None
    end
  end.

Definition hexEncode : Transformation := fun data => done_ (hex_EncodeToString data) true.

(** The text of the error, which is only logged, is not the library's. *)
Definition hexDecode : Transformation := fun data =>
  match hex_DecodeString data with
  | Some dst => done_ dst true
  | None => ([], false, Some (lit "encoding/hex: invalid input"))
  end.

(** [base64DecMap] *)
Definition base64DecMap (c : byte) : Z :=
  let z := bz c in
  if z =? 43 then 62 else if z =? 47 then 63
  else if (48 <=? z) && (z <=? 57) then z + 4
  else if z =? 61 then 64
  else if (65 <=? z) && (z <=? 90) then z - 65
  else if (97 <=? z) && (z <=? 122) then z - 71
  else 127.

(** The bytes of a group of 24, 12 or 18 bits. *)
Definition byte_at (x s : Z) : byte := zb (Z.shiftr x s).

(** What is written when the input ends or is cut. *)
Definition base64_rest (n x : Z) : gostring :=
  if n =? 2 then [byte_at (Z.shiftl x 12) 16]
  else if n =? 3 then [byte_at (Z.shiftl x 6) 16; byte_at (Z.shiftl x 6) 8]
  else [].

Fixpoint base64_go (src : gostring) (ext : bool) (n x : Z) : gostring :=
  match src with
  | [] => base64_rest n x
  | c :: src =>
    if ext && (unicode_IsSpace (bz c) || bool_decide (c = "."%byte)) then base64_go src ext n x
    else if bool_decide (c = x0d) || bool_decide (c = x0a) then base64_go src ext n x
    else if bool_decide (c = "="%byte) || bool_decide (c = " "%byte) || (127 <? bz c)
    then base64_rest n x
    else if base64DecMap c =? 127 then base64_rest n x
    else
      let x := Z.lor (Z.shiftl x 6) (Z.land (base64DecMap c) 0x3F) in
      if n + 1 =? 4
      then byte_at x 16 :: byte_at x 8 :: byte_at x 0 :: base64_go src ext 0 0
      else base64_go src ext (n + 1) x
  end.

Definition doBase64decode (src : gostring) (ext : bool) : gostring := base64_go src ext 0 0.

Definition base64decode : Transformation := fun data => done_ (doBase64decode data false) true.
Definition base64decodeext : Transformation := fun data => done_ (doBase64decode data true) true.

(** The standard alphabet and [base64.StdEncoding.EncodeToString]. *)
Definition base64_char (n : Z) : byte :=
  zb (if n <? 26 then 65 + n else if n <? 52 then 71 + n else if n <? 62 then n - 4
      else if n =? 62 then 43 else 47).

Fixpoint base64_EncodeToString (s : gostring) : gostring :=
  match s with
  | [] => []
  | [a] => let x := bz a * 65536 in
    [base64_char (x / 262144); base64_char (x / 4096 mod 64); "="%byte; "="%byte]
  | [a; b] => let x := bz a * 65536 + bz b * 256 in
    [base64_char (x / 262144); base64_char (x / 4096 mod 64); base64_char (x / 64 mod 64); "="%byte]
  | a :: b :: c :: s => let x := bz a * 65536 + bz b * 256 + bz c in
    base64_char (x / 262144) :: base64_char (x / 4096 mod 64) :: base64_char (x / 64 mod 64)
    :: base64_char (x mod 64) :: base64_EncodeToString s
  end.

Definition base64encode : Transformation := fun data => done_ (base64_EncodeToString data) true.

(** ** URL encoding *)

Definition url_plain (cc : byte) : bool :=
  (bz cc =? 42) || ((48 <=? bz cc) && (bz cc <=? 57)) || ((65 <=? bz cc) && (bz cc <=? 90))
  || ((97 <=? bz cc) && (bz cc <=? 122)).

(** [doURLEncode] *)
Definition urlEncode : Transformation := fun data =>
  done_ (flat_map (fun cc =>
           if bool_decide (cc = " "%byte) then ["+"%byte]
           else if url_plain cc then [cc]
           else ["%"%byte; hexdigit (Z.shiftr (bz cc) 4); hexdigit (Z.land (bz cc) 15)]) data)
        (existsb (fun cc => bool_decide (cc = " "%byte) || negb (url_plain cc)) data).

(** [doURLDecode]; before the first percent sign or plus it copies, too. *)
Fixpoint doURLDecode (input : gostring) : gostring :=
  match input with
  | [] => []
  | a :: rest =>
    if bool_decide (a = "%"%byte) then
      match rest with
      | c1 :: c2 :: rest' =>
        if ValidHex c1 && ValidHex c2 then X2c c1 c2 :: doURLDecode rest'
        else a :: doURLDecode rest
      | _ => a :: doURLDecode rest
      end
    else (if bool_decide (a = "+"%byte) then " "%byte else a) :: doURLDecode rest
  end.

Definition is_url_special (b : byte) : bool := bool_decide (b = "%"%byte \/ b = "+"%byte).

Definition urlDecode : Transformation := fun data =>
  if needs is_url_special data then done_ (doURLDecode data) true else done_ data false.

(** The lower byte of [%uHHHH]; full width ASCII gets 0x20 added. *)
Definition uni_byte (h1 h2 h3 h4 : byte) : byte :=
  let d := X2c h3 h4 in
  if (0 <? bz d) && (bz d <? 0x5f) && bool_decide (h1 ∈ ["f"; "F"]%byte)
     && bool_decide (h2 ∈ ["f"; "F"]%byte)
  then zb (bz d + 0x20) else d.

(** [inplaceUniDecode] *)
Fixpoint inplaceUniDecode (input : gostring) : gostring :=
  match input with
  | [] => []
  | a :: rest =>
    if bool_decide (a = "%"%byte) then
      match rest with
      | u :: rest1 =>
        if bool_decide (u ∈ ["u"; "U"]%byte) then
          match rest1 with
          | h1 :: h2 :: h3 :: h4 :: rest' =>
            if ValidHex h1 && ValidHex h2 && ValidHex h3 && ValidHex h4
            then uni_byte h1 h2 h3 h4 :: inplaceUniDecode rest'
            else a :: u :: inplaceUniDecode rest1
          | _ => a :: u :: inplaceUniDecode rest1
          end
        else
          match rest1 with
          | c2 :: rest' =>
            if ValidHex u && ValidHex c2 then X2c u c2 :: inplaceUniDecode rest'
            else a :: inplaceUniDecode rest
          | [] => a :: inplaceUniDecode rest
          end
      | [] => a :: inplaceUniDecode rest
      end
    else (if bool_decide (a = "+"%byte) then " "%byte else a) :: inplaceUniDecode rest
  end.

Definition urlDecodeUni : Transformation := fun data =>
  if needs is_url_special data then done_ (inplaceUniDecode data) true else done_ data false.

(** ** Backslash escapes

    The decoders below look ahead from a backslash, emit at most one byte and
    move on by several.  [skip] counts the bytes of the input that a decoded
    escape has already consumed. *)

Definition is_backslash (b : byte) : bool := bool_decide (b = "\"%byte).

(** [isODigit] and [isodigit] *)
Definition isODigit (c : byte) : bool := (48 <=? bz c) && (bz c <=? 55).

(** The letters both [escapeSeqDecode] and [jsDecode] know. *)
Definition control_escape (c : byte) : option byte :=
  match c with
  | "a" => Some x07 | "b" => Some x08 | "f" => Some x0c | "n" => Some x0a
  | "r" => Some x0d | "t" => Some x09 | "v" => Some x0b | _ => None
  end%byte.

(** The [switch] of [doEscapeSeqDecode]. *)
Definition simple_escape (c : byte) : option byte :=
  if bool_decide (c ∈ ["\"; "?"; "'"; x22]%byte) then Some c else control_escape c.

(** [strconv.ParseUint] and [ParseInt] of a digit string in base 8: a string
    with any other byte has no value, a large number is cut to the maximum. *)
Definition octal_value (s : gostring) : Z := fold_left (fun n b => n * 8 + (bz b - 48)) s 0.

Definition ParseOctal (s : gostring) (maxVal : Z) : Z :=
  if bool_decide (s = []) then 0
  else if forallb isODigit s then Z.min (octal_value s) maxVal else 0.

(** The longest prefix of at most [n] bytes that satisfy [p]. *)
Fixpoint prefix_while (p : byte -> bool) (n : nat) (s : gostring) : gostring :=
  match n, s with
  | S n, c :: s => if p c then c :: prefix_while p n s else []
  | _, _ => []
  end.

(** One escape of [doEscapeSeqDecode], from the bytes after the backslash:
    the byte to write, how many of these bytes are consumed, and whether it
    counts as a change. *)
Definition escape_step (c : byte) (rest : gostring) : byte * nat * bool :=
  match simple_escape c with
  | Some b => (b, 1%nat, true)
  | None =>
    match bool_decide (c ∈ ["x"; "X"]%byte), rest with
    | true, h1 :: h2 :: _ =>
      if ValidHex h1 && ValidHex h2 then (X2c h1 h2, 3%nat, true) else (c, 1%nat, false)
    | _, _ =>
      if isODigit c then
        let digits := c :: prefix_while isODigit 2 rest in
        (zb (ParseOctal digits 255), length digits, true)
      else (c, 1%nat, false)
    end
  end.

Fixpoint escape_go (input : gostring) (skip : nat) : gostring * bool :=
  match input with
  | [] => ([], false)
  | a :: rest =>
    match skip with
    | S skip => escape_go rest skip
    | O =>
      match is_backslash a, rest with
      | true, c :: rest' =>
        let '(b, n, chg) := escape_step c rest' in
        let r := escape_go rest n in (b :: fst r, chg || snd r)
      | _, _ => let r := escape_go rest 0 in (a :: fst r, snd r)
      end
    end
  end.

(** [doEscapeSeqDecode] copies up to the first backslash, too. *)
Definition doEscapeSeqDecode (input : gostring) : gostring * bool := escape_go input 0.

Definition escapeSeqDecode : Transformation := fun input =>
  if needs is_backslash input
  then let r := doEscapeSeqDecode input in done_ (fst r) (snd r)
  else done_ input false.

(** The octal loop of [doJsDecode]: [inp] starts at the backslash, and it is
    [inp[j]], not [inp[j+1]], that goes to the buffer. *)
Fixpoint js_octal_go (fuel j : nat) (inp buf : gostring) : gostring :=
  match fuel with
  | O => buf
  | S fuel =>
    match inp !! S j, inp !! j with
    | Some next, Some b =>
      if isODigit next then js_octal_go fuel (S j) inp (buf ++ [b]) else buf ++ [b]
    | _, _ => buf
    end
  end.

Definition js_octal (inp : gostring) : gostring :=
  let buf := js_octal_go 3 0 inp [] in
  match buf with
  | [b0; b1; _] => if 51 <? bz b0 then [b0; b1] else buf
  | _ => buf
  end.

Definition js_unicode (rest : gostring) : option byte :=
  match rest with
  | h1 :: h2 :: h3 :: h4 :: _ =>
    if ValidHex h1 && ValidHex h2 && ValidHex h3 && ValidHex h4
    then Some (uni_byte h1 h2 h3 h4) else None
  | _ => None
  end.

Definition js_hex (rest : gostring) : option byte :=
  match rest with
  | h1 :: h2 :: _ => if ValidHex h1 && ValidHex h2 then Some (X2c h1 h2) else None
  | _ => None
  end.

(** One escape of [doJsDecode]: the byte and how many bytes after the
    backslash are consumed. *)
Definition js_step (c : byte) (rest : gostring) : byte * nat :=
  match bool_decide (c = "u"%byte), js_unicode rest with
  | true, Some b => (b, 5%nat)
  | _, _ =>
    match bool_decide (c = "x"%byte), js_hex rest with
    | true, Some b => (b, 3%nat)
    | _, _ =>
      if isODigit c then
        let buf := js_octal ("\"%byte :: c :: rest) in
        (zb (ParseOctal buf 127), length buf)
      else (default c (control_escape c), 1%nat)
    end
  end.

Fixpoint js_go (input : gostring) (skip : nat) : gostring * bool :=
  match input with
  | [] => ([], false)
  | a :: rest =>
    match skip with
    | S skip => js_go rest skip
    | O =>
      match is_backslash a, rest with
      | true, c :: rest' =>
        let '(b, n) := js_step c rest' in
        let r := js_go rest n in (b :: fst r, true)
      | _, _ => let r := js_go rest 0 in (a :: fst r, snd r)
      end
    end
  end.

Definition doJsDecode (input : gostring) : gostring * bool := js_go input 0.

Definition jsDecode : Transformation := fun data =>
  if needs is_backslash data
  then let r := doJsDecode data in done_ (fst r) (snd r)
  else done_ data false.

(** ** CSS escapes *)

(** [isspace] and [xsingle2c] *)
Definition isspace (c : byte) : bool := is_trim_space c.

Definition xsingle2c (what : byte) : byte :=
  if 65 <=? bz what then zb (Z.land (bz what) 0xdf - 65 + 10) else zb (bz what - 48).

(** The byte for one to six hexadecimal digits: the last two count; a full
    width check is made for four digits, or more with leading zeros. *)
Definition css_hex (digits : gostring) : byte :=
  match digits with
  | [a] => xsingle2c a
  | [a; b] | [_; a; b] => X2c a b
  | [h1; h2; a; b] => uni_byte h1 h2 a b
  | [z; h1; h2; a; b] => if bool_decide (z = "0"%byte) then uni_byte h1 h2 a b else X2c a b
  | [z1; z2; h1; h2; a; b] =>
    if bool_decide (z1 = "0"%byte) && bool_decide (z2 = "0"%byte)
    then uni_byte h1 h2 a b else X2c a b
  | _ => x00
  end.

(** One escape: what is written and how many bytes after the backslash are
    consumed. *)
Definition css_step (rest : gostring) : gostring * nat :=
  match prefix_while ValidHex 6 rest, rest with
  | [], [] => ([], 0%nat)
  | [], c :: _ => if bool_decide (c = x0a) then ([], 1%nat) else ([c], 1%nat)
  | digits, _ =>
    let j := length digits in
    ([css_hex digits],
     match rest !! j with
     | Some c => if isspace c then S j else j
     | None => j
     end)
  end.

Fixpoint css_go (input : gostring) (skip : nat) : gostring :=
  match input with
  | [] => []
  | a :: rest =>
    match skip with
    | S skip => css_go rest skip
    | O =>
      if is_backslash a
      then let '(out, n) := css_step rest in out ++ css_go rest n
      else a :: css_go rest 0
    end
  end.

Definition cssDecodeInplace (input : gostring) : gostring := css_go input 0.

Definition cssDecode : Transformation := fun data =>
  if needs is_backslash data then done_ (cssDecodeInplace data) true else done_ data false.

(** ** UTF-8 to %uHHHH *)

(** [numHexDigits] *)
Definition numHexDigits (c : Z) : nat :=
  if c <=? 0xf then 1 else if c <=? 0xff then 2 else if c <=? 0xfff then 3 else 4.

(** [strconv.AppendUint] in base 16, at most eight digits. *)
Fixpoint hex_go (fuel : nat) (n : Z) (acc : gostring) : gostring :=
  match fuel with
  | O => acc
  | S fuel =>
    let acc := hexdigit (n mod 16) :: acc in
    if n <? 16 then acc else hex_go fuel (n / 16) acc
  end.

Definition unicode_escape (c : Z) : gostring :=
  ["%"; "u"]%byte ++ replicate (4 - numHexDigits c) "0"%byte ++ hex_go 8 c [].

Definition doUTF8ToUnicode (input : gostring) : gostring :=
  flat_map (fun rb => if fst rb <? 128 then [zb (fst rb)] else unicode_escape (fst rb))
           (Utf8.runes input).

Definition utf8ToUnicode : Transformation := fun str =>
  if existsb (fun rb => 128 <=? fst rb) (Utf8.runes str)
  then done_ (doUTF8ToUnicode str) true else done_ str false.

(** ** Comments *)

Abbreviation at_ := Strings.HasPrefix.

(** Where [removeComments] is: in the text, in a comment, or right behind a
    closed comment, whose next byte is copied unseen. *)
Inductive comment_state := Text | Comment | Closed.

(** [removeComments].  The copied byte behind a closed comment is the padding
    NUL when the comment ends the input.  The cut at [--] or [#] keeps what was
    written so far. *)
Fixpoint removeComments_go (input : gostring) (skip : nat) (st : comment_state)
  : gostring * bool :=
  match input with
  | [] => match st with
          | Text => ([], false)
          | Comment => ([" "%byte], true)
          | Closed => ([x00], false)
          end
  | a :: rest =>
    match skip with
    | S skip => removeComments_go rest skip st
    | O =>
      match st with
      | Text =>
        if at_ input (lit "/*") then removeComments_go rest 1 Comment
        else if at_ input (lit "<!--") then removeComments_go rest 3 Comment
        else if at_ input (lit "--") then ([], true)
        else if at_ input (lit "#") then ([], true)
        else let r := removeComments_go rest 0 Text in (a :: fst r, snd r)
      | Comment =>
        if at_ input (lit "*/") then removeComments_go rest 1 Closed
        else if at_ input (lit "-->") then removeComments_go rest 2 Closed
        else removeComments_go rest 0 Comment
      | Closed => let r := removeComments_go rest 0 Text in (a :: fst r, snd r)
      end
    end
  end.

Definition removeComments : Transformation := fun value =>
  let r := removeComments_go value 0 Text in done_ (fst r) (snd r).

(** The length of the comment marker at the head of the input. *)
Definition comment_marker (value : gostring) : option nat :=
  if at_ value (lit "/*") then Some 2%nat
  else if at_ value (lit "*/") then Some 2%nat
  else if at_ value (lit "<!--") then Some 4%nat
  else if at_ value (lit "-->") then Some 3%nat
  else if at_ value (lit "--") then Some 2%nat
  else if at_ value (lit "#") then Some 1%nat
  else None.

Fixpoint removeCommentsChar_go (value : gostring) (skip : nat) : gostring * bool :=
  match value with
  | [] => ([], false)
  | a :: rest =>
    match skip with
    | S skip => removeCommentsChar_go rest skip
    | O =>
      match comment_marker value with
      | Some n => (fst (removeCommentsChar_go rest (n - 1)), true)
      | None => let r := removeCommentsChar_go rest 0 in (a :: fst r, snd r)
      end
    end
  end.

Definition removeCommentsChar : Transformation := fun value =>
  let r := removeCommentsChar_go value 0 in done_ (fst r) (snd r).

Fixpoint doReplaceComments (value : gostring) (skip : nat) (incomment : bool) : gostring * bool :=
  match value with
  | [] => (if incomment then [" "%byte] else [], false)
  | a :: rest =>
    match skip with
    | S skip => doReplaceComments rest skip incomment
    | O =>
      if incomment then
        if at_ value (lit "*/")
        then let r := doReplaceComments rest 1 false in (" "%byte :: fst r, snd r)
        else doReplaceComments rest 0 true
      else
        if at_ value (lit "/*") then (fst (doReplaceComments rest 1 true), true)
        else let r := doReplaceComments rest 0 false in (a :: fst r, snd r)
    end
  end.

Definition replaceComments : Transformation := fun data =>
  let r := doReplaceComments data 0 false in done_ (fst r) (snd r).

(** ** Paths *)

(** [path.Clean], as its documentation describes it: empty and dot components
    go, a dot-dot component removes the one before it, and goes itself at the
    root. *)
Definition clean_component (rooted : bool) (out : list gostring) (c : gostring)
  : list gostring :=
  if bool_decide (c = []) || bool_decide (c = lit ".") then out
  else if bool_decide (c = lit "..") then
    match out with
    | top :: out' =>
      if bool_decide (top = lit "..") then c :: out else out'
    | [] => if rooted then [] else [c]
    end
  else c :: out.

Definition is_rooted (p : gostring) : bool := at_ p (lit "/").

(** The components that stay, last first. *)
Definition cleaned (p : gostring) : list gostring :=
  fold_left (clean_component (is_rooted p)) (split_on "/"%byte p) [].

Definition path_Clean (p : gostring) : gostring :=
  if bool_decide (p = []) then lit "."
  else
    let q := (if is_rooted p then lit "/" else []) ++ join "/"%byte (rev (cleaned p)) in
    if bool_decide (q = []) then lit "." else q.

(** [filepath.Join] of two elements. *)
Definition filepath_Join (dir path : gostring) : gostring :=
  if bool_decide (dir = []) then (if bool_decide (path = []) then [] else path_Clean path)
  else path_Clean (dir ++ "/"%byte :: path).

Definition normalisePath : Transformation := fun data =>
  if bool_decide (data = []) then done_ data false
  else
    let clean := path_Clean data in
    if bool_decide (clean = lit ".") then done_ [] true
    else if Strings.HasSuffix data (lit "/") then done_ (clean ++ lit "/") true
    else done_ clean (negb (bool_decide (data = clean))).

Definition normalisePathWin : Transformation := fun data =>
  if bool_decide (data = []) then done_ data false
  else normalisePath (map (fun b => if is_backslash b then "/"%byte else b) data).

(** ** The registry (transformations.go) *)

Section registry.
Context `{GoUnicode}.

(** [html.UnescapeString], [md5.Sum] and [sha1.Sum]. *)
Variables html_UnescapeString md5_Sum sha1_Sum : gostring -> gostring.

Definition htmlEntityDecode : Transformation := fun data =>
  let t := html_UnescapeString data in done_ t (negb (zlen data =? zlen t)).

Definition md5T : Transformation := fun data => done_ (md5_Sum data) true.

Definition sha1T : Transformation := fun data => done_ (sha1_Sum data) true.

Definition registered : list (gostring * Transformation) :=
  [ (lit "base64Decode", base64decode); (lit "base64DecodeExt", base64decodeext);
    (lit "base64Encode", base64encode); (lit "cmdLine", cmdLine);
    (lit "compressWhitespace", compressWhitespace); (lit "cssDecode", cssDecode);
    (lit "escapeSeqDecode", escapeSeqDecode); (lit "hexDecode", hexDecode);
    (lit "hexEncode", hexEncode); (lit "htmlEntityDecode", htmlEntityDecode);
    (lit "jsDecode", jsDecode); (lit "length", length_T); (lit "lowercase", lowerCase);
    (lit "md5", md5T); (lit "none", none); (lit "normalisePath", normalisePath);
    (lit "normalisePathWin", normalisePathWin); (lit "normalizePath", normalisePath);
    (lit "normalizePathWin", normalisePathWin); (lit "removeComments", removeComments);
    (lit "removeCommentsChar", removeCommentsChar); (lit "removeNulls", removeNulls);
    (lit "removeWhitespace", removeWhitespace); (lit "replaceComments", replaceComments);
    (lit "replaceNulls", replaceNulls); (lit "sha1", sha1T); (lit "uppercase", upperCase);
    (lit "urlDecode", urlDecode); (lit "urlDecodeUni", urlDecodeUni);
    (lit "urlEncode", urlEncode); (lit "utf8toUnicode", utf8ToUnicode); (lit "trim", trim_T);
    (lit "trimLeft", trimLeft); (lit "trimRight", trimRight) ].

(** [Register] overwrites an earlier entry of the same lowered name. *)
Definition Register (m : list (gostring * Transformation)) (name : gostring)
  (trans : Transformation) : list (gostring * Transformation) :=
  (Strings.ToLower name, trans) :: m.

Definition find_transformation (m : list (gostring * Transformation)) (name : gostring)
  : option Transformation :=
  snd <$> List.find (fun e => bool_decide (fst e = name)) m.

Definition transformations_map : list (gostring * Transformation) :=
  fold_left (fun m e => Register m (fst e) (snd e)) registered [].

(** [GetTransformation]; [None] stands for the error. *)
Definition GetTransformation (name : gostring) : option Transformation :=
  find_transformation transformations_map (Strings.ToLower name).
End registry.
