(* ===== verification/Operators.v ===== *)
(** * Operators (internal/operators)

    The test that a rule applies to a value.  A factory makes an operator of
    its arguments, or fails; the operator may read the transaction and capture
    fields.  The matchers of libraries (regular expressions, Aho-Corasick,
    libinjection, JSON schemas), the file system, processes and name servers
    are an interface. *)

From stdpp Require Import options.
From Stdlib Require Import Strings.Byte.
From S2P Require Import Prelude GoLib GoNet HttpParse Variables Types Collections BodyBuffer.
From S2P Require Import Transaction Macro Rule TransactionOps Actions Transformations.

(** [plugintypes.Operator] *)
Abbreviation Operator := (gostring -> M bool).

(** [plugintypes.OperatorOptions] without the root of the file system. *)
Record OperatorOptions := mkOperatorOptions {
  Arguments : gostring;
  Path : list gostring;
  Datasets : gmap gostring (list gostring);
}.

(** Errors of the file system: what [os.IsNotExist] tells apart. *)
Inductive FileErr := ErrNotExist | ErrIO.

Inductive OperatorErr :=
| ErrMacro (e : MacroErr)
| ErrAtoi (e : Strconv.NumError)
| ErrInvalidByte (b : Z)
| ErrInvalidArgument
| ErrRegexp
| ErrFile (e : FileErr)
| ErrEmptyDirs
| ErrMissingSchema
| ErrSchemaType (ext : gostring)
| ErrSchema
| ErrDatasetNotFound (name : gostring)
| ErrOperatorNotFound (name : gostring).

(** [plugintypes.OperatorFactory] *)
Abbreviation OperatorFactory := (OperatorOptions -> Operator + OperatorErr).

Definition atoi (s : gostring) : Z := fst (Strconv.Atoi s).

(** What is used of a compiled expression: [FindStringSubmatch] ([[]] for no
    match), [MatchString], the whole matches that [FindAllStringSubmatch]
    finds, and [SubexpNames]. *)
Record CompiledRegexp := mkCompiledRegexp {
  FindStringSubmatch : gostring -> list gostring;
  MatchString : gostring -> bool;
  FindAll_whole : gostring -> nat -> list gostring;
  SubexpNames : list gostring;
}.

(** The answer of a block list; [RblListed] has the text it gives, if any. *)
Inductive rbl_answer :=
| RblTimeout
| RblError
| RblListed (txt : option gostring).

(** The libraries and the system that operators call. *)
Class MatcherLibs := {
  (* [regexp.Compile] and [binaryregexp.Compile]; [None] is an error *)
  regexp_Compile : gostring -> option CompiledRegexp;
  binaryregexp_Compile : gostring -> option CompiledRegexp;
  (* the matches, as start and end, that an Aho-Corasick matcher built from a
     dictionary finds in a value, in their order *)
  ahocorasick_Build : list gostring -> gostring -> list (nat * nat);
  (* libinjection: the verdict and the fingerprint *)
  libinjection_IsSQLi : gostring -> bool * gostring;
  libinjection_IsXSS : gostring -> bool;
  (* a compiled JSON schema: whether a text is JSON that satisfies it *)
  jsonschema_Compile : gostring -> option (gostring -> bool);
  (* [fs.ReadFile] of the root *)
  fs_ReadFile : gostring -> gostring + FileErr;
  (* the output of a program that ended well in time *)
  exec_CombinedOutput : gostring -> gostring -> option gostring;
  (* the name servers, within the time that [rbl] waits *)
  rbl_Lookup : gostring -> rbl_answer;
}.

Section operators.
Context `{GoUnicode} `{MapOrder} `{MatcherLibs}.

(** The operators whose argument is a macro: the test gets the expanded
    argument and the value. *)
Definition with_macro (test : gostring -> gostring -> bool) : OperatorFactory := fun options =>
  match NewMacro (Arguments options) with
  | inl m => inl (fun value => let! data := expandM m in ret (test data value))
  | inr e => inr (ErrMacro e)
  end.

Definition newBeginsWith : OperatorFactory :=
  with_macro (fun data value => Strings.HasPrefix value data).

Definition newEndsWith : OperatorFactory :=
  with_macro (fun data value => Strings.HasSuffix value data).

Definition newContains : OperatorFactory :=
  with_macro (fun data value => Strings.Contains value data).

Definition newWithin : OperatorFactory :=
  with_macro (fun data value => Strings.Contains data value).

Definition newStrEq : OperatorFactory :=
  with_macro (fun data value => bool_decide (data = value)).

(** The comparisons; what is not a number counts as zero. *)
Definition newEq : OperatorFactory := with_macro (fun data value => atoi data =? atoi value).
Definition newGE : OperatorFactory := with_macro (fun data value => atoi data <=? atoi value).
Definition newGT : OperatorFactory := with_macro (fun data value => atoi data <? atoi value).
Definition newLE : OperatorFactory := with_macro (fun data value => atoi value <=? atoi data).
Definition newLT : OperatorFactory := with_macro (fun data value => atoi value <? atoi data).

Definition unconditionalMatch : Operator := fun _ => ret true.
Definition newUnconditionalMatch : OperatorFactory := fun _ => inl unconditionalMatch.

Definition noMatch : Operator := fun _ => ret false.
Definition newNoMatch : OperatorFactory := fun _ => inl noMatch.

Definition newGeoLookup : OperatorFactory := fun _ => inl unconditionalMatch.

(** ** @validateByteRange *)

(** [[256]bool] *)
Abbreviation byte_table := (Z -> bool).

Definition validateByte (b : Z) : option OperatorErr :=
  if (b <? 0) || (255 <? b) then Some (ErrInvalidByte b) else None.

(** A number of the argument that has to be a byte. *)
Definition parse_byte (s : gostring) : Z + OperatorErr :=
  match Strconv.Atoi s with
  | (_, Some e) => inr (ErrAtoi e)
  | (b, None) => match validateByte b with Some e => inr e | None => inl b end
  end.

(** [for i := s; i <= e; i++ { validBytes[i] = true }] *)
Definition mark_range (s e : Z) (validBytes : byte_table) : byte_table :=
  fun b => ((s <=? b) && (b <=? e)) || validBytes b.

(** One element of the list: a byte or a range. *)
Definition byte_range_piece (validBytes : byte_table) (br : gostring)
  : byte_table + OperatorErr :=
  let '(start, end_, ok) := Strings.Cut (Strings.TrimSpace br) "-"%byte in
  match parse_byte start with
  | inr e => inr e
  | inl s =>
    if negb ok then inl (mark_range s s validBytes)
    else match parse_byte end_ with
         | inr e => inr e
         | inl e => inl (mark_range s e validBytes)
         end
  end.

Fixpoint byte_range_go (validBytes : byte_table) (l : list gostring)
  : byte_table + OperatorErr :=
  match l with
  | [] => inl validBytes
  | br :: l => match byte_range_piece validBytes br with
               | inl v => byte_range_go v l
               | inr e => inr e
               end
  end.

Definition validateByteRange_Evaluate (validBytes : byte_table) : Operator := fun data =>
  ret (existsb (fun c => negb (validBytes (bz c))) data).

Definition newValidateByteRange : OperatorFactory := fun options =>
  if bool_decide (Arguments options = []) then inl unconditionalMatch
  else match byte_range_go (fun _ => false) (split_on ","%byte (Arguments options)) with
       | inl v => inl (validateByteRange_Evaluate v)
       | inr e => inr e
       end.

(** ** @validateUrlEncoding and @validateUtf8Encoding *)

(** [validateURLEncodingInternal] on what is left of the input. *)
Fixpoint url_encoding_go (input : gostring) : Z :=
  match input with
  | [] => 1
  | a :: rest =>
    if bool_decide (a = "%"%byte) then
      match rest with
      | c1 :: c2 :: rest' => if ValidHex c1 && ValidHex c2 then url_encoding_go rest' else -2
      | _ => -3
      end
    else url_encoding_go rest
  end.

Definition validateURLEncodingInternal (input : gostring) : Z :=
  if bool_decide (input = []) then -1 else url_encoding_go input.

Definition validateURLEncoding_Evaluate : Operator := fun value =>
  ret (if bool_decide (value = []) then false
       else negb (validateURLEncodingInternal value =? 1)).

Definition newValidateURLEncoding : OperatorFactory := fun _ => inl validateURLEncoding_Evaluate.

(** [utf8.ValidString]: no byte is decoded as an error. *)
Definition ValidString (s : gostring) : bool :=
  forallb (fun rb => negb ((fst rb =? Utf8.RuneError) && bool_decide (length (snd rb) = 1%nat)))
          (Utf8.runes s).

Definition validateUtf8Encoding_Evaluate : Operator := fun value => ret (negb (ValidString value)).

Definition newValidateUTF8Encoding : OperatorFactory := fun _ => inl validateUtf8Encoding_Evaluate.

(** ** @validateNid *)

(** [nonDigit] and [nonDigitOrK] remove every rune but those. *)
Definition digits_of (nid : gostring) : gostring := List.filter Strconv.is_digit nid.

Definition digits_or_k (nid : gostring) : gostring :=
  List.filter (fun b => Strconv.is_digit b || bool_decide (b = "k"%byte)) nid.

(** The loop over the digits of the number, the last one first. *)
Fixpoint rut_sum (fuel : nat) (rut factor sum : Z) : Z :=
  match fuel with
  | O => sum
  | S fuel =>
    if rut =? 0 then sum
    else rut_sum fuel (rut / 10) (if factor =? 7 then 2 else factor + 1) (sum + rut mod 10 * factor)
  end.

(** The check digit of a number of at most nineteen digits. *)
Definition rut_digit (rut : Z) : gostring :=
  let val := rut_sum 20 rut 2 0 mod 11 in
  if val =? 0 then lit "0" else if val =? 1 then lit "k" else Strconv.Itoa (11 - val).

(** [nidCl]: the length is tested before the other characters are removed, and
    slicing what is left panics if it is empty. *)
Definition nidCl (nid : gostring) : outcome bool :=
  if zlen nid <? 8 then Ok false
  else
    let nid := digits_or_k (Strings.ToLower nid) in
    match rev nid with
    | [] => Panic
    | dv :: rest => Ok (bool_decide (rut_digit (atoi (rev rest)) = [dv]))
    end.

(** [sequence] and [equals] at the end of the loop. *)
Fixpoint all_steps (p : Z -> Z -> bool) (prev : Z) (l : gostring) : bool :=
  match l with
  | [] => true
  | c :: l => p prev (bz c - 48) && all_steps p (bz c - 48) l
  end.

Definition nidUs (nid0 : gostring) : outcome bool :=
  let nid := digits_of nid0 in
  if zlen nid <? 9 then Ok false
  else
    let area := atoi (take 3 nid) in
    let group := atoi (take 2 (drop 3 nid)) in
    let serial := atoi (take 4 (drop 5 nid)) in
    if (area =? 0) || (group =? 0) || (serial =? 0) || (740 <=? area) || (area =? 666)
    then Ok false
    else
      match nid with
      | [] => Panic
      | c :: l =>
        Ok (negb (all_steps (fun prev curr => curr =? prev + 1) (bz c - 48) l)
            && negb (all_steps (fun prev curr => prev =? curr) (bz c - 48) l))
      end.

Definition lift {A} (o : outcome A) : M A := fun tx => obind o (fun a => Ok (a, tx)).

(** The loop of [validateNid.Evaluate] over at most ten matches. *)
Fixpoint nid_go (fn : gostring -> outcome bool) (i : Z) (matches : list gostring) (res : bool)
  : M bool :=
  match matches with
  | [] => ret res
  | m :: matches =>
    if 10 <=? i then ret res
    else
      let! ok := lift (fn m) in
      if ok : bool then CaptureField i m ;; nid_go fn (i + 1) matches true
      else nid_go fn (i + 1) matches res
  end.

(** ** Regular expressions *)

(** [shouldNotUseMultilineRegexesOperatorByDefault] of the default build. *)
Definition shouldNotUseMultilineRegexesOperatorByDefault : bool := false.

Definition newValidateNID : OperatorFactory := fun options =>
  let '(typ, expr, ok) := Strings.Cut (Arguments options) " "%byte in
  if negb ok then inr ErrInvalidArgument
  else
    let fn := if bool_decide (typ = lit "cl") then Some nidCl
              else if bool_decide (typ = lit "us") then Some nidUs else None in
    match fn, regexp_Compile expr with
    | None, _ => inr ErrInvalidArgument
    | Some _, None => inr ErrRegexp
    | Some fn, Some re => inl (fun value => nid_go fn 0 (FindAll_whole re value 11) false)
    end.

(** Captured groups; the loop returns at the tenth. *)
Fixpoint capture_groups (i : Z) (match_ : list gostring) : M unit :=
  match match_ with
  | [] => ret tt
  | c :: match_ => if i =? 9 then ret tt else CaptureField i c ;; capture_groups (i + 1) match_
  end.

Definition rx_Evaluate (re : CompiledRegexp) : Operator := fun value =>
  let! capturing := gets Capture in
  if capturing : bool then
    match FindStringSubmatch re value with
    | [] => ret false
    | groups => capture_groups 0 groups ;; ret true
    end
  else ret (MatchString re value).

(** [matchesArbitraryBytes]: the expression with its [\xHH] decoded is not
    valid UTF-8. *)
Fixpoint decode_hex_escapes (expr : gostring) (k : nat) : gostring :=
  match expr with
  | [] => []
  | c :: rest =>
    match k with
    | S k => decode_hex_escapes rest k
    | O =>
      if negb (bool_decide (c = "\"%byte)) then c :: decode_hex_escapes rest 0
      else
        match rest with
        | x :: h1 :: h2 :: _ =>
          if negb (bool_decide (x = "x"%byte)) then c :: decode_hex_escapes rest 0
          else if ValidHex h1 && ValidHex h2 then X2c h1 h2 :: decode_hex_escapes rest 3
          else c :: decode_hex_escapes rest 0
        | _ => expr
        end
    end
  end.

Definition matchesArbitraryBytes (expr : gostring) : bool :=
  negb (ValidString (decode_hex_escapes expr 0)).

Definition newBinaryRX : OperatorFactory := fun options =>
  match binaryregexp_Compile (Arguments options) with
  | Some re => inl (rx_Evaluate re)
  | None => inr ErrRegexp
  end.

Definition newRX : OperatorFactory := fun options =>
  let data := (if shouldNotUseMultilineRegexesOperatorByDefault then lit "(?s)" else lit "(?sm)")
              ++ Arguments options in
  if matchesArbitraryBytes data then newBinaryRX options
  else match regexp_Compile data with
       | Some re => inl (rx_Evaluate re)
       | None => inr ErrRegexp
       end.

(** [restpath.Evaluate]: named groups become path arguments. *)
Fixpoint path_arguments (names match_ : list gostring) : M unit :=
  match names, match_ with
  | [], _ => ret tt
  | n :: names, m :: match_ =>
    (if bool_decide (n = []) then ret tt
     else updMap variables.ArgsPath (fun c => Map_SetIndex c n 0 m)) ;;
    path_arguments names match_
  | _ :: _, [] => panic
  end.

Definition restpath_Evaluate (re : CompiledRegexp) : Operator := fun value =>
  match FindStringSubmatch re value with
  | [] => ret false
  | groups => path_arguments (drop 1 (SubexpNames re)) (drop 1 groups) ;; ret true
  end.

(** The names in braces: the matches of [rePathTokenRe].  Every round reads at
    least one byte. *)
Fixpoint path_tokens (fuel : nat) (s : gostring) : list gostring :=
  match fuel, s with
  | S fuel, c :: rest =>
    if bool_decide (c = "{"%byte) then
      let '(name, after, found) := Strings.Cut rest "}"%byte in
      if found && negb (bool_decide (name = [])) then name :: path_tokens fuel after
      else path_tokens fuel rest
    else path_tokens fuel rest
  | _, _ => []
  end.

(** [strings.Replace(s, old, new, 1)] *)
Definition replace_first (s old new : gostring) : gostring :=
  match Strings.Index s old with
  | Some i => take i s ++ new ++ drop (i + length old) s
  | None => s
  end.

Definition rest_expression (arguments : gostring) : gostring :=
  let data := concat ((fun c => if bool_decide (c = "/"%byte) then lit "\/" else [c]) <$> arguments) in
  foldl (fun data name => replace_first data ("{"%byte :: name ++ lit "}") (lit "(?P<" ++ name ++ lit ">[^?/]+)"))
    data (path_tokens (length data) data).

Definition newRESTPath : OperatorFactory := fun options =>
  match regexp_Compile (rest_expression (Arguments options)) with
  | Some re => inl (restpath_Evaluate re)
  | None => inr ErrRegexp
  end.

(** ** Dictionaries *)

Fixpoint pm_captures (numMatches : Z) (value : gostring) (l : list (nat * nat)) : M unit :=
  match l with
  | [] => ret tt
  | (s, e) :: l =>
    CaptureField numMatches (take (e - s) (drop s value)) ;;
    if numMatches + 1 =? 10 then ret tt else pm_captures (numMatches + 1) value l
  end.

Definition pmEvaluate (matcher : gostring -> list (nat * nat)) : Operator := fun value =>
  let! capturing := gets Capture in
  let found := negb (bool_decide (matcher value = [])) in
  if capturing : bool then pm_captures 0 value (matcher value) ;; ret found else ret found.

Definition newPM : OperatorFactory := fun options =>
  inl (pmEvaluate (ahocorasick_Build (split_on " "%byte (Strings.ToLower (Arguments options))))).

Definition newPMFromDataset : OperatorFactory := fun options =>
  match Datasets options !! Arguments options with
  | Some dataset => inl (pmEvaluate (ahocorasick_Build dataset))
  | None => inr (ErrDatasetNotFound (Arguments options))
  end.

(** ** Files (from_file.go) *)

(** [filepath.IsAbs] *)
Definition filepath_IsAbs (p : gostring) : bool := bool_decide (head p = Some "/"%byte).

(** The loop over the directories: the first file that exists, the error of
    the last when none does. *)
Fixpoint load_go (fname : gostring) (dirs : list gostring) (err : OperatorErr) : gostring + OperatorErr :=
  match dirs with
  | [] => inr err
  | p :: dirs =>
    match fs_ReadFile (filepath_Join p fname) with
    | inl content => inl content
    | inr ErrNotExist => load_go fname dirs (ErrFile ErrNotExist)
    | inr e => inr (ErrFile e)
    end
  end.

Definition loadFromFile (fname : gostring) (dirs : list gostring) : gostring + OperatorErr :=
  if filepath_IsAbs fname then
    match fs_ReadFile fname with
    | inl content => inl content
    | inr e => inr (ErrFile e)
    end
  else if bool_decide (dirs = []) then inr ErrEmptyDirs
  else load_go fname dirs ErrEmptyDirs.

(** The lines of a data file that are neither blank nor comments. *)
Definition data_lines (data : gostring) : list gostring :=
  List.filter (fun l => negb (bool_decide (l = [])) && negb (bool_decide (head l = Some "#"%byte)))
    (Strings.TrimSpace <$> scan_lines data).

Definition newPMFromFile : OperatorFactory := fun options =>
  match loadFromFile (Arguments options) (Path options) with
  | inr e => inr e
  | inl data => inl (pmEvaluate (ahocorasick_Build (Strings.ToLower <$> data_lines data)))
  end.

(** ** Addresses *)

(** A piece of the argument; an address is a network of its own. *)
Definition subnet_text (sb : gostring) : gostring :=
  let slash := bool_decide ("/"%byte ∈ sb) in
  if bool_decide (":"%byte ∈ sb) && negb slash then sb ++ lit "/128"
  else if bool_decide ("."%byte ∈ sb) && negb slash then sb ++ lit "/32"
  else sb.

Definition ip_subnets (data : gostring) : list Net.IPNet :=
  omap (fun sb => let sb := Strings.TrimSpace sb in
                  if bool_decide (sb = []) then None else Net.ParseCIDR (subnet_text sb))
    (split_on ","%byte data).

Definition ipMatch_Evaluate (subnets : list Net.IPNet) : Operator := fun value =>
  ret (let ip := default [] (Net.ParseIP value) in
       existsb (fun subnet => Net.IPNet_Contains subnet ip) subnets).

Definition newIPMatch : OperatorFactory := fun options => inl (ipMatch_Evaluate (ip_subnets (Arguments options))).

(** [strings.Join] with a comma. *)
Fixpoint join_comma (l : list gostring) : gostring :=
  match l with
  | [] => []
  | [x] => x
  | x :: l => x ++ ","%byte :: join_comma l
  end.

Definition newIPMatchFromDataset : OperatorFactory := fun options =>
  match Datasets options !! Arguments options with
  | None | Some [] => inr (ErrDatasetNotFound (Arguments options))
  | Some dataset => newIPMatch (mkOperatorOptions (join_comma dataset) [] ∅)
  end.

Definition newIPMatchFromFile : OperatorFactory := fun options =>
  match loadFromFile (Arguments options) (Path options) with
  | inr e => inr e
  | inl data => newIPMatch (mkOperatorOptions (concat ((fun l => ","%byte :: l) <$> data_lines data)) [] ∅)
  end.

(** ** Detectors, programs and schemas *)

Definition newDetectSQLi : OperatorFactory := fun _ =>
  inl (fun value =>
    let '(res, fingerprint) := libinjection_IsSQLi value in
    if res then CaptureField 0 fingerprint ;; ret true else ret false).

Definition newDetectXSS : OperatorFactory := fun _ => inl (fun value => ret (libinjection_IsXSS value)).

Definition inspectFile_Evaluate (path : gostring) : Operator := fun value =>
  ret match exec_CombinedOutput path value with
      | None | Some [] => false
      | Some (c :: _) => negb (bool_decide (c = "1"%byte))
      end.

Definition newInspectFile : OperatorFactory := fun options => inl (inspectFile_Evaluate (Arguments options)).

(** [rbl.Evaluate]; a lookup that is late is as one that failed. *)
Definition rbl_Evaluate (service : gostring) : Operator := fun ipAddr =>
  match rbl_Lookup (ipAddr ++ lit "." ++ service) with
  | RblTimeout | RblError => ret false
  | RblListed None => ret true
  | RblListed (Some txt) =>
    updMap variables.TX (fun c => Map_Set c (lit "httpbl_msg") [txt]) ;;
    CaptureField 0 txt ;; ret true
  end.

Definition newRBL : OperatorFactory := fun options => inl (rbl_Evaluate (Arguments options)).

(** [filepath.Ext]: from the last dot of the last element. *)
Fixpoint ext_go (rev_path acc : gostring) : gostring :=
  match rev_path with
  | [] => []
  | c :: rest =>
    if bool_decide (c = "/"%byte) then []
    else if bool_decide (c = "."%byte) then c :: acc
    else ext_go rest (c :: acc)
  end.

Definition filepath_Ext (p : gostring) : gostring := ext_go (rev p) [].

(** The first value of a TX variable, empty if there is none. *)
Definition tx_body (key : gostring) : M gostring :=
  let! l := gets (fun tx => Map_Get (maps (variables_ tx) variables.TX) key) in
  ret (default [] (head l)).

(** The body that a body processor left in TX comes before the data. *)
Definition validateSchema_Evaluate (isValidJSON : gostring -> bool) : Operator := fun data =>
  let! currentPhase := gets lastPhase in
  let! resp := if types.PhaseResponseBody <=? currentPhase then tx_body (lit "json_response_body") else ret [] in
  let! bodyData :=
    if bool_decide (resp = []) && (types.PhaseRequestBody <=? currentPhase)
    then tx_body (lit "json_request_body") else ret resp in
  if negb (bool_decide (bodyData = [])) then ret (negb (isValidJSON bodyData))
  else if bool_decide (data = []) then ret false
  else ret (negb (isValidJSON data)).

Definition NewValidateSchema : OperatorFactory := fun options =>
  let schemaPath := Arguments options in
  if bool_decide (schemaPath = []) then inr ErrMissingSchema
  else
    let ext := Strings.ToLower (filepath_Ext schemaPath) in
    if negb (bool_decide (ext = lit ".json")) then inr (ErrSchemaType ext)
    else
      match fs_ReadFile schemaPath with
      | inr e => inr (ErrFile e)
      | inl schemaData =>
        match jsonschema_Compile schemaData with
        | None => inr ErrSchema
        | Some schema => inl (validateSchema_Evaluate schema)
        end
      end.

(** ** The registry (operators.go) *)

Definition operators : list (gostring * OperatorFactory) :=
  [ (lit "beginsWith", newBeginsWith); (lit "contains", newContains); (lit "detectSQLi", newDetectSQLi);
    (lit "detectXSS", newDetectXSS); (lit "endsWith", newEndsWith);
    (lit "eq", newEq); (lit "ge", newGE); (lit "geoLookup", newGeoLookup); (lit "gt", newGT);
    (lit "inspectFile", newInspectFile); (lit "ipMatch", newIPMatch);
    (lit "ipMatchFromDataset", newIPMatchFromDataset); (lit "ipMatchFromFile", newIPMatchFromFile);
    (lit "ipMatchF", newIPMatchFromFile);
    (lit "le", newLE); (lit "lt", newLT); (lit "noMatch", newNoMatch); (lit "pm", newPM);
    (lit "pmFromDataset", newPMFromDataset); (lit "pmFromFile", newPMFromFile); (lit "pmf", newPMFromFile);
    (lit "rbl", newRBL); (lit "restpath", newRESTPath); (lit "rx", newRX); (lit "streq", newStrEq);
    (lit "unconditionalMatch", newUnconditionalMatch);
    (lit "validateByteRange", newValidateByteRange); (lit "validateNid", newValidateNID);
    (lit "validateSchema", NewValidateSchema); (lit "validateUrlEncoding", newValidateURLEncoding);
    (lit "validateUtf8Encoding", newValidateUTF8Encoding); (lit "within", newWithin) ].

Definition operators_Get (name : gostring) (options : OperatorOptions) : Operator + OperatorErr :=
  match List.find (fun e => bool_decide (fst e = name)) operators with
  | Some (_, op) => op options
  | None => inr (ErrOperatorNotFound name)
  end.
End operators.
