(* ===== verification/RuleEval.v ===== *)
(** * Evaluation of a rule (internal/corazawaf/rule.go)

    [doEvaluate] in the default build (no multiphase evaluation): selection and
    transformation of the targets, the operator, the actions of a match, the
    chain of rules and the disruptive and flow actions.  The debug logger is
    not modelled; the phase, which only it reads in this build, is left out. *)

From stdpp Require Import options.
From S2P Require Import Prelude GoLib Variables Types Collections BodyBuffer Transaction Macro.
From S2P Require Import Rule TransactionOps Actions.
Import types.

Definition chainLevelZero : Z := 0.

(** Loops that collect results. *)
Fixpoint concatM {A B} (l : list A) (body : A -> M (list B)) : M (list B) :=
  match l with
  | [] => ret []
  | x :: l => let! r := body x in let! rs := concatM l body in ret (r ++ rs)
  end.

Section eval.
Context `{GoUnicode} `{MapOrder} `{StringData}.

(** ** Transformations of an argument *)

Definition transformMultiMatchArg (r : Rule) (arg : MatchData) : list gostring * list gostring :=
  executeTransformationsMultimatch r (Value_ arg).

Definition cache_key (r : Rule) (t : nat) (arg : MatchData) (argIdx : nat) : transformationKey :=
  (unsafe_StringData t arg, argIdx, Variable_ arg, transformationsID r).

Definition transformArg (r : Rule) (arg : MatchData) (argIdx : nat)
  : M (gostring * list gostring) :=
  if bool_decide (length (transformations r) = 0%nat) then ret (Value_ arg, [])
  else if bool_decide (variables.Name (Variable_ arg) = lit "TX")
  then ret (executeTransformations r (Value_ arg))
  else
    let! t := gets tick in
    let key := cache_key r t arg argIdx in
    let! cached := gets (fun tx => transformationCache tx !! key) in
    match cached with
    | Some v => ret (tv_arg v, tv_errs v)
    | None =>
      let '(ars, es) := executeTransformations r (Value_ arg) in
      modify (fun tx => tx <| transformationCache :=
        <[key := mkTransformationValue ars es]> (transformationCache tx) |>) ;;
      ret (ars, es)
    end.

(** ** Matches *)

Definition executeOperator (op : ruleOperatorParams) (data : gostring) : M bool :=
  let! result := op_Operator op data in
  ret (if op_Negation op then negb result else result).

(** The actions of a type, in order. *)
Definition actions_of_type (ty : ActionType) (r : Rule) : list ruleActionParams :=
  List.filter (fun a => bool_decide (action_Type (act_Function a) = ty)) (actions r).

(** [Rule.matchVariable]. *)
Definition rule_matchVariable (w : WAF) (r : Rule) (m : MatchData) : M unit :=
  matchVariable m ;;
  forM (actions_of_type ActionTypeNondisruptive r) (fun a => action_Evaluate w r (act_Function a)).

(** The expansion of the rule's message and log data into a match. *)
Definition expand_messages (r : Rule) (md : MatchData) : M MatchData :=
  let! md := (match Msg r with
              | Some m => let! s := expandM m in ret (md <| Message_ := s |>)
              | None => ret md
              end) in
  match LogData r with
  | Some m => let! s := expandM m in ret (md <| Data_ := s |>)
  | None => ret md
  end.

(** The assignments to the RULE collection. *)
Definition set_rule_variables (r : Rule) : M unit :=
  let set k s := updMap variables.Rule (fun c => Map_SetIndex c (lit k) 0 s) in
  set "id" (LogID_ (meta r)) ;;
  (match Msg r with Some m => set "msg" (String_ m) | None => ret tt end) ;;
  set "rev" (Rev_ (meta r)) ;;
  (match LogData r with Some m => set "logdata" (String_ m) | None => ret tt end) ;;
  set "severity" (severity_name (Severity_ (meta r))).

(** One transformed value of an argument. *)
Definition eval_value (w : WAF) (r : Rule) (op : ruleOperatorParams) (chainLevel : Z)
  (arg : MatchData) (carg : gostring) : M (list MatchData) :=
  let! match_ := executeOperator op carg in
  if match_ then
    let mr := mkMatchData (Variable_ arg) (Key_ arg) carg [] [] chainLevel in
    rule_matchVariable w r mr ;;
    let! mr := (if negb (rParentID r =? noID) || negb (HasChain r)
                then expand_messages r mr else ret mr) in
    ret [mr]
  else ret [].

Definition eval_arg (w : WAF) (r : Rule) (op : ruleOperatorParams) (chainLevel : Z)
  (iarg : nat * MatchData) : M (list MatchData) :=
  let '(i, arg) := iarg in
  let! args := (if MultiMatch r then ret (fst (transformMultiMatchArg r arg))
                else let! a := transformArg r arg i in ret [fst a]) in
  concatM args (eval_value w r op chainLevel arg).

(** The exceptions that [ctl:ruleRemoveTargetById] added to a target. *)
Definition add_exceptions (ecol : list ruleVariableParams) (v : ruleVariableParams)
  : ruleVariableParams :=
  v <| rv_Exceptions := rv_Exceptions v ++
    ((fun c => mkException (rv_KeyStr c) None) <$>
     List.filter (fun c => bool_decide (rv_Variable c = rv_Variable v)) ecol) |>.

Definition eval_variable (w : WAF) (r : Rule) (op : ruleOperatorParams) (chainLevel : Z)
  (ecol : list ruleVariableParams) (v : ruleVariableParams) : M (list MatchData) :=
  let! values := GetField (add_exceptions ecol v) in
  concatM (imap pair values) (eval_arg w r op chainLevel).

(** The matches of the rule itself, without its chain. *)
Definition own_matches (w : WAF) (r : Rule) (chainLevel : Z) : M (list MatchData) :=
  match operator r with
  | None =>
    let md := mkMatchData variables.Unknown [] [] [] [] 0 in
    let! md := (if negb (rParentID r =? noID) || MultiMatch r
                then expand_messages r md else ret md) in
    rule_matchVariable w r md ;;
    ret [md]
  | Some op =>
    let! ecol := gets (fun tx => default [] (ruleRemoveTargetByID tx !! rID r)) in
    concatM (rule_variables r) (eval_variable w r op chainLevel ecol)
  end.

(** Flow actions always run, disruptive ones if the engine is on. *)
Definition run_actions (w : WAF) (r : Rule) : M unit :=
  forM (actions r) (fun a =>
    match action_Type (act_Function a) with
    | ActionTypeFlow => action_Evaluate w r (act_Function a)
    | ActionTypeDisruptive =>
      let! re := gets RuleEngine in
      if bool_decide (re = RuleEngineOn) then action_Evaluate w r (act_Function a) else ret tt
    | _ => ret tt
    end).

(** What a rule that is not part of a chain does after the whole chain
    matched. *)
Definition finish (w : WAF) (r : Rule) (matchedValues : list MatchData) : M (list MatchData) :=
  let! mvs := (match matchedValues with
               | md :: mds =>
                 if HasChain r || bool_decide (operator r = None)
                 then let! md := expand_messages r md in ret (md :: mds)
                 else ret (md :: mds)
               | [] => ret []
               end) in
  run_actions w r ;;
  (if rID r =? noID then ret tt else MatchRule w r mvs) ;;
  ret mvs.

Fixpoint doEvaluate (w : WAF) (chainLevel : Z) (r : Rule) {struct r} : M (list MatchData) :=
  modify (fun tx => tx <| Capture := rule_Capture r |>) ;;
  set_rule_variables r ;;
  let! mvs := own_matches w r chainLevel in
  if bool_decide (mvs = []) then ret []
  else if negb (rParentID r =? noID) then ret mvs
  else
    let! chained :=
      (match Chain r with
       | None => ret (Some mvs)
       | Some nr =>
         (fix loop (level : Z) (nr : Rule) (mvs : list MatchData) {struct nr}
           : M (option (list MatchData)) :=
            let! mcs := doEvaluate w level nr in
            if bool_decide (mcs = []) then ret None
            else match Chain nr with
                 | None => ret (Some (mvs ++ mcs))
                 | Some nr' => loop (level + 1) nr' (mvs ++ mcs)
                 end) (chainLevel + 1) nr mvs
       end) in
    match chained with
    | None => ret []
    | Some mvs => finish w r mvs
    end.

Definition Evaluate (w : WAF) (r : Rule) : M unit := doEvaluate w chainLevelZero r ;; ret tt.
End eval.
