(* ===== verification/EvalFacts.v ===== *)
(** * What the evaluation of a rule can change

    A relation between transactions that holds across the engine's own
    bookkeeping and across the actions of a rule holds across the evaluation
    of the rule and of its chain, as long as the operators only touch the
    transaction's variables. *)

From stdpp Require Import options.
From S2P Require Import Prelude GoLib Variables Types Collections BodyBuffer Transaction Macro.
From S2P Require Import Rule TransactionOps Actions RuleEval.
Import types.

(** The rules of a chain, in order. *)
Fixpoint chain_rules (r : Rule) : list Rule :=
  r :: match Chain r with Some nr => chain_rules nr | None => [] end.

Lemma Rule_chain_ind (P : Rule -> Prop) :
  (forall r, (forall nr, Chain r = Some nr -> P nr) -> P r) -> forall r, P r.
Proof.
  intros HP. fix IH 1. intros r. apply HP. destruct r as [? ? ? ? ? ? ? c].
  simpl. destruct c as [nr0|]; intros nr E; [|discriminate].
  injection E as <-. apply IH.
Qed.

Lemma chain_rules_head r : r ∈ chain_rules r.
Proof. destruct r; simpl. by left. Qed.

Lemma chain_rules_next r nr r' : Chain r = Some nr -> r' ∈ chain_rules nr -> r' ∈ chain_rules r.
Proof. destruct r; simpl. intros -> ?. by right. Qed.

(** Operators read the transaction and may capture fields. *)
Definition only_variables (tx tx' : Transaction) : Prop :=
  exists vs n, tx' = tx <| variables_ := vs |> <| tick := n |>.

Definition op_ok (op : ruleOperatorParams) : Prop :=
  forall d, keeps only_variables (op_Operator op d).

Definition rule_ops_ok (r : Rule) : Prop :=
  forall op, operator r = Some op -> op_ok op.

(** The part of a transaction that matching a rule leaves alone. *)
Definition core (tx : Transaction) : Transaction :=
  tx <| variables_ := mkVariables (fun _ => []) (fun v => NewMap v) |> <| tick := 0%nat |>
     <| transformationCache := ∅ |> <| Capture := false |> <| matchedRules := [] |>
     <| audit := false |> <| errorLog := [] |>.

Record inner (tx tx' : Transaction) : Prop := {
  inner_core : core tx' = core tx;
  inner_matched : exists l, matchedRules tx' = matchedRules tx ++ l;
  inner_audit : audit tx = true -> audit tx' = true;
}.

#[global] Instance inner_preorder : PreOrder inner.
Proof.
  split.
  - intros tx. split; [done|exists []; by rewrite app_nil_r|done].
  - intros a b c [H1 [l1 E1] A1] [H2 [l2 E2] A2]. split; [congruence| |auto].
    exists (l1 ++ l2). by rewrite E2, E1, app_assoc.
Qed.

#[global] Instance only_variables_preorder : PreOrder only_variables.
Proof.
  split.
  - intros tx. exists (variables_ tx), (tick tx). by destruct tx.
  - intros a b c (v1 & n1 & ->) (v2 & n2 & ->). by exists v2, n2.
Qed.

Lemma only_variables_inner tx tx' : only_variables tx tx' -> inner tx tx'.
Proof.
  intros (vs & n & ->). split; [done|exists []; by rewrite app_nil_r|done].
Qed.

(** Elementary changes. *)
Lemma inner_same tx tx' :
  core tx' = core tx -> matchedRules tx' = matchedRules tx -> audit tx' = audit tx ->
  inner tx tx'.
Proof. intros ? E ?. split; [done| |congruence]. exists []. by rewrite E, app_nil_r. Qed.

Ltac inner_auto := intros; apply inner_same; reflexivity.

(** Relations that the engine's own bookkeeping keeps: the interface between
    the evaluation of rules and the invariants proved of it. *)
Class EngineRel (R : Transaction -> Transaction -> Prop) := {
  EngineRel_preorder :: PreOrder R;
  EngineRel_inner tx tx' : inner tx tx' -> R tx tx';
}.

#[global] Instance inner_EngineRel : EngineRel inner.
Proof. split; [typeclasses eauto|done]. Qed.

Section bookkeeping.
#[local] Set Default Proof Using "Type*".
Context {R : Transaction -> Transaction -> Prop} `{!EngineRel R}.

Lemma keeps_setSingle v s : keeps R (setSingle v s).
Proof.
  apply keeps_modify; [typeclasses eauto|]. intros tx. apply EngineRel_inner. by inner_auto.
Qed.

Lemma keeps_updMap v f : keeps R (updMap v f).
Proof.
  apply keeps_modify; [typeclasses eauto|]. intros tx. apply EngineRel_inner. by inner_auto.
Qed.

Lemma keeps_expandM `{GoUnicode} `{MapOrder} m : keeps R (expandM m).
Proof. intros tx s tx'. unfold expandM. case_match; [|done]. intros [= _ <-]. reflexivity. Qed.

Lemma keeps_op op d : op_ok op -> keeps R (op_Operator op d).
Proof. intros Ho tx a tx' E. apply EngineRel_inner, only_variables_inner. by eapply Ho. Qed.
End bookkeeping.

#[export] Hint Extern 1 (keeps _ (setSingle _ _)) => exact (keeps_setSingle _ _) : waf.
#[export] Hint Extern 1 (keeps _ (updMap _ _)) => exact (keeps_updMap _ _) : waf.
#[export] Hint Extern 1 (keeps _ (expandM _)) => exact (keeps_expandM _) : waf.
#[export] Hint Extern 1 (keeps _ (op_Operator _ _)) => by apply keeps_op : waf.

Section evaluation.
#[local] Set Default Proof Using "Type*".
Context `{GoUnicode} `{MapOrder} `{StringData}.
Context (R : Transaction -> Transaction -> Prop) `{!EngineRel R}.

Lemma keeps_GetField rv : keeps R (GetField rv).
Proof.
  unfold GetField. repeat keeps_step; try done.
  apply keeps_modify; [typeclasses eauto|]. intros. apply EngineRel_inner. by inner_auto.
Qed.

Lemma keeps_matchVariable md : keeps R (matchVariable md).
Proof. unfold matchVariable. repeat keeps_step; auto with waf. Qed.

Lemma keeps_MatchRule w r mds : keeps R (MatchRule w r mds).
Proof.
  unfold MatchRule, getSingle. repeat keeps_step; auto with waf;
    apply keeps_modify; try typeclasses eauto; intros; apply EngineRel_inner.
  - split; [done|exists []; by rewrite app_nil_r|done].
  - split; [done|by eexists|done].
  - by inner_auto.
Qed.

Lemma keeps_transformArg r arg i : keeps R (transformArg r arg i).
Proof.
  unfold transformArg. repeat keeps_step; try done.
  apply keeps_modify; [typeclasses eauto|]. intros. apply EngineRel_inner. by inner_auto.
Qed.

Lemma keeps_expand_messages r md : keeps R (expand_messages r md).
Proof. unfold expand_messages. repeat keeps_step; auto with waf. Qed.

Lemma keeps_set_rule_variables r : keeps R (set_rule_variables r).
Proof. unfold set_rule_variables. repeat keeps_step; auto with waf. Qed.

Lemma keeps_concatM {A B} (l : list A) (body : A -> M (list B)) :
  (forall x, keeps R (body x)) -> keeps R (concatM l body).
Proof. intros Hb. induction l; simpl; repeat keeps_step; auto with waf. Qed.

(** The actions of a rule keep [R] and its operator only touches variables. *)
Definition rule_keeps (w : WAF) (r : Rule) : Prop :=
  rule_ops_ok r /\ forall a, a ∈ actions r -> keeps R (action_Evaluate w r (act_Function a)).

#[local] Hint Resolve keeps_GetField keeps_matchVariable keeps_MatchRule keeps_transformArg
  keeps_expand_messages keeps_set_rule_variables : waf.

Lemma keeps_rule_matchVariable w r md : rule_keeps w r -> keeps R (rule_matchVariable w r md).
Proof.
  intros [_ Ha]. unfold rule_matchVariable. repeat keeps_step; auto with waf.
  apply Ha. apply list_elem_of_In. eapply proj1, filter_In. by apply list_elem_of_In.
Qed.

Lemma keeps_own_matches w r l : rule_keeps w r -> keeps R (own_matches w r l).
Proof.
  intros Hr. pose proof (fun md => keeps_rule_matchVariable w r md Hr) as Hm.
  destruct Hr as [Ho Ha]. unfold own_matches.
  destruct (operator r) as [op|] eqn:Eop; [|repeat keeps_step; auto with waf].
  specialize (Ho op Eop).
  assert (forall iarg, keeps R (eval_arg w r op l iarg)) as Harg.
  { intros [i arg]. unfold eval_arg. repeat keeps_step; auto with waf;
      apply keeps_concatM; intros carg; unfold eval_value, executeOperator;
      repeat keeps_step; auto with waf. }
  keeps_step; [keeps_step|]. apply keeps_concatM. intros v.
  unfold eval_variable. keeps_step; [auto with waf|by apply keeps_concatM].
Qed.

Lemma keeps_finish w r mds : rule_keeps w r -> keeps R (finish w r mds).
Proof.
  intros [_ Ha]. unfold finish, run_actions. repeat keeps_step; auto with waf.
Qed.

(** The loop of [doEvaluate] over the chain. *)
Definition chain_loop (w : WAF) :=
  fix loop (level : Z) (nr : Rule) (mvs : list MatchData) {struct nr}
    : M (option (list MatchData)) :=
    let! mcs := doEvaluate w level nr in
    if bool_decide (mcs = []) then ret None
    else match Chain nr with
         | None => ret (Some (mvs ++ mcs))
         | Some nr' => loop (level + 1) nr' (mvs ++ mcs)
         end.

Lemma doEvaluate_eq w level r :
  doEvaluate w level r =
  (modify (fun tx => tx <| Capture := rule_Capture r |>) ;;
   set_rule_variables r ;;
   let! mvs := own_matches w r level in
   if bool_decide (mvs = []) then ret []
   else if negb (rParentID r =? noID) then ret mvs
   else
     let! chained := (match Chain r with
                      | None => ret (Some mvs)
                      | Some nr => chain_loop w (level + 1) nr mvs
                      end) in
     match chained with
     | None => ret []
     | Some mvs => finish w r mvs
     end).
Proof. destruct r. reflexivity. Qed.

Lemma chain_loop_eq w level nr mvs :
  chain_loop w level nr mvs =
  (let! mcs := doEvaluate w level nr in
   if bool_decide (mcs = []) then ret None
   else match Chain nr with
        | None => ret (Some (mvs ++ mcs))
        | Some nr' => chain_loop w (level + 1) nr' (mvs ++ mcs)
        end).
Proof. destruct nr. reflexivity. Qed.

(** The evaluation of a rule and of its chain keeps [R]. *)
Lemma keeps_doEvaluate w r level :
  (forall r', r' ∈ chain_rules r -> rule_keeps w r') -> keeps R (doEvaluate w level r).
Proof.
  revert level.
  enough ((forall r', r' ∈ chain_rules r -> rule_keeps w r') ->
          (forall level, keeps R (doEvaluate w level r)) /\
          (forall level mvs, keeps R (chain_loop w level r mvs))) by (intros; by apply H2).
  induction r as [r IH] using Rule_chain_ind. intros Hall.
  assert (rule_keeps w r) as Hr by apply Hall, chain_rules_head.
  assert (forall nr, Chain r = Some nr -> forall level mvs, keeps R (chain_loop w level nr mvs))
    as Hloop.
  { intros nr E. apply (IH nr E). intros r' Hr'. apply Hall. by eapply chain_rules_next. }
  assert (forall level, keeps R (doEvaluate w level r)) as Hev.
  { intros level. rewrite doEvaluate_eq. keeps_step.
    { apply keeps_modify; [typeclasses eauto|]. intros. apply EngineRel_inner. by inner_auto. }
    keeps_step; [auto with waf|]. keeps_step; [by apply keeps_own_matches|].
    repeat keeps_step; auto with waf. by apply keeps_finish. }
  split; [done|]. intros level mvs. rewrite chain_loop_eq. repeat keeps_step; auto.
Qed.

Lemma keeps_Evaluate w r :
  (forall r', r' ∈ chain_rules r -> rule_keeps w r') -> keeps R (Evaluate w r).
Proof. intros. unfold Evaluate. keeps_step; [by apply keeps_doEvaluate|keeps_step]. Qed.
End evaluation.
