(* ===== verification/RuleGroup.v ===== *)
(** * Rule groups (internal/corazawaf/rulegroup.go)

    The rules of a WAF, their registration and removal, and [Eval], the loop
    that runs the rules of a phase against a transaction. *)

From stdpp Require Import options.
From S2P Require Import Prelude GoLib HttpParse Variables Types Collections BodyBuffer.
From S2P Require Import Transaction Macro Rule TransactionOps Actions RuleEval.
Import types.

Inductive AddErr := ErrMissingID | ErrDuplicatedID (i : Z).

#[global] Instance AddErr_eq_dec : EqDecision AddErr.
Proof. solve_decision. Defined.

(** [FindByID]: the first rule with the identifier. *)
Definition FindByID (rules : list Rule) (i : Z) : option Rule :=
  List.find (fun r => rID r =? i) rules.

(** [RuleGroup.Add]; [mandatory] is the build option
    [shouldDoMandatoryRuleIdCheck]. *)
Definition Add (mandatory : bool) (rules : list Rule) (rule : option Rule) : list Rule + AddErr :=
  match rule with
  | None => inl rules
  | Some rule =>
    let dup := bool_decide (is_Some (FindByID rules (rID rule))) in
    if mandatory then
      if bool_decide (SecMark_ (meta rule) = []) then
        if rID rule =? 0 then inr ErrMissingID
        else if dup then inr (ErrDuplicatedID (rID rule))
        else inl (rules ++ [rule])
      else inl (rules ++ [rule])
    else if negb (rID rule =? 0) && dup then inr (ErrDuplicatedID (rID rule))
    else inl (rules ++ [rule])
  end.

(** [DeleteByID]: the first rule with the identifier goes. *)
Fixpoint DeleteByID (rules : list Rule) (i : Z) : list Rule :=
  match rules with
  | [] => []
  | r :: rules => if rID r =? i then rules else r :: DeleteByID rules i
  end.

Definition DeleteByRange (rules : list Rule) (start end_ : Z) : list Rule :=
  List.filter (fun r => (rID r <? start) || (end_ <? rID r)) rules.

(** [DeleteByMsg]: a rule without message dereferences [nil]. *)
Fixpoint DeleteByMsg (rules : list Rule) (s : gostring) : outcome (list Rule) :=
  match rules with
  | [] => Ok []
  | r :: rules =>
    match Msg r with
    | None => Panic
    | Some m => obind (DeleteByMsg rules s) (fun kept =>
                  Ok (if bool_decide (String_ m = s) then kept else r :: kept))
    end
  end.

Definition DeleteByTag (rules : list Rule) (tag : gostring) : list Rule :=
  List.filter (fun r => negb (InSlice tag (Tags_ (meta r)))) rules.

Definition Count (rules : list Rule) : Z := zlen rules.

(** What the loop of [Eval] does with a rule. *)
Inductive gate := Run | Continue | Break.

#[global] Instance gate_eq_dec : EqDecision gate.
Proof. solve_decision. Defined.

Section eval_group.
Context `{GoUnicode} `{MapOrder} `{StringData}.

(** The tests of the loop of [Eval] before it evaluates a rule, with the
    changes they make. *)
Definition rule_gate (phase : RulePhase) (r : Rule) (tx : Transaction) : gate * Transaction :=
  if IsInterrupted tx && negb (phase =? PhaseLogging) then (Break, tx)
  else if negb (rPhase r =? 0) && negb (rPhase r =? phase) then (Continue, tx)
  else if bool_decide (rID r ∈ ruleRemoveByID tx) then (Continue, tx)
  else if negb (bool_decide (SkipAfter tx = [])) then
    (Continue, if bool_decide (SecMark_ (meta r) = SkipAfter tx)
               then tx <| SkipAfter := [] |> else tx)
  else if 0 <? Skip tx then (Continue, tx <| Skip := Skip tx - 1 |>)
  else
    match AllowType_ tx with
    | AllowTypeUnset => (Run, tx)
    | AllowTypePhase => (Break, tx)
    | AllowTypeRequest =>
      if phase =? PhaseRequestHeaders then (Break, tx)
      else if phase =? PhaseRequestBody then (Break, tx <| AllowType_ := AllowTypeUnset |>)
      else (Run, tx)
    | AllowTypeAll => (Break, tx)
    end.

(** The evaluation of a rule that passed the tests. *)
Definition run_rule (w : WAF) (r : Rule) : M unit :=
  updMap variables.MatchedVars Map_Reset ;;
  Evaluate w r ;;
  modify (fun tx => tx <| Capture := false |>).

Fixpoint eval_rules (w : WAF) (phase : RulePhase) (rules : list Rule) : M unit :=
  match rules with
  | [] => ret tt
  | r :: rules => fun tx =>
    match rule_gate phase r tx with
    | (Break, tx) => Ok (tt, tx)
    | (Continue, tx) => eval_rules w phase rules tx
    | (Run, tx) => (run_rule w r ;; eval_rules w phase rules) tx
    end
  end.

Definition phase_start (phase : RulePhase) (tx : Transaction) : Transaction :=
  tx <| lastPhase := phase |> <| transformationCache := ∅ |>.

Definition phase_end (tx : Transaction) : Transaction :=
  (if bool_decide (AllowType_ tx = AllowTypePhase)
   then tx <| AllowType_ := AllowTypeUnset |> else tx) <| Skip := 0 |>.

(** [RuleGroup.Eval]; the stop watches are not modelled. *)
Definition Eval (w : WAF) (phase : RulePhase) : M bool :=
  modify (phase_start phase) ;;
  eval_rules w phase (Rules w) ;;
  modify phase_end ;;
  gets IsInterrupted.
End eval_group.

(** ** Identifiers of a group *)

(** Identifiers other than zero occur once. *)
Definition ids_unique (rules : list Rule) : Prop :=
  NoDup (List.filter (fun i => negb (i =? 0)) (rID <$> rules)).

Lemma FindByID_None rules i : FindByID rules i = None <-> i ∉ rID <$> rules.
Proof.
  unfold FindByID. induction rules as [|r rules IH]; simpl; [set_solver|].
  destruct (Z.eqb_spec (rID r) i); set_solver.
Qed.

Lemma FindByID_app rules rules' i :
  FindByID (rules ++ rules') i =
  match FindByID rules i with Some r => Some r | None => FindByID rules' i end.
Proof.
  unfold FindByID. induction rules as [|r rules IH]; simpl; [done|]. by destruct (_ =? _).
Qed.
