(* ===== verification/BodyProcessors.v ===== *)
(** * Body processors (internal/bodyprocessors)

    A body processor reads a body and fills variables of the transaction.  The
    raw, urlencoded and json processors are modelled, the last one around the
    third-party parser; the registry, to which plugins add processors, is a
    parameter of the engine. *)

From stdpp Require Import options.
From Stdlib Require Import Strings.Byte.
From S2P Require Import Prelude GoLib HttpParse Variables Collections BodyBuffer Transaction.
From S2P Require Import TransactionOps.

(** The texts of the buffer's errors. *)
Class BufErrText := buf_err_text : BufErr -> gostring.

(** [io.Copy] from the body's reader into a string: what was read and the
    error that ended it. *)
Abbreviation body_reader := (M (gostring * option BufErr)).

(** [plugintypes.BodyProcessor]; the result is the text of the error. *)
Record BodyProcessor := mkBodyProcessor {
  ProcessRequest : body_reader -> gostring -> M (option gostring);
  ProcessResponse : body_reader -> M (option gostring);
}.

(** A [for k, vs := range values] that sets a collection. *)
Definition range_set `{GoUnicode} `{MapOrder} {V} (v : RuleVariable) (m : gmap gostring V)
  (f : Map -> gostring -> V -> Map) : M unit :=
  let! l := range_entries v m in
  forM l (fun kv => updMap v (fun c => f c (fst kv) (snd kv))).

(** ** JSON (json.go) *)

(** A [gjson.Result]: a null, a string, another scalar with its raw text, an
    object or an array. *)
Inductive gjson_Result :=
| JNull
| JString (s : gostring)
| JRaw (raw : gostring)
| JObject (l : list (gostring * gjson_Result))
| JArray (l : list gjson_Result).

Definition dot (objKey k : gostring) : gostring := objKey ++ "."%byte :: k.

(** [readItems].  [ForEach] visits the members of an object with their names,
    those of an array with their positions, and any other value once, with a
    key that is not a string and counts as position 0. *)
Fixpoint readItems (json : gjson_Result) (objKey : gostring) (res : gmap gostring gostring)
  : gmap gostring gostring :=
  let visit (value : gjson_Result) (key : gostring) (res : gmap gostring gostring) :=
    match value with
    | JObject _ | JArray _ => readItems value key res
    | JString s => <[key := s]> res
    | JNull => <[key := []]> res
    | JRaw raw => <[key := raw]> res
    end in
  match json with
  | JObject l =>
    (fix members (l : list (gostring * gjson_Result)) (res : gmap gostring gostring) :=
       match l with
       | [] => res
       | (k, value) :: l => members l (visit value (dot objKey k) res)
       end) l res
  | JArray l =>
    (fix elements (arrayLen : Z) (l : list gjson_Result) (res : gmap gostring gostring) :=
       match l with
       | [] => if 0 <? arrayLen then <[objKey := Strconv.Itoa arrayLen]> res else res
       | value :: l =>
         elements (arrayLen + 1) l (visit value (dot objKey (Strconv.Itoa arrayLen)) res)
       end) 0 l res
  | JString s => <[objKey := Strconv.Itoa 1]> (<[dot objKey (Strconv.Itoa 0) := s]> res)
  | JNull => <[objKey := Strconv.Itoa 1]> (<[dot objKey (Strconv.Itoa 0) := []]> res)
  | JRaw raw => <[objKey := Strconv.Itoa 1]> (<[dot objKey (Strconv.Itoa 0) := raw]> res)
  end.

Section processors.
Context `{GoUnicode} `{MapOrder} `{BufErrText}.

(** Read the whole body, or give up with the reader's error. *)
Definition with_body (r : body_reader) (k : gostring -> M (option gostring)) : M (option gostring) :=
  let! x := r in
  match snd x with
  | Some e => ret (Some (buf_err_text e))
  | None => k (fst x)
  end.

Definition store_body (b : gostring) : M unit :=
  setSingle variables.RequestBody b ;;
  setSingle variables.RequestBodyLength (Strconv.Itoa (zlen b)).

Definition raw_ProcessRequest (reader : body_reader) (mime : gostring) : M (option gostring) :=
  with_body reader (fun b => store_body b ;; ret None).

Definition urlencoded_ProcessRequest (reader : body_reader) (mime : gostring)
  : M (option gostring) :=
  with_body reader (fun b =>
    range_set variables.ArgsPost (ParseQuery b "&"%byte) Map_Set ;;
    store_body b ;;
    ret None).

Definition raw : BodyProcessor := mkBodyProcessor raw_ProcessRequest (fun _ => ret None).
Definition urlencoded : BodyProcessor :=
  mkBodyProcessor urlencoded_ProcessRequest (fun _ => ret None).

(** [gjson.Parse]; [None] is a result that does not exist, which [ForEach]
    does not visit. *)
Context (gjson_Parse : gostring -> option gjson_Result).

Definition readJSON (s : gostring) : gmap gostring gostring :=
  match gjson_Parse s with
  | Some json => readItems json (lit "json") ∅
  | None => ∅
  end.

Definition json_ProcessRequest (reader : body_reader) (mime : gostring) : M (option gostring) :=
  with_body reader (fun ss =>
    range_set variables.ArgsPost (readJSON ss) (fun c k x => Map_SetIndex c k 0 x) ;;
    updMap variables.TX (fun c => Map_Set c (lit "json_request_body") [ss]) ;;
    ret None).

Definition json_ProcessResponse (reader : body_reader) : M (option gostring) :=
  with_body reader (fun ss =>
    range_set variables.ResponseArgs (readJSON ss) (fun c k x => Map_SetIndex c k 0 x) ;;
    updMap variables.TX (fun c => Map_Set c (lit "json_response_body") [ss]) ;;
    ret None).

Definition json : BodyProcessor := mkBodyProcessor json_ProcessRequest json_ProcessResponse.
End processors.
