(* ===== verification/Phases.v ===== *)
(** * The phases of a transaction (internal/corazawaf/transaction.go, waf.go)

    Creation of a transaction from the WAF's pool, the five phases, the
    functions that feed bodies, and the return of the transaction to the
    pool.  The results of the fallible functions are values: the interruption
    a caller sees, the number of bytes taken and the error. *)

From stdpp Require Import options.
From Stdlib Require Import Strings.Byte.
From S2P Require Import Prelude GoLib GoTime HttpParse Variables Types Collections BodyBuffer.
From S2P Require Import Transaction Macro Rule TransactionOps Actions RuleEval RuleGroup.
From S2P Require Import BodyProcessors.
Import types.

Inductive PhaseErr :=
| ErrOverflow
| ErrBuf (e : BufErr)
| ErrShortWrite
| ErrReader
| ErrInvalidProcessor.

#[global] Instance PhaseErr_eq_dec : EqDecision PhaseErr.
Proof. solve_decision. Defined.

(** An [io.Reader] of a connector: the chunks its calls of [Read] return, how
    it ends, and its length if it is a [ByteLenger]. *)
Record io_Reader := mkIoReader {
  rd_Len : option Z;
  rd_chunks : list gostring;
  rd_fails : bool;
}.

(** [Read] with a slice of [n] bytes: the bytes, whether an error came, the
    remaining chunks. *)
Definition chunk_read (chunks : list gostring) (n : nat) : gostring * bool * list gostring :=
  match chunks with
  | [] => ([], true, [])
  | c :: cs => (take n c, false, if bool_decide (drop n c = []) then cs else drop n c :: cs)
  end.

Section phases.
Context `{GoUnicode} `{MapOrder} `{StringData} `{LocalZone}.
(** [environment.HasAccessToFS]. *)
Context (HasAccessToFS : bool).
(** [bodyprocessors.GetBodyProcessor]: the registry, by lower case name. *)
Context (processors : gostring -> option BodyProcessor).

Definition GetBodyProcessor (name : gostring) : option BodyProcessor :=
  processors (Strings.ToLower name).

(** ** Request headers *)

Definition ProcessRequestHeaders (w : WAF) : M (option Interruption) :=
  let! tx := gets (fun tx => tx) in
  if bool_decide (RuleEngine tx = RuleEngineOff) then ret None
  else if PhaseRequestHeaders <=? lastPhase tx then ret (interruption tx)
  else if bool_decide (is_Some (interruption tx)) then ret (interruption tx)
  else
    Eval w PhaseRequestHeaders ;;
    gets interruption.

(** ** Bodies *)

Definition setAndReturnBodyLimitInterruption (status : Z)
  : M (option Interruption * Z * option PhaseErr) :=
  modify (fun tx => tx <| interruption := Some (mkInterruption 0 (lit "deny") status []) |>) ;;
  let! i := gets interruption in
  ret (i, 0, None).

(** The body's reader: [io.Copy] into a string reads 32 kB at a time. *)
Definition copy_size : nat := Z.to_nat 32768.

Definition request_reader (i : nat) : body_reader :=
  fun tx =>
    let b := requestBodyBuffer tx in
    match ReadAll HasAccessToFS (S (length (contents b))) b i copy_size [] with
    | Ok (b', d, err) => Ok ((d, err), tx <| requestBodyBuffer := b' |>)
    | Panic => Panic
    end.

Definition response_reader (i : nat) : body_reader :=
  fun tx =>
    let b := responseBodyBuffer tx in
    match ReadAll HasAccessToFS (S (length (contents b))) b i copy_size [] with
    | Ok (b', d, err) => Ok ((d, err), tx <| responseBodyBuffer := b' |>)
    | Panic => Panic
    end.

Definition open_request_reader : M nat :=
  fun tx => let '(b, i) := Reader (requestBodyBuffer tx) in
            Ok (i, tx <| requestBodyBuffer := b |>).

Definition open_response_reader : M nat :=
  fun tx => let '(b, i) := Reader (responseBodyBuffer tx) in
            Ok (i, tx <| responseBodyBuffer := b |>).

Definition generateRequestBodyError (err : gostring) : M unit :=
  setSingle variables.ReqbodyError (lit "1") ;;
  let! p := getSingle variables.ReqbodyProcessor in
  setSingle variables.ReqbodyErrorMsg (p ++ lit ": " ++ err) ;;
  setSingle variables.ReqbodyProcessorError (lit "1") ;;
  setSingle variables.ReqbodyProcessorErrorMsg err.

Definition generateResponseBodyError (err : gostring) : M unit :=
  setSingle variables.ResBodyError (lit "1") ;;
  let! p := getSingle variables.ResBodyProcessor in
  setSingle variables.ResBodyErrorMsg (p ++ lit ": " ++ err) ;;
  setSingle variables.ResBodyProcessorError (lit "1") ;;
  setSingle variables.ResBodyProcessorErrorMsg err.

(** What [ProcessRequestBody] does before it evaluates the rules: nothing for
    an empty or inaccessible body or without processor, else the body's
    processor. *)
Definition run_request_processor : M unit :=
  let! tx := gets (fun tx => tx) in
  if negb (RequestBodyAccess tx) || (length_ (requestBodyBuffer tx) =? 0) then ret tt
  else
    let mime := default [] (head (Map_Get (maps (variables_ tx) variables.RequestHeaders)
                                          headerContentType)) in
    let! i := open_request_reader in
    let! rbp := getSingle variables.ReqbodyProcessor in
    let! rbp :=
      (if ForceRequestBodyVariable tx then
         let rbp := if bool_decide (rbp = []) then lit "URLENCODED" else rbp in
         setSingle variables.ReqbodyProcessor rbp ;; ret rbp
       else ret rbp) in
    let rbp := Strings.ToLower rbp in
    if bool_decide (rbp = []) then ret tt
    else
      match GetBodyProcessor rbp with
      | None => generateRequestBodyError (lit "invalid body processor")
      | Some bp =>
        let! err := ProcessRequest bp (request_reader i) mime in
        match err with
        | Some e => generateRequestBodyError e
        | None => ret tt
        end
      end.

Definition ProcessRequestBody (w : WAF) : M (option Interruption * option PhaseErr) :=
  let! tx := gets (fun tx => tx) in
  if bool_decide (RuleEngine tx = RuleEngineOff) then ret (None, None)
  else if bool_decide (is_Some (interruption tx)) then ret (interruption tx, None)
  else if negb (lastPhase tx =? PhaseRequestHeaders) then ret (None, None)
  else
    run_request_processor ;;
    Eval w PhaseRequestBody ;;
    let! i := gets interruption in
    ret (i, None).

(** [BodyBuffer.Write] on the transaction's buffers. *)
Definition write_request (env : OsEnv) (d : gostring) : M (Z * option BufErr) :=
  fun tx => let '(b, n, err) := Write HasAccessToFS env (requestBodyBuffer tx) d in
            Ok ((n, err), tx <| requestBodyBuffer := b |>).

Definition write_response (env : OsEnv) (d : gostring) : M (Z * option BufErr) :=
  fun tx => let '(b, n, err) := Write HasAccessToFS env (responseBodyBuffer tx) d in
            Ok ((n, err), tx <| responseBodyBuffer := b |>).

(** [b[:n]] *)
Definition slice_to (b : gostring) (n : Z) : M gostring :=
  if (n <? 0) || (zlen b <? n) then panic else ret (take (Z.to_nat n) b).

Definition WriteRequestBody (env : OsEnv) (w : WAF) (b : gostring)
  : M (option Interruption * Z * option PhaseErr) :=
  let! tx := gets (fun tx => tx) in
  let len := length_ (requestBodyBuffer tx) in
  if bool_decide (RuleEngine tx = RuleEngineOff) then ret (None, 0, None)
  else if negb (RequestBodyAccess tx) then ret (None, 0, None)
  else if RequestBodyLimit tx =? len then
    match RequestBodyLimitAction w with
    | BodyLimitActionReject => ret (interruption tx, 0, None)
    | BodyLimitActionProcessPartial => ret (None, 0, None)
    end
  else
    let writingBytes := zlen b in
    if maxInt64 - writingBytes <=? len then ret (None, 0, Some ErrOverflow)
    else
      let reached := RequestBodyLimit tx <=? wrap64 (len + writingBytes) in
      (if reached then setSingle variables.InboundDataError (lit "1") else ret tt) ;;
      if reached && bool_decide (RequestBodyLimitAction w = BodyLimitActionReject)
      then setAndReturnBodyLimitInterruption 413
      else
        let! d := slice_to b (if reached then wrap64 (RequestBodyLimit tx - len) else writingBytes) in
        let! r := write_request env d in
        match snd r with
        | Some e => ret (None, 0, Some (ErrBuf e))
        | None =>
          let! err := (if reached then let! x := ProcessRequestBody w in ret (snd x)
                       else ret None) in
          let! i := gets interruption in
          ret (i, fst r, err)
        end.

(** [io.CopyN] into a buffer: a loop of reads of at most [remaining] bytes and
    writes of what they returned.  The result is the number of bytes written
    and the error that ended the loop, if it was not the end of the data. *)
Fixpoint copyN_go (fuel : nat) (write : gostring -> M (Z * option BufErr)) (size : nat)
  (chunks : list gostring) (fails : bool) (remaining written : Z) : M (Z * option PhaseErr) :=
  match fuel with
  | O => panic
  | S fuel =>
    if remaining <=? 0 then ret (written, None)
    else
      let n := Nat.min size (Z.to_nat remaining) in
      let '(d, eof, chunks') := chunk_read chunks n in
      let! r := (if bool_decide (d = []) then ret (0, None) else write d) in
      let written := written + fst r in
      match snd r with
      | Some e => ret (written, Some (ErrBuf e))
      | None =>
        if negb (fst r =? zlen d) then ret (written, Some ErrShortWrite)
        else if eof then ret (written, if fails then Some ErrReader else None)
        else copyN_go fuel write size chunks' fails (remaining - zlen d) written
      end
  end.

Definition copyN_fuel (r : io_Reader) : nat :=
  S (S (length (concat (rd_chunks r)) + length (rd_chunks r))).

Definition CopyN (write : gostring -> M (Z * option BufErr)) (r : io_Reader) (n : Z)
  : M (Z * option PhaseErr) :=
  let! x := copyN_go (copyN_fuel r) write copy_size (rd_chunks r) (rd_fails r) n 0 in
  ret (if fst x =? n then (n, None) else x).

Definition ReadRequestBodyFrom (env : OsEnv) (w : WAF) (r : io_Reader)
  : M (option Interruption * Z * option PhaseErr) :=
  let! tx := gets (fun tx => tx) in
  let len := length_ (requestBodyBuffer tx) in
  let limit := RequestBodyLimit tx in
  let reject := bool_decide (RequestBodyLimitAction w = BodyLimitActionReject) in
  if bool_decide (RuleEngine tx = RuleEngineOff) then ret (None, 0, None)
  else if negb (RequestBodyAccess tx) then ret (None, 0, None)
  else if limit =? len then
    if reject then ret (interruption tx, 0, None) else ret (None, 0, None)
  else
    let copy (writingBytes : Z) (run : bool) :=
      let! x := CopyN (write_request env) r writingBytes in
      match snd x with
      | Some e => ret (None, fst x, Some e)
      | None =>
        let! len' := gets (fun tx => length_ (requestBodyBuffer tx)) in
        let! limit' := gets RequestBodyLimit in
        let full := len' =? limit' in
        (if full then setSingle variables.InboundDataError (lit "1") else ret tt) ;;
        if full && reject then setAndReturnBodyLimitInterruption 413
        else
          let! err := (if full || run then let! y := ProcessRequestBody w in ret (snd y)
                       else ret None) in
          let! i := gets interruption in
          ret (i, fst x, err)
      end in
    match rd_Len r with
    | None => copy (wrap64 (limit - len)) false
    | Some l =>
      if maxInt64 - l <=? len then ret (None, 0, Some ErrOverflow)
      else if limit <=? wrap64 (len + l) then
        setSingle variables.InboundDataError (lit "1") ;;
        if reject then setAndReturnBodyLimitInterruption 413
        else copy (wrap64 (limit - len)) true
      else copy l false
    end.

(** ** Response *)

Definition ProcessResponseHeaders (w : WAF) (code : Z) (proto : gostring)
  : M (option Interruption) :=
  let! tx := gets (fun tx => tx) in
  if bool_decide (RuleEngine tx = RuleEngineOff) then ret None
  else if PhaseResponseHeaders <=? lastPhase tx then ret (interruption tx)
  else if bool_decide (is_Some (interruption tx)) then ret (interruption tx)
  else
    setSingle variables.ResponseStatus (Strconv.Itoa code) ;;
    setSingle variables.ResponseProtocol proto ;;
    Eval w PhaseResponseHeaders ;;
    gets interruption.

Definition IsResponseBodyProcessable (w : WAF) (tx : Transaction) : bool :=
  if ForceResponseBodyVariable tx then true
  else InSlice (single_get variables.ResponseContentType (variables_ tx)) (ResponseBodyMimeTypes w).

(** What [ProcessResponseBody] does before the rules, and the errors after
    which it returns: [inl] goes on to the rules and returns the error, [inr]
    returns at once. *)
Definition run_response_processor (w : WAF) : M (option PhaseErr + PhaseErr) :=
  let! tx := gets (fun tx => tx) in
  if negb (ResponseBodyAccess tx) || negb (IsResponseBodyProcessable w tx) then ret (inl None)
  else
    let! i := open_response_reader in
    let! bp := getSingle variables.ResBodyProcessor in
    if bool_decide (bp = []) then
      let! x := response_reader i in
      match snd x with
      | Some e => ret (inr (ErrBuf e))
      | None =>
        setSingle variables.ResponseContentLength (Strconv.Itoa (zlen (fst x))) ;;
        setSingle variables.ResponseBody (fst x) ;;
        ret (inl None)
      end
    else
      match GetBodyProcessor bp with
      | None =>
        generateResponseBodyError (lit "invalid body processor") ;;
        ret (inl (Some ErrInvalidProcessor))
      | Some b =>
        let! err := ProcessResponse b (response_reader i) in
        (match err with Some e => generateResponseBodyError e | None => ret tt end) ;;
        ret (inl None)
      end.

Definition ProcessResponseBody (w : WAF) : M (option Interruption * option PhaseErr) :=
  let! tx := gets (fun tx => tx) in
  if bool_decide (RuleEngine tx = RuleEngineOff) then ret (None, None)
  else if bool_decide (is_Some (interruption tx)) then ret (interruption tx, None)
  else if negb (lastPhase tx =? PhaseResponseHeaders) then ret (None, None)
  else
    let! r := run_response_processor w in
    match r with
    | inr e => let! i := gets interruption in ret (i, Some e)
    | inl e =>
      Eval w PhaseResponseBody ;;
      let! i := gets interruption in
      ret (i, e)
    end.

Definition WriteResponseBody (env : OsEnv) (w : WAF) (b : gostring)
  : M (option Interruption * Z * option PhaseErr) :=
  let! tx := gets (fun tx => tx) in
  let len := length_ (responseBodyBuffer tx) in
  if bool_decide (RuleEngine tx = RuleEngineOff) then ret (None, 0, None)
  else if negb (ResponseBodyAccess tx) then ret (None, 0, None)
  else if ResponseBodyLimit tx =? len then
    match ResponseBodyLimitAction w with
    | BodyLimitActionReject => ret (interruption tx, 0, None)
    | BodyLimitActionProcessPartial => ret (None, 0, None)
    end
  else
    let writingBytes := zlen b in
    let reached := ResponseBodyLimit tx <=? wrap64 (len + writingBytes) in
    (if reached then setSingle variables.OutboundDataError (lit "1") else ret tt) ;;
    if reached && bool_decide (ResponseBodyLimitAction w = BodyLimitActionReject)
    then setAndReturnBodyLimitInterruption 500
    else
      let! d := slice_to b (if reached then wrap64 (ResponseBodyLimit tx - len) else writingBytes) in
      let! r := write_response env d in
      match snd r with
      | Some e => ret (None, 0, Some (ErrBuf e))
      | None =>
        let! err := (if reached then let! x := ProcessResponseBody w in ret (snd x)
                     else ret None) in
        let! i := gets interruption in
        ret (i, fst r, err)
      end.

Definition ReadResponseBodyFrom (env : OsEnv) (w : WAF) (r : io_Reader)
  : M (option Interruption * Z * option PhaseErr) :=
  let! tx := gets (fun tx => tx) in
  let len := length_ (responseBodyBuffer tx) in
  let limit := ResponseBodyLimit tx in
  let reject := bool_decide (ResponseBodyLimitAction w = BodyLimitActionReject) in
  if bool_decide (RuleEngine tx = RuleEngineOff) then ret (None, 0, None)
  else if negb (ResponseBodyAccess tx) then ret (None, 0, None)
  else if limit =? len then
    if reject then ret (interruption tx, 0, None) else ret (None, 0, None)
  else
    let copy (writingBytes : Z) (run : bool) :=
      let! x := CopyN (write_response env) r writingBytes in
      match snd x with
      | Some e => ret (None, fst x, Some e)
      | None =>
        let! len' := gets (fun tx => length_ (responseBodyBuffer tx)) in
        let! limit' := gets ResponseBodyLimit in
        let full := len' =? limit' in
        (if full then setSingle variables.OutboundDataError (lit "1") else ret tt) ;;
        if full && reject then setAndReturnBodyLimitInterruption 500
        else
          let! err := (if full || run then let! y := ProcessResponseBody w in ret (snd y)
                       else ret None) in
          let! i := gets interruption in
          ret (i, fst x, err)
      end in
    match rd_Len r with
    | None => copy (wrap64 (limit - len)) false
    | Some l =>
      if limit <=? wrap64 (len + l) then
        setSingle variables.OutboundDataError (lit "1") ;;
        if reject then setAndReturnBodyLimitInterruption 500
        else copy (wrap64 (limit - len)) true
      else copy l false
    end.

(** ** Logging *)

(** Whether the audit record of a transaction is written. *)
Definition audit_relevant (w : WAF) (tx : Transaction) : bool :=
  match AuditEngine tx with
  | AuditEngineOff => false
  | AuditEngineOn => true
  | AuditEngineRelevantOnly =>
    if negb (audit tx) then false
    else
      let status := match interruption tx with
                    | Some i => Strconv.Itoa (Status i)
                    | None => single_get variables.ResponseStatus (variables_ tx)
                    end in
      match AuditLogRelevantStatus w with
      | Some re => re status
      | None => true
      end
  end.

(** [ProcessLogging]; the result tells whether the audit record is handed to
    the audit log writer. *)
Definition ProcessLogging (w : WAF) : M bool :=
  let! re := gets RuleEngine in
  (if bool_decide (re = RuleEngineOff) then ret tt
   else Eval w PhaseLogging ;; ret tt) ;;
  gets (audit_relevant w).

(** ** Closing and creation *)

(** [Close]; [remove] tells which temporary files can be removed.  The result
    is the number of errors it joins. *)
Definition Close (env1 env2 : OsEnv) (remove : gostring -> bool) : M nat :=
  fun tx =>
    let files := if HasAccessToFS
                 then Map_Get (maps (variables_ tx) variables.FilesTmpNames) [] else [] in
    let errs0 := length (List.filter (fun f => negb (remove f)) files) in
    let '(b1, e1) := Reset HasAccessToFS env1 (requestBodyBuffer tx) in
    let '(b2, e2) := Reset HasAccessToFS env2 (responseBodyBuffer tx) in
    Ok (errs0 + (if e1 then 1 else 0) + (if e2 then 1 else 0),
        tx <| variables_ := variables_reset (variables_ tx) |>
           <| requestBodyBuffer := b1 |> <| responseBodyBuffer := b2 |>)%nat.

Definition setTimeVariables : M unit :=
  let! ns := gets Timestamp in
  let timeOnly := TimeOnly ns in
  let '(y, m, d) := Date ns in
  setSingle variables.TimeEpoch (Strconv.Itoa (time_Unix ns)) ;;
  setSingle variables.Time timeOnly ;;
  setSingle variables.TimeHour (take 2 timeOnly) ;;
  setSingle variables.TimeMin (take 2 (drop 3 timeOnly)) ;;
  setSingle variables.TimeSec (take 2 (drop 6 timeOnly)) ;;
  setSingle variables.TimeDay (Strconv.Itoa d) ;;
  setSingle variables.TimeMon (Strconv.Itoa m) ;;
  setSingle variables.TimeYear (Strconv.Itoa y) ;;
  setSingle variables.TimeWday (Strconv.Itoa (Weekday ns)).

(** The buffers, variables and cache of a transaction the pool has just
    made; [cs] is [shouldUseCaseSensitiveNamedCollection]. *)
Definition zero_transaction (cs : bool) (w : WAF) : Transaction :=
  let mem := default (w_RequestBodyLimit w) (requestBodyInMemoryLimit w) in
  mkTransaction [] [] None [] AllowTypeUnset AuditEngineOn [] [] false false 0 false false 0
    RuleEngineOn 0
    (NewBodyBuffer (mkBodyBufferOptions (TmpDir w) mem (w_RequestBodyLimit w)))
    (NewBodyBuffer (mkBodyBufferOptions (TmpDir w) (w_ResponseBodyLimit w) (w_ResponseBodyLimit w)))
    [] ∅ 0 false 0 false (NewTransactionVariables cs) ∅ [] 0.

(** The captures and defaults at the end of [newTransaction]. *)
Definition set_defaults : M unit :=
  forM (Z.of_nat <$> seq 0 11) (fun i =>
    updMap variables.TX (fun c => Map_Set c (Strconv.Itoa i) [[]])) ;;
  setSingle variables.FilesCombinedSize (lit "0") ;;
  setSingle variables.UrlencodedError (lit "0") ;;
  setSingle variables.FullRequestLength (lit "0") ;;
  setSingle variables.MultipartDataAfter (lit "0") ;;
  setSingle variables.OutboundDataError (lit "0") ;;
  setSingle variables.ReqbodyError (lit "0") ;;
  setSingle variables.ReqbodyProcessorError (lit "0") ;;
  setSingle variables.RequestBodyLength (lit "0") ;;
  setSingle variables.Duration (lit "0") ;;
  setSingle variables.HighestSeverity (lit "0") ;;
  let! i := gets id in
  setSingle variables.UniqueID i ;;
  setTimeVariables.

(** [newTransaction]: [pooled] is the closed transaction the pool returns, if
    any, and [now] the time in nanoseconds. *)
Definition newTransaction (cs : bool) (w : WAF) (ID : gostring) (now : Z)
  (pooled : option Transaction) : outcome Transaction :=
  let tx0 := default (zero_transaction cs w) pooled in
  let tx := tx0
    <| id := ID |>
    <| matchedRules := [] |>
    <| interruption := None |>
    <| SkipAfter := [] |>
    <| AuditEngine := w_AuditEngine w |>
    <| AuditLogParts := w_AuditLogParts w |>
    <| AuditLogFormat := w_AuditLogFormat w |>
    <| ForceRequestBodyVariable := false |>
    <| RequestBodyAccess := w_RequestBodyAccess w |>
    <| RequestBodyLimit := w_RequestBodyLimit w |>
    <| ResponseBodyAccess := w_ResponseBodyAccess w |>
    <| ResponseBodyLimit := w_ResponseBodyLimit w |>
    <| RuleEngine := w_RuleEngine w |>
    <| lastPhase := 0 |>
    <| ruleRemoveByID := [] |>
    <| ruleRemoveTargetByID := ∅ |>
    <| Skip := 0 |>
    <| AllowType_ := AllowTypeUnset |>
    <| Capture := false |>
    <| Timestamp := now |>
    <| audit := false |> in
  obind (set_defaults tx) (fun r => Ok (snd r)).
End phases.
