(* ===== verification/Engine.v ===== *)
(** * The rule engine: what a phase evaluates

    Facts about the loop of [RuleGroup.Eval]: which rules it evaluates, which
    it leaves out, how the flow actions steer it, and what a phase can change
    in a transaction. *)

From stdpp Require Import options.
From S2P Require Import Prelude GoLib HttpParse Variables Types Collections BodyBuffer.
From S2P Require Import Transaction Macro Rule TransactionOps Actions RuleEval EvalFacts.
From S2P Require Import RuleGroup.
Import types.

(** ** What actions can change *)

(** The frame of the engine: phases, identity and bodies are untouched,
    matched rules, exclusions and the audit mark only grow, and an interrupted
    transaction stays interrupted. *)
Record eng (tx tx' : Transaction) : Prop := {
  eng_lastPhase : lastPhase tx' = lastPhase tx;
  eng_id : id tx' = id tx /\ Timestamp tx' = Timestamp tx;
  eng_request : requestBodyBuffer tx' = requestBodyBuffer tx;
  eng_response : responseBodyBuffer tx' = responseBodyBuffer tx;
  eng_matched : exists l, matchedRules tx' = matchedRules tx ++ l;
  eng_removed : exists l, ruleRemoveByID tx' = ruleRemoveByID tx ++ l;
  eng_audit : audit tx = true -> audit tx' = true;
  eng_interruption : is_Some (interruption tx) -> is_Some (interruption tx');
}.

#[global] Instance eng_preorder : PreOrder eng.
Proof.
  split.
  - intros tx. split; try done; exists []; by rewrite app_nil_r.
  - intros a b c [A1 [A2 A2'] A3 A4 [l5 A5] [l6 A6] A7 A8] [B1 [B2 B2'] B3 B4 [m5 B5] [m6 B6] B7 B8].
    split; try (split; congruence); try congruence; auto.
    + exists (l5 ++ m5). by rewrite B5, A5, app_assoc.
    + exists (l6 ++ m6). by rewrite B6, A6, app_assoc.
Qed.

Lemma inner_eng tx tx' : inner tx tx' -> eng tx tx'.
Proof.
  intros [Hc Hm Ha].
  assert (forall A (f : Transaction -> A), (forall t, f (core t) = f t) -> f tx' = f tx) as Hf.
  { intros A f Hf. rewrite <- (Hf tx'), Hc. apply Hf. }
  split; try done.
  - by apply (Hf _ lastPhase).
  - split; [by apply (Hf _ id)|by apply (Hf _ Timestamp)].
  - by apply (Hf _ requestBodyBuffer).
  - by apply (Hf _ responseBodyBuffer).
  - exists []. rewrite app_nil_r. by apply (Hf _ ruleRemoveByID).
  - by rewrite (Hf _ interruption).
Qed.

#[global] Instance eng_EngineRel : EngineRel eng.
Proof. split; [typeclasses eauto|exact inner_eng]. Qed.

(** In a transaction whose engine is not on, nothing interrupts and the engine
    stays as it is. *)
Definition detecting (tx tx' : Transaction) : Prop :=
  RuleEngine tx <> RuleEngineOn ->
  RuleEngine tx' <> RuleEngineOn /\ interruption tx' = interruption tx.

#[global] Instance detecting_preorder : PreOrder detecting.
Proof.
  split; [by intros tx|]. intros a b c H1 H2 Ha.
  destruct (H1 Ha) as [Hb E1]. destruct (H2 Hb) as [Hc E2]. split; congruence.
Qed.

Lemma inner_detecting tx tx' : inner tx tx' -> detecting tx tx'.
Proof.
  intros [Hc _ _] Hn.
  pose proof (f_equal RuleEngine Hc) as H1. pose proof (f_equal interruption Hc) as H2.
  simpl in H1, H2. split; congruence.
Qed.

#[global] Instance detecting_EngineRel : EngineRel detecting.
Proof. split; [typeclasses eauto|exact inner_detecting]. Qed.

Ltac eng_modify :=
  apply keeps_modify; [typeclasses eauto|];
  intros; constructor; simpl; try done; try (exists []; by rewrite app_nil_r).

Section actions.
Context `{GoUnicode} `{MapOrder} `{StringData}.

Lemma keeps_eng_Interrupt i : keeps eng (Interrupt i).
Proof.
  unfold Interrupt. apply keeps_modify; [typeclasses eauto|]. intros tx. case_bool_decide.
  - constructor; simpl; try done; try (exists []; by rewrite app_nil_r).
  - reflexivity.
Qed.

Lemma keeps_eng_RemoveRuleByID i : keeps eng (RemoveRuleByID i).
Proof. unfold RemoveRuleByID. eng_modify. by eexists. Qed.

Lemma keeps_eng_RemoveRuleTargetByID i v k : keeps eng (RemoveRuleTargetByID i v k).
Proof. unfold RemoveRuleTargetByID. by eng_modify. Qed.

#[local] Hint Resolve keeps_eng_Interrupt keeps_eng_RemoveRuleByID
  keeps_eng_RemoveRuleTargetByID : waf.
#[local] Hint Extern 2 (keeps eng (modify _)) => eng_modify : waf.

(** No action leaves the frame of the engine. *)
Lemma action_eng w r a : keeps eng (action_Evaluate w r a).
Proof.
  destruct a; cbn [action_Evaluate]; unfold ctl_Evaluate, deny_Evaluate, drop_Evaluate,
    redirect_Evaluate, setenv_Evaluate, setvar_Evaluate, evaluateTxCollection, expand_ptr;
    repeat keeps_step; auto with waf.
Qed.

(** Actions that switch the engine on. *)
Definition switches_on (a : action) : bool :=
  match a with
  | ctlFn ctlRuleEngine value _ _ => bool_decide (ParseRuleEngineStatus value = Some RuleEngineOn)
  | _ => false
  end.

Lemma keeps_detecting_Interrupt i : keeps detecting (Interrupt i).
Proof.
  unfold Interrupt. apply keeps_modify; [typeclasses eauto|]. intros tx Hn.
  rewrite bool_decide_eq_false_2 by done. done.
Qed.

#[local] Hint Resolve keeps_detecting_Interrupt : waf.
#[local] Hint Extern 2 (keeps detecting (modify _)) =>
  apply keeps_modify; [typeclasses eauto|]; intros ? ?; by split : waf.
#[local] Hint Extern 1 (keeps detecting (RemoveRuleByID _)) => unfold RemoveRuleByID : waf.
#[local] Hint Extern 1 (keeps detecting (RemoveRuleTargetByID _ _ _)) =>
  unfold RemoveRuleTargetByID : waf.

Lemma action_detecting w r a :
  switches_on a = false -> keeps detecting (action_Evaluate w r a).
Proof.
  intros Ha. destruct a; cbn [action_Evaluate]; unfold ctl_Evaluate, deny_Evaluate, drop_Evaluate,
    redirect_Evaluate, setenv_Evaluate, setvar_Evaluate, evaluateTxCollection, expand_ptr;
    repeat keeps_step; auto with waf.
  simpl in Ha. apply bool_decide_eq_false in Ha.
  apply keeps_modify; [typeclasses eauto|]. intros tx Hn. simpl. split; congruence.
Qed.
End actions.

(** Every operator of the WAF's rules, in chains too, is well behaved. *)
Definition waf_ops_ok (w : WAF) : Prop :=
  forall r r', r ∈ Rules w -> r' ∈ chain_rules r -> rule_ops_ok r'.

(** ** The loop as a step relation *)

Section loop.
Context `{GoUnicode} `{MapOrder} `{StringData}.

(** [run_loop w p rules tx tr tx']: the loop of [Eval] over [rules] evaluates
    the rules [tr] and leads from [tx] to [tx']. *)
Inductive run_loop (w : WAF) (p : RulePhase)
  : list Rule -> Transaction -> list Rule -> Transaction -> Prop :=
| run_done tx : run_loop w p [] tx [] tx
| run_break r rules tx tx' :
    rule_gate p r tx = (Break, tx') -> run_loop w p (r :: rules) tx [] tx'
| run_continue r rules tx tx1 tr tx' :
    rule_gate p r tx = (Continue, tx1) -> run_loop w p rules tx1 tr tx' ->
    run_loop w p (r :: rules) tx tr tx'
| run_eval r rules tx tx1 tx2 tr tx' :
    rule_gate p r tx = (Run, tx1) -> run_rule w r tx1 = Ok (tt, tx2) ->
    run_loop w p rules tx2 tr tx' ->
    run_loop w p (r :: rules) tx (r :: tr) tx'.

(** The executable loop and the step relation agree. *)
Lemma eval_rules_run w p rules tx tx' :
  eval_rules w p rules tx = Ok (tt, tx') <-> exists tr, run_loop w p rules tx tr tx'.
Proof.
  split.
  - revert tx. induction rules as [|r rules IH]; intros tx; simpl.
    + intros [= <-]. eexists. constructor.
    + destruct (rule_gate p r tx) as [[] tx1] eqn:Eg.
      * intros ([] & tx2 & E1 & E2)%bind_Ok. destruct (IH _ E2) as [tr Htr].
        eexists. by eapply run_eval.
      * intros E. destruct (IH _ E) as [tr Htr]. eexists. by eapply run_continue.
      * intros [= <-]. eexists. by apply run_break.
  - intros [tr Hr]. induction Hr as [|? ? ? ? Eg|? ? ? ? ? ? Eg|? ? ? ? ? ? ? Eg E1]; simpl;
      rewrite ?Eg; try done.
    apply bind_Ok. eauto.
Qed.

(** A rule passes the gate only if nothing rules it out. *)
Lemma rule_gate_Run p r tx tx' :
  rule_gate p r tx = (Run, tx') ->
  tx' = tx /\ (rPhase r = 0 \/ rPhase r = p) /\ rID r ∉ ruleRemoveByID tx /\
  SkipAfter tx = [] /\ Skip tx <= 0 /\ AllowType_ tx <> AllowTypeAll /\
  AllowType_ tx <> AllowTypePhase /\ (p <> PhaseLogging -> interruption tx = None).
Proof.
  unfold rule_gate, IsInterrupted.
  destruct (_ && _) eqn:Ei; [done|]. destruct (negb _ && negb _) eqn:Ep; [done|].
  destruct (bool_decide_reflect (rID r ∈ ruleRemoveByID tx)); [done|].
  destruct (bool_decide_reflect (SkipAfter tx = [])) as [Hs|]; simpl; [|done].
  destruct (Z.ltb_spec 0 (Skip tx)); [done|]. intros Hg.
  assert (tx' = tx /\ AllowType_ tx <> AllowTypeAll /\ AllowType_ tx <> AllowTypePhase)
    as (-> & ? & ?).
  { revert Hg. by repeat case_match; intros; simplify_eq. }
  split_and!; try done.
  - lia.
  - intros Hp. destruct (interruption tx); [|done]. simpl in Ei. lia.
Qed.

(** The gate only changes the flow marks. *)
Lemma rule_gate_eng p r tx : eng tx (snd (rule_gate p r tx)).
Proof.
  unfold rule_gate. repeat case_match; simpl; try reflexivity;
    constructor; simpl; try done; exists []; by rewrite app_nil_r.
Qed.

Lemma rule_gate_detecting p r tx : detecting tx (snd (rule_gate p r tx)).
Proof. intros Hn. unfold rule_gate. by repeat case_match. Qed.

(** A relation the gate and the rules keep is kept by the loop. *)
Lemma keeps_eval_rules R `{!EngineRel R} w p rules :
  (forall r tx, R tx (snd (rule_gate p r tx))) ->
  (forall r r', r ∈ rules -> r' ∈ chain_rules r -> rule_keeps R w r') ->
  keeps R (eval_rules w p rules).
Proof.
  intros Hg. induction rules as [|r rules IH]; intros Hk tx [] tx'; simpl.
  - intros [= <-]. reflexivity.
  - pose proof (Hg r tx) as HR. destruct (rule_gate p r tx) as [[] tx1]; simpl in HR.
    + intros E. etrans; [exact HR|]. revert E. unfold run_rule. generalize tt. revert tx1 tx' HR.
      intros tx1 tx' _ u. revert tx1 u tx'. change (keeps R (run_rule w r ;; eval_rules w p rules)).
      unfold run_rule. repeat keeps_step; auto with waf.
      * apply keeps_Evaluate; [done|]. intros r'. apply Hk. by left.
      * apply keeps_modify; [typeclasses eauto|]. intros. apply EngineRel_inner. by inner_auto.
      * apply IH. intros r0 r' ?. apply Hk. by right.
    + intros E. etrans; [exact HR|]. eapply IH; [|done]. intros r0 r' ?. apply Hk. by right.
    + by intros [= <-].
Qed.

Lemma rules_keep_eng w (rules : list Rule) :
  (forall r r', r ∈ rules -> r' ∈ chain_rules r -> rule_ops_ok r') ->
  forall r r', r ∈ rules -> r' ∈ chain_rules r -> rule_keeps eng w r'.
Proof. intros Ho r r' Hr Hr'. split; [by eapply Ho|]. intros a _. apply action_eng. Qed.

Lemma eval_rules_eng w p rules :
  (forall r r', r ∈ rules -> r' ∈ chain_rules r -> rule_ops_ok r') ->
  keeps eng (eval_rules w p rules).
Proof.
  intros Ho. apply keeps_eval_rules; [typeclasses eauto|apply rule_gate_eng|].
  by apply rules_keep_eng.
Qed.

Lemma Eval_unfold w p tx b tx' :
  Eval w p tx = Ok (b, tx') ->
  exists tx1, eval_rules w p (Rules w) (phase_start p tx) = Ok (tt, tx1) /\
    tx' = phase_end tx1 /\ b = IsInterrupted tx'.
Proof.
  unfold Eval. intros ([] & tx1 & E1 & E2)%bind_Ok. injection E1 as <-.
  apply bind_Ok in E2 as ([] & tx2 & E2 & E3). exists tx2. split; [done|].
  apply bind_Ok in E3 as ([] & tx3 & E3 & E4). injection E3 as <-. by injection E4 as <- <-.
Qed.

(** Everything of the engine's frame but the phase survives a phase. *)
Lemma Eval_eng w p tx b tx' :
  waf_ops_ok w -> Eval w p tx = Ok (b, tx') ->
  eng (tx <| lastPhase := p |>) tx' /\ Skip tx' = 0 /\ AllowType_ tx' <> AllowTypePhase /\
  b = IsInterrupted tx'.
Proof.
  intros Ho (tx1 & E & -> & ->)%Eval_unfold.
  pose proof (eval_rules_eng w p (Rules w) Ho _ _ _ E) as He.
  split_and!; try done.
  - assert (eng tx1 (phase_end tx1)) as He'.
    { unfold phase_end. case_bool_decide; constructor; simpl; try done;
        exists []; by rewrite app_nil_r. }
    etrans; [|exact He']. etrans; [|exact He].
    constructor; simpl; try done; exists []; by rewrite app_nil_r.
  - unfold phase_end. case_bool_decide; simpl; congruence.
Qed.

(** Rules of a run loop after the first are run from a frame of the start. *)
Lemma run_loop_trace w p rules tx tr tx' :
  (forall r r', r ∈ rules -> r' ∈ chain_rules r -> rule_ops_ok r') ->
  run_loop w p rules tx tr tx' ->
  tr `sublist_of` rules /\
  Forall (fun r => (rPhase r = 0 \/ rPhase r = p) /\ rID r ∉ ruleRemoveByID tx) tr /\
  (p <> PhaseLogging -> is_Some (interruption tx) -> tr = []).
Proof.
  intros Ho Hrun. induction Hrun as [tx|r rules tx tx' Eg|r rules tx tx1 tr tx' Eg _ IH
    |r rules tx tx1 tx2 tr tx' Eg E1 _ IH].
  - split_and!; [constructor|constructor|done].
  - split_and!; [apply sublist_nil_l|constructor|done].
  - destruct IH as (IH1 & IH2 & IH3). { intros r0 r' ?. apply Ho. by right. }
    pose proof (rule_gate_eng p r tx) as [_ _ _ _ _ [l El] _ Hi]. rewrite Eg in El, Hi. simpl in *.
    split_and!; [by constructor| |by auto].
    eapply Forall_impl; [|exact IH2]. simpl. intros r0 [? ?]. rewrite El in *. set_solver.
  - destruct IH as (IH1 & IH2 & IH3). { intros r0 r' ?. apply Ho. by right. }
    destruct (rule_gate_Run p r tx tx1 Eg) as (-> & Hp & Hid & _ & _ & _ & _ & Hint).
    split_and!; [by constructor| |].
    + constructor; [done|]. eapply Forall_impl; [|exact IH2]. simpl. intros r0 [? Hni].
      split; [done|]. intros Hin. apply Hni.
      assert (eng tx tx2) as [_ _ _ _ _ [l El] _ _].
      { eapply (keeps_eval_rules eng w p [r]); [apply rule_gate_eng| |].
        - apply rules_keep_eng. intros r1 r' ->%list_elem_of_singleton. apply Ho. by left.
        - simpl. rewrite Eg. apply bind_Ok. by eexists _, _. }
      rewrite El. set_solver.
    + intros Hne Hs. rewrite (Hint Hne) in Hs. by destruct Hs.
Qed.
End loop.
