(* ===== verification/PhaseFacts.v ===== *)
(** * What a phase function can change

    Body processors see a reader and the variables only; with that, every
    function of a transaction's life cycle moves the phase forward along the
    allowed order and never drops an interruption. *)

From stdpp Require Import options.
From S2P Require Import Prelude GoLib GoTime HttpParse Variables Types Collections BodyBuffer.
From S2P Require Import Transaction Macro Rule TransactionOps Actions RuleEval EvalFacts.
From S2P Require Import RuleGroup BodyProcessors Phases Engine.
Import types.

(** ** Body processors *)

(** Everything but the variables and the buffers stays. *)
Definition outer (tx : Transaction) : Transaction :=
  tx <| variables_ := mkVariables (fun _ => []) (fun v => NewMap v) |> <| tick := 0%nat |>
     <| requestBodyBuffer := NewBodyBuffer (mkBodyBufferOptions [] 0 0) |>
     <| responseBodyBuffer := NewBodyBuffer (mkBodyBufferOptions [] 0 0) |>.

Definition body_only (tx tx' : Transaction) : Prop := outer tx' = outer tx.

#[global] Instance body_only_preorder : PreOrder body_only.
Proof. split; [by intros tx|]. intros a b c. unfold body_only. congruence. Qed.

Lemma only_variables_body_only tx tx' : only_variables tx tx' -> body_only tx tx'.
Proof. by intros (vs & n & ->). Qed.

(** What the interface of body processors guarantees: they act through the
    reader and the variables they are given. *)
Definition bp_ok (bp : BodyProcessor) : Prop :=
  forall (R : Transaction -> Transaction -> Prop) (rd : body_reader) mime,
    PreOrder R -> (forall tx tx', only_variables tx tx' -> R tx tx') -> keeps R rd ->
    keeps R (ProcessRequest bp rd mime) /\ keeps R (ProcessResponse bp rd).

Lemma only_variables_modify f :
  (forall tx, only_variables tx (f tx)) -> keeps only_variables (modify f).
Proof. intros. by apply keeps_modify; [typeclasses eauto|]. Qed.

Section processors.
Context `{GoUnicode} `{MapOrder} `{BufErrText}.

Lemma setSingle_only v s : keeps only_variables (setSingle v s).
Proof.
  apply only_variables_modify. intros tx. by exists (single_set v s (variables_ tx)), (tick tx).
Qed.

Lemma updMap_only v f : keeps only_variables (updMap v f).
Proof.
  apply only_variables_modify. intros tx. by exists (map_upd v f (variables_ tx)), (tick tx).
Qed.

Lemma store_body_only b : keeps only_variables (store_body b).
Proof. unfold store_body. keeps_step; apply setSingle_only. Qed.

Lemma range_set_only {V} (v : RuleVariable) (m : gmap gostring V) (f : Map -> gostring -> V -> Map) :
  keeps only_variables (range_set v m f).
Proof.
  unfold range_set. keeps_step.
  - intros tx a tx' [= _ <-]. by exists (variables_ tx), (S (tick tx)).
  - keeps_step. apply updMap_only.
Qed.

Lemma keeps_with_body R (rd : body_reader) k :
  PreOrder R -> (forall tx tx', only_variables tx tx' -> R tx tx') -> keeps R rd ->
  (forall b, keeps only_variables (k b)) -> keeps R (with_body rd k).
Proof.
  intros HP HR Hrd Hk. unfold with_body. keeps_step; [done|].
  destruct (snd a); [keeps_step|]. eapply keeps_mono; [done|exact HR|apply Hk].
Qed.

(** The built-in processors fulfil the contract. *)
Lemma raw_ok : bp_ok raw.
Proof.
  intros R rd mime HP HR Hrd. split; simpl; [|keeps_step].
  apply keeps_with_body; try done. intros b. keeps_step; [apply store_body_only|keeps_step].
Qed.

Lemma urlencoded_ok : bp_ok urlencoded.
Proof.
  intros R rd mime HP HR Hrd. split; simpl; [|keeps_step].
  apply keeps_with_body; try done. intros b.
  repeat keeps_step; [apply range_set_only|apply store_body_only].
Qed.

Lemma json_ok gjson_Parse : bp_ok (json gjson_Parse).
Proof.
  intros R rd mime HP HR Hrd. split; simpl; apply keeps_with_body; try done; intros b;
    repeat keeps_step; first [apply range_set_only|apply updMap_only].
Qed.
End processors.

(** ** Weakest preconditions *)

(** Every run of [m] from [tx] that returns satisfies [Q]. *)
Definition wp {A} (m : M A) (tx : Transaction) (Q : A -> Transaction -> Prop) : Prop :=
  forall a tx', m tx = Ok (a, tx') -> Q a tx'.

Lemma wp_bind {A B} (m : M A) (k : A -> M B) tx Q :
  wp m tx (fun a tx' => wp (k a) tx' Q) -> wp (bind m k) tx Q.
Proof. intros Hm b tx' (a & tx1 & E1 & E2)%bind_Ok. by eapply Hm. Qed.

Lemma wp_ret {A} (a : A) tx (Q : A -> Transaction -> Prop) : Q a tx -> wp (ret a) tx Q.
Proof. by intros HQ ? ? [= <- <-]. Qed.

Lemma wp_gets {A} (f : Transaction -> A) tx (Q : A -> Transaction -> Prop) :
  Q (f tx) tx -> wp (gets f) tx Q.
Proof. by intros HQ ? ? [= <- <-]. Qed.

Lemma wp_modify f tx (Q : unit -> Transaction -> Prop) : Q tt (f tx) -> wp (modify f) tx Q.
Proof. by intros HQ ? ? [= <- <-]. Qed.

Lemma wp_keeps {A} R (m : M A) tx : keeps R m -> wp m tx (fun _ tx' => R tx tx').
Proof. intros Hm a tx' E. by eapply Hm. Qed.

Lemma wp_mono {A} (m : M A) tx (Q Q' : A -> Transaction -> Prop) :
  (forall a tx', Q a tx' -> Q' a tx') -> wp m tx Q -> wp m tx Q'.
Proof. intros HQ Hm a tx' E. apply HQ. by apply Hm. Qed.

(** ** The order of the phases *)

Inductive phase_step : RulePhase -> RulePhase -> Prop :=
| step_request_headers p : p < 1 -> phase_step p PhaseRequestHeaders
| step_request_body : phase_step PhaseRequestHeaders PhaseRequestBody
| step_response_headers p : p < 3 -> phase_step p PhaseResponseHeaders
| step_response_body : phase_step PhaseResponseHeaders PhaseResponseBody
| step_logging p : phase_step p PhaseLogging.

(** Across a phase: no interruption and no matched rule is dropped. *)
Record still (tx tx' : Transaction) : Prop := {
  still_phase : lastPhase tx' = lastPhase tx;
  still_interruption : is_Some (interruption tx) -> is_Some (interruption tx');
  still_matched : exists l, matchedRules tx' = matchedRules tx ++ l;
}.

(** Outside of a phase: no rule matches either. *)
Record quiet (tx tx' : Transaction) : Prop := {
  quiet_phase : lastPhase tx' = lastPhase tx;
  quiet_interruption : is_Some (interruption tx) -> is_Some (interruption tx');
  quiet_matched : matchedRules tx' = matchedRules tx;
}.

#[global] Instance still_preorder : PreOrder still.
Proof.
  split.
  - intros tx. split; [done..|]. exists []. by rewrite app_nil_r.
  - intros a b c [A1 A2 [l A3]] [B1 B2 [l' B3]]. split; [congruence|auto|].
    exists (l ++ l'). by rewrite B3, A3, app_assoc.
Qed.

#[global] Instance quiet_preorder : PreOrder quiet.
Proof.
  split; [by intros tx|]. intros a b c [A1 A2 A3] [B1 B2 B3]. split; [congruence|auto|congruence].
Qed.

Lemma eng_still tx tx' : eng tx tx' -> still tx tx'.
Proof. intros []. by split. Qed.

Lemma quiet_still tx tx' : quiet tx tx' -> still tx tx'.
Proof. intros [A B C]. split; [done..|]. exists []. by rewrite C, app_nil_r. Qed.

Lemma body_only_quiet tx tx' : body_only tx tx' -> quiet tx tx'.
Proof.
  intros E. unfold body_only in E. split.
  - by apply (f_equal lastPhase) in E.
  - apply (f_equal interruption) in E. simpl in E. by rewrite E.
  - by apply (f_equal matchedRules) in E.
Qed.

(** Nothing matches and the phase stays, or it moves one step along the order. *)
Definition advance (tx tx' : Transaction) : Prop :=
  quiet tx tx' \/
  exists q, phase_step (lastPhase tx) q /\ still (tx <| lastPhase := q |>) tx'.

Lemma advance_quiet_l tx tx1 tx' : quiet tx tx1 -> advance tx1 tx' -> advance tx tx'.
Proof.
  intros Hq [Hq'|(q & Hs & Hst)]; [left; by etrans|right]. exists q.
  rewrite <- (quiet_phase _ _ Hq). split; [done|]. etrans; [|exact Hst].
  destruct (quiet_still _ _ Hq). by split.
Qed.

Lemma advance_quiet_r tx tx1 tx' : advance tx tx1 -> quiet tx1 tx' -> advance tx tx'.
Proof.
  intros [Hq|(q & Hs & Hst)] Hq'; [left; by etrans|right].
  exists q. split; [done|]. etrans; [exact Hst|by apply quiet_still].
Qed.

Section life_cycle.
#[local] Set Default Proof Using "Type*".
Context `{GoUnicode} `{MapOrder} `{StringData} `{LocalZone}.
Context (fs : bool) (processors : gostring -> option BodyProcessor) (w : WAF).
Context (Hbp : forall name bp, processors name = Some bp -> bp_ok bp).
Context (Hops : waf_ops_ok w).

Lemma Eval_advance p tx :
  phase_step (lastPhase tx) p -> wp (Eval w p) tx (fun _ tx' => advance tx tx').
Proof.
  intros Hp b tx' E. right. exists p. split; [done|].
  apply eng_still. by eapply Eval_eng.
Qed.

Lemma keeps_quiet_getSingle v : keeps quiet (getSingle v).
Proof. unfold getSingle. keeps_step. Qed.

Lemma keeps_body_modify f : (forall tx, body_only tx (f tx)) -> keeps quiet (modify f).
Proof. intros Hf. apply keeps_modify; [typeclasses eauto|]. intros. by apply body_only_quiet. Qed.

Lemma keeps_request_reader i : keeps quiet (request_reader fs i).
Proof.
  intros tx a tx'. unfold request_reader.
  destruct (ReadAll _ _ _ _ _ _) as [[[b d] err]|]; [|discriminate].
  intros E. injection E as _ <-. apply body_only_quiet. reflexivity.
Qed.

Lemma keeps_response_reader i : keeps quiet (response_reader fs i).
Proof.
  intros tx a tx'. unfold response_reader.
  destruct (ReadAll _ _ _ _ _ _) as [[[b d] err]|]; [|discriminate].
  intros E. injection E as _ <-. apply body_only_quiet. reflexivity.
Qed.

Lemma keeps_open_readers : keeps quiet open_request_reader /\ keeps quiet open_response_reader.
Proof. split; intros tx a tx' [= _ <-]; by apply body_only_quiet. Qed.

Lemma keeps_writes env d :
  keeps quiet (write_request fs env d) /\ keeps quiet (write_response fs env d).
Proof.
  split; intros tx a tx'; unfold write_request, write_response;
    destruct (Write _ _ _ _) as [[b n] err]; intros [= _ <-]; by apply body_only_quiet.
Qed.

Lemma keeps_quiet_only {A} (m : M A) : keeps only_variables m -> keeps quiet m.
Proof.
  intros Hm tx a tx' E. apply body_only_quiet, only_variables_body_only. by eapply Hm.
Qed.

#[local] Hint Extern 1 (keeps quiet (setSingle _ _)) => apply keeps_quiet_only, setSingle_only : waf.
#[local] Hint Extern 1 (keeps quiet (updMap _ _)) => apply keeps_quiet_only, updMap_only : waf.
#[local] Hint Resolve keeps_quiet_getSingle keeps_request_reader keeps_response_reader : waf.
#[local] Hint Extern 1 (keeps quiet open_request_reader) => exact (proj1 keeps_open_readers) : waf.
#[local] Hint Extern 1 (keeps quiet open_response_reader) => exact (proj2 keeps_open_readers) : waf.
#[local] Hint Extern 1 (keeps quiet (write_request _ _ _)) => exact (proj1 (keeps_writes _ _)) : waf.
#[local] Hint Extern 1 (keeps quiet (write_response _ _ _)) => exact (proj2 (keeps_writes _ _)) : waf.

Lemma keeps_body_errors e :
  keeps quiet (generateRequestBodyError e) /\ keeps quiet (generateResponseBodyError e).
Proof.
  split; unfold generateRequestBodyError, generateResponseBodyError;
    repeat keeps_step; auto with waf.
Qed.

#[local] Hint Extern 1 (keeps quiet (generateRequestBodyError _)) => exact (proj1 (keeps_body_errors _)) : waf.
#[local] Hint Extern 1 (keeps quiet (generateResponseBodyError _)) => exact (proj2 (keeps_body_errors _)) : waf.

Lemma keeps_run_request_processor : keeps quiet (run_request_processor fs processors).
Proof.
  unfold run_request_processor, GetBodyProcessor. repeat keeps_step; auto with waf.
  eapply (Hbp _ _ Heqo quiet); [typeclasses eauto| |auto with waf].
  intros. by apply body_only_quiet, only_variables_body_only.
Qed.

Lemma keeps_run_response_processor : keeps quiet (run_response_processor fs processors w).
Proof.
  unfold run_response_processor, GetBodyProcessor. repeat keeps_step; auto with waf.
  eapply (Hbp _ _ Heqo quiet (response_reader fs a0) []); [typeclasses eauto| |auto with waf].
  intros. by apply body_only_quiet, only_variables_body_only.
Qed.

(** A computation that only touches bodies and variables, then one that
    moves the phase. *)
Lemma wp_advance_bind {A B} (m : M A) (k : A -> M B) tx :
  keeps quiet m ->
  (forall a tx1, m tx = Ok (a, tx1) -> wp (k a) tx1 (fun _ tx' => advance tx1 tx')) ->
  wp (bind m k) tx (fun _ tx' => advance tx tx').
Proof.
  intros Hm Hk. apply wp_bind. intros a tx1 E.
  eapply wp_mono; [|by apply Hk]. intros b tx' Ha. eapply advance_quiet_l; [|exact Ha].
  by eapply Hm.
Qed.

(** One that moves the phase, then one that does not. *)
Lemma wp_bind_quiet {A B} (m : M A) (k : A -> M B) tx :
  wp m tx (fun _ tx' => advance tx tx') -> (forall a, keeps quiet (k a)) ->
  wp (bind m k) tx (fun _ tx' => advance tx tx').
Proof.
  intros Hm Hk. apply wp_bind. intros a tx1 E b tx' E'.
  eapply advance_quiet_r; [by eapply Hm|]. by eapply Hk.
Qed.

Lemma wp_quiet_advance {A} (m : M A) tx :
  keeps quiet m -> wp m tx (fun _ tx' => advance tx tx').
Proof. intros Hm a tx' E. left. by eapply Hm. Qed.

(** Reading the state first. *)
Lemma wp_get {B} (k : Transaction -> M B) tx Q :
  wp (k tx) tx Q -> wp (bind (gets (fun t => t)) k) tx Q.
Proof. intros Hk. by apply wp_bind, wp_gets. Qed.

Ltac stays := apply wp_quiet_advance; repeat keeps_step; auto with waf.

Lemma ProcessRequestHeaders_advance tx :
  wp (ProcessRequestHeaders w) tx (fun _ tx' => advance tx tx').
Proof.
  unfold ProcessRequestHeaders. apply wp_get.
  case_match; [stays|]. case_match eqn:Hp; [stays|]. case_match; [stays|].
  apply wp_bind_quiet; [apply Eval_advance; constructor; unfold PhaseRequestHeaders in *; lia|].
  intros. keeps_step.
Qed.

Lemma ProcessRequestBody_advance tx :
  wp (ProcessRequestBody fs processors w) tx (fun _ tx' => advance tx tx').
Proof.
  unfold ProcessRequestBody. apply wp_get.
  case_match; [stays|]. case_match; [stays|]. case_match eqn:Hp; [stays|].
  apply wp_advance_bind; [apply keeps_run_request_processor|]. intros a tx1 E1.
  apply wp_bind_quiet; [|intros; repeat keeps_step].
  apply Eval_advance. rewrite (quiet_phase _ _ (keeps_run_request_processor _ _ _ E1)).
  replace (lastPhase tx) with PhaseRequestHeaders by lia. constructor.
Qed.

Lemma ProcessResponseHeaders_advance code proto tx :
  wp (ProcessResponseHeaders w code proto) tx (fun _ tx' => advance tx tx').
Proof.
  unfold ProcessResponseHeaders. apply wp_get.
  case_match; [stays|]. case_match eqn:Hp; [stays|]. case_match; [stays|].
  do 2 (apply wp_advance_bind; [auto with waf|intros ? ? [= _ <-]]).
  apply wp_bind_quiet; [apply Eval_advance|intros; keeps_step].
  constructor. simpl. unfold PhaseResponseHeaders in *. lia.
Qed.

Lemma ProcessResponseBody_advance tx :
  wp (ProcessResponseBody fs processors w) tx (fun _ tx' => advance tx tx').
Proof.
  unfold ProcessResponseBody. apply wp_get.
  case_match; [stays|]. case_match; [stays|]. case_match eqn:Hp; [stays|].
  apply wp_advance_bind; [apply keeps_run_response_processor|]. intros a tx1 E1.
  destruct a as [e|e]; [|stays].
  apply wp_bind_quiet; [|intros; repeat keeps_step].
  apply Eval_advance. rewrite (quiet_phase _ _ (keeps_run_response_processor _ _ _ E1)).
  replace (lastPhase tx) with PhaseResponseHeaders by lia. constructor.
Qed.

Lemma ProcessLogging_advance tx :
  wp (ProcessLogging w) tx (fun _ tx' => advance tx tx').
Proof.
  unfold ProcessLogging. apply wp_advance_bind; [keeps_step|]. intros re tx1 _.
  apply wp_bind_quiet; [|intros; keeps_step]. case_match; [stays|].
  apply wp_bind_quiet; [apply Eval_advance; constructor|intros; keeps_step].
Qed.

Lemma keeps_setAndReturn status : keeps quiet (setAndReturnBodyLimitInterruption status).
Proof.
  unfold setAndReturnBodyLimitInterruption. repeat keeps_step.
  apply keeps_modify; [typeclasses eauto|]. intros tx. by split; simpl.
Qed.

Lemma keeps_slice_to b n : keeps quiet (slice_to b n).
Proof. unfold slice_to. repeat keeps_step. Qed.

Lemma keeps_CopyN write r n :
  (forall d, keeps quiet (write d)) -> keeps quiet (CopyN write r n).
Proof.
  intros Hw. unfold CopyN. keeps_step; [|keeps_step].
  generalize (copyN_fuel r), (rd_chunks r), n, 0. intros fuel.
  induction fuel as [|fuel IH]; intros chunks remaining written; cbn [copyN_go];
    repeat keeps_step; auto.
Qed.

#[local] Hint Resolve keeps_setAndReturn keeps_slice_to : waf.
#[local] Hint Extern 1 (keeps quiet (CopyN _ _ _)) =>
  apply keeps_CopyN; intros; auto with waf : waf.

(** Run the last phase function of a body function if its limit is reached. *)
Lemma wp_run_body (run : bool) (P : M (option Interruption * option PhaseErr)) (n : Z) tx :
  (forall tx, wp P tx (fun _ tx' => advance tx tx')) ->
  wp (let! err := (if run then let! x := P in ret (snd x) else ret None) in
      let! i := gets interruption in ret (i, n, err)) tx (fun _ tx' => advance tx tx').
Proof.
  intros HP. apply wp_bind_quiet; [|intros; repeat keeps_step].
  destruct run; [|stays]. apply wp_bind_quiet; [apply HP|intros; keeps_step].
Qed.

Lemma WriteRequestBody_advance env b tx :
  wp (WriteRequestBody fs processors env w b) tx (fun _ tx' => advance tx tx').
Proof.
  unfold WriteRequestBody. apply wp_get.
  do 4 (case_match; [try case_match; stays|]).
  apply wp_advance_bind; [case_match; auto with waf; keeps_step|]. intros _ tx1 _.
  case_match; [stays|].
  apply wp_advance_bind; [auto with waf|]. intros d tx2 _.
  apply wp_advance_bind; [auto with waf|]. intros r tx3 _.
  case_match; [stays|]. apply wp_run_body. apply ProcessRequestBody_advance.
Qed.

Lemma WriteResponseBody_advance env b tx :
  wp (WriteResponseBody fs processors env w b) tx (fun _ tx' => advance tx tx').
Proof.
  unfold WriteResponseBody. apply wp_get.
  do 3 (case_match; [try case_match; stays|]).
  apply wp_advance_bind; [case_match; auto with waf; keeps_step|]. intros _ tx1 _.
  case_match; [stays|].
  apply wp_advance_bind; [auto with waf|]. intros d tx2 _.
  apply wp_advance_bind; [auto with waf|]. intros r tx3 _.
  case_match; [stays|]. apply wp_run_body. apply ProcessResponseBody_advance.
Qed.

(** After the copy of a [Read...BodyFrom] function. *)
Ltac after_copy H :=
  apply wp_advance_bind; [auto with waf|]; intros ? ? _; case_match; [stays|];
  do 2 (apply wp_advance_bind; [keeps_step|]; intros ? ? _);
  apply wp_advance_bind; [case_match; auto with waf; keeps_step|]; intros ? ? _;
  case_match; [stays|]; apply wp_run_body, H.

Lemma ReadRequestBodyFrom_advance env r tx :
  wp (ReadRequestBodyFrom fs processors env w r) tx (fun _ tx' => advance tx tx').
Proof.
  unfold ReadRequestBodyFrom. apply wp_get. cbv zeta.
  do 3 (case_match; [try case_match; stays|]).
  case_match; [|after_copy ProcessRequestBody_advance]. case_match; [stays|].
  case_match; [|after_copy ProcessRequestBody_advance].
  apply wp_advance_bind; [auto with waf|]. intros ? ? _. case_match; [stays|].
  after_copy ProcessRequestBody_advance.
Qed.

Lemma ReadResponseBodyFrom_advance env r tx :
  wp (ReadResponseBodyFrom fs processors env w r) tx (fun _ tx' => advance tx tx').
Proof.
  unfold ReadResponseBodyFrom. apply wp_get. cbv zeta.
  do 3 (case_match; [try case_match; stays|]).
  case_match; [|after_copy ProcessResponseBody_advance].
  case_match; [|after_copy ProcessResponseBody_advance].
  apply wp_advance_bind; [auto with waf|]. intros ? ? _. case_match; [stays|].
  after_copy ProcessResponseBody_advance.
Qed.
End life_cycle.
