(* ===== verification/BodyFacts.v ===== *)
(** * Feeding bodies

    How the functions that feed a request or response body fill its buffer:
    all of it below the limit, up to the limit with ProcessPartial, nothing
    with Reject; and what a JSON document flattens to. *)

From stdpp Require Import options.
From S2P Require Import Prelude GoLib GoTime HttpParse Variables Types Collections BodyBuffer.
From S2P Require Import Transaction Macro Rule TransactionOps Actions RuleEval EvalFacts.
From S2P Require Import RuleGroup BodyProcessors Phases Engine PhaseFacts.
Import types.

Lemma Write_fits br (d : gostring) :
  Buf_inv br -> zlen (contents br) + zlen d <= Limit (options br) ->
  exists br', Write true os_ok br d = (br', zlen d, None) /\ Buf_inv br' /\
    options br' = options br /\ contents br' = contents br ++ d.
Proof.
  intros Hi Hfit. destruct (Write true os_ok br d) as [[br' n] err] eqn:E.
  pose proof (inv_options _ Hi) as [[_ HL] _].
  pose proof (zlen_nonneg (contents br)).
  destruct (Write_refines br d br' n err) as (Hi' & Ho & _ & Hs); [done|lia|done|].
  unfold spec.write in Hs. case_bool_decide as Hd.
  - subst d. injection Hs as E1 <- <-. exists br'. rewrite app_nil_r. split_and!; try congruence. done.
  - rewrite (proj2 (Z.ltb_ge _ _)) in Hs by lia. injection Hs as E1 <- <-.
    exists br'. split_and!; congruence.
Qed.

Lemma zlen_cut n (l : gostring) : 0 <= n <= zlen l -> zlen (take (Z.to_nat n) l) = n.
Proof. intros Hn. unfold zlen in *. rewrite length_take. lia. Qed.

(** A fresh reader of a well-formed buffer yields the whole body. *)
Lemma fresh_reader_all b :
  Buf_inv b ->
  exists b', ReadAll true (S (length (contents b))) (fst (Reader b)) (length (readers b)) copy_size [] =
      Ok (b', contents b, None) /\ Buf_inv b' /\ contents b' = contents b.
Proof.
  intros Hi. assert (Buf_inv (fst (Reader b))) as Hi1 by (destruct Hi; by constructor).
  apply (ReadAll_from (fst (Reader b)) (length (readers b)) copy_size (mkReader 0 true) []); [done| |done|..].
  - simpl. by apply list_lookup_middle.
  - simpl. lia.
  - unfold copy_size. lia.
  - change (contents (fst (Reader b))) with (contents b). cbn [pos]. lia.
Qed.

Section copy.
(** A buffer of the transaction: how to read and replace it, and the writes
    to it. *)
Context (get : Transaction -> BodyBuffer) (put : BodyBuffer -> Transaction -> Transaction).
Context (write : gostring -> M (Z * option BufErr)).
Context (get_put : forall b tx, get (put b tx) = b)
        (put_put : forall b b' tx, put b' (put b tx) = put b' tx)
        (put_get : forall tx, put (get tx) tx = tx)
        (write_eq : forall d tx, write d tx =
           let '(b, n, err) := Write true os_ok (get tx) d in Ok ((n, err), put b tx)).
#[local] Set Default Proof Using "Type*".

Lemma copyN_go_spec fuel size chunks remaining written tx :
  Buf_inv (get tx) -> (0 < size)%nat ->
  zlen (contents (get tx)) + remaining <= Limit (options (get tx)) ->
  (length (concat chunks) + length chunks + 1 < fuel)%nat ->
  let d := take (Z.to_nat remaining) (concat chunks) in
  exists b', copyN_go fuel write size chunks false remaining written tx =
      Ok ((written + zlen d, None), put b' tx) /\
    Buf_inv b' /\ options b' = options (get tx) /\ contents b' = contents (get tx) ++ d.
Proof.
  revert chunks remaining written tx. induction fuel as [|fuel IH];
    intros chunks remaining written tx Hi Hs Hl Hf; [lia|]. cbn [copyN_go]. cbv zeta.
  destruct (Z.leb_spec remaining 0) as [|Hr].
  { exists (get tx). rewrite put_get. rewrite (Z2Nat.nonpos remaining) by done. simpl.
    rewrite app_nil_r, Z.add_0_r. done. }
  set (n := Nat.min size (Z.to_nat remaining)).
  destruct chunks as [|c cs]; cbn [chunk_read].
  { exists (get tx). cbn. rewrite put_get, take_nil, app_nil_r, !Z.add_0_r. done. }
  set (d := take n c). set (cs' := if bool_decide (drop n c = []) then cs else drop n c :: cs).
  assert (concat (c :: cs) = d ++ concat cs') as Hcat.
  { unfold cs', d. simpl. rewrite <- (take_drop n c) at 1. rewrite <- app_assoc. f_equal.
    case_bool_decide as E; simpl; [by rewrite E|done]. }
  assert (zlen d <= remaining) as Hd by (unfold zlen, d; rewrite length_take; lia).
  assert (exists b1, (if bool_decide (d = []) then ret (0, None) else write d) tx =
      Ok ((zlen d, None), put b1 tx) /\ Buf_inv b1 /\ options b1 = options (get tx) /\
      contents b1 = contents (get tx) ++ d) as (b1 & E1 & Hi1 & Ho1 & Hc1).
  { case_bool_decide as Ed.
    - exists (get tx). rewrite Ed, put_get, app_nil_r. done.
    - destruct (Write_fits (get tx) d) as (b1 & E & H1); [done|lia|].
      exists b1. by rewrite write_eq, E. }
  unfold bind at 1. rewrite E1. cbn [obind fst snd]. rewrite Z.eqb_refl. cbn [negb].
  destruct (IH cs' (remaining - zlen d) (written + zlen d) (put b1 tx))
    as (b2 & E2 & Hi2 & Ho2 & Hc2).
  - by rewrite get_put.
  - done.
  - rewrite get_put, Hc1, Ho1, zlen_app. lia.
  - apply (f_equal length) in Hcat. rewrite length_app in Hcat. rewrite Hcat in Hf.
    clear E1. unfold cs' in *. case_bool_decide as E; simpl in *; [lia|].
    assert (0 < length d)%nat; [|lia].
    unfold d. rewrite length_take. destruct c; [by destruct n|simpl; lia].
  - exists b2. rewrite E2, put_put, get_put in *. rewrite Ho2, Ho1, Hc2, Hc1.
    assert (take (Z.to_nat remaining) (concat (c :: cs)) =
            d ++ take (Z.to_nat (remaining - zlen d)) (concat cs')) as ->.
    { rewrite Hcat, take_app. f_equal; [rewrite take_ge; unfold zlen in *; [done|lia]|].
      f_equal. unfold zlen. lia. }
    rewrite zlen_app, Z.add_assoc, app_assoc. done.
Qed.
End copy.

(** ** Flattened JSON *)

Section gjson_ind.
Variable P : gjson_Result -> Prop.
Hypothesis Pnull : P JNull.
Hypothesis Pstring : forall s, P (JString s).
Hypothesis Praw : forall s, P (JRaw s).
Hypothesis Pobject : forall l, Forall (fun kv => P (snd kv)) l -> P (JObject l).
Hypothesis Parray : forall l, Forall P l -> P (JArray l).

Lemma gjson_induction (j : gjson_Result) : P j.
Proof using P Parray Pnull Pobject Praw Pstring.
  revert j. fix go 1. intros [|s|s|l|l]; [apply Pnull|apply Pstring|apply Praw| |].
  - apply Pobject. induction l as [|kv l IH]; constructor; [apply go|apply IH].
  - apply Parray. induction l as [|j l IH]; constructor; [apply go|apply IH].
Qed.
End gjson_ind.

(** The names and values a document flattens to, in document order: a scalar
    under its path, and an array's length under the array's own path. *)
Fixpoint flattened (top : bool) (json : gjson_Result) (key : gostring)
  : list (gostring * gostring) :=
  let scalar s := if top then [(dot key (Strconv.Itoa 0), s); (key, Strconv.Itoa 1)] else [(key, s)] in
  match json with
  | JNull => scalar []
  | JString s => scalar s
  | JRaw s => scalar s
  | JObject l => flat_map (fun kv => flattened false (snd kv) (dot key (fst kv))) l
  | JArray l =>
    (fix elements (n : Z) (l : list gjson_Result) : list (gostring * gostring) :=
       match l with
       | [] => []
       | j :: l => flattened false j (dot key (Strconv.Itoa n)) ++ elements (n + 1) l
       end) 0 l
    ++ (if bool_decide (l = []) then [] else [(key, Strconv.Itoa (zlen l))])
  end.

Definition insert_all (l : list (gostring * gostring)) (m : gmap gostring gostring)
  : gmap gostring gostring := fold_left (fun m kv => <[fst kv := snd kv]> m) l m.

Lemma insert_all_app l k m : insert_all (l ++ k) m = insert_all k (insert_all l m).
Proof. apply fold_left_app. Qed.

(** A scalar below the top is stored under its path by the caller. *)
Definition read_value (json : gjson_Result) (key : gostring) (res : gmap gostring gostring)
  : gmap gostring gostring :=
  match json with
  | JObject _ | JArray _ => readItems json key res
  | JString s => <[key := s]> res
  | JNull => <[key := []]> res
  | JRaw raw => <[key := raw]> res
  end.

Lemma readItems_object l key res :
  readItems (JObject l) key res =
  fold_left (fun res kv => read_value (snd kv) (dot key (fst kv)) res) l res.
Proof. revert res. induction l as [|[k v] l IH]; intros res; [done|]. apply IH. Qed.

(** The loop over an array, from position [n] on. *)
Fixpoint read_elements (key : gostring) (n : Z) (l : list gjson_Result)
  (res : gmap gostring gostring) : gmap gostring gostring :=
  match l with
  | [] => if 0 <? n then <[key := Strconv.Itoa n]> res else res
  | value :: l => read_elements key (n + 1) l (read_value value (dot key (Strconv.Itoa n)) res)
  end.

Lemma readItems_array l key res : readItems (JArray l) key res = read_elements key 0 l res.
Proof.
  cbn [readItems]. generalize 0 at 2 3. revert res.
  induction l as [|j l IH]; intros res n; [done|]. apply IH.
Qed.

(** What the loop does to the map is what the list says. *)
Definition reads (json : gjson_Result) : Prop :=
  forall key res, read_value json key res = insert_all (flattened false json key) res.

Lemma read_elements_flattened key l n res :
  0 <= n -> Forall reads l ->
  read_elements key n l res =
  insert_all ((fix elements (n : Z) (l : list gjson_Result) : list (gostring * gostring) :=
                 match l with
                 | [] => []
                 | j :: l => flattened false j (dot key (Strconv.Itoa n)) ++ elements (n + 1) l
                 end) n l
              ++ (if bool_decide (n = 0 /\ l = []) then [] else [(key, Strconv.Itoa (n + zlen l))])) res.
Proof.
  intros Hn Hl. revert n res Hn. induction Hl as [|j l Hj Hl IH]; intros n res Hn.
  - cbn [read_elements app]. change (zlen (@nil gjson_Result)) with 0. rewrite Z.add_0_r.
    destruct (Z.ltb_spec 0 n).
    + by rewrite bool_decide_eq_false_2 by lia.
    + by rewrite bool_decide_eq_true_2 by (split; [lia|done]).
  - cbn [read_elements]. rewrite IH, Hj, <- insert_all_app by lia.
    rewrite <- app_assoc.
    rewrite !bool_decide_eq_false_2 by (intros [? ?]; lia || done).
    rewrite zlen_cons, Z.add_assoc. done.
Qed.

Lemma read_value_flattened json : reads json.
Proof.
  induction json as [|s|s|l Hl|l Hl] using gjson_induction; intros key res; try reflexivity.
  - cbn [read_value flattened]. rewrite readItems_object. revert res.
    induction Hl as [|[k v] l Hv Hl IH]; intros res; [done|].
    cbn [fold_left flat_map snd fst]. by rewrite IH, Hv, insert_all_app.
  - cbn [read_value flattened]. rewrite readItems_array, read_elements_flattened by done.
    f_equal. f_equal. destruct (bool_decide_reflect (l = [])) as [->|Hne]; [done|].
    by rewrite bool_decide_eq_false_2 by (by intros [_ ?]).
Qed.

Lemma readItems_flattened json key res :
  readItems json key res = insert_all (flattened true json key) res.
Proof. destruct json; try reflexivity; apply (read_value_flattened (JObject _)) || apply (read_value_flattened (JArray _)). Qed.

(** The last of the pairs with a name gives its value. *)
Lemma insert_all_lookup l m k :
  insert_all l m !! k =
  match list.last (List.filter (fun kv => bool_decide (fst kv = k)) l) with
  | Some kv => Some (snd kv)
  | None => m !! k
  end.
Proof.
  induction l as [|[a v] l IH] using rev_ind; [done|].
  rewrite insert_all_app, filter_app. cbn [insert_all fold_left List.filter fst snd].
  destruct (bool_decide_reflect (a = k)) as [->|Hne].
  - by rewrite lookup_insert_eq, last_snoc.
  - by rewrite lookup_insert_ne, app_nil_r.
Qed.
