(* ===== verification/Examples.v ===== *)
(** * A small concrete configuration

    Instances of the parameters of the development and a WAF with a few rules,
    on which the theorems are exercised. *)

From stdpp Require Import options.
From Stdlib Require Import Strings.Byte.
From S2P Require Import Prelude GoLib GoTime HttpParse Variables Types Collections BodyBuffer.
From S2P Require Import Transaction Macro Rule TransactionOps Actions RuleEval EvalFacts.
From S2P Require Import RuleGroup BodyProcessors Phases Engine.
Import types.

Module demo.

(** Case mappings of the letters A-Z only. *)
#[global] Instance unicode : GoUnicode := {|
  unicode_ToLower r := if (65 <=? r) && (r <=? 90) then r + 32 else r;
  unicode_ToUpper r := if (97 <=? r) && (r <=? 122) then r - 32 else r;
|}.

(** Maps are enumerated in the order of their representation. *)
#[global] Program Instance map_order : MapOrder := {| range_order V _ _ m := map_to_list m |}.
Next Obligation. done. Qed.

(** Equal keys share their bytes. *)
#[global] Instance string_data : StringData := fun _ md => N.pos (encode (Key_ md)).

#[global] Instance utc : LocalZone := fun _ => 0.

#[global] Instance buf_err : BufErrText := fun _ => lit "error".

Definition processors (name : gostring) : option BodyProcessor :=
  if bool_decide (name = lit "urlencoded") then Some urlencoded
  else if bool_decide (name = lit "raw") then Some raw else None.

(** The operator [@contains]. *)
Definition contains (s : gostring) : gostring -> M bool := fun d => ret (Strings.Contains d s).

Definition base (i : Z) (p : RulePhase) : Rule :=
  upd_meta NewRule (fun m => m <| ID_ := i |> <| LogID_ := Strconv.Itoa i |> <| Phase_ := p |>).

Definition on (v : RuleVariable) (s : gostring) (r : Rule) : Rule :=
  SetOperator (r <| rule_variables := [mkRuleVariableParams false v None [] []] |>)
    (contains s) (lit "contains") s.

(** Rule 100 denies requests with an argument that contains "evil". *)
Definition deny_evil : Rule := AddAction (on variables.Args (lit "evil") (base 100 2)) (lit "deny") denyFn.

(** Rule 101 denies everything in phase 2. *)
Definition deny_all : Rule := AddAction (base 101 2) (lit "deny") denyFn.

(** Rule 102 looks at the request headers and counts a score. *)
Definition score : Rule :=
  AddAction (on variables.RequestHeaders (lit "bot") (base 102 1)) (lit "setvar")
    (setvarFn (Some (mkMacro (lit "score") [text_token (lit "score")]))
              (Some (mkMacro (lit "+5") [text_token (lit "+5")])) variables.TX false).

Definition marker (s : gostring) : Rule :=
  upd_meta NewRule (fun m => m <| Phase_ := 0 |> <| SecMark_ := s |>).

(** Rule 103 runs in the logging phase. *)
Definition log_all : Rule := AddAction (base 103 5) (lit "pass") passFn.

Definition waf : WAF :=
  (NewWAF (lit "/tmp")) <| Rules := [score; deny_evil; marker (lit "END"); deny_all; log_all] |>
    <| w_RequestBodyAccess := true |> <| w_ResponseBodyAccess := true |>
    <| w_RequestBodyLimit := 16 |> <| w_ResponseBodyLimit := 16 |>
    <| ResponseBodyMimeTypes := [lit "text/html"] |>.

Definition tx0 : Transaction :=
  match newTransaction false waf (lit "tx1") 1700000000000000000 None with
  | Ok tx => tx
  | Panic => zero_transaction false waf
  end.

(** The state a computation ends in. *)
Definition final {A} (m : M A) (tx : Transaction) : Transaction :=
  match m tx with Ok (_, tx') => tx' | Panic => tx end.

(** The value it returns, if it returns. *)
Definition result {A} (m : M A) (tx : Transaction) : option A :=
  match m tx with Ok (a, _) => Some a | Panic => None end.

Lemma final_ok {A} (m : M A) tx a : result m tx = Some a -> m tx = Ok (a, final m tx).
Proof. unfold result, final. destruct (m tx) as [[? ?]|]; [|done]. by intros [= ->]. Qed.

(** [tx0] with the query "q=evil". *)
Definition tx_evil : Transaction := final (ExtractGetArguments waf (lit "q=evil")) tx0.

Lemma contains_ok s d : keeps only_variables (contains s d).
Proof. unfold contains. keeps_step. Qed.

Lemma waf_ok : waf_ops_ok waf.
Proof.
  intros r r' Hr Hr' op Hop d. unfold waf in Hr. simpl in Hr.
  repeat (apply elem_of_cons in Hr as [->|Hr]; [simpl in Hr'; set_unfold in Hr';
    destruct_or? Hr'; simplify_eq; simpl in Hop; try discriminate Hop; injection Hop as <-;
    apply contains_ok|]). by apply not_elem_of_nil in Hr.
Qed.

End demo.
