(* ===== verification/EngineProps.v ===== *)
(** * Properties of the rule engine

    Which rules a phase evaluates, the state it leaves, detection-only mode,
    the flow actions [skip] and [skipAfter] and the [allow] action. *)

From stdpp Require Import options.
From S2P Require Import Prelude GoLib HttpParse Variables Types Collections BodyBuffer.
From S2P Require Import Transaction Macro Rule TransactionOps Actions RuleEval EvalFacts.
From S2P Require Import RuleGroup Engine Examples.
Import types.

Section props.
Context `{GoUnicode} `{MapOrder} `{StringData}.

(** C1: A phase evaluates a subsequence of the WAF's rules in their order:
    each evaluated rule belongs to the phase (or to every phase) and was not
    excluded when the phase began, and in every phase but logging an
    interrupted transaction evaluates none.  The result tells whether the
    transaction is interrupted at the end. *)
Theorem Eval_evaluates_subsequence w p tx b tx' :
  waf_ops_ok w -> Eval w p tx = Ok (b, tx') ->
  exists tr tx1,
    run_loop w p (Rules w) (phase_start p tx) tr tx1 /\ tx' = phase_end tx1 /\
    b = IsInterrupted tx' /\ tr `sublist_of` Rules w /\
    Forall (fun r => (rPhase r = 0 \/ rPhase r = p) /\ rID r ∉ ruleRemoveByID tx) tr /\
    (p <> PhaseLogging -> IsInterrupted tx = true -> tr = []).
Proof.
  intros Ho (tx1 & E & -> & ->)%Eval_unfold. apply eval_rules_run in E as [tr Hr].
  destruct (run_loop_trace w p _ _ tr tx1 Ho Hr) as (Hs & Hf & Hi).
  exists tr, tx1. split_and!; try done.
  intros Hp Hint. apply Hi; [done|]. by apply bool_decide_eq_true in Hint.
Qed.

(** C8: After a phase the transaction records it as the last phase, no skip
    is pending and no [allow:phase] is left; identity and bodies are
    unchanged, matched rules and exclusions have only been added to, and an
    interruption that was there before is still one. *)
Theorem Eval_postcondition w p tx b tx' :
  waf_ops_ok w -> Eval w p tx = Ok (b, tx') ->
  lastPhase tx' = p /\ Skip tx' = 0 /\ AllowType_ tx' <> AllowTypePhase /\
  id tx' = id tx /\ requestBodyBuffer tx' = requestBodyBuffer tx /\
  responseBodyBuffer tx' = responseBodyBuffer tx /\
  (exists l, matchedRules tx' = matchedRules tx ++ l) /\
  (exists l, ruleRemoveByID tx' = ruleRemoveByID tx ++ l) /\
  (is_Some (interruption tx) -> is_Some (interruption tx')).
Proof.
  intros Ho E. destruct (Eval_eng w p tx b tx' Ho E) as ([? (? & ?) ? ? ? ? ? ? ] & ? & ? & _).
  split_and!; done.
Qed.

Lemma eval_rules_interrupted w p rules tx :
  p <> PhaseLogging -> is_Some (interruption tx) -> eval_rules w p rules tx = Ok (tt, tx).
Proof.
  intros Hp Hi. destruct rules as [|r rules]; [done|]. simpl. unfold rule_gate, IsInterrupted.
  rewrite bool_decide_eq_true_2 by done. by rewrite (proj2 (Z.eqb_neq _ _) Hp).
Qed.

(** The rules the loop of phase [p] considers. *)
Definition of_phase (p : RulePhase) (r : Rule) : bool := (rPhase r =? 0) || (rPhase r =? p).

Lemma eval_rules_of_phase w p rules tx :
  eval_rules w p rules tx = eval_rules w p (List.filter (of_phase p) rules) tx.
Proof.
  revert tx. induction rules as [|r rules IH]; intros tx; [done|]. simpl.
  destruct (of_phase p r) eqn:Ep; unfold of_phase in Ep; simpl.
  - destruct (rule_gate p r tx) as [[] tx1]; [|done..].
    unfold bind. destruct (run_rule w r tx1) as [[[] tx2]|]; [|done]. apply IH.
  - unfold rule_gate. rewrite <- negb_orb, Ep. simpl.
    destruct (IsInterrupted tx && negb (p =? PhaseLogging)) eqn:Ei; [|apply IH].
    apply andb_true_iff in Ei as [Hi%bool_decide_eq_true Hp].
    rewrite eval_rules_interrupted; [done| |done]. intros ->. done.
Qed.

(** Rules of other phases do not matter: evaluating a phase with all the
    rules of the WAF, and with only those that belong to the phase or to
    every phase, has the same result from every transaction. *)
Theorem Eval_ignores_other_phases w p tx :
  (let! _ := modify (phase_start p) in
   let! _ := eval_rules w p (List.filter (of_phase p) (Rules w)) in
   let! _ := modify phase_end in gets IsInterrupted) tx
  = Eval w p tx.
Proof. unfold Eval, bind. simpl. by rewrite <- eval_rules_of_phase. Qed.

(** No action of the WAF's rules switches the engine on. *)
Definition never_switches_on (w : WAF) : Prop :=
  forall r r' a, r ∈ Rules w -> r' ∈ chain_rules r -> a ∈ actions r' ->
    switches_on (act_Function a) = false.

(** C11: With the engine in detection-only mode (or off) and no rule that
    switches it on, a phase never interrupts: the engine stays in that mode
    and the interruption is what it was, whatever actions the matching rules
    have. *)
Theorem detection_only_never_interrupts w p tx b tx' :
  waf_ops_ok w -> never_switches_on w -> RuleEngine tx <> RuleEngineOn ->
  Eval w p tx = Ok (b, tx') ->
  RuleEngine tx' <> RuleEngineOn /\ interruption tx' = interruption tx.
Proof.
  intros Ho Hs Hn (tx1 & E & -> & _)%Eval_unfold.
  assert (detecting (phase_start p tx) tx1) as Hd.
  { eapply (keeps_eval_rules detecting w p (Rules w)); [apply rule_gate_detecting| |exact E].
    intros r r' Hr Hr'. split; [by eapply Ho|]. intros a Ha. apply action_detecting. by eapply Hs. }
  destruct (Hd Hn). unfold phase_end. by case_bool_decide.
Qed.

(** A transaction in which the loop of phase [p] goes on. *)
Definition going_on (p : RulePhase) (tx : Transaction) : Prop :=
  p = PhaseLogging \/ interruption tx = None.

Lemma going_on_test p tx : going_on p tx -> IsInterrupted tx && negb (p =? PhaseLogging) = false.
Proof.
  unfold IsInterrupted. intros [-> | ->]; [by rewrite andb_false_r|].
  by rewrite bool_decide_eq_false_2 by apply is_Some_None.
Qed.

(** C24: While [skipAfter:m] is pending no rule is evaluated up to the marker
    [m]; evaluation resumes with the rule after the marker, and the rest of
    the phase runs as if the skipped rules were not there. *)
Theorem skipAfter_resumes_after_marker w p pre marker post tx :
  going_on p tx -> SkipAfter tx <> [] ->
  Forall (fun r => SecMark_ (meta r) <> SkipAfter tx) pre ->
  SecMark_ (meta marker) = SkipAfter tx -> of_phase p marker = true ->
  rID marker ∉ ruleRemoveByID tx ->
  eval_rules w p (pre ++ marker :: post) tx = eval_rules w p post (tx <| SkipAfter := [] |>).
Proof.
  intros Hg Hne Hpre Hm Hp Hid. induction Hpre as [|r pre Hr _ IH]; simpl;
    unfold rule_gate; rewrite going_on_test by done.
  - replace (negb (rPhase marker =? 0) && negb (rPhase marker =? p)) with false
      by (unfold of_phase in Hp; lia).
    rewrite (bool_decide_eq_false_2 (rID marker ∈ _)) by done.
    rewrite (bool_decide_eq_false_2 (SkipAfter tx = [])) by done. simpl.
    by rewrite bool_decide_eq_true_2.
  - destruct (negb _ && negb _); [exact IH|]. destruct (bool_decide (rID r ∈ _)); [exact IH|].
    rewrite (bool_decide_eq_false_2 (SkipAfter tx = [])) by done. simpl.
    by rewrite (bool_decide_eq_false_2 (SecMark_ _ = _)).
Qed.

(** A pending [skipAfter] whose marker is not among the rules outlives the
    phase: no rule is evaluated, and the marker is still awaited when the
    phase ends, so it goes on to suppress the rules of the next phase. *)
Theorem skipAfter_outlives_phase w p tx :
  interruption tx = None -> SkipAfter tx <> [] ->
  Forall (fun r => SecMark_ (meta r) <> SkipAfter tx) (Rules w) ->
  Eval w p tx = Ok (false, phase_end (phase_start p tx)) /\
  SkipAfter (phase_end (phase_start p tx)) = SkipAfter tx.
Proof.
  intros Hi Hne Hall.
  assert (eval_rules w p (Rules w) (phase_start p tx) = Ok (tt, phase_start p tx)) as E.
  { induction Hall as [|r rules Hr _ IH]; [done|]. simpl. unfold rule_gate.
    rewrite going_on_test by (by right).
    destruct (negb _ && negb _); [exact IH|]. destruct (bool_decide (rID r ∈ _)); [exact IH|].
    rewrite (bool_decide_eq_false_2 (SkipAfter _ = [])) by done. simpl.
    by rewrite (bool_decide_eq_false_2 (SecMark_ _ = _)). }
  split; [|unfold phase_end; by case_bool_decide].
  unfold Eval, bind. simpl. rewrite E. simpl. unfold phase_end, IsInterrupted.
  case_bool_decide; simpl; by rewrite Hi.
Qed.

Lemma set_Skip_0 tx : Skip tx = 0 -> tx <| Skip := 0 |> = tx.
Proof. destruct tx. simpl. by intros ->. Qed.

(** [skip:n] skips exactly the next [n] rules that the phase considers:
    rules of other phases and excluded rules do not count. *)
Theorem skip_skips_next_rules w p pre post tx :
  going_on p tx -> SkipAfter tx = [] -> 0 <= Skip tx ->
  Skip tx = zlen (List.filter (fun r => of_phase p r && negb (bool_decide (rID r ∈ ruleRemoveByID tx))) pre) ->
  eval_rules w p (pre ++ post) tx = eval_rules w p post (tx <| Skip := 0 |>).
Proof.
  intros Hg Hs Hn. revert tx Hg Hs Hn. induction pre as [|r pre IH]; intros tx Hg Hs Hn E.
  - by rewrite set_Skip_0.
  - simpl. unfold rule_gate. rewrite going_on_test by done. simpl in E.
    rewrite <- negb_orb. fold (of_phase p r) in *.
    destruct (of_phase p r) eqn:Ep; simpl in *; [|by apply IH].
    destruct (bool_decide (rID r ∈ ruleRemoveByID tx)); simpl in *; [by apply IH|].
    rewrite bool_decide_eq_true_2 by done. simpl. rewrite zlen_cons in E.
    pose proof (zlen_nonneg (List.filter (fun r => of_phase p r &&
      negb (bool_decide (rID r ∈ ruleRemoveByID tx))) pre)).
    rewrite (proj2 (Z.ltb_lt 0 (Skip tx))) by lia.
    specialize (IH (tx <| Skip := Skip tx - 1 |>)). simpl in IH. apply IH; try done; lia.
Qed.

(** An [allow] that covers the phase. *)
Definition allow_in_force (p : RulePhase) (tx : Transaction) : Prop :=
  AllowType_ tx = AllowTypeAll \/ AllowType_ tx = AllowTypePhase \/
  (AllowType_ tx = AllowTypeRequest /\ (p = PhaseRequestHeaders \/ p = PhaseRequestBody)).

(** What no rule has touched. *)
Definition untouched (tx tx' : Transaction) : Prop :=
  variables_ tx' = variables_ tx /\ matchedRules tx' = matchedRules tx /\
  interruption tx' = interruption tx.

Lemma allow_gate p r tx :
  allow_in_force p tx ->
  match rule_gate p r tx with
  | (Run, _) => False
  | (Break, tx') => untouched tx tx'
  | (Continue, tx') => untouched tx tx' /\ allow_in_force p tx'
  end.
Proof.
  intros Ha. unfold rule_gate.
  repeat case_match; simplify_eq; try done; unfold allow_in_force in *; destruct_or?;
    destruct_and?; try congruence; destruct_or?; unfold PhaseRequestHeaders, PhaseRequestBody in *;
    try lia; naive_solver.
Qed.

Lemma allow_loop w p rules tx :
  allow_in_force p tx -> exists tx', eval_rules w p rules tx = Ok (tt, tx') /\ untouched tx tx'.
Proof.
  revert tx. induction rules as [|r rules IH]; intros tx Ha; [exists tx; by repeat split|]. simpl.
  pose proof (allow_gate p r tx Ha) as Hg.
  destruct (rule_gate p r tx) as [[| |] tx1]; [done| |by exists tx1].
  destruct Hg as [(?&?&?) Ha1]. destruct (IH tx1 Ha1) as (tx2 & -> & ?&?&?). exists tx2.
  repeat split; congruence.
Qed.

(** While an [allow] is in force the phase evaluates nothing and ends
    normally, whatever the rules are: a plain [allow] in every phase,
    [allow:phase] in its phase, [allow:request] in the request phases.  In
    particular a plain [allow] also keeps the rules of the logging phase from
    running. *)
Theorem allow_evaluates_nothing w p tx :
  allow_in_force p tx ->
  exists tx', Eval w p tx = Ok (IsInterrupted tx, tx') /\
    variables_ tx' = variables_ tx /\ matchedRules tx' = matchedRules tx /\
    interruption tx' = interruption tx.
Proof.
  intros Ha. destruct (allow_loop w p (Rules w) (phase_start p tx) Ha) as (tx1 & E & ?&?&Hi).
  exists (phase_end tx1). unfold Eval, bind, modify, gets. cbn. rewrite E. cbn.
  assert (untouched tx1 (phase_end tx1)) as (?&?&Hj) by (unfold phase_end; by case_bool_decide).
  split; [|by repeat split; etrans]. do 2 f_equal. unfold IsInterrupted. by rewrite Hj, Hi.
Qed.
End props.

(** ** Witnesses *)

Import demo.

(** The request with the argument "evil" is denied by rule 100. *)
Lemma Eval_evaluates_subsequence_witness :
  exists tr tx1,
    run_loop waf 2 (Rules waf) (phase_start 2 tx_evil) tr tx1 /\
    final (Eval waf 2) tx_evil = phase_end tx1 /\
    true = IsInterrupted (final (Eval waf 2) tx_evil) /\ tr `sublist_of` Rules waf /\
    Forall (fun r => (rPhase r = 0 \/ rPhase r = 2) /\ rID r ∉ ruleRemoveByID tx_evil) tr /\
    (2 <> PhaseLogging -> IsInterrupted tx_evil = true -> tr = []).
Proof.
  apply (Eval_evaluates_subsequence waf 2 tx_evil); [exact waf_ok|].
  apply final_ok. vm_compute. reflexivity.
Defined.

Lemma Eval_postcondition_witness :
  let tx' := final (Eval waf 2) tx_evil in
  lastPhase tx' = 2 /\ Skip tx' = 0 /\ AllowType_ tx' <> AllowTypePhase /\
  id tx' = id tx_evil /\ requestBodyBuffer tx' = requestBodyBuffer tx_evil /\
  responseBodyBuffer tx' = responseBodyBuffer tx_evil /\
  (exists l, matchedRules tx' = matchedRules tx_evil ++ l) /\
  (exists l, ruleRemoveByID tx' = ruleRemoveByID tx_evil ++ l) /\
  (is_Some (interruption tx_evil) -> is_Some (interruption tx')).
Proof.
  apply (Eval_postcondition waf 2 tx_evil true); [exact waf_ok|].
  apply final_ok. vm_compute. reflexivity.
Defined.

(** In detection-only mode rule 100 matches and nothing is interrupted. *)
Definition tx_detect : Transaction := tx_evil <| RuleEngine := RuleEngineDetectionOnly |>.

Lemma demo_never_switches_on : never_switches_on waf.
Proof.
  intros r r' a Hr Hr' Ha. unfold waf in Hr. simpl in Hr.
  repeat (apply elem_of_cons in Hr as [->|Hr]; [simpl in Hr'; set_unfold in Hr';
    destruct_or? Hr'; simplify_eq; simpl in Ha; set_unfold in Ha; destruct_or? Ha; by subst|]).
  by apply not_elem_of_nil in Hr.
Qed.

Lemma detection_only_never_interrupts_witness :
  length (matchedRules (final (Eval waf 2) tx_detect)) = 2%nat /\
  RuleEngine (final (Eval waf 2) tx_detect) <> RuleEngineOn /\
  interruption (final (Eval waf 2) tx_detect) = None.
Proof.
  split; [vm_compute; reflexivity|].
  apply (detection_only_never_interrupts waf 2 tx_detect false);
    [exact waf_ok|exact demo_never_switches_on|done|].
  apply final_ok. vm_compute. reflexivity.
Defined.

Definition tx_skipping (s : gostring) : Transaction := tx_evil <| SkipAfter := s |>.

Lemma skipAfter_resumes_after_marker_witness :
  eval_rules waf 2 [score; deny_evil; marker (lit "END"); deny_all] (tx_skipping (lit "END")) =
  eval_rules waf 2 [deny_all] ((tx_skipping (lit "END")) <| SkipAfter := [] |>).
Proof.
  apply (skipAfter_resumes_after_marker waf 2 [score; deny_evil] (marker (lit "END")) [deny_all]);
    [by right|done|by repeat constructor|done|done|apply not_elem_of_nil].
Defined.

Lemma skipAfter_outlives_phase_witness :
  Eval waf 2 (tx_skipping (lit "NOWHERE")) =
    Ok (false, phase_end (phase_start 2 (tx_skipping (lit "NOWHERE")))) /\
  SkipAfter (phase_end (phase_start 2 (tx_skipping (lit "NOWHERE")))) = lit "NOWHERE".
Proof.
  apply (skipAfter_outlives_phase waf 2 (tx_skipping (lit "NOWHERE")));
    [done|done|by repeat constructor].
Defined.

Lemma skip_skips_next_rules_witness :
  eval_rules waf 2 [score; deny_evil; deny_all] (tx_evil <| Skip := 1 |>) =
  eval_rules waf 2 [deny_all] (tx_evil <| Skip := 1 |> <| Skip := 0 |>).
Proof.
  apply (skip_skips_next_rules waf 2 [score; deny_evil] [deny_all] (tx_evil <| Skip := 1 |>));
    [by right|done|done|vm_compute; reflexivity].
Defined.

(** Even the logging phase evaluates nothing after a plain allow. *)
Definition tx_allowed : Transaction := tx_evil <| AllowType_ := AllowTypeAll |>.

Lemma allow_evaluates_nothing_witness :
  exists tx', Eval waf PhaseLogging tx_allowed = Ok (IsInterrupted tx_allowed, tx') /\
    variables_ tx' = variables_ tx_allowed /\ matchedRules tx' = matchedRules tx_allowed /\
    interruption tx' = interruption tx_allowed.
Proof.
  apply (allow_evaluates_nothing waf PhaseLogging tx_allowed). by left.
Defined.
