(* ===== verification/PhaseProps.v ===== *)
(** * Properties of the life cycle of a transaction

    The order of the phases, interruptions that stay, engines that are off,
    bodies and their limits, what rules see of a body, and the recycling of
    transactions. *)

From stdpp Require Import options.
From Stdlib Require Import Strings.Byte.
From S2P Require Import Prelude GoLib GoTime HttpParse Variables Types Collections BodyBuffer.
From S2P Require Import Transaction Macro Rule TransactionOps Actions RuleEval EvalFacts.
From S2P Require Import RuleGroup BodyProcessors Phases Engine PhaseFacts BodyFacts Examples.
Import types.

(** The calls a connector makes on a transaction. *)
Inductive call :=
| CallProcessConnection (client : gostring) (cPort : Z) (server : gostring) (sPort : Z)
| CallProcessURI (uri method httpVersion : gostring)
| CallSetServerName (name : gostring)
| CallAddRequestHeader (key value : gostring)
| CallAddGetRequestArgument (key value : gostring)
| CallAddPostRequestArgument (key value : gostring)
| CallProcessRequestHeaders
| CallWriteRequestBody (env : OsEnv) (b : gostring)
| CallReadRequestBodyFrom (env : OsEnv) (r : io_Reader)
| CallProcessRequestBody
| CallAddResponseHeader (key value : gostring)
| CallProcessResponseHeaders (code : Z) (proto : gostring)
| CallWriteResponseBody (env : OsEnv) (b : gostring)
| CallReadResponseBodyFrom (env : OsEnv) (r : io_Reader)
| CallProcessResponseBody
| CallProcessLogging.

Section life.
Context `{GoUnicode} `{MapOrder} `{StringData} `{LocalZone}.
Context (ParseRequestURI : gostring -> URL + gostring).
Context (fs : bool) (processors : gostring -> option BodyProcessor) (w : WAF).

Definition discard {A} (m : M A) : M unit := m ;; ret tt.

Definition exec (c : call) : M unit :=
  match c with
  | CallProcessConnection c cp s sp => ProcessConnection c cp s sp
  | CallProcessURI u m v => ProcessURI ParseRequestURI w u m v
  | CallSetServerName n => SetServerName n
  | CallAddRequestHeader k v => AddRequestHeader k v
  | CallAddGetRequestArgument k v => AddGetRequestArgument w k v
  | CallAddPostRequestArgument k v => AddPostRequestArgument w k v
  | CallProcessRequestHeaders => discard (ProcessRequestHeaders w)
  | CallWriteRequestBody env b => discard (WriteRequestBody fs processors env w b)
  | CallReadRequestBodyFrom env r => discard (ReadRequestBodyFrom fs processors env w r)
  | CallProcessRequestBody => discard (ProcessRequestBody fs processors w)
  | CallAddResponseHeader k v => AddResponseHeader k v
  | CallProcessResponseHeaders c p => discard (ProcessResponseHeaders w c p)
  | CallWriteResponseBody env b => discard (WriteResponseBody fs processors env w b)
  | CallReadResponseBodyFrom env r => discard (ReadResponseBodyFrom fs processors env w r)
  | CallProcessResponseBody => discard (ProcessResponseBody fs processors w)
  | CallProcessLogging => discard (ProcessLogging w)
  end.

(** One call that returns. *)
Inductive tx_step (tx tx' : Transaction) : Prop :=
| step_call c : exec c tx = Ok (tt, tx') -> tx_step tx tx'.

Context (Hbp : forall name bp, processors name = Some bp -> bp_ok bp).
Context (Hops : waf_ops_ok w).
#[local] Set Default Proof Using "Type*".

Lemma wp_discard {A} (m : M A) tx :
  wp m tx (fun _ tx' => advance tx tx') -> wp (discard m) tx (fun _ tx' => advance tx tx').
Proof. intros Hm. apply wp_bind. intros a tx1 E. apply wp_ret. by eapply Hm. Qed.

Lemma range_entries_only {V} (v : RuleVariable) (m : gmap gostring V) :
  keeps only_variables (range_entries v m).
Proof. intros tx a tx' [= _ <-]. by exists (variables_ tx), (S (tick tx)). Qed.

#[local] Hint Resolve setSingle_only updMap_only range_entries_only : waf.

Lemma feeding_only c :
  match c with
  | CallProcessConnection _ _ _ _ | CallProcessURI _ _ _ | CallSetServerName _
  | CallAddRequestHeader _ _ | CallAddResponseHeader _ _ | CallAddGetRequestArgument _ _
  | CallAddPostRequestArgument _ _ => keeps only_variables (exec c)
  | _ => True
  end.
Proof.
  destruct c; try done; cbn [exec];
    unfold ProcessConnection, ProcessURI, SetServerName, AddRequestHeader, AddResponseHeader,
      ExtractGetArguments, AddGetRequestArgument, AddPostRequestArgument, AddArgument;
    cbv zeta; repeat keeps_step; auto with waf.
Qed.

Lemma exec_advance c tx : wp (exec c) tx (fun _ tx' => advance tx tx').
Proof.
  pose proof (feeding_only c) as Hf.
  destruct c; try (intros [] tx' E; left; apply body_only_quiet, only_variables_body_only;
    by eapply Hf); cbn [exec]; apply wp_discard.
  - by apply ProcessRequestHeaders_advance.
  - by apply WriteRequestBody_advance.
  - by apply ReadRequestBodyFrom_advance.
  - by apply ProcessRequestBody_advance.
  - by apply ProcessResponseHeaders_advance.
  - by apply WriteResponseBody_advance.
  - by apply ReadResponseBodyFrom_advance.
  - by apply ProcessResponseBody_advance.
  - by apply ProcessLogging_advance.
Qed.

(** C2: Every call a connector makes either leaves the phase alone, and then
    no rule matches, or moves it one step along the order of phases: request
    headers first, the request body only right after them, response headers
    at most once, the response body only right after those, logging at any
    time.  No call drops an interruption or a matched rule. *)
Theorem calls_follow_phase_order tx tx' :
  tx_step tx tx' ->
  (lastPhase tx' = lastPhase tx /\ matchedRules tx' = matchedRules tx \/
   phase_step (lastPhase tx) (lastPhase tx')) /\
  (is_Some (interruption tx) -> is_Some (interruption tx')) /\
  (exists l, matchedRules tx' = matchedRules tx ++ l).
Proof.
  intros [c E]. destruct (exec_advance c tx tt tx' E) as [[A B C]|(q & Hq & [A B C])]; simpl in *.
  - split_and!; [by left|done|]. exists []. by rewrite C, app_nil_r.
  - rewrite A. split_and!; [by right|done|done].
Qed.

Lemma step_phase_monotone tx tx' :
  tx_step tx tx' -> lastPhase tx <= 5 -> lastPhase tx <= lastPhase tx' <= 5.
Proof.
  intros [c E] Hp. destruct (exec_advance c tx tt tx' E) as [[A _ _]|(q & Hq & [A _ _])];
    simpl in A; [lia|]. rewrite A.
  inversion Hq; unfold PhaseRequestHeaders, PhaseRequestBody, PhaseResponseHeaders,
    PhaseResponseBody, PhaseLogging in *; lia.
Qed.

(** C7: From a new transaction, whatever calls the connector makes in whatever
    order, the phase stays between 0 and 5 and never goes back, and an
    interruption, once raised, stays until the transaction is closed. *)
Theorem reachable_states_ordered tx tx1 tx2 :
  lastPhase tx = 0 -> rtc tx_step tx tx1 -> rtc tx_step tx1 tx2 ->
  0 <= lastPhase tx1 <= lastPhase tx2 /\ lastPhase tx2 <= 5 /\
  (is_Some (interruption tx1) -> is_Some (interruption tx2)).
Proof.
  assert (forall a b, rtc tx_step a b -> lastPhase a <= 5 ->
    lastPhase a <= lastPhase b <= 5 /\ (is_Some (interruption a) -> is_Some (interruption b)))
    as Hrtc.
  { intros a b Hab. induction Hab as [a|a b c Hs _ IH]; intros Hp; [done|].
    pose proof (step_phase_monotone a b Hs Hp). destruct IH as [? Hi]; [lia|].
    split; [lia|]. intros Ha. apply Hi. destruct Hs as [cl E].
    destruct (exec_advance cl a tt b E) as [[_ B _]|(q & _ & [_ B _])]; by apply B. }
  intros H0' H1' H2'. destruct (Hrtc _ _ H1') as [? ?]; [lia|].
  destruct (Hrtc _ _ H2') as [? ?]; [lia|]. split_and!; try done; lia.
Qed.
End life.

(** ** Bodies *)

Section bodies.
Context `{GoUnicode} `{MapOrder} `{StringData} `{LocalZone}.
Context (processors : gostring -> option BodyProcessor) (w : WAF).

(** With the rule engine off nothing happens to a transaction: header,
    body and response functions report no interruption, take no bytes and
    leave the transaction exactly as it was. *)
Theorem engine_off_is_inert fs env b r code proto tx :
  RuleEngine tx = RuleEngineOff ->
  ProcessRequestHeaders w tx = Ok (None, tx) /\
  WriteRequestBody fs processors env w b tx = Ok ((None, 0, None), tx) /\
  ReadRequestBodyFrom fs processors env w r tx = Ok ((None, 0, None), tx) /\
  ProcessRequestBody fs processors w tx = Ok ((None, None), tx) /\
  ProcessResponseHeaders w code proto tx = Ok (None, tx) /\
  WriteResponseBody fs processors env w b tx = Ok ((None, 0, None), tx) /\
  ReadResponseBodyFrom fs processors env w r tx = Ok ((None, 0, None), tx) /\
  ProcessResponseBody fs processors w tx = Ok ((None, None), tx) /\
  ProcessLogging w tx = Ok (audit_relevant w tx, tx).
Proof.
  intros E. unfold ProcessRequestHeaders, WriteRequestBody, ReadRequestBodyFrom,
    ProcessRequestBody, ProcessResponseHeaders, WriteResponseBody, ReadResponseBodyFrom,
    ProcessResponseBody, ProcessLogging, bind, gets. cbn [obind fst snd].
  rewrite !bool_decide_eq_true_2 by done. done.
Qed.

(** A transaction ready to take [n] more bytes of request body before its
    limit; the buffer may not be configured below the limit. *)
Record accepts_request (tx : Transaction) : Prop := {
  acc_engine : RuleEngine tx <> RuleEngineOff;
  acc_access : RequestBodyAccess tx = true;
  acc_inv : Buf_inv (requestBodyBuffer tx);
  acc_limit : zlen (contents (requestBodyBuffer tx)) < RequestBodyLimit tx
              <= Limit (options (requestBodyBuffer tx));
}.

Lemma accepts_tests tx :
  accepts_request tx ->
  bool_decide (RuleEngine tx = RuleEngineOff) = false /\
  negb (RequestBodyAccess tx) = false /\
  (RequestBodyLimit tx =? length_ (requestBodyBuffer tx)) = false /\
  length_ (requestBodyBuffer tx) = zlen (contents (requestBodyBuffer tx)) /\
  RequestBodyLimit tx <= maxInt64.
Proof.
  intros [He Ha Hi Hl]. pose proof (inv_options _ Hi). pose proof (inv_length _ Hi).
  rewrite bool_decide_eq_false_2 by done. rewrite Ha. split_and!; try done; lia.
Qed.

(** The tests of [WriteRequestBody] and [ReadRequestBodyFrom] for overflow. *)
Lemma overflow_tests tx n :
  accepts_request tx -> 0 <= n ->
  zlen (contents (requestBodyBuffer tx)) + n < maxInt64 ->
  (maxInt64 - n <=? length_ (requestBodyBuffer tx)) = false /\
  wrap64 (length_ (requestBodyBuffer tx) + n) =
    zlen (contents (requestBodyBuffer tx)) + n /\
  wrap64 (RequestBodyLimit tx - length_ (requestBodyBuffer tx)) =
    RequestBodyLimit tx - zlen (contents (requestBodyBuffer tx)).
Proof.
  intros Ha Hn Hlt. destruct (accepts_tests tx Ha) as (_ & _ & _ & El & Hm).
  pose proof (zlen_nonneg (contents (requestBodyBuffer tx))). destruct Ha as [_ _ _ ?].
  rewrite El. split_and!; [lia|apply wrap64_id; unfold in_int64, maxInt64 in *; lia..].
Qed.

(** Below the limit [WriteRequestBody] appends all its bytes to the body,
    reports how many they are and whatever interruption there was, and
    changes nothing else in the transaction. *)
Theorem WriteRequestBody_below_limit b tx :
  accepts_request tx ->
  zlen (contents (requestBodyBuffer tx)) + zlen b < RequestBodyLimit tx ->
  exists br', WriteRequestBody true processors os_ok w b tx =
      Ok ((interruption tx, zlen b, None), tx <| requestBodyBuffer := br' |>) /\
    contents br' = contents (requestBodyBuffer tx) ++ b /\ Buf_inv br'.
Proof.
  intros Ha Hlt. pose proof (accepts_tests tx Ha) as (E1 & E2 & E3 & El & Hm).
  pose proof (zlen_nonneg b).
  destruct (overflow_tests tx (zlen b) Ha) as (E4 & E5 & _); [lia..|].
  destruct (Write_fits (requestBodyBuffer tx) b) as (br' & Ew & Hi & _ & Hc);
    [by apply acc_inv|pose proof (acc_limit _ Ha); lia|].
  exists br'. split; [|done]. unfold WriteRequestBody, bind, gets. cbn [obind fst snd].
  rewrite E1, E2, E3, E4, E5. rewrite (proj2 (Z.leb_gt _ _)) by lia. cbn [andb].
  unfold slice_to. rewrite (proj2 (Z.ltb_ge (zlen b) 0)), (proj2 (Z.ltb_ge (zlen b) (zlen b))) by lia.
  cbn [orb ret obind fst snd]. unfold write_request.
  replace (take (Z.to_nat (zlen b)) b) with b by (unfold zlen; rewrite take_ge; [done|lia]).
  rewrite Ew. done.
Qed.

(** With the action Reject, bytes that reach the limit interrupt the
    transaction with a deny and status 413, mark the inbound data error, and
    none of them is buffered. *)
Theorem WriteRequestBody_reject b tx :
  accepts_request tx -> RequestBodyLimitAction w = BodyLimitActionReject ->
  RequestBodyLimit tx <= zlen (contents (requestBodyBuffer tx)) + zlen b < maxInt64 ->
  exists tx', WriteRequestBody true processors os_ok w b tx =
      Ok ((Some (mkInterruption 0 (lit "deny") 413 []), 0, None), tx') /\
    interruption tx' = Some (mkInterruption 0 (lit "deny") 413 []) /\
    requestBodyBuffer tx' = requestBodyBuffer tx /\ lastPhase tx' = lastPhase tx /\
    single_get variables.InboundDataError (variables_ tx') = lit "1".
Proof.
  intros Ha Hr Hlt. pose proof (accepts_tests tx Ha) as (E1 & E2 & E3 & _ & _).
  pose proof (zlen_nonneg b).
  destruct (overflow_tests tx (zlen b) Ha) as (E4 & E5 & _); [lia..|].
  exists (tx <| variables_ := single_set variables.InboundDataError (lit "1") (variables_ tx) |>
             <| interruption := Some (mkInterruption 0 (lit "deny") 413 []) |>).
  split; [|split_and!; reflexivity].
  unfold WriteRequestBody, bind, gets. cbn [obind fst snd].
  rewrite E1, E2, E3, E4, E5. rewrite (proj2 (Z.leb_le _ _)) by lia. rewrite Hr.
  rewrite bool_decide_eq_true_2 by done. reflexivity.
Qed.


(** A shorter body does not count as full. *)
Lemma not_full tx br' :
  Buf_inv br' -> zlen (contents br') < RequestBodyLimit tx ->
  (length_ (requestBodyBuffer (tx <| requestBodyBuffer := br' |>)) =?
   RequestBodyLimit (tx <| requestBodyBuffer := br' |>)) = false.
Proof.
  intros Hi Hl. apply Z.eqb_neq.
  change (length_ br' <> RequestBodyLimit tx). rewrite (inv_length _ Hi). lia.
Qed.

(** Copying takes the beginning of what the reader has. *)
Lemma CopyN_takes r tx n :
  accepts_request tx -> rd_fails r = false ->
  zlen (contents (requestBodyBuffer tx)) + n <= RequestBodyLimit tx ->
  let d := take (Z.to_nat n) (concat (rd_chunks r)) in
  exists br', CopyN (write_request true os_ok) r n tx =
      Ok ((zlen d, None), tx <| requestBodyBuffer := br' |>) /\ Buf_inv br' /\
    contents br' = contents (requestBodyBuffer tx) ++ d.
Proof.
  intros Ha Hf Hn d. pose proof (acc_limit _ Ha) as Hlim. unfold CopyN. rewrite Hf.
  destruct (copyN_go_spec requestBodyBuffer (fun b tx => tx <| requestBodyBuffer := b |>)
    (write_request true os_ok) ltac:(done) ltac:(done) ltac:(by intros []) ltac:(done)
    (copyN_fuel r) copy_size (rd_chunks r) n 0 tx) as (br' & E & Hi' & _ & Hc').
  - by apply acc_inv.
  - unfold copy_size. lia.
  - lia.
  - unfold copyN_fuel. lia.
  - exists br'. split; [|done]. unfold bind. rewrite E. cbn [obind fst snd ret].
    rewrite Z.add_0_l. fold d. destruct (Z.eqb_spec (zlen d) n) as [->|]; done.
Qed.

(** Copying a reader whose content fits copies all of it. *)
Lemma CopyN_fits r tx n :
  accepts_request tx -> rd_fails r = false -> zlen (concat (rd_chunks r)) <= n ->
  zlen (contents (requestBodyBuffer tx)) + n <= RequestBodyLimit tx ->
  exists br', CopyN (write_request true os_ok) r n tx =
      Ok ((zlen (concat (rd_chunks r)), None), tx <| requestBodyBuffer := br' |>) /\ Buf_inv br' /\
    contents br' = contents (requestBodyBuffer tx) ++ concat (rd_chunks r).
Proof.
  intros Ha Hf Hn Hn'. pose proof (CopyN_takes r tx n Ha Hf Hn') as Ht.
  by rewrite take_ge in Ht by (unfold zlen in Hn; lia).
Qed.

End bodies.

(** ** What the rules see of a request body *)

Section visible.
Context `{GoUnicode} `{MapOrder} `{StringData} `{LocalZone} `{BufErrText}.
Context (processors : gostring -> option BodyProcessor).

(** A fresh reader of a well-formed request buffer yields the whole body. *)
Lemma request_reader_all tx :
  Buf_inv (requestBodyBuffer tx) ->
  exists i tx1 br, open_request_reader tx = Ok (i, tx1) /\
    tx1 = tx <| requestBodyBuffer := fst (Reader (requestBodyBuffer tx)) |> /\
    forall tx2, requestBodyBuffer tx2 = requestBodyBuffer tx1 ->
      request_reader true i tx2 =
        Ok ((contents (requestBodyBuffer tx), None), tx2 <| requestBodyBuffer := br |>) /\
      Buf_inv br /\ contents br = contents (requestBodyBuffer tx).
Proof.
  intros Hi. set (b := requestBodyBuffer tx) in *.
  destruct (fresh_reader_all b Hi) as (br & E & Hbr & Hc).
  exists (length (readers b)), (tx <| requestBodyBuffer := fst (Reader b) |>), br.
  split_and!; [done..|]. intros tx2 E2. unfold request_reader. rewrite E2.
  change (requestBodyBuffer (tx <| requestBodyBuffer := _ |>)) with (fst (Reader b)).
  change (contents (fst (Reader b))) with (contents b). by rewrite E.
Qed.

(** The state in which [ProcessRequestBody] runs the processor named by the
    REQBODY_PROCESSOR variable. *)
Record processes_request (tx : Transaction) (name : gostring) (bp : BodyProcessor) : Prop := {
  pr_access : RequestBodyAccess tx = true;
  pr_inv : Buf_inv (requestBodyBuffer tx);
  pr_nonempty : contents (requestBodyBuffer tx) <> [];
  pr_name : Strings.ToLower (single_get variables.ReqbodyProcessor (variables_ tx)) = name;
  pr_named : name <> [];
  pr_registered : GetBodyProcessor processors name = Some bp;
}.

Lemma run_request_processor_eq tx name bp :
  processes_request tx name bp -> ForceRequestBodyVariable tx = false ->
  exists rd mime tx1 br,
    (forall tx2, requestBodyBuffer tx2 = requestBodyBuffer tx1 ->
      rd tx2 = Ok ((contents (requestBodyBuffer tx), None), tx2 <| requestBodyBuffer := br |>)) /\
    Buf_inv br /\ contents br = contents (requestBodyBuffer tx) /\
    variables_ tx1 = variables_ tx /\
    run_request_processor true processors tx =
      (let! err := ProcessRequest bp rd mime in
       match err with Some e => generateRequestBodyError e | None => ret tt end) tx1.
Proof.
  intros [Hacc Hi Hne Hname Hnn Hreg] Hforce.
  destruct (request_reader_all tx Hi) as (i & tx1 & br & Eo & E1 & Hrd).
  destruct (Hrd tx1 eq_refl) as (_ & Hbr & Hcb).
  eexists (request_reader true i), _, tx1, br.
  split; [intros; by apply Hrd|]. split_and!; [done|done|by rewrite E1|].
  unfold run_request_processor. unfold bind at 1. unfold gets at 1. cbn [obind fst snd].
  rewrite Hacc. cbn [negb orb]. rewrite (inv_length _ Hi).
  replace (zlen _ =? 0) with false.
  2:{ symmetry. apply Z.eqb_neq. unfold zlen.
      destruct (contents (requestBodyBuffer tx)); [done|simpl; lia]. }
  unfold bind at 1. rewrite Eo. cbn [obind fst snd]. rewrite Hforce.
  unfold getSingle, gets. unfold bind at 1 2. cbn [obind fst snd ret].
  assert (variables_ tx1 = variables_ tx) as -> by (by rewrite E1). rewrite Hname.
  rewrite bool_decide_eq_false_2 by done. rewrite Hreg. reflexivity.
Qed.

(** A request body that the RAW processor handles reaches the rules
    whole: the variable REQUEST_BODY is exactly the bytes that were fed, in
    memory or in the temporary file, and REQUEST_BODY_LENGTH their number. *)
Theorem raw_body_reaches_rules tx name :
  processes_request tx name raw -> ForceRequestBodyVariable tx = false ->
  exists tx', run_request_processor true processors tx = Ok (tt, tx') /\
    single_get variables.RequestBody (variables_ tx') = contents (requestBodyBuffer tx) /\
    single_get variables.RequestBodyLength (variables_ tx') =
      Strconv.Itoa (zlen (contents (requestBodyBuffer tx))) /\
    contents (requestBodyBuffer tx') = contents (requestBodyBuffer tx).
Proof.
  intros Hp Hf. destruct (run_request_processor_eq tx name raw Hp Hf)
    as (rd & mime & tx1 & br & Hrd & _ & Hcb & Hv & ->).
  eexists. split.
  { unfold bind at 1. simpl. unfold raw_ProcessRequest, with_body. unfold bind at 1.
    rewrite Hrd by done. reflexivity. }
  split_and!; [reflexivity..|exact Hcb].
Qed.

(** Setting several entries of one map. *)
Lemma forM_updMap {A} (l : list A) v (f : A -> Map -> Map) tx :
  exists vs, forM l (fun x => updMap v (f x)) tx = Ok (tt, tx <| variables_ := vs |>) /\
    singles vs = singles (variables_ tx) /\
    maps vs v = foldl (fun c x => f x c) (maps (variables_ tx) v) l.
Proof.
  revert tx. induction l as [|x l IH]; intros tx; simpl.
  - exists (variables_ tx). by destruct tx.
  - destruct (IH (tx <| variables_ := map_upd v (f x) (variables_ tx) |>)) as (vs & E & Hs & Hm).
    exists vs. unfold bind at 1. cbn [updMap modify obind fst snd]. rewrite E.
    split_and!; [done|done|]. rewrite Hm. simpl. by rewrite fn_lookup_insert.
Qed.

(** The slot of a name holds the values of the last entry for that slot. *)
Lemma foldl_Set_Get (l : list (gostring * list gostring)) c k :
  Map_Get (foldl (fun c kv => Map_Set c (fst kv) (snd kv)) c l) k = Map_Get c k \/
  exists k' vs, (k', vs) ∈ l /\ norm c k' = norm c k /\
    Map_Get (foldl (fun c kv => Map_Set c (fst kv) (snd kv)) c l) k = vs.
Proof.
  revert c. induction l as [|[k1 vs1] l IH]; intros c; simpl; [by left|].
  destruct (IH (Map_Set c k1 vs1)) as [E|(k' & vs & Hin & Hn & E)].
  - rewrite E, Map_Get_Set. case_decide as Hn; [right|by left].
    exists k1, vs1. split_and!; [by left|done|done].
  - right. exists k', vs. split_and!; [by right|exact Hn|done].
Qed.

Lemma foldl_Set_hit (l : list (gostring * list gostring)) c k k1 vs1 :
  (k1, vs1) ∈ l -> norm c k1 = norm c k ->
  exists k' vs, (k', vs) ∈ l /\ norm c k' = norm c k /\
    Map_Get (foldl (fun c kv => Map_Set c (fst kv) (snd kv)) c l) k = vs.
Proof.
  revert c. induction l as [|[k2 vs2] l IH]; intros c Hin Hn; [by apply not_elem_of_nil in Hin|].
  simpl. apply elem_of_cons in Hin as [[= <- <-]|Hin].
  - destruct (foldl_Set_Get l (Map_Set c k1 vs1) k) as [E|(k' & vs & Hin & Hn' & E)].
    + exists k1, vs1. split_and!; [by left|done|]. rewrite E, Map_Get_Set.
      by rewrite decide_True.
    + exists k', vs. split_and!; [by right|exact Hn'|done].
  - destruct (IH (Map_Set c k2 vs2) Hin Hn) as (k' & vs & ? & ? & ?).
    exists k', vs. split_and!; [by right|done..].
Qed.

(** C20: An urlencoded request body reaches the rules whole, as REQUEST_BODY,
    and parsed: for every name in the body, ARGS_POST has exactly the values
    that the body gives to one name with the same spelling up to the
    collection's case rule.  So the values are the name's own when no other
    name of the body differs from it in case only, and when one does, the
    values of one of the two are lost, whatever the order of enumeration. *)
Theorem urlencoded_body_reaches_rules tx name :
  processes_request tx name urlencoded -> ForceRequestBodyVariable tx = false ->
  let query := ParseQuery (contents (requestBodyBuffer tx)) "&"%byte in
  let same k k' := norm (maps (variables_ tx) variables.ArgsPost) k' =
                   norm (maps (variables_ tx) variables.ArgsPost) k in
  exists tx', run_request_processor true processors tx = Ok (tt, tx') /\
    single_get variables.RequestBody (variables_ tx') = contents (requestBodyBuffer tx) /\
    forall k vs, query !! k = Some vs ->
      (exists k' vs', query !! k' = Some vs' /\ same k k' /\
         Map_Get (maps (variables_ tx') variables.ArgsPost) k = vs') /\
      ((forall k', is_Some (query !! k') -> same k k' -> k' = k) ->
       Map_Get (maps (variables_ tx') variables.ArgsPost) k = vs).
Proof.
  intros Hp Hf query same. destruct (run_request_processor_eq tx name urlencoded Hp Hf)
    as (rd & mime & tx1 & br & Hrd & _ & _ & Hv & ->).
  set (tx2 := tx1 <| requestBodyBuffer := br |>).
  set (l := range_order (tick tx2) variables.ArgsPost query).
  destruct (forM_updMap l variables.ArgsPost (fun kv c => Map_Set c (fst kv) (snd kv))
    (tx2 <| tick := S (tick tx2) |>)) as (vs0 & E & Hs0 & Hm0).
  eexists. split.
  { unfold bind at 1. simpl. unfold urlencoded_ProcessRequest, with_body. unfold bind at 1.
    rewrite Hrd by done. cbn [obind fst snd]. unfold bind at 1, range_set. unfold bind at 1.
    unfold range_entries. cbn [obind fst snd]. fold tx2. fold query. fold l. rewrite E.
    reflexivity. }
  split; [reflexivity|]. intros k vs Hk.
  assert (forall k0 v0, (k0, v0) ∈ l -> query !! k0 = Some v0) as Hl.
  { intros k0 v0 Hin. apply elem_of_map_to_list. by rewrite <- range_order_perm. }
  assert (forall k0 v0, query !! k0 = Some v0 -> (k0, v0) ∈ l) as Hl'.
  { intros k0 v0 Hin. unfold l. rewrite range_order_perm. by apply elem_of_map_to_list. }
  simpl maps. rewrite Hm0. simpl. rewrite Hv.
  destruct (foldl_Set_hit l (maps (variables_ tx) variables.ArgsPost) k k vs)
    as (k' & vs' & Hin & Hn & ->); [by apply Hl'|done|].
  split; [exists k', vs'; split_and!; [by apply Hl|done|done]|].
  intros Huniq. rewrite (Huniq k') in Hin; [|by eexists; apply Hl|done].
  apply Hl in Hin. congruence.
Qed.
End visible.

(** ** Recycling of transactions *)

(** Computations that never panic. *)
Definition total {A} (m : M A) : Prop := forall tx, exists a tx', m tx = Ok (a, tx').

Lemma total_bind {A B} (m : M A) (k : A -> M B) :
  total m -> (forall a, total (k a)) -> total (bind m k).
Proof.
  intros Hm Hk tx. destruct (Hm tx) as (a & tx1 & E). destruct (Hk a tx1) as (b & tx2 & E').
  exists b, tx2. unfold bind. by rewrite E.
Qed.

Lemma total_forM {A} (l : list A) body : (forall x, total (body x)) -> total (forM l body).
Proof.
  intros Hb. induction l as [|x l IH]; simpl; [by intros tx; eexists _, _|].
  by apply total_bind.
Qed.

Ltac total_auto :=
  repeat first
    [ apply total_bind; [|intros ?]
    | apply total_forM; intros ?
    | match goal with |- total (match ?x with _ => _ end) => destruct x end
    | by intros ?; eexists _, _ ].

Section recycling.
Context `{GoUnicode} `{MapOrder} `{StringData} `{LocalZone}.

Lemma set_defaults_total : total set_defaults.
Proof.
  unfold set_defaults, setTimeVariables, setSingle, updMap, modify, gets. total_auto.
Qed.

Lemma set_defaults_only : keeps only_variables set_defaults.
Proof.
  unfold set_defaults, setTimeVariables. repeat keeps_step; apply setSingle_only || apply updMap_only.
Qed.

(** The state that [newTransaction] sets before the variables. *)
Record initialised (w : WAF) (ID : gostring) (now : Z) (tx : Transaction) : Prop := {
  init_id : id tx = ID /\ Timestamp tx = now;
  init_matches : matchedRules tx = [] /\ interruption tx = None /\ audit tx = false;
  init_flow : SkipAfter tx = [] /\ Skip tx = 0 /\ AllowType_ tx = AllowTypeUnset /\
              Capture tx = false /\ lastPhase tx = 0;
  init_exclusions : ruleRemoveByID tx = [] /\ ruleRemoveTargetByID tx = ∅;
  init_engine : RuleEngine tx = w_RuleEngine w;
  init_request : RequestBodyAccess tx = w_RequestBodyAccess w /\
                 RequestBodyLimit tx = w_RequestBodyLimit w /\
                 ForceRequestBodyVariable tx = false;
  init_response : ResponseBodyAccess tx = w_ResponseBodyAccess w /\
                  ResponseBodyLimit tx = w_ResponseBodyLimit w;
  init_audit : AuditEngine tx = w_AuditEngine w /\ AuditLogParts tx = w_AuditLogParts w /\
               AuditLogFormat tx = w_AuditLogFormat w;
}.

Lemma newTransaction_spec cs w ID now pooled :
  exists tx', newTransaction cs w ID now pooled = Ok tx' /\ initialised w ID now tx' /\
    let tx0 := default (zero_transaction cs w) pooled in
    requestBodyBuffer tx' = requestBodyBuffer tx0 /\
    responseBodyBuffer tx' = responseBodyBuffer tx0 /\
    ForceResponseBodyVariable tx' = ForceResponseBodyVariable tx0.
Proof.
  unfold newTransaction. cbv zeta.
  match goal with |- context [set_defaults ?t] => set (tx1 := t) end.
  destruct (set_defaults_total tx1) as ([] & tx' & E). exists tx'. rewrite E.
  destruct (set_defaults_only _ _ _ E) as (vs & n & ->).
  split; [reflexivity|].
  split; [split; split_and?; reflexivity|cbv zeta; split_and!; reflexivity].
Qed.

(** C21: A transaction taken from the pool starts afresh: whatever the recycled
    transaction went through, the new one has no matches, interruption,
    exclusions or pending skips, is before the first phase, and takes its
    engine, limits and audit settings from the WAF.  Creation never fails. *)
Theorem recycled_transaction_is_fresh cs w ID now pooled :
  exists tx', newTransaction cs w ID now pooled = Ok tx' /\ initialised w ID now tx'.
Proof.
  destruct (newTransaction_spec cs w ID now pooled) as (tx' & E & Hi & _).
  exists tx'. split; [exact E|exact Hi].
Qed.

(** The mark that [ctl:forceResponseBodyVariable=on] leaves is not part of
    what a recycled transaction resets: the next transaction, whose rules
    never asked for it, treats its response body as processable whatever
    content type the response has. *)
Theorem forced_response_body_leaks cs w ID now tx :
  ForceResponseBodyVariable tx = true ->
  exists tx', newTransaction cs w ID now (Some tx) = Ok tx' /\
    ForceResponseBodyVariable tx' = true /\ IsResponseBodyProcessable w tx' = true.
Proof.
  intros Hf. destruct (newTransaction_spec cs w ID now (Some tx)) as (tx' & E & _ & _ & _ & E').
  change (ForceResponseBodyVariable tx' = ForceResponseBodyVariable tx) in E'. rewrite Hf in E'.
  exists tx'. unfold IsResponseBodyProcessable. rewrite E'. split_and!; [exact E|reflexivity..].
Qed.

(** What the iterator resets. *)
Lemma variables_reset_single v l vs :
  single_get v (foldl reset_one vs l) =
  if bool_decide (RSingle v ∈ l) then [] else single_get v vs.
Proof.
  revert vs. induction l as [|r l IH]; intros vs; simpl; [done|].
  rewrite IH. destruct (decide (r = RSingle v)) as [->|Hr].
  - rewrite (bool_decide_eq_true_2 (RSingle v ∈ RSingle v :: l)) by left.
    case_bool_decide; [done|]. unfold single_get. simpl. by rewrite fn_lookup_insert.
  - rewrite (bool_decide_ext (RSingle v ∈ r :: l) (RSingle v ∈ l)) by set_solver.
    case_bool_decide; [done|]. unfold single_get. destruct r as [u|u|]; simpl; [|done..].
    rewrite fn_lookup_insert_ne; [done|congruence].
Qed.

Lemma variables_reset_map v l vs :
  RMap v ∈ l -> data (maps (foldl reset_one vs l) v) = ∅.
Proof.
  assert (forall l vs, data (maps vs v) = ∅ -> data (maps (foldl reset_one vs l) v) = ∅) as Hkeep.
  { clear. intros l. induction l as [|r l IH]; intros vs Hd; simpl; [done|]. apply IH.
    destruct r as [u|u|]; simpl; [done| |done].
    destruct (decide (u = v)) as [->|]; [by rewrite fn_lookup_insert|].
    by rewrite fn_lookup_insert_ne. }
  revert vs. induction l as [|r l IH]; intros vs Hin; [by apply not_elem_of_nil in Hin|].
  simpl. apply elem_of_cons in Hin as [<-|Hin]; [|by apply IH].
  apply Hkeep. simpl. by rewrite fn_lookup_insert.
Qed.

(** Closing a transaction empties both body buffers, detaches the readers
    that were handed out, and clears every variable the iterator visits; the
    error variables of the response body processor are not among them and
    keep their values for the next transaction. *)
Theorem Close_resets env1 env2 remove tx :
  exists n tx', Close true env1 env2 remove tx = Ok (n, tx') /\
    contents (requestBodyBuffer tx') = [] /\ contents (responseBodyBuffer tx') = [] /\
    Forall (fun r => attached r = false)
      (readers (requestBodyBuffer tx') ++ readers (responseBodyBuffer tx')) /\
    Forall (fun s => match s with
                     | RSingle v => single_get v (variables_ tx') = []
                     | RMap v => data (maps (variables_ tx') v) = ∅
                     | RNone => True
                     end) (snd <$> All) /\
    single_get variables.ResBodyError (variables_ tx') =
      single_get variables.ResBodyError (variables_ tx) /\
    single_get variables.ResBodyProcessorErrorMsg (variables_ tx') =
      single_get variables.ResBodyProcessorErrorMsg (variables_ tx).
Proof.
  unfold Close.
  destruct (Reset true env1 (requestBodyBuffer tx)) as [b1 e1] eqn:E1.
  destruct (Reset true env2 (responseBodyBuffer tx)) as [b2 e2] eqn:E2.
  destruct (Reset_spec _ _ _ _ E1) as (C1 & _ & _ & F1).
  destruct (Reset_spec _ _ _ _ E2) as (C2 & _ & _ & F2).
  eexists _, _. split; [reflexivity|].
  change (variables_ (_ <| responseBodyBuffer := _ |>)) with (variables_reset (variables_ tx)).
  change (requestBodyBuffer (_ <| responseBodyBuffer := _ |>)) with b1.
  change (responseBodyBuffer (_ <| responseBodyBuffer := _ |>)) with b2.
  split_and!; [done|done|by apply Forall_app| | |].
  - apply Forall_forall. intros s Hs%list_elem_of_In. unfold variables_reset.
    destruct s as [v|v|]; [|by apply variables_reset_map|done].
    rewrite variables_reset_single. by rewrite bool_decide_eq_true_2.
  - unfold variables_reset. rewrite variables_reset_single.
    rewrite bool_decide_eq_false_2; [done|]. by apply (bool_decide_unpack _).
  - unfold variables_reset. rewrite variables_reset_single.
    rewrite bool_decide_eq_false_2; [done|]. by apply (bool_decide_unpack _).
Qed.
End recycling.

(** ** Witnesses *)

Module witnesses.
Import demo.

Definition parse_uri (uri : gostring) : URL + gostring := inl (mkURL [] uri uri).

Lemma processors_ok name bp : demo.processors name = Some bp -> bp_ok bp.
Proof.
  unfold demo.processors. repeat case_bool_decide; intros [= <-];
    [apply urlencoded_ok|apply raw_ok].
Qed.

(** After the request headers of a request with the argument "evil". *)
Definition tx_headers : Transaction := final (ProcessRequestHeaders waf) tx_evil.

Lemma headers_step : tx_step parse_uri true demo.processors waf tx_evil tx_headers.
Proof.
  apply (step_call _ _ _ _ _ _ CallProcessRequestHeaders). cbn [exec]. unfold discard, bind.
  unfold tx_headers. rewrite (final_ok (ProcessRequestHeaders waf) tx_evil None);
    [reflexivity|vm_compute; reflexivity].
Qed.

Lemma calls_follow_phase_order_witness :
  (lastPhase tx_headers = lastPhase tx_evil /\ matchedRules tx_headers = matchedRules tx_evil \/
   phase_step (lastPhase tx_evil) (lastPhase tx_headers)) /\
  (is_Some (interruption tx_evil) -> is_Some (interruption tx_headers)) /\
  (exists l, matchedRules tx_headers = matchedRules tx_evil ++ l).
Proof.
  exact (calls_follow_phase_order parse_uri true demo.processors waf processors_ok waf_ok
    tx_evil tx_headers headers_step).
Defined.

(** After the request body phase, which denies the request. *)
Definition tx_denied : Transaction := final (ProcessRequestBody true demo.processors waf) tx_headers.

Lemma denied_step : tx_step parse_uri true demo.processors waf tx_headers tx_denied.
Proof.
  apply (step_call _ _ _ _ _ _ CallProcessRequestBody). cbn [exec]. unfold discard, bind.
  unfold tx_denied.
  rewrite (final_ok (ProcessRequestBody true demo.processors waf) tx_headers
    (Some (mkInterruption 100 (lit "deny") 403 []), None)); [reflexivity|vm_compute; reflexivity].
Qed.

Lemma reachable_states_ordered_witness :
  0 <= lastPhase tx_headers <= lastPhase tx_denied /\ lastPhase tx_denied <= 5 /\
  (is_Some (interruption tx_headers) -> is_Some (interruption tx_denied)).
Proof.
  apply (reachable_states_ordered parse_uri true demo.processors waf processors_ok waf_ok tx_evil);
    [vm_compute; reflexivity|apply rtc_once, headers_step|apply rtc_once, denied_step].
Defined.

Lemma engine_off_is_inert_witness :
  let tx := tx_evil <| RuleEngine := RuleEngineOff |> in
  ProcessRequestHeaders waf tx = Ok (None, tx).
Proof.
  exact (proj1 (engine_off_is_inert demo.processors waf true os_ok [] (mkIoReader None [] false)
    200 [] (tx_evil <| RuleEngine := RuleEngineOff |>) eq_refl)).
Defined.

Lemma tx0_accepts : accepts_request tx0.
Proof.
  split; [vm_compute; discriminate|vm_compute; reflexivity| |vm_compute; split; [reflexivity|discriminate]].
  apply Buf_inv_new; vm_compute; split_and?; discriminate.
Qed.

Lemma WriteRequestBody_below_limit_witness :
  exists br', WriteRequestBody true demo.processors os_ok waf (lit "hello") tx0 =
      Ok ((interruption tx0, 5, None), tx0 <| requestBodyBuffer := br' |>) /\
    contents br' = contents (requestBodyBuffer tx0) ++ lit "hello" /\ Buf_inv br'.
Proof.
  apply (WriteRequestBody_below_limit demo.processors waf (lit "hello") tx0);
    [exact tx0_accepts|vm_compute; reflexivity].
Defined.

Lemma WriteRequestBody_reject_witness :
  exists tx', WriteRequestBody true demo.processors os_ok waf (lit "more than 16 bytes") tx0 =
      Ok ((Some (mkInterruption 0 (lit "deny") 413 []), 0, None), tx') /\
    interruption tx' = Some (mkInterruption 0 (lit "deny") 413 []) /\
    requestBodyBuffer tx' = requestBodyBuffer tx0 /\ lastPhase tx' = lastPhase tx0 /\
    single_get variables.InboundDataError (variables_ tx') = lit "1".
Proof.
  apply (WriteRequestBody_reject demo.processors waf (lit "more than 16 bytes") tx0);
    [exact tx0_accepts|reflexivity|vm_compute; split; [discriminate|reflexivity]].
Defined.

Definition waf_partial : WAF := waf <| RequestBodyLimitAction := BodyLimitActionProcessPartial |>.


Definition hello_reader : io_Reader := mkIoReader None [lit "he"; []; lit "llo"] false.


(** A buffered body for a processor; the buffer's memory is two bytes, so it is
    in the temporary file. *)
Definition file_buffer (s : gostring) : BodyBuffer :=
  mkBodyBuffer (mkBodyBufferOptions (lit "/tmp") 2 16) [] (Some (mkFile s (length s))) (zlen s) [].

Definition tx_body (processor s : gostring) : Transaction :=
  tx0 <| variables_ := single_set variables.ReqbodyProcessor processor (variables_ tx0) |>
      <| requestBodyBuffer := file_buffer s |>.

Lemma file_buffer_inv s : 2 < zlen s <= 16 -> Buf_inv (file_buffer s).
Proof.
  intros Hs. constructor; simpl; try done; [lia|].
  intros f [= <-]. simpl. split_and!; [done|done|lia].
Qed.

Lemma registered :
  GetBodyProcessor demo.processors (lit "raw") = Some raw /\
  GetBodyProcessor demo.processors (lit "urlencoded") = Some urlencoded.
Proof.
  unfold GetBodyProcessor, demo.processors.
  replace (Strings.ToLower (lit "raw")) with (lit "raw") by (vm_compute; reflexivity).
  replace (Strings.ToLower (lit "urlencoded")) with (lit "urlencoded") by (vm_compute; reflexivity).
  split; [rewrite bool_decide_eq_false_2 by discriminate|];
    rewrite bool_decide_eq_true_2 by reflexivity; reflexivity.
Qed.

Lemma raw_body_reaches_rules_witness :
  exists tx', run_request_processor true demo.processors (tx_body (lit "RAW") (lit "a=1&A=2")) =
      Ok (tt, tx') /\
    single_get variables.RequestBody (variables_ tx') = lit "a=1&A=2" /\
    single_get variables.RequestBodyLength (variables_ tx') = Strconv.Itoa 7 /\
    contents (requestBodyBuffer tx') = lit "a=1&A=2".
Proof.
  apply (raw_body_reaches_rules demo.processors (tx_body (lit "RAW") (lit "a=1&A=2")) (lit "raw"));
    [|reflexivity].
  split; [reflexivity|apply file_buffer_inv; vm_compute; split; [reflexivity|discriminate]
         |discriminate|vm_compute; reflexivity|discriminate|exact (proj1 registered)].
Defined.

(** Of the parameters "a" and "A" of the body only one reaches ARGS_POST. *)
Lemma urlencoded_body_reaches_rules_witness :
  let tx := tx_body (lit "URLENCODED") (lit "a=1&A=2") in
  exists tx', run_request_processor true demo.processors tx = Ok (tt, tx') /\
    single_get variables.RequestBody (variables_ tx') = lit "a=1&A=2" /\
    exists k' vs', ParseQuery (lit "a=1&A=2") "&"%byte !! k' = Some vs' /\
      Map_Get (maps (variables_ tx') variables.ArgsPost) (lit "a") = vs'.
Proof.
  destruct (urlencoded_body_reaches_rules demo.processors
    (tx_body (lit "URLENCODED") (lit "a=1&A=2")) (lit "urlencoded")) as (tx' & E & Hb & Hk).
  - split; [reflexivity|apply file_buffer_inv; vm_compute; split; [reflexivity|discriminate]
         |discriminate|vm_compute; reflexivity|discriminate|exact (proj2 registered)].
  - reflexivity.
  - exists tx'. split_and!; [exact E|exact Hb|].
    destruct (Hk (lit "a") [lit "1"]) as [(k' & vs' & Hq & _ & Hg) _];
      [vm_compute; reflexivity|exists k', vs'; split; [exact Hq|exact Hg]].
Defined.

Lemma forced_response_body_leaks_witness :
  let tx := tx0 <| ForceResponseBodyVariable := true |> in
  exists tx', newTransaction false waf (lit "tx2") 1700000001000000000 (Some tx) = Ok tx' /\
    ForceResponseBodyVariable tx' = true /\ IsResponseBodyProcessable waf tx' = true.
Proof.
  apply (forced_response_body_leaks false waf (lit "tx2") 1700000001000000000
    (tx0 <| ForceResponseBodyVariable := true |>)). reflexivity.
Defined.

End witnesses.
