(* ===== verification/StoreProps.v ===== *)
(** * Properties of the stores: body buffers and collections *)

From stdpp Require Import options.
From Stdlib Require Import Strings.Byte.
From S2P Require Import Prelude GoLib HttpParse Variables Types Collections BodyBuffer.
From S2P Require Import Transaction Rule TransactionOps BodyFacts Examples.
Import types.

(** ** Body buffers *)

Section buffers.
(** The outcomes of a sequence of writes and the final buffer. *)
Fixpoint writes (br : BodyBuffer) (ds : list gostring) : list (Z * option BufErr) * BodyBuffer :=
  match ds with
  | [] => ([], br)
  | d :: ds =>
    let '(br', n, err) := Write true os_ok br d in
    let '(rs, br'') := writes br' ds in ((n, err) :: rs, br'')
  end.

(** The same sequence on the specification: a byte sequence with a bound. *)
Fixpoint spec_writes (lim : Z) (c : gostring) (ds : list gostring)
  : list (Z * option BufErr) * gostring :=
  match ds with
  | [] => ([], c)
  | d :: ds =>
    let '(c', n, err) := spec.write lim c d in
    let '(rs, c'') := spec_writes lim c' ds in ((n, err) :: rs, c'')
  end.


(** What was written is what is read: after chunks that fit the limit, a
    reader obtained from the buffer yields their concatenation, for every
    size of the reads, in finitely many of them. *)
Theorem buffer_roundtrip o ds n :
  0 <= Limit o <= maxInt64 -> 0 <= MemoryLimit o -> zlen (concat ds) <= Limit o ->
  (0 < n)%nat ->
  let br := snd (writes (NewBodyBuffer o) ds) in
  let '(br1, i) := Reader br in
  exists br2, ReadAll true (S (length (contents br))) br1 i n [] = Ok (br2, concat ds, None).
Proof.
  intros Hl Hm Hfit Hn.
  assert (forall br, Buf_inv br -> zlen (contents br) + zlen (concat ds) <= Limit (options br) ->
    Buf_inv (snd (writes br ds)) /\ contents (snd (writes br ds)) = contents br ++ concat ds)
    as Hw.
  { clear. induction ds as [|d ds IH]; intros br Hi Hb; simpl; [by rewrite app_nil_r|].
    simpl in Hb. rewrite zlen_app in Hb. pose proof (zlen_nonneg (concat ds)).
    destruct (Write_fits br d) as (br1 & E & Hi1 & Ho & Hc); [done|lia|]. rewrite E.
    destruct (IH br1) as [Hi2 Hc2]; [done|rewrite Ho, Hc, zlen_app; lia|].
    destruct (writes br1 ds) as [rs br2]. simpl in *. by rewrite Hc2, Hc, app_assoc. }
  destruct (Hw (NewBodyBuffer o)) as [Hi Hc]; [by apply Buf_inv_new|done|].
  cbv zeta. set (br := snd (writes _ ds)) in *. unfold Reader.
  destruct (ReadAll_from (fst (Reader br)) (length (readers br)) n (mkReader 0 true) []
    (S (length (contents br)))) as (br2 & E & _).
  - destruct Hi; by constructor.
  - simpl. by apply list_lookup_middle.
  - done.
  - simpl. lia.
  - done.
  - change (contents (fst (Reader br))) with (contents br). cbn [pos]. lia.
  - exists br2. change (contents (fst (Reader br))) with (contents br) in E.
    cbn [pos drop app] in E. etrans; [exact E|]. by rewrite Hc.
Qed.
End buffers.

(** ** Collections *)

Section collections.
Context `{GoUnicode} `{MapOrder}.

(** The operations that change a map. *)
Inductive map_op :=
| OpAdd (k v : gostring)
| OpSet (k : gostring) (vs : list gostring)
| OpSetIndex (k : gostring) (i : nat) (v : gostring)
| OpRemove (k : gostring)
| OpReset.

Definition apply_op (c : Map) (o : map_op) : Map :=
  match o with
  | OpAdd k v => Map_Add c k v
  | OpSet k vs => Map_Set c k vs
  | OpSetIndex k i v => Map_SetIndex c k i v
  | OpRemove k => Map_Remove c k
  | OpReset => Map_Reset c
  end.

(** In every map that operations make from a new one, each stored pair is
    kept under the slot of its own name, whatever the case rule, so selecting
    by a name returns only pairs with that name and all of them: the matches
    are the slot's, and no other pair of the map has the name. *)
Theorem collections_keep_names_apart ops v cs t key :
  key <> [] ->
  let c := foldl apply_op (if cs : bool then NewCaseSensitiveKeyMap v else NewMap v) ops in
  Forall (fun m => norm c (Key_ m) = norm c key) (Map_FindString t c key) /\
  forall d, d ∈ entries c -> norm c (kv_key d) = norm c key ->
    newMatchData (variable c) (kv_key d) (kv_value d) ∈ Map_FindString t c key.
Proof.
  intros Hk c.
  assert (Map_wf c) as Hwf.
  { assert (forall c0, Map_wf c0 -> Map_wf (foldl apply_op c0 ops)) as Hf.
    { clear. induction ops as [|o ops IH]; intros c0 H0'; simpl; [done|]. apply IH.
      destruct o; simpl; auto using Map_wf_Add, Map_wf_Set, Map_wf_SetIndex, Map_wf_Remove,
        Map_wf_Reset. }
    apply Hf. destruct cs; apply Map_wf_new. }
  destruct (Map_FindString_spec t c key Hk Hwf) as [E HF]. split; [done|].
  intros d Hd Hn. rewrite E. unfold slot_matches, entries in *.
  apply list_elem_of_fmap. exists d. split; [done|].
  apply list_elem_of_In, in_concat in Hd as (l & Hl & Hd). apply list_elem_of_In in Hl, Hd.
  apply list_elem_of_fmap in Hl as ([k l'] & -> & Hl). apply elem_of_map_to_list in Hl.
  simpl in Hd. pose proof (Hwf k l' Hl) as Hkl. rewrite Forall_forall in Hkl.
  unfold slot. rewrite <- Hn, (Hkl d) by by apply list_elem_of_In. by rewrite Hl.
Qed.

(** Adding a pair is visible under every spelling of its name that the
    collection identifies, after the values that were there, and changes
    nothing under other names. *)
Theorem add_then_get c k v k' :
  Map_Get (Map_Add c k v) k' =
  if decide (norm c k = norm c k') then Map_Get c k' ++ [v] else Map_Get c k'.
Proof. apply Map_Get_Add. Qed.

(** Adding a pair adds exactly one match to what rules see of the whole
    collection, and the lengths of its name and value to the collection's
    combined size, in whatever order the map is enumerated. *)
Theorem add_then_enumerate t t' c k v :
  Map_FindAll t (Map_Add c k v) ≡ₚ Map_FindAll t' c ++ [newMatchData (variable c) k v] /\
  Map_size t (variable c) (Map_Add c k v) = Map_size t' (variable c) c + zlen k + zlen v.
Proof. split; [apply Map_FindAll_Add|apply Map_size_Add]. Qed.
End collections.

(** ** Witnesses *)

Module store_witnesses.
Import demo.

Definition small : BodyBufferOptions := mkBodyBufferOptions (lit "/tmp") 4 16.


Lemma buffer_roundtrip_witness :
  let br := snd (writes (NewBodyBuffer small) [lit "hello"; lit " world"]) in
  let '(br1, i) := Reader br in
  exists br2, ReadAll true (S (length (contents br))) br1 i 3 [] = Ok (br2, lit "hello world", None).
Proof.
  apply (buffer_roundtrip small [lit "hello"; lit " world"] 3);
    [vm_compute; split; discriminate|vm_compute; discriminate|vm_compute; discriminate|lia].
Defined.

Lemma collections_keep_names_apart_witness :
  let c := foldl apply_op (NewMap variables.ArgsGet) [OpAdd (lit "a") (lit "1"); OpAdd (lit "A") (lit "2")] in
  Forall (fun m => norm c (Key_ m) = norm c (lit "a")) (Map_FindString 0 c (lit "a")) /\
  forall d, d ∈ entries c -> norm c (kv_key d) = norm c (lit "a") ->
    newMatchData (variable c) (kv_key d) (kv_value d) ∈ Map_FindString 0 c (lit "a").
Proof.
  apply (collections_keep_names_apart [OpAdd (lit "a") (lit "1"); OpAdd (lit "A") (lit "2")]
    variables.ArgsGet false 0 (lit "a")). discriminate.
Defined.

End store_witnesses.
