(* ===== verification/TextProps.v ===== *)
(** * Properties of the parsers and printers

    Macros, query strings, cookies, numbers, severities and variable names. *)

From stdpp Require Import options.
From Stdlib Require Import Strings.Byte.
From S2P Require Import Prelude GoLib HttpParse Variables Types Collections Transaction Macro.
From S2P Require Import BodyProcessors BodyFacts Examples.
Import types.

(** ** Query strings *)

Definition hexdig (n : Z) : byte := zb (if n <? 10 then 48 + n else 55 + n).

(** Percent encoding of every byte, and [k1=v1&k2=v2...]. *)
Definition escape (s : gostring) : gostring :=
  flat_map (fun b => ["%"%byte; hexdig (bz b / 16); hexdig (bz b mod 16)]) s.

Definition encode_pair (kv : gostring * gostring) : gostring :=
  escape (fst kv) ++ "="%byte :: escape (snd kv).

Lemma unescape_byte b rest :
  queryUnescape ("%"%byte :: hexdig (bz b / 16) :: hexdig (bz b mod 16) :: rest) =
  b :: queryUnescape rest.
Proof. destruct b; reflexivity. Qed.

Lemma unescape_escape s : queryUnescape (escape s) = s.
Proof. induction s as [|b s IH]; [done|]. simpl escape. by rewrite unescape_byte, IH. Qed.

Lemma escape_no c s :
  c ∈ ["&"; "="; ";"; "+"]%byte -> c ∉ escape s.
Proof.
  intros Hc Hin. unfold escape in Hin. apply list_elem_of_In, in_flat_map in Hin as (b & _ & Hb).
  apply list_elem_of_In in Hb.
  assert (forallb (fun c => negb (bool_decide (c ∈ ["%"%byte; hexdig (bz b / 16); hexdig (bz b mod 16)])))
            ["&"; "="; ";"; "+"]%byte = true) as Hall by (destruct b; reflexivity).
  rewrite forallb_forall in Hall. specialize (Hall c). rewrite <- list_elem_of_In in Hall.
  specialize (Hall Hc). by rewrite bool_decide_eq_true_2 in Hall.
Qed.

Lemma add_encoded m kv : add_piece true m (encode_pair kv) = mm_append m (fst kv) (snd kv).
Proof.
  unfold add_piece, encode_pair.
  assert ("="%byte ∉ escape (fst kv)) as Hne by (apply escape_no; set_solver).
  rewrite bool_decide_eq_false_2 by (by intros [_ ?]%app_eq_nil).
  pose proof (Strings.Cut_app (escape (fst kv)) (escape (snd kv)) "="%byte Hne) as Hc.
  unfold Strings.Cut in Hc.
  destruct (Strings.IndexByte _ "="%byte) as [i|]; [|by simplify_eq].
  injection Hc as -> ->. by rewrite !unescape_escape.
Qed.

(** Parsing a query string recovers what it encodes: from the percent
    encoded pairs [k=v] joined by ampersands, [ParseQuery] collects under every
    name exactly its values in their order, for arbitrary names and values. *)
Theorem query_roundtrip l :
  ParseQuery (join "&"%byte (encode_pair <$> l)) "&"%byte =
  foldl (fun m kv => mm_append m (fst kv) (snd kv)) ∅ l.
Proof.
  unfold ParseQuery. rewrite doParseQuery_pieces. destruct l as [|kv0 l0] eqn:El; [done|].
  rewrite <- El. rewrite split_on_join; [|by subst|].
  - clear El. generalize (∅ : multimap). induction l as [|kv l IH]; intros m; [done|].
    simpl. by rewrite add_encoded, IH.
  - rewrite Forall_fmap. apply Forall_forall. intros kv _. simpl. unfold encode_pair.
    intros [Hin|Hin]%elem_of_app; [by apply (escape_no "&"%byte (fst kv)); [set_solver|]|].
    apply elem_of_cons in Hin as [?|Hin]; [done|].
    by apply (escape_no "&"%byte (snd kv)); [set_solver|].
Qed.

(** [ParseQuery] splits at every separator and nowhere else: it processes
    the pieces between separators from left to right, each on its own, and
    ignores empty ones. *)
Theorem query_is_parsed_piecewise query sep u :
  doParseQuery query sep u = foldl (add_piece u) ∅ (split_on sep query).
Proof. apply doParseQuery_pieces. Qed.

(** ** Numbers, severities, names *)

(** Printing a machine integer and parsing it back is the identity over the
    whole 64-bit range, and the two spellings of a severity, as a digit and as
    a name, parse back to the severity. *)
Theorem numbers_roundtrip `{GoUnicode} z rs :
  in_int64 z -> 0 <= rs <= 7 ->
  Strconv.Atoi (Strconv.Itoa z) = (z, None) /\
  ParseRuleSeverity (Strconv.Itoa rs) = (rs, true) /\
  ParseRuleSeverity (severity_name rs) = (rs, true).
Proof.
  intros Hz Hr. split; [by apply Strconv.Atoi_Itoa|]. by apply ParseRuleSeverity_roundtrip.
Qed.

(** ** Macros *)

(** Compiling the source text of a macro recovers its tokens: for every
    sequence of non-empty texts and references to variables (no two texts in a
    row), printing and compiling is the identity. *)
Theorem macro_roundtrip `{GoUnicode} l :
  tokens_wf l -> l <> [] ->
  NewMacro (print_tokens l) = inl (mkMacro (print_tokens l) l).
Proof.
  intros Hl Hne. unfold NewMacro. rewrite compile_go_tokens by done. simpl.
  destruct (print_tokens l) eqn:E; [|done]. exfalso. revert E. unfold print_tokens.
  destruct Hl as [|t (s & -> & Hs & _)|t l Ht _|t u l (s & -> & Hs & _) _ _]; try done.
  - simpl. unfold print_token. simpl. rewrite app_nil_r. done.
  - simpl. unfold print_token at 1. rewrite bool_decide_eq_false_2 by apply Ht. done.
  - simpl. unfold print_token at 1. simpl. by intros [? _]%app_eq_nil.
Qed.

(** ** JSON bodies *)

Lemma last_filter_In (l : list (gostring * gostring)) k kv :
  list.last (List.filter (fun kv => bool_decide (fst kv = k)) l) = Some kv -> In kv l /\ fst kv = k.
Proof.
  intros [l' Hl]%last_Some. assert (In kv (List.filter (fun kv => bool_decide (fst kv = k)) l)) as Hin
    by (rewrite Hl; apply in_or_app; right; by left).
  apply filter_In in Hin as [? ?%bool_decide_eq_true]. done.
Qed.

Lemma NoDup_map_fst_inj (l : list (gostring * gostring)) k v v' :
  NoDup (map fst l) -> In (k, v) l -> In (k, v') l -> v = v'.
Proof.
  induction l as [|[a b] l IH]; [done|]. simpl. intros [Ha Hl]%list.NoDup_cons [?|?] [?|?];
    simplify_eq; [done| | |by apply IH].
  all: exfalso; apply Ha, list_elem_of_In, in_map_iff; eexists; split; [|eassumption]; done.
Qed.


(** A member named with a dot hides the nested one of the same spelling. *)
Lemma dotted_name_hides_member :
  let doc := JObject [(lit "a", JObject [(lit "b", JString (lit "evil"))]); (lit "a.b", JString (lit "ok"))] in
  readItems doc (lit "json") ∅ !! lit "json.a.b" = Some (lit "ok")
  /\ map snd (map_to_list (readItems doc (lit "json") ∅)) = [lit "ok"].
Proof. by split; vm_compute. Qed.

(** ** Witnesses *)

Module text_witnesses.
Import demo.

Lemma numbers_roundtrip_witness :
  Strconv.Atoi (Strconv.Itoa (-9223372036854775808)) = (-9223372036854775808, None) /\
  ParseRuleSeverity (Strconv.Itoa 2) = (2, true) /\
  ParseRuleSeverity (severity_name 2) = (2, true).
Proof.
  apply (numbers_roundtrip (-9223372036854775808) 2); [vm_compute; split; discriminate|lia].
Defined.

Definition score_tokens : list macroToken :=
  [text_token (lit "score "); mkMacroToken (lit "tx.Score") variables.TX (lit "score")].

Lemma macro_roundtrip_witness :
  NewMacro (lit "score %{tx.Score}") = inl (mkMacro (lit "score %{tx.Score}") score_tokens).
Proof.
  apply (macro_roundtrip score_tokens); [|discriminate].
  assert (ref_wf (mkMacroToken (lit "tx.Score") variables.TX (lit "score"))) as Hr.
  { split; [discriminate|]. split; [discriminate|]. split; [vm_compute; reflexivity|].
    split; [vm_compute; discriminate|]. split; vm_compute; reflexivity. }
  constructor; [|exact Hr|constructor; [exact Hr|constructor]].
  exists (lit "score "). split; [reflexivity|]. split; [discriminate|vm_compute; reflexivity].
Defined.


End text_witnesses.
