(* ===== verification/RuleProps.v ===== *)
(** * Properties of rules, actions and targets *)

From stdpp Require Import options.
From Stdlib Require Import Strings.Byte.
From S2P Require Import Prelude GoLib HttpParse Variables Types Collections BodyBuffer.
From S2P Require Import Transaction Macro Rule TransactionOps Actions RuleEval EvalFacts.
From S2P Require Import RuleGroup Examples.
Import types.

(** ** Actions *)

Section actions.
Context `{GoUnicode} `{MapOrder} `{StringData}.

Lemma MatchRule_records w r mds tx :
  exists tx' mr, MatchRule w r mds tx = Ok (tt, tx') /\ interruption tx' = interruption tx /\
    matchedRules tx' = matchedRules tx ++ [mr] /\ Rule_ mr = meta r /\ MatchedDatas_ mr = mds.
Proof.
  unfold MatchRule, getSingle, setSingle, bind, gets, modify. cbn [obind fst snd].
  destruct (Audit r); cbn [ret obind fst snd];
    match goal with |- context [if ?b then (fun _ => _) else _] => destruct b end;
    cbn [ret obind fst snd]; destruct (ErrorLogCb w && Log r); cbn [ret obind fst snd];
    (eexists _, _; split; [reflexivity|]; split_and!; reflexivity).
Qed.


(** [setvar:key=+m] adds to a numeric variable with the machine's 64-bit
    arithmetic, and [=-m] subtracts; a variable that is not set counts as
    zero; all other variables keep their values. *)
Theorem setvar_does_arithmetic c key n m k' :
  in_int64 n -> in_int64 m -> (Map_Get c key = [Strconv.Itoa n] \/ (Map_Get c key = [] /\ n = 0)) ->
  let plus := setvar_update false key ("+"%byte :: Strconv.Itoa m) c in
  let minus := setvar_update false key ("-"%byte :: Strconv.Itoa m) c in
  Map_Get plus key = [Strconv.Itoa (wrap64 (n + m))] /\
  Map_Get minus key = [Strconv.Itoa (wrap64 (n - m))] /\
  (norm c key <> norm c k' -> Map_Get plus k' = Map_Get c k' /\ Map_Get minus k' = Map_Get c k').
Proof.
  intros Hn Hm Hc.
  assert (exists a s, Strconv.Itoa m = a :: s) as (a & s & Es).
  { unfold Strconv.Itoa. case_match; [by eexists _, _|apply Strconv.dec_cons]. }
  assert ((if bool_decide (default [] (head (Map_Get c key)) = []) then (0, None)
           else Strconv.Atoi (default [] (head (Map_Get c key)))) = (n, None)) as Hcur.
  { destruct Hc as [->|[-> ->]]; [|done]. simpl.
    case_bool_decide as E; [|by apply Strconv.Atoi_Itoa].
    pose proof (Strconv.Atoi_Itoa n Hn) as Ha. rewrite E in Ha. done. }
  assert (forall op, op = "+"%byte \/ op = "-"%byte ->
    setvar_update false key (op :: Strconv.Itoa m) c =
    Map_Set c key [Strconv.Itoa (wrap64 (if bool_decide (op = "+"%byte) then n + m else n - m))])
    as Hop.
  { intros op Hop. unfold setvar_update. rewrite Hcur, (Strconv.Atoi_Itoa m Hm), Es.
    destruct Hop as [->| ->]; reflexivity. }
  rewrite !Hop by auto. cbn [bool_decide]. rewrite !Map_Get_Set. rewrite !decide_True by done.
  rewrite bool_decide_eq_true_2, bool_decide_eq_false_2 by done. split_and!; [done|done|].
  intros Hk. by rewrite !decide_False.
Qed.

(** The documented form [setvar:TX.name], without a value, is accepted
    when the rule is read, but the action it makes dereferences a macro that
    was never set: evaluating it panics, in every transaction. *)
Theorem setvar_without_value_panics t r w tx s :
  s <> [] -> no_open s = true -> "="%byte ∉ s -> Strings.TrimSpace s <> [] ->
  exists a, setvar_Init t r (lit "TX." ++ s) = inl (r, a, t) /\ action_Evaluate w r a tx = Panic.
Proof.
  intros Hs Ho He Ht.
  exists (setvarFn (Some (mkMacro s [text_token s])) None variables.TX false). split.
  - change (lit "TX." ++ s) with ("T"%byte :: "X"%byte :: "."%byte :: s).
    cbn [setvar_Init]. rewrite bool_decide_eq_false_2 by done.
    rewrite (Strings.Cut_none _ "="%byte) by set_solver.
    change ("T"%byte :: "X"%byte :: "."%byte :: s) with (lit "TX" ++ "."%byte :: s).
    rewrite (Strings.Cut_app (lit "TX") s "."%byte) by (apply (bool_decide_unpack _); reflexivity).
    rewrite bool_decide_eq_true_2 by (vm_compute; reflexivity). cbn [negb].
    rewrite bool_decide_eq_false_2 by done.
    assert (variables.Parse (lit "TX") = Some variables.TX) as -> by (vm_compute; reflexivity).
    pose proof (compile_go_tokens [text_token s] x00 []) as Hc.
    assert (print_tokens [text_token s] = s) as Hp by (unfold print_tokens; simpl; apply app_nil_r).
    rewrite Hp in Hc. unfold NewMacro. rewrite Hc by (constructor; by exists s). by destruct s.
  - done.
Qed.

(** [ctl] cannot change how a body is read once its phase has passed: after
    the request headers phase it leaves request body access, limit and
    processor alone, and after the response headers phase those of the
    response. *)
Theorem ctl_is_late w act value col colKey tx :
  (act ∈ [ctlRequestBodyAccess; ctlRequestBodyLimit; ctlRequestBodyProcessor] /\
   PhaseRequestHeaders < lastPhase tx) \/
  (act ∈ [ctlResponseBodyAccess; ctlResponseBodyLimit; ctlResponseBodyProcessor] /\
   PhaseResponseHeaders < lastPhase tx) ->
  ctl_Evaluate w act value col colKey tx = Ok (tt, tx).
Proof.
  intros [[Hin Hl]|[Hin Hl]]; set_unfold in Hin; destruct_or! Hin; subst act;
    unfold ctl_Evaluate, bind, gets; cbn [obind fst snd];
    by rewrite (proj2 (Z.leb_gt _ _)).
Qed.
End actions.

(** ** Targets *)

Section targets.
Context `{GoUnicode} `{MapOrder} `{StringData}.

(** A target that [ctl:ruleRemoveTargetById] removed is never inspected:
    after the removal of a key of a variable from a rule, no value that the
    rule's operator gets from that variable has the key, in any case. *)
Theorem removed_target_is_not_inspected i v key rv tx tx1 values tx2 :
  rv_Variable rv = v -> rv_Count rv = false ->
  RemoveRuleTargetByID i v key tx = Ok (tt, tx1) ->
  GetField (add_exceptions (default [] (ruleRemoveTargetByID tx1 !! i)) rv) tx1 = Ok (values, tx2) ->
  Forall (fun m => Strings.ToLower (Key_ m) <> Strings.ToLower key) values.
Proof.
  intros Hv Hc E1.
  assert (exists l, default [] (ruleRemoveTargetByID tx1 !! i) =
    l ++ [mkRuleVariableParams false v None key []]) as [l ->].
  { injection E1 as <-. eexists. simpl. by rewrite lookup_insert_eq. }
  set (ecol := l ++ _). clear E1.
  assert (mkException key None ∈ rv_Exceptions (add_exceptions ecol rv)) as Hin.
  { unfold add_exceptions. simpl. apply elem_of_app. right. apply list_elem_of_fmap.
    exists (mkRuleVariableParams false v None key []). split; [done|].
    apply list_elem_of_In, filter_In. split; [|by apply bool_decide_eq_true].
    apply list_elem_of_In. unfold ecol. set_solver. }
  unfold GetField, bind, gets. cbn [obind fst snd].
  destruct (Collection_of _ _) as [col|]; [|by intros [= <- _]].
  cbn [obind fst snd modify]. change (rv_Count (add_exceptions ecol rv)) with (rv_Count rv).
  rewrite Hc. intros [= <- _]. apply Forall_forall. intros m Hm.
  apply filter_In in Hm as [_ Hm].
  intros E. unfold excluded in Hm.
  apply negb_true_iff in Hm. rewrite <- not_true_iff_false in Hm. apply Hm.
  apply existsb_exists. exists (mkException key None). split; [by apply list_elem_of_In|].
  unfold is_exception. simpl. by apply bool_decide_eq_true.
Qed.

End targets.

(** ** The transformation cache *)

Section cache.
Context `{GoUnicode} `{MapOrder} `{StringData}.

(** The values that a sequence of calls of [transformArg] returns. *)
Fixpoint transform_calls (l : list (Rule * MatchData * nat)) : M (list gostring) :=
  match l with
  | [] => ret []
  | (r, arg, i) :: l =>
    let! v := transformArg r arg i in
    let! vs := transform_calls l in
    ret (fst v :: vs)
  end.

Definition call_value (c : Rule * MatchData * nat) : gostring * list gostring :=
  let '(r, arg, _) := c in executeTransformations r (Value_ arg).

Definition call_key (t : nat) (c : Rule * MatchData * nat) : transformationKey :=
  let '(r, arg, i) := c in cache_key r t arg i.

(** Entries come from calls of [L]. *)
Definition cache_from (L : list (Rule * MatchData * nat)) (tx : Transaction) : Prop :=
  forall k v, transformationCache tx !! k = Some v ->
    exists c, c ∈ L /\ k = call_key (tick tx) c /\ (tv_arg v, tv_errs v) = call_value c.

Lemma transformArg_sound L r arg i tx :
  (forall c c', c ∈ L -> c' ∈ L -> call_key (tick tx) c = call_key (tick tx) c' ->
     call_value c = call_value c') ->
  (r, arg, i) ∈ L -> cache_from L tx ->
  exists tx', transformArg r arg i tx = Ok (executeTransformations r (Value_ arg), tx') /\
    cache_from L tx' /\ tick tx' = tick tx.
Proof.
  intros HL Hin Hc. unfold transformArg. case_bool_decide as Hn.
  { exists tx. unfold executeTransformations. apply length_zero_iff_nil in Hn. by rewrite Hn. }
  case_bool_decide; [by exists tx|]. unfold bind, gets. cbn [obind fst snd].
  destruct (transformationCache tx !! cache_key r (tick tx) arg i) as [v|] eqn:E.
  - destruct (Hc _ _ E) as (c & Hcin & Hk & Hv). exists tx. split_and!; [|done..].
    rewrite Hv. by rewrite (HL c (r, arg, i)).
  - destruct (executeTransformations r (Value_ arg)) as [ars es] eqn:Ex.
    eexists. split; [reflexivity|]. split; [|done].
    intros k v. simpl. rewrite lookup_insert_Some. intros [[<- <-]|[_ Hk]]; [|by apply Hc].
    exists (r, arg, i). split_and!; [done..|]. simpl. by rewrite Ex.
Qed.


(** When two arguments have the same key in the cache, the second is
    hidden: the rule gets the transformed value of the first, and the value
    of the second is not inspected.  Values of one request parameter share
    the bytes of its name, so their keys differ only by position, which
    depends on exclusions and on the order in which the map is enumerated. *)
Theorem colliding_keys_hide_a_value r r' arg arg' i i' tx :
  transformations r <> [] -> transformations r' <> [] ->
  variables.Name (Variable_ arg) <> lit "TX" -> variables.Name (Variable_ arg') <> lit "TX" ->
  call_key (tick tx) (r, arg, i) = call_key (tick tx) (r', arg', i') ->
  transformationCache tx !! call_key (tick tx) (r, arg, i) = None ->
  exists tx', transform_calls [(r, arg, i); (r', arg', i')] tx =
    Ok ([fst (call_value (r, arg, i)); fst (call_value (r, arg, i))], tx').
Proof.
  intros Hr Hr' Hv Hv' Hk Hc. simpl in Hk, Hc. cbn [transform_calls].
  unfold bind at 1. unfold transformArg at 1.
  rewrite !bool_decide_eq_false_2 by (try done; by intros ?%length_zero_iff_nil).
  unfold bind at 1 2, gets at 1 2. cbn [obind fst snd]. rewrite Hc.
  unfold call_value. destruct (executeTransformations r (Value_ arg)) as [ars es] eqn:Ex.
  unfold bind at 1, modify. cbn [obind fst snd ret]. unfold bind at 1, transformArg.
  rewrite !bool_decide_eq_false_2 by (try done; by intros ?%length_zero_iff_nil).
  unfold bind at 1 2 3, gets. cbn [obind fst snd].
  change (tick (tx <| transformationCache := _ |>)) with (tick tx). rewrite <- Hk.
  change (transformationCache (tx <| transformationCache := ?c |>)) with c.
  rewrite lookup_insert_eq. by eexists.
Qed.
End cache.

(** ** Identifiers of pipelines *)

(** The rule that adding the named transformations one by one makes. *)
Fixpoint add_all (t : transformationIDs) (r : Rule) (ts : list (gostring * Transformation))
  : outcome (option (Rule * transformationIDs)) :=
  match ts with
  | [] => Ok (Some (r, t))
  | (name, f) :: ts =>
    match AddTransformation t r name f with
    | Ok (Some (r', t')) => add_all t' r' ts
    | x => x
    end
  end.

Definition pipeline_name (names : list gostring) : gostring :=
  concat ((fun n => "+"%byte :: n) <$> names).

Lemma add_all_spec ts t r cur :
  ids_wf t -> ids_name t (transformationsID r) = Some cur ->
  Forall (fun nf => fst nf <> []) ts ->
  exists r' t', add_all t r ts = Ok (Some (r', t')) /\ ids_wf t' /\
    transformations r' = transformations r ++ (snd <$> ts) /\
    ids_name t' (transformationsID r') = Some (cur ++ pipeline_name (fst <$> ts)) /\
    (forall k n, ids_name t k = Some n -> ids_name t' k = Some n).
Proof.
  revert t r cur. induction ts as [|[name f] ts IH]; intros t r cur Hwf Hi Hne; simpl.
  { exists r, t. rewrite !app_nil_r. done. }
  apply Forall_cons_1 in Hne as [Hn Hne]. simpl in Hn. unfold AddTransformation.
  rewrite bool_decide_eq_false_2 by done.
  destruct (transformationID_spec t cur name (transformationsID r) Hwf Hi)
    as (j & t1 & -> & Hwf1 & Hj & Hmono).
  destruct (IH t1 (r <| transformations := transformations r ++ [f] |> <| transformationsID := j |>)
    (cur ++ "+"%byte :: name)) as (r' & t' & E & Hwf' & Ht & Hid & Hmono'); [done|done|done|].
  exists r', t'. split_and!; [done|done| | |auto].
  - rewrite Ht. simpl. by rewrite <- app_assoc.
  - rewrite Hid. unfold pipeline_name. rewrite fmap_cons. cbn [concat]. by rewrite <- app_assoc.
Qed.

Lemma pipeline_name_split names :
  Forall (fun n => "+"%byte ∉ n) names ->
  split_on "+"%byte (pipeline_name names) = [] :: names.
Proof.
  intros Hn. induction Hn as [|n names Hn Hns IH]; [done|].
  unfold pipeline_name. rewrite fmap_cons. cbn [concat app split_on].
  rewrite bool_decide_eq_true_2 by done. f_equal. fold (pipeline_name names).
  destruct Hns as [|n' names Hn' Hns].
  - unfold pipeline_name. simpl. rewrite app_nil_r. by apply split_on_nosep.
  - change (pipeline_name (n' :: names)) with ("+"%byte :: n' ++ pipeline_name names).
    change (pipeline_name (n' :: names)) with ("+"%byte :: n' ++ pipeline_name names) in IH.
    rewrite split_on_app by done. f_equal. cbn [split_on] in IH.
    rewrite bool_decide_eq_true_2 in IH by done. by injection IH.
Qed.

Lemma lower_split_inj names names' :
  Forall (fun n => "+"%byte ∉ n) names -> Forall (fun n => "+"%byte ∉ n) names' ->
  pipeline_name names = pipeline_name names' -> names = names'.
Proof.
  intros H1 H2 E. pose proof (pipeline_name_split names H1) as E1.
  rewrite E, (pipeline_name_split names' H2) in E1. by injection E1.
Qed.

(** The identifier of a rule's transformations tells the pipelines of new
    rules apart: two rules built one after the other, with any rules before
    them, have the same identifier exactly when their transformations have the
    same names in the same order. *)
Theorem pipeline_identifiers_are_faithful t ts1 ts2 :
  ids_wf t ->
  Forall (fun nf => fst nf <> [] /\ "+"%byte ∉ fst nf) ts1 ->
  Forall (fun nf => fst nf <> [] /\ "+"%byte ∉ fst nf) ts2 ->
  exists r1 t1 r2 t2,
    add_all t NewRule ts1 = Ok (Some (r1, t1)) /\ add_all t1 NewRule ts2 = Ok (Some (r2, t2)) /\
    transformations r1 = snd <$> ts1 /\ transformations r2 = snd <$> ts2 /\
    (transformationsID r1 = transformationsID r2 <-> fst <$> ts1 = fst <$> ts2).
Proof.
  intros Hwf H1 H2.
  assert (forall t, ids_wf t -> ids_name t (transformationsID NewRule) = Some []) as H0
    by (intros t0 H0; apply (ids_first _ H0)).
  destruct (add_all_spec ts1 t NewRule []) as (r1 & t1 & E1 & Hwf1 & Ht1 & Hi1 & _);
    [done|auto|by eapply Forall_impl; [|exact H1]; intros ? []|].
  destruct (add_all_spec ts2 t1 NewRule []) as (r2 & t2 & E2 & Hwf2 & Ht2 & Hi2 & Hmono);
    [done|auto|by eapply Forall_impl; [|exact H2]; intros ? []|].
  apply Hmono in Hi1. simpl in *. exists r1, t1, r2, t2. split_and!; [done..|].
  split.
  - intros Eid. rewrite Eid in Hi1. rewrite Hi1 in Hi2. injection Hi2 as En.
    apply lower_split_inj; [..|done]; rewrite Forall_fmap;
      [eapply Forall_impl; [|exact H1]|eapply Forall_impl; [|exact H2]]; by intros ? [].
  - intros En. rewrite En in Hi1. unfold ids_name in *.
    destruct (Z.ltb_spec (transformationsID r1) 0); [done|].
    destruct (Z.ltb_spec (transformationsID r2) 0); [done|].
    assert (nameToID t2 !! pipeline_name (fst <$> ts2) = Some (transformationsID r1))
      by by apply (ids_inverse t2 Hwf2).
    assert (nameToID t2 !! pipeline_name (fst <$> ts2) = Some (transformationsID r2))
      by by apply (ids_inverse t2 Hwf2).
    congruence.
Qed.

(** Clearing the transformations with [t:none] keeps the identifier of the
    pipeline that was there: a rule that had [ts1], was cleared and got [ts2]
    has the identifier of the pipeline [ts1 ++ ts2] while it applies [ts2]
    only, so in the cache it shares the values of rules that apply both. *)
Theorem cleared_rule_keeps_identifier t ts1 ts2 :
  ids_wf t -> Forall (fun nf => fst nf <> []) ts1 -> Forall (fun nf => fst nf <> []) ts2 ->
  exists r1 t1 r2 t2 r3 t3,
    add_all t NewRule ts1 = Ok (Some (r1, t1)) /\
    add_all t1 (ClearTransformations r1) ts2 = Ok (Some (r2, t2)) /\
    add_all t2 NewRule (ts1 ++ ts2) = Ok (Some (r3, t3)) /\
    transformations r2 = snd <$> ts2 /\ transformations r3 = snd <$> (ts1 ++ ts2) /\
    transformationsID r2 = transformationsID r3.
Proof.
  intros Hwf H1 H2.
  assert (forall t, ids_wf t -> ids_name t (transformationsID NewRule) = Some []) as H0
    by (intros t0 H0; apply (ids_first _ H0)).
  destruct (add_all_spec ts1 t NewRule []) as (r1 & t1 & E1 & Hwf1 & Ht1 & Hi1 & _); [done|auto|done|].
  destruct (add_all_spec ts2 t1 (ClearTransformations r1) (pipeline_name (fst <$> ts1)))
    as (r2 & t2 & E2 & Hwf2 & Ht2 & Hi2 & _); [done|done|done|].
  destruct (add_all_spec (ts1 ++ ts2) t2 NewRule []) as (r3 & t3 & E3 & Hwf3 & Ht3 & Hi3 & Hmono);
    [done|auto|by apply Forall_app|].
  exists r1, t1, r2, t2, r3, t3. split_and!; [done..|]. apply Hmono in Hi2.
  rewrite fmap_app in Hi3. unfold pipeline_name in *. rewrite fmap_app, concat_app in Hi3.
  unfold ids_name in *. destruct (Z.ltb_spec (transformationsID r2) 0); [done|].
  destruct (Z.ltb_spec (transformationsID r3) 0); [done|].
  set (n := concat _ ++ concat _) in Hi2.
  assert (nameToID t3 !! n = Some (transformationsID r2)) by by apply (ids_inverse t3 Hwf3).
  assert (nameToID t3 !! n = Some (transformationsID r3)) by by apply (ids_inverse t3 Hwf3).
  congruence.
Qed.

(** ** Rule groups *)

(** Adding a rule keeps identifiers unique: it is refused exactly when its
    identifier is in use, and otherwise the rule goes last, is found by its
    identifier, and every other rule is still found. *)
Theorem add_keeps_identifiers_unique rules r :
  ids_unique rules -> rID r <> 0 ->
  if bool_decide (rID r ∈ rID <$> rules)
  then Add false rules (Some r) = inr (ErrDuplicatedID (rID r))
  else Add false rules (Some r) = inl (rules ++ [r]) /\ ids_unique (rules ++ [r]) /\
       FindByID (rules ++ [r]) (rID r) = Some r /\
       forall i, i <> rID r -> FindByID (rules ++ [r]) i = FindByID rules i.
Proof.
  intros Hu Hne. unfold Add. rewrite (proj2 (Z.eqb_neq (rID r) 0)) by done. cbn [negb andb].
  destruct (FindByID rules (rID r)) as [r0|] eqn:E.
  - rewrite bool_decide_eq_true_2.
    + by rewrite bool_decide_eq_true_2.
    + apply dec_stable. intros Hn%FindByID_None. congruence.
  - apply FindByID_None in E as Hn. rewrite bool_decide_eq_false_2 by done.
    rewrite bool_decide_eq_false_2 by apply is_Some_None. split_and!; [done| | |].
    + unfold ids_unique in *. rewrite fmap_app, List.filter_app. simpl.
      rewrite (proj2 (Z.eqb_neq (rID r) 0)) by done. simpl.
      apply list.NoDup_app. split_and!; [done| |apply list.NoDup_singleton].
      intros i Hi ->%list_elem_of_singleton. apply Hn.
      apply list_elem_of_In in Hi. apply filter_In in Hi as [Hi _]. by apply list_elem_of_In.
    + rewrite FindByID_app, E. unfold FindByID. simpl. by rewrite Z.eqb_refl.
    + intros i Hi. rewrite FindByID_app. destruct (FindByID rules i); [done|].
      unfold FindByID. simpl. by rewrite (proj2 (Z.eqb_neq _ _)).
Qed.

(** Removing a rule by its identifier removes that rule and no other: in a
    group with unique identifiers it is not found any more, all other
    identifiers find what they found before, and the order is kept. *)
Theorem delete_by_id_removes_one rules i :
  ids_unique rules -> i <> 0 ->
  FindByID (DeleteByID rules i) i = None /\
  (forall j, j <> i -> FindByID (DeleteByID rules i) j = FindByID rules j) /\
  DeleteByID rules i `sublist_of` rules /\ ids_unique (DeleteByID rules i).
Proof.
  intros Hu Hi. induction rules as [|r rules IH]; simpl; [split_and!; try done; constructor|].
  unfold ids_unique in Hu. rewrite fmap_cons in Hu. simpl in Hu.
  destruct (Z.eqb_spec (rID r) i) as [<-|Hr].
  - rewrite (proj2 (Z.eqb_neq (rID r) 0)) in Hu by done. simpl in Hu.
    apply list.NoDup_cons in Hu as [Hn Hu]. split_and!.
    + apply FindByID_None. intros Hin. apply Hn. apply list_elem_of_In, filter_In.
      split; [by apply list_elem_of_In|lia].
    + intros j Hj. unfold FindByID. simpl. by rewrite (proj2 (Z.eqb_neq _ _)).
    + by constructor.
    + done.
  - assert (ids_unique rules) as Hu'.
    { unfold ids_unique. destruct (negb (rID r =? 0)); [by apply list.NoDup_cons in Hu as [_ ?]|done]. }
    destruct (IH Hu') as (H1 & H2 & H3 & H4). split_and!.
    + unfold FindByID in *. simpl. by rewrite (proj2 (Z.eqb_neq _ _)).
    + intros j Hj. unfold FindByID in *. simpl. rewrite (H2 j Hj). done.
    + by constructor.
    + unfold ids_unique in *. rewrite fmap_cons. simpl.
      destruct (negb (rID r =? 0)); [|done]. apply list.NoDup_cons in Hu as [Hn Hu].
      constructor; [|done]. intros Hin. apply Hn.
      apply list_elem_of_In in Hin. apply filter_In in Hin as [Hin Hz].
      apply list_elem_of_In, filter_In. split; [|done].
      apply list_elem_of_In, list_elem_of_fmap in Hin as (r' & E & Hr').
      apply list_elem_of_In, list_elem_of_fmap. exists r'. split; [done|].
      eapply sublist_subseteq; [exact H3|done].
Qed.

(** Removing rules by message works only if every rule of the group has a
    message: then it keeps, in order, the rules with another message; a single
    rule without one, such as a marker, makes it panic. *)
Theorem delete_by_msg_needs_messages rules s :
  (Forall (fun r => Msg r <> None) rules ->
   DeleteByMsg rules s = Ok (List.filter (fun r => negb (bool_decide (String_ <$> Msg r = Some s))) rules)) /\
  (Exists (fun r => Msg r = None) rules -> DeleteByMsg rules s = Panic).
Proof.
  split.
  - induction 1 as [|r rules Hr _ IH]; [done|]. simpl. destruct (Msg r) as [m|]; [|done].
    rewrite IH. simpl. repeat case_bool_decide; try done; congruence.
  - induction 1 as [r rules E|r rules _ IH]; simpl; [by rewrite E|].
    destruct (Msg r); [|done]. by rewrite IH.
Qed.

(** ** Witnesses *)

Module rule_witnesses.
Import demo.


(** The score starts at the largest machine integer and wraps. *)
Definition scored : Map := Map_Set (NewMap variables.TX) (lit "score") [Strconv.Itoa maxInt64].

Lemma setvar_does_arithmetic_witness :
  Map_Get (setvar_update false (lit "score") (lit "+1") scored) (lit "SCORE") =
    [lit "-9223372036854775808"].
Proof.
  destruct (setvar_does_arithmetic scored (lit "score") maxInt64 1 (lit "other")) as (E & _).
  - vm_compute. split; discriminate.
  - vm_compute. split; discriminate.
  - left. vm_compute. reflexivity.
  - etrans; [|etrans; [exact E|]]; vm_compute; reflexivity.
Defined.

Lemma setvar_without_value_panics_witness :
  exists a, setvar_Init initialIDs NewRule (lit "TX.score") = inl (NewRule, a, initialIDs) /\
    action_Evaluate waf NewRule a tx0 = Panic.
Proof.
  apply (setvar_without_value_panics initialIDs NewRule waf tx0 (lit "score"));
    [discriminate|vm_compute; reflexivity|apply (bool_decide_unpack _); vm_compute; exact I
    |vm_compute; discriminate].
Defined.

Lemma ctl_is_late_witness :
  let tx := tx0 <| lastPhase := 2 |> in
  ctl_Evaluate waf ctlRequestBodyLimit (lit "1") variables.Unknown [] tx = Ok (tt, tx).
Proof.
  apply (ctl_is_late waf ctlRequestBodyLimit (lit "1") variables.Unknown [] (tx0 <| lastPhase := 2 |>)).
  left. split; [set_solver|vm_compute; reflexivity].
Defined.

(** The target ARGS of rule 100 without "q". *)
Definition args_target : ruleVariableParams := mkRuleVariableParams false variables.Args None [] [].

Definition tx_removed : Transaction :=
  final (RemoveRuleTargetByID 100 variables.Args (lit "Q")) tx_evil.

Lemma removed_target_is_not_inspected_witness :
  Forall (fun m => Strings.ToLower (Key_ m) <> Strings.ToLower (lit "Q"))
    (default [] (result (GetField (add_exceptions
       (default [] (ruleRemoveTargetByID tx_removed !! 100)) args_target)) tx_removed)).
Proof.
  set (m := GetField (add_exceptions (default [] (ruleRemoveTargetByID tx_removed !! 100)) args_target)).
  apply (removed_target_is_not_inspected 100 variables.Args (lit "Q") args_target tx_evil tx_removed _
    (final m tx_removed)).
  - reflexivity.
  - reflexivity.
  - apply final_ok. reflexivity.
  - apply (final_ok m). vm_compute. reflexivity.
Defined.


(** Lower casing as a transformation. *)
Definition lowercase : Transformation := fun s => (Strings.ToLower s, true, None).

Definition lower_rule (i : Z) : Rule :=
  (base i 2) <| transformations := [lowercase] |> <| transformationsID := 1 |>.

Definition arg (k v : gostring) : MatchData := newMatchData variables.ArgsGet k v.


(** A rule sees the parameters x, a=safe, a=evil; the next one excludes x, so
    the values of "a" move up one position and the second one is hidden. *)
Lemma colliding_keys_hide_a_value_witness :
  exists tx', transform_calls [(lower_rule 1, arg (lit "a") (lit "safe"), 1%nat);
                               (lower_rule 2, arg (lit "a") (lit "evil"), 1%nat)] tx0 =
    Ok ([lit "safe"; lit "safe"], tx').
Proof.
  destruct (colliding_keys_hide_a_value (lower_rule 1) (lower_rule 2) (arg (lit "a") (lit "safe"))
    (arg (lit "a") (lit "evil")) 1 1 tx0) as (tx' & E);
    [discriminate|discriminate|discriminate|discriminate|reflexivity|vm_compute; reflexivity|].
  exists tx'. etrans; [exact E|]. f_equal.
Defined.

Definition named (n : gostring) : gostring * Transformation := (n, lowercase).

Lemma pipeline_identifiers_are_faithful_witness :
  exists r1 t1 r2 t2,
    add_all initialIDs NewRule [named (lit "lowercase")] = Ok (Some (r1, t1)) /\
    add_all t1 NewRule [named (lit "urldecode")] = Ok (Some (r2, t2)) /\
    transformationsID r1 <> transformationsID r2.
Proof.
  destruct (pipeline_identifiers_are_faithful initialIDs [named (lit "lowercase")] [named (lit "urldecode")])
    as (r1 & t1 & r2 & t2 & E1 & E2 & _ & _ & Hiff).
  - exact initialIDs_wf.
  - repeat constructor; [discriminate|apply (bool_decide_unpack _); vm_compute; exact I].
  - repeat constructor; [discriminate|apply (bool_decide_unpack _); vm_compute; exact I].
  - exists r1, t1, r2, t2. split; [exact E1|]. split; [exact E2|]. intros E.
    apply Hiff in E. discriminate E.
Defined.

Lemma cleared_rule_keeps_identifier_witness :
  exists r2 r3, transformations r2 = [lowercase] /\ transformations r3 = [lowercase; lowercase] /\
    transformationsID r2 = transformationsID r3.
Proof.
  destruct (cleared_rule_keeps_identifier initialIDs [named (lit "urldecode")] [named (lit "lowercase")])
    as (r1 & t1 & r2 & t2 & r3 & t3 & _ & _ & _ & E2 & E3 & E).
  - exact initialIDs_wf.
  - repeat constructor; discriminate.
  - repeat constructor; discriminate.
  - exists r2, r3. split; [exact E2|]. split; [exact E3|exact E].
Defined.

Lemma demo_unique : ids_unique [score; deny_evil].
Proof. apply (bool_decide_unpack _). vm_compute. exact I. Qed.

Lemma add_keeps_identifiers_unique_witness :
  Add false [score; deny_evil] (Some deny_all) = inl [score; deny_evil; deny_all] /\
  ids_unique [score; deny_evil; deny_all].
Proof.
  pose proof (add_keeps_identifiers_unique [score; deny_evil] deny_all demo_unique) as Hadd.
  rewrite bool_decide_eq_false_2 in Hadd by (apply (bool_decide_unpack _); vm_compute; exact I).
  destruct Hadd as (E & Hu & _); [discriminate|]. split; [exact E|exact Hu].
Defined.

Lemma delete_by_id_removes_one_witness :
  FindByID (DeleteByID [score; deny_evil] 102) 102 = None /\
  FindByID (DeleteByID [score; deny_evil] 102) 100 = Some deny_evil.
Proof.
  destruct (delete_by_id_removes_one [score; deny_evil] 102 demo_unique) as (E & Hj & _);
    [discriminate|]. split; [exact E|]. rewrite Hj by discriminate. reflexivity.
Defined.

Lemma delete_by_msg_needs_messages_witness : DeleteByMsg [score; marker (lit "END")] (lit "m") = Panic.
Proof.
  apply (delete_by_msg_needs_messages [score; marker (lit "END")] (lit "m")).
  apply Exists_cons_hd. reflexivity.
Defined.

End rule_witnesses.
