(* ===== verification/TransformProps.v ===== *)
(** * Properties of the transformations

    The encoders are undone by the decoders, the decoders fit their buffer, a
    rooted path loses its dot-dot components, and the flag that tells a change
    is what a multi-match rule relies on. *)

From stdpp Require Import options.
From Stdlib Require Import Strings.Byte.
From S2P Require Import Prelude GoLib HttpParse Rule Transformations Examples.

(** The new value of a transformation. *)
Definition value_of (r : gostring * bool * option gostring) : gostring := fst (fst r).

(** ** Round trips *)

Lemma existsb_false {A} (p : A -> bool) (x : A) l :
  existsb p (x :: l) = false -> p x = false /\ existsb p l = false.
Proof. simpl. by intros [? ?]%orb_false_elim. Qed.

Lemma special_false b : is_url_special b = false -> b <> "%"%byte /\ b <> "+"%byte.
Proof. unfold is_url_special. intros H%bool_decide_eq_false. tauto. Qed.

Lemma doURLDecode_plain s : needs is_url_special s = false -> doURLDecode s = s.
Proof.
  induction s as [|a s IH]; [done|].
  intros [[Hp Hq]%special_false Hs]%existsb_false. simpl.
  rewrite !bool_decide_eq_false_2 by done. by rewrite IH.
Qed.

Lemma inplaceUniDecode_plain s : needs is_url_special s = false -> inplaceUniDecode s = s.
Proof.
  induction s as [|a s IH]; [done|].
  intros [[Hp Hq]%special_false Hs]%existsb_false. simpl.
  rewrite !bool_decide_eq_false_2 by done. by rewrite IH.
Qed.

Lemma urlDecode_value s : value_of (urlDecode s) = doURLDecode s.
Proof.
  unfold urlDecode. destruct (needs is_url_special s) eqn:E; [done|].
  by rewrite doURLDecode_plain.
Qed.

Lemma urlDecodeUni_value s : value_of (urlDecodeUni s) = inplaceUniDecode s.
Proof.
  unfold urlDecodeUni. destruct (needs is_url_special s) eqn:E; [done|].
  by rewrite inplaceUniDecode_plain.
Qed.

(** What [doURLEncode] writes for one byte. *)
Definition encoded_byte (cc : byte) : gostring :=
  if bool_decide (cc = " "%byte) then ["+"%byte]
  else if url_plain cc then [cc]
  else ["%"%byte; hexdigit (Z.shiftr (bz cc) 4); hexdigit (Z.land (bz cc) 15)].

Lemma decode_encoded_byte cc rest :
  doURLDecode (encoded_byte cc ++ rest) = cc :: doURLDecode rest.
Proof. destruct cc; reflexivity. Qed.

Lemma uni_decode_encoded_byte cc rest :
  inplaceUniDecode (encoded_byte cc ++ rest) = cc :: inplaceUniDecode rest.
Proof. destruct cc; reflexivity. Qed.

Lemma hex_decode_byte b s :
  hex_DecodeString (hexdigit (bz b / 16) :: hexdigit (bz b mod 16) :: s) =
  match hex_DecodeString s with Some r => Some (b :: r) | None => None end.
Proof. destruct b; reflexivity. Qed.

Lemma hex_roundtrip s : hex_DecodeString (hex_EncodeToString s) = Some s.
Proof.
  induction s as [|b s IH]; [done|]. simpl hex_EncodeToString.
  by rewrite hex_decode_byte, IH.
Qed.

(** A digit of the base64 alphabet is read back as itself. *)
Definition base64_digit_ok (n : Z) : bool :=
  let c := base64_char n in
  negb (bool_decide (c = x0d) || bool_decide (c = x0a))
  && negb (bool_decide (c = "="%byte) || bool_decide (c = " "%byte) || (127 <? bz c))
  && negb (base64DecMap c =? 127) && (Z.land (base64DecMap c) 0x3F =? n).

Lemma base64_digit n : 0 <= n < 64 -> base64_digit_ok n = true.
Proof.
  intros Hn.
  assert (forallb base64_digit_ok (map Z.of_nat (seq 0 64)) = true) as H by (vm_compute; done).
  rewrite forallb_forall in H. apply H. apply in_map_iff. exists (Z.to_nat n).
  split; [lia|]. apply in_seq. lia.
Qed.

Lemma lor_shift6 x n : 0 <= n < 64 -> Z.lor (Z.shiftl x 6) n = x * 64 + n.
Proof.
  intros Hn.
  assert (Z.land (Z.shiftl x 6) n = 0) as Hz.
  { apply Z.bits_inj'. intros m Hm. rewrite Z.land_spec, Z.bits_0, Z.shiftl_spec by done.
    destruct (decide (m < 6)).
    - by rewrite (Z.testbit_neg_r x) by lia.
    - rewrite <- (Z.mod_small n (2 ^ 6)) by (simpl; lia).
      rewrite Z.mod_pow2_bits_high by lia. by rewrite andb_false_r. }
  rewrite <- Z.lxor_lor, <- Z.add_nocarry_lxor by done. rewrite Z.shiftl_mul_pow2 by lia. lia.
Qed.

Lemma base64_go_digit n src k x :
  0 <= n < 64 ->
  base64_go (base64_char n :: src) false k x =
  if k + 1 =? 4
  then byte_at (x * 64 + n) 16 :: byte_at (x * 64 + n) 8 :: byte_at (x * 64 + n) 0
       :: base64_go src false 0 0
  else base64_go src false (k + 1) (x * 64 + n).
Proof.
  intros Hn. pose proof (base64_digit n Hn) as H. unfold base64_digit_ok in H.
  repeat (apply andb_prop in H as [H ?]). rewrite negb_true_iff in *.
  cbn [base64_go andb].
  repeat match goal with E : _ = false |- _ => rewrite E; clear E end.
  match goal with E : (Z.land _ _ =? _) = true |- _ => apply Z.eqb_eq in E as -> end.
  by rewrite lor_shift6.
Qed.

Lemma base64_go_pad src k x : base64_go ("="%byte :: src) false k x = base64_rest k x.
Proof. reflexivity. Qed.

Lemma byte_at_spec x s b r :
  0 <= s -> 0 <= r < 2 ^ s -> x mod (256 * 2 ^ s) = bz b * 2 ^ s + r -> byte_at x s = b.
Proof.
  intros Hs Hr Hx. unfold byte_at. apply (inj bz). rewrite bz_zb, Z.shiftr_div_pow2 by done.
  assert (0 < 2 ^ s) by (apply Z.pow_pos_nonneg; lia).
  rewrite (Z.div_mod x (256 * 2 ^ s)), Hx by lia.
  replace (256 * 2 ^ s * (x / (256 * 2 ^ s)) + (bz b * 2 ^ s + r))
    with ((x / (256 * 2 ^ s) * 256 + bz b) * 2 ^ s + r) by lia.
  rewrite Z.div_add_l, (Z.div_small r) by lia.
  rewrite Z.add_0_r, Z.add_comm, Z.mod_add by lia. apply Z.mod_small, bz_range.
Qed.

(** The digit counter is a closed number: decide the tests on it. *)
Ltac count_digits :=
  rewrite !base64_go_digit by (repeat match goal with y := _ : Z |- _ => subst y end; Z.to_euclidean_division_equations; lia);
  rewrite ?base64_go_pad; unfold base64_rest;
  repeat match goal with
         | |- context [?k =? ?m] => let v := eval vm_compute in (k =? m) in change (k =? m) with v
         end; cbv iota; rewrite ?Z.shiftl_mul_pow2 by lia.

(** The decoder on a full group, and on what is left at the end. *)
Lemma base64_group a b c src (x := bz a * 65536 + bz b * 256 + bz c) :
  base64_go (base64_char (x / 262144) :: base64_char (x / 4096 mod 64)
             :: base64_char (x / 64 mod 64) :: base64_char (x mod 64) :: src) false 0 0 =
  a :: b :: c :: base64_go src false 0 0.
Proof.
  pose proof (bz_range a). pose proof (bz_range b). pose proof (bz_range c).
  count_digits.
  set (v := (((0 * 64 + x / 262144) * 64 + x / 4096 mod 64) * 64 + x / 64 mod 64) * 64 + x mod 64).
  assert (v = x) as ->
    by (unfold v, x; Z.to_euclidean_division_equations; lia).
  repeat f_equal; unfold x.
  - apply (byte_at_spec _ _ _ (bz b * 256 + bz c)); [lia..|]. rewrite Z.mod_small; lia.
  - apply (byte_at_spec _ _ _ (bz c)); [lia..|].
    replace (256 * 2 ^ 8) with 65536 by lia. rewrite <- Z.add_assoc, Z.add_comm, Z.mod_add by lia.
    rewrite Z.mod_small; lia.
  - apply (byte_at_spec _ _ _ 0); [lia..|].
    replace (bz a * 65536 + bz b * 256 + bz c) with (bz c + (bz a * 256 + bz b) * 256) by lia.
    rewrite Z.mod_add, Z.mod_small; lia.
Qed.

Lemma base64_end2 a b src (x := bz a * 65536 + bz b * 256) :
  base64_go (base64_char (x / 262144) :: base64_char (x / 4096 mod 64)
             :: base64_char (x / 64 mod 64) :: "="%byte :: src) false 0 0 = [a; b].
Proof.
  pose proof (bz_range a). pose proof (bz_range b).
  count_digits.
  set (v := (((0 * 64 + x / 262144) * 64 + x / 4096 mod 64) * 64 + x / 64 mod 64) * 2 ^ 6).
  assert (v = x) as -> by (unfold v, x; Z.to_euclidean_division_equations; lia).
  repeat f_equal; unfold x.
  - apply (byte_at_spec _ _ _ (bz b * 256)); [lia..|]. rewrite Z.mod_small; lia.
  - apply (byte_at_spec _ _ _ 0); [lia..|]. replace (256 * 2 ^ 8) with 65536 by lia.
    rewrite Z.add_comm, Z.mod_add by lia. rewrite Z.mod_small; lia.
Qed.

Lemma base64_end1 a src (x := bz a * 65536) :
  base64_go (base64_char (x / 262144) :: base64_char (x / 4096 mod 64)
             :: "="%byte :: src) false 0 0 = [a].
Proof.
  pose proof (bz_range a).
  count_digits.
  set (v := ((0 * 64 + x / 262144) * 64 + x / 4096 mod 64) * 2 ^ 12).
  assert (v = x) as -> by (unfold v, x; Z.to_euclidean_division_equations; lia).
  f_equal. apply (byte_at_spec _ _ _ 0); [unfold x; lia..|]. rewrite Z.mod_small; unfold x; lia.
Qed.

Lemma base64_roundtrip s : doBase64decode (base64_EncodeToString s) false = s.
Proof.
  unfold doBase64decode. revert s. fix go 1. intros [|a [|b [|c s]]].
  - reflexivity.
  - apply base64_end1.
  - apply base64_end2.
  - change (base64_EncodeToString (a :: b :: c :: s)) with
      (let x := bz a * 65536 + bz b * 256 + bz c in
       base64_char (x / 262144) :: base64_char (x / 4096 mod 64)
       :: base64_char (x / 64 mod 64) :: base64_char (x mod 64) :: base64_EncodeToString s).
    cbv zeta. rewrite base64_group. by rewrite go.
Qed.

(** C36: Each encoder is undone by its decoder on every byte string, whatever
    it holds: URL encoding by both URL decoders, hexadecimal and base64
    encoding by theirs; and the decoders report no error. *)
Theorem encodings_roundtrip (s : gostring) :
  value_of (urlDecode (value_of (urlEncode s))) = s
  /\ value_of (urlDecodeUni (value_of (urlEncode s))) = s
  /\ hexDecode (value_of (hexEncode s)) = (s, true, None)
  /\ base64decode (value_of (base64encode s)) = (s, true, None).
Proof.
  rewrite urlDecode_value, urlDecodeUni_value.
  change (value_of (urlEncode s)) with (flat_map encoded_byte s).
  unfold hexDecode, hexEncode, base64decode, base64encode, value_of, done_. cbn [fst].
  rewrite hex_roundtrip, base64_roundtrip. repeat split.
  - induction s as [|b s IH]; [done|]. cbn [flat_map]. by rewrite decode_encoded_byte, IH.
  - induction s as [|b s IH]; [done|]. cbn [flat_map]. by rewrite uni_decode_encoded_byte, IH.
Qed.

(** ** The flag that tells a change *)

(** A transformation is honest if it returns its input when it reports no
    change. *)
Definition honest (t : Transformation) : Prop := forall s out, t s = (out, false, None) -> out = s.

Lemma done_inv (s out : gostring) (c : bool) : done_ s c = (out, false, None) -> out = s /\ c = false.
Proof. unfold done_. intros [= <- ->]. done. Qed.

Lemma sublist_same {A} (l k : list A) : l `sublist_of` k -> length l = length k -> l = k.
Proof.
  induction 1 as [|x l k Hs IH|x l k Hs _]; simpl; intros Hl; [done|f_equal; auto|].
  apply sublist_length in Hs. lia.
Qed.

(** A transformation that scans for work and leaves alone what has none. *)
Lemma honest_if (b : gostring -> bool) (f : gostring -> gostring) :
  honest (fun s => if b s then done_ (f s) true else done_ s false).
Proof. intros s out. simpl. by destruct (b s); intros [? ?]%done_inv. Qed.

(** One that compares the results, or only their lengths. *)
Lemma honest_compare (f : gostring -> gostring) :
  honest (fun s => done_ (f s) (negb (bool_decide (s = f s)))).
Proof. intros s out [-> Hb%negb_false_iff%bool_decide_eq_true]%done_inv. done. Qed.

Lemma honest_length (f : gostring -> gostring) :
  (forall s, f s `sublist_of` s) -> honest (fun s => done_ (f s) (negb (zlen s =? zlen (f s)))).
Proof.
  intros Hf s out [-> Hb%negb_false_iff%Z.eqb_eq]%done_inv.
  unfold zlen in Hb. apply sublist_same; [apply Hf|lia].
Qed.

Lemma honest_true (f : gostring -> gostring) : honest (fun s => done_ (f s) true).
Proof. by intros s out [? ?]%done_inv. Qed.

(** One whose loop computes the flag. *)
Lemma honest_loop (f : gostring -> gostring * bool) :
  (forall s, snd (f s) = false -> fst (f s) = s) ->
  honest (fun s => let r := f s in done_ (fst r) (snd r)).
Proof. intros Hf s out [-> ?]%done_inv. auto. Qed.

Lemma trim_left_sublist p s : Strings.trim_left p s `sublist_of` s.
Proof.
  induction s as [|c s IH]; simpl; [done|]. destruct (p c); [by constructor|done].
Qed.

Lemma sublist_rev {A} (l k : list A) : l `sublist_of` k -> rev l `sublist_of` rev k.
Proof.
  induction 1; simpl; [constructor|by apply sublist_app|by apply sublist_inserts_r].
Qed.

Lemma trim_right_sublist p s : Strings.trim_right p s `sublist_of` s.
Proof.
  unfold Strings.trim_right. rewrite <- (rev_involutive s) at 2.
  apply sublist_rev, trim_left_sublist.
Qed.

Lemma js_go_honest s : snd (js_go s 0) = false -> fst (js_go s 0) = s.
Proof.
  induction s as [|a s IH]; [done|]. cbn [js_go].
  destruct (is_backslash a), s as [|c s]; try (cbn [fst snd]; by intros ->%IH).
  by destruct (js_step c s).
Qed.

Lemma removeCommentsChar_honest s :
  snd (removeCommentsChar_go s 0) = false -> fst (removeCommentsChar_go s 0) = s.
Proof.
  induction s as [|a s IH]; [done|]. cbn [removeCommentsChar_go].
  destruct (comment_marker (a :: s)); cbn [fst snd]; [done|]. by intros ->%IH.
Qed.

Lemma replaceComments_honest s :
  snd (doReplaceComments s 0 false) = false -> fst (doReplaceComments s 0 false) = s.
Proof.
  induction s as [|a s IH]; [done|]. cbn [doReplaceComments].
  destruct (at_ (a :: s) (lit "/*")); cbn [fst snd]; [done|]. by intros ->%IH.
Qed.

Lemma urlEncode_honest : honest urlEncode.
Proof.
  intros s out [-> Hs]%done_inv. induction s as [|c s IH]; [done|].
  apply existsb_false in Hs as [[Hc Hp%negb_false_iff]%orb_false_elim Hs].
  cbn [flat_map]. rewrite Hc, Hp. by rewrite (IH Hs).
Qed.

Lemma normalisePath_honest : honest normalisePath.
Proof.
  intros s out. unfold normalisePath.
  repeat case_match; intros [-> Hb]%done_inv; try done.
  by apply negb_false_iff, bool_decide_eq_true in Hb.
Qed.

Lemma trims_honest : honest trim_T /\ honest trimLeft /\ honest trimRight /\ honest removeNulls.
Proof.
  repeat split; apply honest_length; intros s; try apply filter_sublist;
    try apply trim_left_sublist; try apply trim_right_sublist.
  etrans; [apply trim_right_sublist|apply trim_left_sublist].
Qed.

Lemma loops_honest : honest jsDecode /\ honest removeCommentsChar /\ honest replaceComments.
Proof.
  repeat split.
  - intros s out. unfold jsDecode. destruct (needs is_backslash s);
      [intros [-> H]%done_inv; by apply js_go_honest|by intros [? _]%done_inv].
  - apply honest_loop, removeCommentsChar_honest.
  - apply honest_loop, replaceComments_honest.
Qed.

Lemma hexDecode_honest : honest hexDecode.
Proof. intros s out. unfold hexDecode. by case_match. Qed.

Section flags.
Context `{GoUnicode} (html_UnescapeString md5_Sum sha1_Sum : gostring -> gostring).

(** The names whose transformation may change its input silently. *)
Definition silent : list gostring :=
  [lit "compressWhitespace"; lit "escapeSeqDecode"; lit "removeComments";
   lit "removeWhitespace"; lit "normalisePathWin"; lit "normalizePathWin"].

Lemma registered_honest :
  Forall (fun e => fst e = lit "htmlEntityDecode" \/ fst e ∈ silent \/ honest (snd e))
         (registered html_UnescapeString md5_Sum sha1_Sum).
Proof.
  pose proof trims_honest as (?&?&?&?). pose proof loops_honest as (?&?&?).
  pose proof hexDecode_honest. unfold registered.
  repeat apply List.Forall_cons; [..|apply List.Forall_nil]; cbn [fst snd];
    first [by left | right; left; apply (bool_decide_unpack _); vm_compute; exact I
          | right; right; first [assumption | apply honest_true | apply honest_if
            | apply honest_compare | apply urlEncode_honest | apply normalisePath_honest
            | apply (honest_if (fun _ => false) id)]].
Qed.
(** An input that a transformation changes without saying so. *)
Lemma silent_change t s out : t s = (out, false, None) -> out <> s -> ~ honest t.
Proof. intros Ht Hne Hh. by apply Hne, (Hh s). Qed.

Lemma registered_silent :
  Forall (fun e => fst e ∉ silent \/ ~ honest (snd e))
         (registered html_UnescapeString md5_Sum sha1_Sum).
Proof.
  unfold registered.
  repeat apply List.Forall_cons; [..|apply List.Forall_nil]; cbn [fst snd];
    try (left; apply (bool_decide_unpack _); vm_compute; exact I); right.
  - by apply (silent_change _ (lit "a" ++ [x09]) (lit "a ")).
  - by apply (silent_change _ (lit "\q") (lit "q")).
  - by apply (silent_change _ (lit "a\b") (lit "a/b")).
  - by apply (silent_change _ (lit "a\b") (lit "a/b")).
  - by apply (silent_change _ (lit "a/*b*/c") (lit "ac")).
  - by apply (silent_change _ [xff] [xef; xbf; xbd]).
Qed.

(** Of the registered transformations (the HTML entity decoder of a
    library apart), exactly those named [compressWhitespace],
    [escapeSeqDecode], [removeComments], [removeWhitespace] and
    [normalisePathWin] can change a value and report that they did not:
    every other one, when it reports no change, returns its input. *)
Theorem change_flags (name : gostring) (t : Transformation) :
  In (name, t) (registered html_UnescapeString md5_Sum sha1_Sum) ->
  name <> lit "htmlEntityDecode" -> (honest t <-> name ∉ silent).
Proof.
  intros Hin Hne. pose proof registered_honest as Hh. pose proof registered_silent as Hs.
  rewrite List.Forall_forall in Hh, Hs. specialize (Hh _ Hin). specialize (Hs _ Hin).
  simpl in *. tauto.
Qed.

Lemma multimatch_go_last ts v res errs :
  Forall honest ts -> list.last res = Some v ->
  list.last (fst (multimatch_go ts v res errs)) = Some (fst (executeTransformations_go ts v errs))
  /\ snd (multimatch_go ts v res errs) = snd (executeTransformations_go ts v errs).
Proof.
  intros Hts. revert v res errs. induction Hts as [|t ts Ht _ IH]; [done|].
  intros v res errs Hl. simpl. destruct (t v) as [[out chg] [e|]] eqn:E; [by destruct chg; apply IH|].
  destruct chg; [apply IH; by rewrite last_snoc|]. apply Ht in E as ->. by apply IH.
Qed.

(** A multi-match rule whose transformations are honest ends with the
    value a plain rule would test: the last of the collected values is the
    result of the whole pipeline, with the same errors.  (With one of the
    silent transformations it may test another value; see the flags.) *)
Theorem multimatch_ends_with_pipeline (r : Rule) (v : gostring) :
  Forall honest (transformations r) ->
  list.last (fst (executeTransformationsMultimatch r v)) = Some (fst (executeTransformations r v))
  /\ snd (executeTransformationsMultimatch r v) = snd (executeTransformations r v).
Proof. intros Hr. by apply multimatch_go_last. Qed.
End flags.

(** A multi-match rule with [removeComments] never tests the cleaned value. *)
Lemma multimatch_misses_removed_comments :
  let r := NewRule <| transformations := [removeComments] |> in
  executeTransformationsMultimatch r (lit "un/**/ion") = ([lit "un/**/ion"], [])
  /\ executeTransformations r (lit "un/**/ion") = (lit "union", []).
Proof. by split. Qed.

(** ** The decoders write behind their read position *)

Lemma escape_go_length s k : (length (fst (escape_go s k)) <= length s)%nat.
Proof.
  revert k. induction s as [|a s IH]; intros [|k]; cbn [escape_go]; [done..| |].
  - destruct (is_backslash a), s as [|c s]; try (specialize (IH 0%nat); simpl in *; lia).
    destruct (escape_step c s) as [[b n] chg]. specialize (IH n). cbn [fst length] in *. lia.
  - specialize (IH k). simpl. lia.
Qed.

Lemma js_go_length s k : (length (fst (js_go s k)) <= length s)%nat.
Proof.
  revert k. induction s as [|a s IH]; intros [|k]; cbn [js_go]; [done..| |].
  - destruct (is_backslash a), s as [|c s]; try (specialize (IH 0%nat); simpl in *; lia).
    destruct (js_step c s) as [b n]. specialize (IH n). cbn [fst length] in *. lia.
  - specialize (IH k). simpl. lia.
Qed.

Lemma css_step_length s : (length (fst (css_step s)) <= 1)%nat.
Proof. unfold css_step. repeat case_match; simpl; lia. Qed.

Lemma css_go_length s k : (length (css_go s k) <= length s)%nat.
Proof.
  revert k. induction s as [|a s IH]; intros [|k]; cbn [css_go]; [done..| |].
  - destruct (is_backslash a); [|specialize (IH 0%nat); simpl in *; lia].
    pose proof (css_step_length s). destruct (css_step s) as [out n]. specialize (IH n).
    rewrite length_app. simpl in *. lia.
  - specialize (IH k). simpl. lia.
Qed.

Lemma doURLDecode_length s : (length (doURLDecode s) <= length s)%nat.
Proof.
  revert s. fix go 1. intros [|a s]; [simpl; lia|]. pose proof (go s). cbn [doURLDecode].
  destruct (bool_decide (a = "%"%byte)); [|simpl; lia].
  destruct s as [|c1 [|c2 s]]; cbn [length] in *; try lia. pose proof (go s).
  case_match; simpl in *; lia.
Qed.

Lemma inplaceUniDecode_length s : (length (inplaceUniDecode s) <= length s)%nat.
Proof.
  revert s. fix go 1. intros [|a s]; [simpl; lia|]. pose proof (go s). cbn [inplaceUniDecode].
  destruct (bool_decide (a = "%"%byte)); [|simpl; lia].
  destruct s as [|u s]; [simpl; lia|]. pose proof (go s).
  destruct (bool_decide (u ∈ _)).
  - destruct s as [|h1 [|h2 [|h3 [|h4 s]]]]; cbn [length] in *; try lia.
    pose proof (go s). case_match; cbn [length] in *; lia.
  - destruct s as [|c2 s]; cbn [length] in *; [lia|]. pose proof (go s).
    case_match; cbn [length] in *; lia.
Qed.

Lemma removeComments_go_length s k st :
  (length (fst (removeComments_go s k st)) <= length s + match st with Text => 0 | _ => 1 end)%nat.
Proof.
  revert k st. induction s as [|a s IH]; intros [|k] st; cbn [removeComments_go].
  1, 2: destruct st; simpl; lia.
  - pose proof (IH 0%nat Text). pose proof (IH 0%nat Comment). pose proof (IH 1%nat Comment).
    pose proof (IH 3%nat Comment). pose proof (IH 1%nat Closed). pose proof (IH 2%nat Closed).
    cbn iota in *. destruct st; repeat case_match; cbn [fst length] in *; lia.
  - specialize (IH k st). simpl. lia.
Qed.

Lemma doReplaceComments_length s k inc :
  (length (fst (doReplaceComments s k inc)) <= length s + (if inc then 1 else 0))%nat.
Proof.
  revert k inc. induction s as [|a s IH]; intros [|k] inc; cbn [doReplaceComments].
  1, 2: destruct inc; simpl; lia.
  - pose proof (IH 0%nat true). pose proof (IH 1%nat false). pose proof (IH 1%nat true).
    pose proof (IH 0%nat false).
    destruct inc; repeat case_match; cbn [fst length] in *; lia.
  - specialize (IH k inc). simpl. lia.
Qed.

(** No decoder that works in place on a copy of its input ever writes more
    bytes than the input has, whatever escapes it holds: the write position
    stays in the buffer. *)
Theorem in_place_decoders_fit (s : gostring) :
  Forall (fun t : Transformation => zlen (value_of (t s)) <= zlen s)
    [urlDecode; urlDecodeUni; escapeSeqDecode; jsDecode; cssDecode; removeComments;
     replaceComments].
Proof.
  pose proof (doURLDecode_length s). pose proof (inplaceUniDecode_length s).
  pose proof (escape_go_length s 0). pose proof (js_go_length s 0). pose proof (css_go_length s 0).
  pose proof (removeComments_go_length s 0 Text). pose proof (doReplaceComments_length s 0 false).
  cbn iota in *. unfold zlen. repeat apply List.Forall_cons; [..|apply List.Forall_nil].
  1: rewrite urlDecode_value; lia.
  1: rewrite urlDecodeUni_value; lia.
  all: unfold escapeSeqDecode, jsDecode, cssDecode, removeComments, replaceComments, value_of.
  all: try destruct (needs is_backslash s);
    unfold done_, doEscapeSeqDecode, doJsDecode, cssDecodeInplace; cbn [fst]; lia.
Qed.

(** ** Octal escapes of JavaScript *)

(** An octal escape is decoded to NUL whatever its digits: the buffer starts
    with the backslash, so no number is read from it. *)
Lemma octal_buffer_starts_with_backslash c rest :
  isODigit c = true -> exists t, js_octal ("\"%byte :: c :: rest) = "\"%byte :: t.
Proof.
  intros Hc. unfold js_octal. cbn [js_octal_go lookup list_lookup app]. rewrite Hc.
  destruct rest as [|c2 [|c3 rest]]; cbn [js_octal_go lookup list_lookup app];
    repeat case_match; simplify_eq; eauto.
Qed.

Lemma octal_escapes_decode_to_nul c rest :
  isODigit c = true -> exists t, value_of (jsDecode ("\"%byte :: c :: rest)) = x00 :: t.
Proof.
  intros Hc. destruct (octal_buffer_starts_with_backslash c rest Hc) as [t Ht].
  change (jsDecode ("\"%byte :: c :: rest)) with
    (let r := js_go ("\"%byte :: c :: rest) 0 in done_ (fst r) (snd r)).
  unfold value_of, done_. cbv zeta. cbn [fst].
  change (js_go ("\"%byte :: c :: rest) 0) with
    (let '(b, n) := js_step c rest in let r := js_go (c :: rest) n in (b :: fst r, true)).
  unfold js_step. rewrite !bool_decide_eq_false_2 by (intros ->; done).
  rewrite Hc, Ht. cbn [fst]. eauto.
Qed.

(** The byte behind a one-digit escape is lost. *)
Lemma octal_escape_swallows_a_byte : value_of (jsDecode (lit "\1x")) = [x00].
Proof. reflexivity. Qed.

(** ** Paths *)

(** A component that the cleaned path may hold. *)
Definition proper_component (data c : gostring) : Prop :=
  c <> [] /\ c <> lit "." /\ c <> lit ".." /\ c ∈ split_on "/"%byte data.

Lemma clean_component_proper data out c :
  c ∈ split_on "/"%byte data -> Forall (proper_component data) out ->
  Forall (proper_component data) (clean_component true out c).
Proof.
  intros Hc Hout. unfold clean_component.
  destruct (bool_decide_reflect (c = [])); [done|].
  destruct (bool_decide_reflect (c = lit ".")); [done|].
  destruct (bool_decide_reflect (c = lit "..")); [|by constructor].
  destruct Hout as [|top out Ht Hout]; [done|].
  rewrite bool_decide_eq_false_2 by apply Ht. done.
Qed.

Lemma cleaned_proper data :
  is_rooted data = true -> Forall (proper_component data) (cleaned data).
Proof.
  intros Hr. unfold cleaned. rewrite Hr.
  assert (forall cs out, Forall (fun c => c ∈ split_on "/"%byte data) cs ->
    Forall (proper_component data) out ->
    Forall (proper_component data) (fold_left (clean_component true) cs out)) as H.
  { induction cs as [|c cs IH]; intros out Hcs Hout; [done|]. inversion Hcs; subst.
    apply IH; [done|by apply clean_component_proper]. }
  apply H; [|constructor]. apply List.Forall_forall. intros c. apply list_elem_of_In.
Qed.

(** The components of a cleaned rooted path, with or without a last slash. *)
Lemma split_on_cleaned (cs : list gostring) (slash : bool) :
  Forall (fun c => "/"%byte ∉ c) cs ->
  split_on "/"%byte (lit "/" ++ join "/"%byte cs ++ (if slash then lit "/" else [])) ⊆ [] :: cs.
Proof.
  intros Hcs. change (lit "/") with ["/"%byte]. cbn [app split_on].
  rewrite bool_decide_eq_true_2 by done.
  destruct (decide (cs = [])) as [->|Hne].
  - destruct slash; intros x; simpl; set_solver.
  - destruct slash.
    + rewrite <- join_snoc, split_on_join by
        first [by destruct cs | apply Forall_app; split; [done|];
               by constructor; [apply not_elem_of_nil|]].
      set_solver.
    + rewrite app_nil_r, split_on_join by done. set_solver.
Qed.

(** C37: A rooted path that was normalised is rooted and has no dot and no
    dot-dot component, wherever the input had them and however many: what is
    left are components of the input and empty ones, so a rule that looks for
    a directory cannot be evaded by walking out of another. *)
Theorem normalised_path_has_no_traversal (data : gostring) :
  is_rooted data = true ->
  is_rooted (value_of (normalisePath data)) = true
  /\ forall c, c ∈ split_on "/"%byte (value_of (normalisePath data)) ->
       c = [] \/ (c ∈ split_on "/"%byte data /\ c <> lit "." /\ c <> lit "..").
Proof.
  intros Hr. pose proof (cleaned_proper data Hr) as Hc.
  assert (data <> []) as Hne by (by intros ->).
  assert (exists slash : bool, value_of (normalisePath data) =
    lit "/" ++ join "/"%byte (rev (cleaned data)) ++ (if slash then lit "/" else [])) as [sl ->].
  { unfold normalisePath, path_Clean. rewrite Hr, !(bool_decide_eq_false_2 (data = [])) by done.
    rewrite !bool_decide_eq_false_2 by done.
    destruct (Strings.HasSuffix data (lit "/")); [exists true|exists false];
      cbv zeta; unfold value_of, done_; cbn [fst]; by rewrite ?app_nil_r, ?app_assoc. }
  split; [done|]. intros c Hin.
  assert (Forall (proper_component data) (rev (cleaned data))) as Hrev
    by (apply List.Forall_forall; intros x ?%in_rev; by eapply List.Forall_forall in Hc).
  apply split_on_cleaned in Hin.
  - apply elem_of_cons in Hin as [->|Hin]; [by left|right].
    eapply (proj1 (List.Forall_forall _ _)) in Hrev; [|by apply list_elem_of_In].
    destruct Hrev as (?&?&?&?). done.
  - eapply Forall_impl; [|exact Hrev]. intros x (_&_&_&Hx).
    eapply (proj1 (List.Forall_forall _ _) (split_on_pieces _ data)). by apply list_elem_of_In.
Qed.

(** Relative paths keep the dot-dot components that lead out of them. *)
Lemma relative_path_keeps_leading_dots :
  value_of (normalisePath (lit "a/../../x")) = lit "../x"
  /\ value_of (normalisePath (lit "/")) = lit "//".
Proof. by split. Qed.

Module transform_witnesses.
Lemma normalised_path_has_no_traversal_witness :
  is_rooted (value_of (normalisePath (lit "/a/../../etc/passwd"))) = true
  /\ forall c, c ∈ split_on "/"%byte (value_of (normalisePath (lit "/a/../../etc/passwd"))) ->
       c = [] \/ (c ∈ split_on "/"%byte (lit "/a/../../etc/passwd") /\ c <> lit "." /\ c <> lit "..").
Proof. by apply normalised_path_has_no_traversal. Defined.

Lemma multimatch_ends_with_pipeline_witness :
  let r := NewRule <| transformations := [urlDecode; jsDecode] |> in
  list.last (fst (executeTransformationsMultimatch r (lit "a%5cn"))) =
  Some (fst (executeTransformations r (lit "a%5cn")))
  /\ snd (executeTransformationsMultimatch r (lit "a%5cn")) = snd (executeTransformations r (lit "a%5cn")).
Proof.
  intros r. apply (multimatch_ends_with_pipeline r (lit "a%5cn")).
  repeat apply List.Forall_cons; [apply honest_if|apply loops_honest|apply List.Forall_nil].
Defined.

Lemma change_flags_witness :
  let md5 := fun _ : gostring => lit "digest" in
  honest urlDecode <-> lit "urlDecode" ∉ silent.
Proof.
  intros md5. unshelve eapply (@change_flags demo.unicode id md5 md5); [|done].
  unfold registered. do 27 right. left. reflexivity.
Defined.
End transform_witnesses.
