(* ===== verification/RuleParser.v ===== *)
(** * The rule parser (internal/seclang/rule_parser.go)

    A rule is written [SecRule VARIABLES "OPERATOR" "ACTIONS"].  This file
    models the parser of each part, the default actions that a rule inherits
    and the attachment of a rule to the chain that waits for it. *)

From stdpp Require Import options.
From Stdlib Require Import Strings.Byte.
From S2P Require Import Prelude GoLib HttpParse Variables Types Collections BodyBuffer.
From S2P Require Import Transaction Macro Rule TransactionOps Actions Operators.
Import types.

(** The errors of the parser. *)
Inductive ParseErr :=
| ErrEmptyRule
| ErrUnknownVariable
| ErrNotSelectable (v : gostring)
| ErrUnclosedQuote (key : gostring)
| ErrKeyRegexp
| ErrOperator (e : OperatorErr)
| ErrUnknownAction (name : gostring)
| ErrInvalidPhase
| ErrDefaultMetadata
| ErrDefaultTransformation
| ErrDefaultWithoutPhase
| ErrDefaultWithoutDisruptive
| ErrDefaultTwice
| ErrActionDisabled (name : gostring)
| ErrOperatorDisabled (op : gostring)
| ErrActionInit (name : gostring) (e : ActionErr)
| ErrRuleFormat
| ErrRuleOperator
| ErrRuleActions
| ErrExpectedQuotedString
| ErrExpectedTerminatingQuote.

(** ** Computations that keep a state, fail and may panic

    A failed computation keeps its state: the caller may go on. *)

Abbreviation P S E A := (S -> outcome ((A + E) * S)).

Section monad.
Context {S E : Type}.

Definition pret {A} (a : A) : P S E A := fun s => Ok (inl a, s).
Definition pfail {A} (e : E) : P S E A := fun s => Ok (inr e, s).
Definition ppanic {A} : P S E A := fun _ => Panic.
Definition pget : P S E S := fun s => Ok (inl s, s).
Definition pput (s : S) : P S E unit := fun _ => Ok (inl tt, s).

Definition pbind {A B} (m : P S E A) (k : A -> P S E B) : P S E B := fun s =>
  match m s with
  | Panic => Panic
  | Ok (inr e, s) => Ok (inr e, s)
  | Ok (inl a, s) => k a s
  end.

(** A result that is already computed. *)
Definition plift {A} (r : A + E) : P S E A :=
  match r with inl a => pret a | inr e => pfail e end.

(** A loop over a list that stops at the first error. *)
Fixpoint pfor {A} (f : A -> P S E unit) (l : list A) : P S E unit :=
  match l with
  | [] => pret tt
  | a :: l => pbind (f a) (fun _ => pfor f l)
  end.
End monad.

Declare Scope parser_scope.
Delimit Scope parser_scope with parser.
Notation "'let*' x := m 'in' k" := (pbind m (fun x => k))
  (at level 200, x pattern, m at level 100, k at level 200) : parser_scope.
Notation "m ;* k" := (pbind m (fun _ => k)) (at level 199, right associativity) : parser_scope.

(** ** Actions of a rule's text *)

(** A new action of each constructor of the registry, before [Init]. *)
Definition new_action (c : ruleActionWrapper) : action :=
  match c with
  | allow => allowFn AllowTypeUnset | auditlog => auditlogFn | block => blockFn
  | capture => captureFn | chain => chainFn
  | ctl => ctlFn ctlUnknown [] variables.Unknown [] | deny => denyFn | drop_ => dropFn
  | exec => execFn | expirevar => expirevarFn | id_ => idFn | initcol => initcolFn [] []
  | log => logFn | logdata => logdataFn | maturity => maturityFn | msg => msgFn
  | multimatch => multimatchFn | noauditlog => noauditlogFn | nolog => nologFn | pass => passFn
  | phase_ => phaseFn | redirect => redirectFn [] | rev_ => revFn
  | setenv => setenvFn [] (mkMacro [] []) | setvar => setvarFn None None variables.Unknown false
  | severity => severityFn | skip => skipFn 0 | skipafter => skipafterFn [] | status => statusFn
  | t_ => tFn | tag => tagFn | ver => verFn
  end.

(** The struct [ruleAction]; in its zero value [F] is [nil] and the type is
    none of the constants. *)
Record ruleAction := mkRuleAction {
  ra_Key : gostring;
  ra_Value : gostring;
  ra_Atype : option ActionType;
  ra_F : option ruleActionWrapper;
}.

#[global] Instance ruleAction_eq_dec : EqDecision ruleAction.
Proof. solve_decision. Defined.

Definition zero_ruleAction : ruleAction := mkRuleAction [] [] None None.

Definition is_type (t : ActionType) (a : ruleAction) : bool := bool_decide (ra_Atype a = Some t).
Abbreviation is_disruptive := (is_type ActionTypeDisruptive).
Abbreviation is_metadata := (is_type ActionTypeMetadata).

(** The registries that plugins extend and the library of regular expressions:
    [operators.Get], [transformations.GetTransformation] and [regexp.Compile]
    ([None] is an error). *)
Class Registries := {
  operators_Get : gostring -> OperatorOptions -> Operator + OperatorErr;
  GetTransformation : gostring -> option Transformation;
  regexp_Compile : gostring -> option Regexp;
}.

Section rule_parser.
Context `{GoUnicode} `{Registries}.

(** [appendRuleAction]: a second disruptive action takes the place of the
    first one, whose index is kept. *)
Definition appendRuleAction (res : list ruleAction) (key val : gostring)
  (disruptiveActionIndex : option nat) : (list ruleAction * option nat) + ParseErr :=
  let key := Strings.ToLower (Strings.TrimSpace key) in
  let val := MaybeRemoveQuotes (Strings.TrimSpace val) in
  match Get key with
  | None => inr (ErrUnknownAction key)
  | Some f =>
    let t := action_Type (new_action f) in
    let a := mkRuleAction key val (Some t) (Some f) in
    match t, disruptiveActionIndex with
    | ActionTypeDisruptive, Some i => inl (<[i := a]> res, Some i)
    | ActionTypeDisruptive, None => inl (res ++ [a], Some (length res))
    | _, i => inl (res ++ [a], i)
    end
  end.

(** The loop of [parseActions].  [key] is the key of the current action once
    its colon was read, [cur] the text since then (since the last comma if
    there was no colon); [prev] is the previous byte. *)
Fixpoint parseActions_go (s : gostring) (prev : byte) (inQuotes : bool) (key : option gostring)
  (cur : gostring) (res : list ruleAction) (disruptive : option nat)
  : (list ruleAction * option nat) + ParseErr :=
  let append res disruptive :=
    match key with
    | None => appendRuleAction res cur [] disruptive
    | Some k => appendRuleAction res k cur disruptive
    end in
  match s with
  | [] => append res disruptive
  | c :: s =>
    let continue := parseActions_go s c inQuotes key (cur ++ [c]) res disruptive in
    if bool_decide (prev = "\"%byte) then continue
    else if bool_decide (c = "'"%byte) then
      parseActions_go s c (negb inQuotes) key (cur ++ [c]) res disruptive
    else if inQuotes then continue
    else if bool_decide (c = ":"%byte) then
      match key with
      | Some _ => continue
      | None => parseActions_go s c inQuotes (Some cur) [] res disruptive
      end
    else if bool_decide (c = ","%byte) then
      match append res disruptive with
      | inr e => inr e
      | inl (res, disruptive) => parseActions_go s c inQuotes None [] res disruptive
      end
    else continue
  end.

(** [parseActions]: the loop starts at the second byte. *)
Definition parseActions (actions : gostring) : list ruleAction + ParseErr :=
  match (match actions with
         | [] => appendRuleAction [] [] [] None
         | c :: s => parseActions_go s c false None [c] [] None
         end) with
  | inl (res, _) => inl res
  | inr e => inr e
  end.

(** [mergeActions]. *)
Definition mergeActions (origin defaults : list ruleAction) : list ruleAction :=
  let da := foldl (fun da a => if is_disruptive a then a else da) zero_ruleAction defaults in
  let inherited := List.filter (fun a => negb (is_disruptive a) && negb (is_metadata a)) defaults in
  let is_block a := is_disruptive a && bool_decide (ra_Key a = lit "block") in
  let own := List.filter (fun a => negb (is_block a)) origin in
  let hasDa := existsb (fun a => is_disruptive a && negb (is_block a)) origin in
  inherited ++ own ++ (if hasDa then [] else [da]).

(** ** Targets *)

(** What the parser is reading: a variable name, a key, a regular expression
    or an XPath expression. *)
Inductive reading := inName | inKey | inRegex | inXPath.

#[global] Instance reading_eq_dec : EqDecision reading.
Proof. solve_decision. Defined.

(** The local variables of [ParseVariables]. *)
Record varState := mkVarState {
  curr : reading;
  isNegation : bool;
  isCount : bool;
  curVar : gostring;
  curKey : gostring;
  isEscaped : bool;
  isquoted : bool;
}.

#[global] Instance varState_form : RecordForm varState :=
  fun s => mkVarState (curr s) (isNegation s) (isCount s) (curVar s) (curKey s) (isEscaped s)
    (isquoted s).

Definition varState0 : varState := mkVarState inName false false [] [] false false.

Section parse_variables.
(** The rule that [AddVariable] and [AddVariableNegation] change. *)
Context {S : Type} (addVariable : S -> RuleVariable -> gostring -> bool -> option S).
Context (addNegation : S -> RuleVariable -> gostring -> option S).

(** The end of a target: the number of bytes to skip before the next one, and
    the changed rule.  [next] is the byte after [c], if there is one. *)
Definition finish_variable (st : varState) (c : byte) (next : option byte) (r : S)
  : (nat * S) + ParseErr :=
  let pipe := bool_decide (c = "|"%byte) in
  let curVar := if negb pipe && bool_decide (curr st = inName) then curVar st ++ [c]
                else curVar st in
  let curKey := if negb pipe && negb (bool_decide (curr st = inName))
                   && negb (bool_decide (curr st = inRegex)) && negb (bool_decide (c = "/"%byte))
                then curKey st ++ [c] else curKey st in
  match variables.Parse curVar with
  | None => inr ErrUnknownVariable
  | Some v =>
    if bool_decide (curr st = inKey) && negb (variables.CanBeSelected v)
    then inr (ErrNotSelectable curVar)
    else if isquoted st && negb (bool_decide (next = Some "'"%byte))
            && negb (bool_decide (c = "'"%byte))
    then inr (ErrUnclosedQuote curKey)
    else
      let n := if isquoted st then 2%nat
                  else if bool_decide (curr st = inRegex) then 1%nat else 0%nat in
      let key := if bool_decide (curr st = inRegex)
                 then "/"%byte :: curKey ++ ["/"%byte] else curKey in
      match (if isNegation st then addNegation r v key else addVariable r v key (isCount st)) with
      | None => inr ErrKeyRegexp
      | Some r => inl (n, r)
      end
  end.

(** One byte inside a target. *)
Definition step_variable (st : varState) (c : byte) : varState :=
  match curr st with
  | inName =>
    if bool_decide (c = "!"%byte) then st <| isNegation := true |>
    else if bool_decide (c = "&"%byte) then st <| isCount := true |>
    else if bool_decide (c = ":"%byte) then st <| curr := inKey |>
    else st <| curVar := curVar st ++ [c] |>
  | inKey =>
    if bool_decide (curKey st = [])
       && (bool_decide (curVar st = lit "XML") || bool_decide (curVar st = lit "JSON"))
    then st <| curr := inXPath |> <| curKey := curKey st ++ [c] |>
    else if bool_decide (c = "/"%byte) then st <| curr := inRegex |>
    else if bool_decide (c = "'"%byte) then st <| isquoted := true |>
    else st <| curKey := curKey st ++ [c] |>
  | inRegex =>
    if bool_decide (c = "/"%byte) && negb (isEscaped st) then st <| curr := inKey |>
    else if bool_decide (c = "\"%byte)
    then st <| curKey := curKey st ++ ["\"%byte] |> <| isEscaped := negb (isEscaped st) |>
    else st <| curKey := curKey st ++ [c] |> <| isEscaped := false |>
  | inXPath => st <| curKey := curKey st ++ [c] |>
  end.

(** The condition of the loop's first [if]; [last] holds at the last byte. *)
Definition ends_variable (st : varState) (c : byte) (last : bool) : bool :=
  (bool_decide (c = "|"%byte) && negb (bool_decide (curr st = inRegex)))
  || last
  || (bool_decide (curr st = inRegex) && bool_decide (c = "/"%byte) && negb (isEscaped st)).

(** The loop of [ParseVariables]; [n] counts the bytes that an increment of
    the index passes over. *)
Fixpoint ParseVariables_go (s : gostring) (n : nat) (st : varState) (r : S) : S + ParseErr :=
  match s with
  | [] => inl r
  | c :: s =>
    match n with
    | Datatypes.S n => ParseVariables_go s n st r
    | O =>
      if ends_variable st c (bool_decide (s = [])) then
        match finish_variable st c (head s) r with
        | inr e => inr e
        | inl (n, r) =>
          ParseVariables_go s n (varState0 <| isEscaped := isEscaped st |>) r
        end
      else ParseVariables_go s 0 (step_variable st c) r
    end
  end.

Definition ParseVariables (vars : gostring) (r : S) : S + ParseErr :=
  ParseVariables_go vars 0 varState0 r.
End parse_variables.

(** ** The parser's state *)

(** What [ParseRule] works on: the rule, the default actions by phase, and the
    global tables of transformation identifiers. *)
Record RuleParser := mkRuleParser {
  rp_rule : Rule;
  rp_defaultActions : gmap RulePhase (list ruleAction);
  rp_ids : transformationIDs;
}.

#[global] Instance RuleParser_form : RecordForm RuleParser :=
  fun p => mkRuleParser (rp_rule p) (rp_defaultActions p) (rp_ids p).

(** The struct [ParserConfig] without the root of the file system. *)
Record ParserConfig := mkParserConfig {
  DisabledRuleActions : list gostring;
  DisabledRuleOperators : list gostring;
  RuleDefaultActions : list gostring;
  HasRuleDefaultActions : bool;
  IgnoreRuleCompilationErrors : bool;
  LastLine : Z;
  ConfigFile : gostring;
  ConfigDir : gostring;
  WorkingDir : gostring;
}.

#[global] Instance ParserConfig_form : RecordForm ParserConfig :=
  fun c => mkParserConfig (DisabledRuleActions c) (DisabledRuleOperators c) (RuleDefaultActions c)
    (HasRuleDefaultActions c) (IgnoreRuleCompilationErrors c) (LastLine c) (ConfigFile c)
    (ConfigDir c) (WorkingDir c).

(** The struct [RuleOptions] without the WAF, whose rules [ParseRule] gets as
    an argument. *)
Record RuleOptions := mkRuleOptions {
  WithOperator : bool;
  ro_ParserConfig : ParserConfig;
  Raw : gostring;
  Directive : gostring;
  Data : gostring;
  ro_Datasets : gmap gostring (list gostring);
}.

Abbreviation RP A := (P RuleParser ParseErr A).
Open Scope parser_scope.

(** ** Operators *)

(** The first [switch]: [@rx] is the default operator. *)
Definition complete_operator (operator : gostring) : gostring :=
  match operator with
  | [] => lit "@rx "
  | c :: rest =>
    if negb (bool_decide (c = "@"%byte)) && negb (bool_decide (c = "!"%byte))
    then lit "@rx " ++ operator
    else if bool_decide (operator = lit "!") then lit "!@rx"
    else match rest with
         | c' :: _ =>
           if bool_decide (c = "!"%byte) && negb (bool_decide (c' = "@"%byte))
           then lit "!@rx " ++ rest else operator
         | [] => operator
         end
  end.

(** The name without [@] or [!@]; an empty one panics. *)
Definition operator_name (op : gostring) : outcome gostring :=
  match op with
  | [] => Panic
  | c :: rest =>
    if bool_decide (c = "@"%byte) then Ok rest
    else match rest with
         | c' :: c'' :: rest' =>
           if bool_decide (c = "!"%byte) && bool_decide (c' = "@"%byte) then Ok (c'' :: rest')
           else Ok op
         | _ => Ok op
         end
  end.

Definition ParseOperator (options : RuleOptions) (operator : gostring) : RP unit :=
  let '(opRaw, opdataRaw, _) := Strings.Cut (complete_operator operator) " "%byte in
  let op := Strings.TrimSpace opRaw in
  let opdata := Strings.TrimSpace opdataRaw in
  match operator_name op with
  | Panic => ppanic
  | Ok op =>
    let cfg := ro_ParserConfig options in
    let path := ConfigDir cfg ::
      (if bool_decide (WorkingDir cfg = []) then [] else [WorkingDir cfg]) in
    match operators_Get op (mkOperatorOptions opdata path (ro_Datasets options)) with
    | inr e => pfail (ErrOperator e)
    | inl opfn =>
      let* p := pget in
      pput (p <| rp_rule := SetOperator (rp_rule p) opfn opRaw opdata |>)
    end
  end.

(** ** Actions and default actions *)

Definition defaultActionsPhase2 : gostring := lit "phase:2,log,auditlog,pass".

(** The loop of [ParseDefaultActions]: the phase and the last disruptive
    action. *)
Fixpoint scan_defaults (act : list ruleAction) (phase : RulePhase) (defaultDisruptive : gostring)
  : (RulePhase * gostring) + ParseErr :=
  match act with
  | [] => inl (phase, defaultDisruptive)
  | a :: act =>
    if bool_decide (ra_Key a = lit "phase") then
      match ParseRulePhase (ra_Value a) with
      | None => inr ErrInvalidPhase
      | Some phase => scan_defaults act phase defaultDisruptive
      end
    else
      let defaultDisruptive := if is_disruptive a then ra_Key a else defaultDisruptive in
      if is_metadata a then inr ErrDefaultMetadata
      else if bool_decide (ra_Key a = lit "t") then inr ErrDefaultTransformation
      else scan_defaults act phase defaultDisruptive
  end.

Definition ParseDefaultActions (actions : gostring) : RP unit :=
  let* act := plift (parseActions actions) in
  let* (phase, defaultDisruptive) := plift (scan_defaults act 0 []) in
  if phase =? 0 then pfail ErrDefaultWithoutPhase
  else if bool_decide (defaultDisruptive = []) then pfail ErrDefaultWithoutDisruptive
  else
    let* p := pget in
    if bool_decide (is_Some (rp_defaultActions p !! phase)) then pfail ErrDefaultTwice
    else pput (p <| rp_defaultActions := <[phase := act]> (rp_defaultActions p) |>).

(** [a.F.Init(rp.rule, a.Value)]; a [nil] action panics. *)
Definition init_action (a : ruleAction) : RP action :=
  match ra_F a with
  | None => ppanic
  | Some f =>
    let* p := pget in
    match Init GetTransformation (rp_ids p) (rp_rule p) f (ra_Value a) with
    | Panic => ppanic
    | Ok (inr e) => pfail (ErrActionInit (ra_Key a) e)
    | Ok (inl (r, fn, ids)) => pput (p <| rp_rule := r |> <| rp_ids := ids |>) ;* pret fn
    end
  end.

(** The last loop of [ParseActions] on one action. *)
Definition add_action (a : ruleAction) : RP unit :=
  if is_metadata a then pret tt
  else
    let* fn := init_action a in
    let* p := pget in
    pput (p <| rp_rule := AddAction (rp_rule p) (ra_Key a) fn |>).

Definition ParseActions (cfg : ParserConfig) (actions : gostring) : RP unit :=
  let* act := plift (parseActions actions) in
  pfor (fun a => if InSlice (ra_Key a) (DisabledRuleActions cfg)
                 then pfail (ErrActionDisabled (ra_Key a)) else pret tt) act ;*
  pfor (fun a => if is_metadata a then init_action a ;* pret tt else pret tt) act ;*
  let* p := pget in
  let act := match rp_defaultActions p !! rPhase (rp_rule p) with
             | None => act
             | Some defaults => mergeActions act defaults
             end in
  pfor add_action act.

(** ** The parts of a rule *)

(** The loop of [cutQuotedString] after the opening quote; [seen] is the text
    read. *)
Fixpoint cutQuoted_go (s : gostring) (previousEscapeCount : nat) (seen : gostring)
  : option (gostring * gostring) :=
  match s with
  | [] => None
  | c :: s =>
    if negb (bool_decide (c = x22)) then
      cutQuoted_go s (if bool_decide (c = "\"%byte) then Datatypes.S previousEscapeCount else 0%nat)
        (seen ++ [c])
    else if Nat.odd previousEscapeCount then cutQuoted_go s 0 (seen ++ [c])
    else Some (seen ++ [c], s)
  end.

Definition cutQuotedString (s : gostring) : (gostring * gostring) + ParseErr :=
  match s with
  | [] => inr ErrExpectedQuotedString
  | c :: rest =>
    if negb (bool_decide (c = x22)) then inr ErrExpectedQuotedString
    else match cutQuoted_go rest 0 [c] with
         | Some r => inl r
         | None => inr ErrExpectedTerminatingQuote
         end
  end.

Abbreviation is_space := (fun b => bool_decide (b = " "%byte)).

(** [parseActionOperator]: the variables, the operator and the actions. *)
Definition parseActionOperator (data : gostring) : (gostring * gostring * gostring) + ParseErr :=
  let data := Strings.trim is_space data in
  match Strings.Cut data " "%byte with
  | (_, _, false) => inr ErrRuleFormat
  | (vars, rest, true) =>
    let rest := Strings.trim_left is_space rest in
    if negb (bool_decide (head rest = Some x22)) then inr ErrRuleOperator
    else
      match cutQuotedString rest with
      | inr e => inr e
      | inl (op, rest) =>
        let op := MaybeRemoveQuotes op in
        let rest := Strings.trim_left is_space rest in
        if bool_decide (rest = []) then inl (vars, op, [])
        else if (zlen rest <? 2) || negb (bool_decide (head rest = Some x22))
                || negb (bool_decide (list.last rest = Some x22))
        then inr ErrRuleActions
        else inl (vars, op, MaybeRemoveQuotes rest)
      end
  end.

(** ** Chains *)

(** The last rule of a chain. *)
Fixpoint last_chain (r : Rule) : Rule :=
  match Chain r with Some c => last_chain c | None => r end.

(** [getLastRuleExpectingChain]: the last rule of the WAF if its chain is
    incomplete. *)
Definition getLastRuleExpectingChain (rules : list Rule) : option Rule :=
  match list.last rules with
  | None => None
  | Some lastRule => if HasChain (last_chain lastRule) then Some lastRule else None
  end.

(** [lastChain.Chain = rule] *)
Fixpoint append_chain (r : Rule) (rule : Rule) : Rule :=
  r <| Chain := Some (match Chain r with Some c => append_chain c rule | None => rule end) |>.

(** The last rule of the WAF with [rule] at the end of its chain. *)
Definition attach_to_chain (rules : list Rule) (parent rule : Rule) (raw : gostring) : list Rule :=
  let rule := upd_meta rule (fun m =>
    m <| ParentID_ := rID parent |> <| LogID_ := LogID_ (meta parent) |> <| Phase_ := 0 |>) in
  let parent := upd_meta (append_chain parent rule) (fun m =>
    m <| Raw_ := Raw_ m ++ lit " " ++ [x0a] ++ raw |>) in
  removelast rules ++ [parent].

(** ** Rules *)

(** [rp.ParseVariables] on the parser's rule. *)
Definition parse_targets (vars : gostring) : RP unit :=
  let* p := pget in
  let* r := plift (ParseVariables (AddVariable regexp_Compile) (AddVariableNegation regexp_Compile)
                     vars (rp_rule p)) in
  pput (p <| rp_rule := r |>).

(** The default actions: those of the configuration, and those of phase 2 if
    it sets none. *)
Definition read_defaults (cfg : ParserConfig) : RP unit :=
  pfor ParseDefaultActions (if HasRuleDefaultActions cfg then RuleDefaultActions cfg else []) ;*
  let* p := pget in
  if bool_decide (is_Some (rp_defaultActions p !! PhaseRequestBody)) then pret tt
  else ParseDefaultActions defaultActionsPhase2.

(** The part of [ParseRule] that makes the rule. *)
Definition parse_rule_parts (options : RuleOptions) : RP unit :=
  let cfg := ro_ParserConfig options in
  read_defaults cfg ;*
  if WithOperator options then
    let* (vars, operator, acts) := plift (parseActionOperator (Data options)) in
    if InSlice operator (DisabledRuleOperators cfg) then pfail (ErrOperatorDisabled operator)
    else
      parse_targets vars ;*
      ParseOperator options operator ;*
      if bool_decide (acts = []) then pret tt else ParseActions cfg acts
  else ParseActions cfg (MaybeRemoveQuotes (Data options)).

(** [ParseRule] on the rules of the WAF: the rule to add ([None] when it went
    to the end of a chain), or an error; the rules; the tables. *)
Definition ParseRule (ids : transformationIDs) (rules : list Rule) (options : RuleOptions)
  : outcome ((option Rule + ParseErr) * list Rule * transformationIDs) :=
  if bool_decide (Strings.TrimSpace (Data options) = []) then Ok (inr ErrEmptyRule, rules, ids)
  else
    match parse_rule_parts options (mkRuleParser NewRule ∅ ids) with
    | Panic => Panic
    | Ok (inr e, p) => Ok (inr e, rules, rp_ids p)
    | Ok (inl _, p) =>
      let cfg := ro_ParserConfig options in
      let rule := upd_meta (rp_rule p)
        (fun m => m <| File_ := ConfigFile cfg |> <| Line_ := LastLine cfg |>) in
      match getLastRuleExpectingChain rules with
      | Some parent => Ok (inl None, attach_to_chain rules parent rule (Raw options), rp_ids p)
      | None => Ok (inl (Some (upd_meta rule (fun m => m <| Raw_ := Raw options |>))), rules, rp_ids p)
      end
    end.
End rule_parser.
