(* ===== verification/Directives.v ===== *)
(** * Directives (internal/seclang/directives.go, directivesmap.gen.go)

    Each directive of the configuration language changes the options of the
    parser: the WAF with its rules, the datasets and the parser's own
    configuration.  A failed directive ends the construction of the WAF, which
    is then dropped, so the fields that a failed directive sets are left out. *)

From stdpp Require Import options.
From Stdlib Require Import Strings.Byte.
From S2P Require Import Prelude GoLib HttpParse Variables Types Collections BodyBuffer.
From S2P Require Import Transaction Macro Rule TransactionOps Actions Operators RuleEval RuleGroup.
From S2P Require Import RuleParser.
Import types.

Inductive DirErr :=
| ErrEmptyOptions
| ErrUnexpectedOptions
| ErrParse (e : ParseErr)
| ErrAdd (e : AddErr)
| ErrNumber (e : Strconv.NumError)
| ErrOnOff
| ErrLimitAction
| ErrUnknownOption
| ErrNotImplemented
| ErrEngineStatus
| ErrAuditParts
| ErrInvalidLogger (name : gostring)
| ErrInvalidFormatter (name : gostring)
| ErrStatusRegexp
| ErrNotWritable (dir : gostring)
| ErrLogLevel
| ErrUpdateSyntax
| ErrRuleNotFound (i : Z)
| ErrNegativeID (s : gostring)
| ErrInvalidRange (s : gostring)
| ErrArgumentLimitLow
| ErrDatasetSyntax.

(** The struct [DirectiveOptions]; the global tables of transformation
    identifiers are kept with it. *)
Record DirectiveOptions := mkDirectiveOptions {
  do_WAF : WAF;
  do_Raw : gostring;
  Opts : gostring;
  do_Datasets : gmap gostring (list gostring);
  do_Parser : ParserConfig;
  do_ids : transformationIDs;
}.

#[global] Instance DirectiveOptions_form : RecordForm DirectiveOptions :=
  fun o => mkDirectiveOptions (do_WAF o) (do_Raw o) (Opts o) (do_Datasets o) (do_Parser o) (do_ids o).

Abbreviation D A := (P DirectiveOptions DirErr A).
Abbreviation directive := (D unit).

Open Scope parser_scope.

(** ** Helpers of the standard library *)

(** [strconv.ParseInt(s, 8, 32)] as a [fs.FileMode]. *)
Fixpoint octal_go (n : Z) (s : gostring) : option Z :=
  match s with
  | [] => Some n
  | c :: s => if (48 <=? bz c) && (bz c <=? 55) then octal_go (n * 8 + (bz c - 48)) s else None
  end.

Definition ParseFileMode (s : gostring) : Z + Strconv.NumError :=
  let neg := bool_decide (head s = Some "-"%byte) in
  let digits := if neg || bool_decide (head s = Some "+"%byte) then tail s else s in
  if bool_decide (digits = []) then inr Strconv.ErrSyntax
  else match octal_go 0 digits with
       | None => inr Strconv.ErrSyntax
       | Some n =>
         if (if neg then 2147483648 <? n else 2147483647 <? n) then inr Strconv.ErrRange
         else inl ((if neg then - n else n) mod 4294967296)
       end.

(** [strings.Fields]: the runs of runes that are no white space. *)
Fixpoint fields_go (l : list (Z * gostring)) (cur : gostring) : list gostring :=
  let flush := if bool_decide (cur = []) then [] else [cur] in
  match l with
  | [] => flush
  | (r, bs) :: l =>
    if unicode_IsSpace r then flush ++ fields_go l [] else fields_go l (cur ++ bs)
  end.

Definition Fields (s : gostring) : list gostring := fields_go (Utf8.runes s) [].

(** [strings.Trim] with a cutset of one ASCII byte. *)
Definition Trim_byte (b : byte) (s : gostring) : gostring :=
  Strings.trim (fun c => bool_decide (c = b)) s.

Definition to_number (r : Z * option Strconv.NumError) : Z + DirErr :=
  match r with (z, None) => inl z | (_, Some e) => inr (ErrNumber e) end.

(** What the configuration depends on outside the program: the file system
    ([environment.IsDirWritable], [fs.ReadFile], [fs.Glob] under the parser's
    root, [os.Getwd]), the build option [shouldDoMandatoryRuleIdCheck], the
    unused capacity of a rule's slice of targets, and whether the [Init] method
    of an audit log writer succeeds. *)
Class Environment := {
  IsDirWritable : gostring -> bool;
  ReadFile : gostring -> option gostring;
  Glob : gostring -> option (list gostring);
  Getwd : option gostring;
  mandatory : bool;
  room : Rule -> nat;
  writer_Init : AuditLogWriter -> AuditLogConfig -> bool;
}.

Section directives.
Context `{GoUnicode} `{Registries} `{Environment}.

Definition set_WAF (f : WAF -> WAF) : directive :=
  let* o := pget in pput (o <| do_WAF := f (do_WAF o) |>).

(** The directives that need options begin with this test. *)
Definition with_opts (k : gostring -> directive) : directive :=
  let* o := pget in
  if bool_decide (Opts o = []) then pfail ErrEmptyOptions else k (Opts o).

Definition parseBoolean (data : gostring) : bool + DirErr :=
  let data := Strings.ToLower data in
  if bool_decide (data = lit "on") then inl true
  else if bool_decide (data = lit "off") then inl false
  else inr ErrOnOff.

Definition directiveInclude : directive := pfail ErrNotImplemented.

Definition directiveSecComponentSignature : directive :=
  with_opts (fun opts => set_WAF (fun w => w <| ComponentNames := ComponentNames w ++ [opts] |>)).

(** [options.WAF.Rules.Add] *)
Definition add_rule (rule : option Rule) : directive :=
  let* o := pget in
  match Add mandatory (Rules (do_WAF o)) rule with
  | inr e => pfail (ErrAdd e)
  | inl rules => set_WAF (fun w => w <| Rules := rules |>)
  end.

Definition directiveSecMarker : directive :=
  with_opts (fun opts =>
    let* o := pget in
    add_rule (Some (upd_meta NewRule (fun m =>
      m <| Raw_ := lit "SecMarker " ++ opts |> <| SecMark_ := opts |> <| ID_ := 0 |>
        <| LogID_ := lit "0" |> <| Phase_ := 0 |> <| Line_ := LastLine (do_Parser o) |>
        <| File_ := ConfigFile (do_Parser o) |>)))).

(** [ParseRule] on the rules of the WAF. *)
Definition parse_rule (options : RuleOptions) : D (option Rule) := fun o =>
  match ParseRule (do_ids o) (Rules (do_WAF o))
          options with
  | Panic => Panic
  | Ok (r, rules, ids) =>
    Ok (match r with inl rule => inl rule | inr e => inr (ErrParse e) end,
        o <| do_WAF := (do_WAF o) <| Rules := rules |> |> <| do_ids := ids |>)
  end.

Definition directiveSecAction : directive :=
  with_opts (fun opts =>
    let* o := pget in
    let* rule := parse_rule (mkRuleOptions false (do_Parser o) (do_Raw o) (lit "SecAction") opts ∅) in
    add_rule rule).

(** A failed step that is ignored. *)
Definition ignoring (ignore : bool) (m : directive) : directive := fun o =>
  match m o with
  | Ok (inr e, o') => Ok (if ignore then inl tt else inr e, o')
  | r => r
  end.

Definition directiveSecRule : directive :=
  with_opts (fun opts =>
    let* o := pget in
    ignoring (IgnoreRuleCompilationErrors (do_Parser o))
      (let* rule := parse_rule (mkRuleOptions true (do_Parser o) (do_Raw o) (lit "SecRule") opts
                                  (do_Datasets o)) in
       add_rule rule)).

Definition directiveSecResponseBodyAccess : directive :=
  with_opts (fun opts =>
    let* b := plift (parseBoolean (Strings.ToLower opts)) in
    set_WAF (fun w => w <| w_ResponseBodyAccess := b |>)).

Definition directiveSecRequestBodyLimit : directive :=
  with_opts (fun opts =>
    let* limit := plift (to_number (Strconv.ParseInt opts 64)) in
    set_WAF (fun w => w <| w_RequestBodyLimit := limit |>)).

Definition directiveSecRequestBodyAccess : directive :=
  with_opts (fun opts =>
    let* b := plift (parseBoolean (Strings.ToLower opts)) in
    set_WAF (fun w => w <| w_RequestBodyAccess := b |>)).

Definition directiveSecRuleEngine : directive :=
  let* o := pget in
  match ParseRuleEngineStatus (Opts o) with
  | None => pfail ErrEngineStatus
  | Some engine => set_WAF (fun w => w <| w_RuleEngine := engine |>)
  end.

Definition directiveUnsupported : directive := pret tt.

Definition directiveSecWebAppID : directive :=
  with_opts (fun opts => set_WAF (fun w => w <| WebAppID := opts |>)).

Definition directiveSecServerSignature : directive :=
  with_opts (fun opts => set_WAF (fun w => w <| ServerSignature := MaybeRemoveQuotes opts |>)).

Definition set_rules (f : list Rule -> list Rule) : directive :=
  set_WAF (fun w => w <| Rules := f (Rules w) |>).

Definition directiveSecRuleRemoveByTag : directive :=
  with_opts (fun opts => set_rules (fun rules => DeleteByTag rules opts)).

Definition directiveSecRuleRemoveByMsg : directive :=
  with_opts (fun opts =>
    let* o := pget in
    match DeleteByMsg (Rules (do_WAF o)) opts with
    | Panic => ppanic
    | Ok rules => set_rules (fun _ => rules)
    end).

(** An identifier or a range of them. *)
Inductive idOrRange := single (i : Z) | range (start end_ : Z).

(** The parsing of an identifier or range in the directives below; the test of
    the order of the bounds is theirs. *)
Definition parse_ids (s : gostring) : idOrRange + DirErr :=
  match Strings.IndexByte s "-"%byte with
  | None => match to_number (Strconv.Atoi s) with inl i => inl (single i) | inr e => inr e end
  | Some O => inr (ErrNegativeID s)
  | Some idx =>
    match to_number (Strconv.Atoi (take idx s)) with
    | inr e => inr e
    | inl start =>
      match to_number (Strconv.Atoi (drop (S idx) s)) with
      | inr e => inr e
      | inl end_ => inl (range start end_)
      end
    end
  end.

Definition remove_ids (s : gostring) : directive :=
  let* i := plift (parse_ids s) in
  match i with
  | single i => set_rules (fun rules => DeleteByID rules i)
  | range start end_ =>
    if end_ <? start then pfail (ErrInvalidRange s)
    else set_rules (fun rules => DeleteByRange rules start end_)
  end.

Definition directiveSecRuleRemoveByID : directive :=
  with_opts (fun opts => pfor remove_ids (Fields opts)).

Definition directiveSecResponseBodyMimeTypesClear : directive :=
  let* o := pget in
  if bool_decide (Opts o = []) then set_WAF (fun w => w <| ResponseBodyMimeTypes := [] |>)
  else pfail ErrUnexpectedOptions.

Definition directiveSecResponseBodyMimeType : directive :=
  with_opts (fun opts => set_WAF (fun w => w <| ResponseBodyMimeTypes := split_on " "%byte opts |>)).

(** The [switch] of the two limit actions. *)
Definition limit_action (opts : gostring) : BodyLimitAction + DirErr :=
  if bool_decide (Strings.ToLower opts = lit "reject") then inl BodyLimitActionReject
  else if bool_decide (Strings.ToLower opts = lit "processpartial")
  then inl BodyLimitActionProcessPartial
  else inr ErrLimitAction.

Definition directiveSecResponseBodyLimitAction : directive :=
  let* o := pget in
  let* a := plift (limit_action (Opts o)) in
  set_WAF (fun w => w <| ResponseBodyLimitAction := a |>).

Definition directiveSecResponseBodyLimit : directive :=
  with_opts (fun opts =>
    let* limit := plift (to_number (Strconv.ParseInt opts 64)) in
    set_WAF (fun w => w <| w_ResponseBodyLimit := limit |>)).

Definition directiveSecRequestBodyLimitAction : directive :=
  let* o := pget in
  let* a := plift (limit_action (Opts o)) in
  set_WAF (fun w => w <| RequestBodyLimitAction := a |>).

Definition directiveSecRequestBodyInMemoryLimit : directive :=
  with_opts (fun opts =>
    let* limit := plift (to_number (Strconv.ParseInt opts 64)) in
    set_WAF (fun w => w <| requestBodyInMemoryLimit := Some limit |>)).

Definition directiveSecRemoteRulesFailAction : directive :=
  with_opts (fun opts =>
    if bool_decide (Strings.ToLower opts = lit "abort")
    then set_WAF (fun w => w <| AbortOnRemoteRulesFail := true |>)
    else if bool_decide (Strings.ToLower opts = lit "warn")
    then set_WAF (fun w => w <| AbortOnRemoteRulesFail := false |>)
    else pfail ErrUnknownOption).

Definition directiveSecRemoteRules : directive := pfail ErrNotImplemented.

Definition directiveSecSensorID : directive :=
  with_opts (fun opts => set_WAF (fun w => w <| SensorID := opts |>)).

Definition set_Parser (f : ParserConfig -> ParserConfig) : directive :=
  let* o := pget in pput (o <| do_Parser := f (do_Parser o) |>).

Definition directiveSecDefaultAction : directive :=
  with_opts (fun opts =>
    set_Parser (fun c => c <| RuleDefaultActions := RuleDefaultActions c ++ [opts] |>
                           <| HasRuleDefaultActions := true |>)).

(** ** Audit log and debug log *)

Definition set_audit (f : AuditLogConfig -> AuditLogConfig) : directive :=
  set_WAF (fun w => w <| AuditLogWriterConfig := f (AuditLogWriterConfig w) |>).

Definition directiveSecAuditLog : directive :=
  with_opts (fun opts => set_audit (fun c => c <| Target := opts |>)).

(** [auditlog.GetWriter] and [GetFormatter] on the registered names. *)
Definition GetWriter (name : gostring) : option AuditLogWriter :=
  let name := Strings.ToLower name in
  if bool_decide (name = lit "concurrent") then Some concurrentWriter
  else if bool_decide (name = lit "serial") then Some serialWriter
  else if bool_decide (name = lit "https") then Some httpsWriter
  else if bool_decide (name = lit "syslog") then Some syslogWriter
  else None.

Definition GetFormatter (name : gostring) : option AuditLogFormatter :=
  let name := Strings.ToLower name in
  if bool_decide (name = lit "json") then Some jsonFormatter
  else if bool_decide (name = lit "jsonlegacy") then Some legacyJSONFormatter
  else if bool_decide (name = lit "native") then Some nativeFormatter
  else if bool_decide (name = lit "ocsf") then Some ocsfFormatter
  else None.

Definition directiveSecAuditLogType : directive :=
  with_opts (fun opts =>
    match GetWriter opts with
    | None => pfail (ErrInvalidLogger opts)
    | Some writer => set_WAF (fun w => w <| auditLogWriter := writer |>)
    end).

Definition directiveSecAuditLogFormat : directive :=
  with_opts (fun opts =>
    match GetFormatter opts with
    | None => pfail (ErrInvalidFormatter opts)
    | Some formatter => set_audit (fun c => c <| Formatter := formatter |>)
    end).

Definition directiveSecAuditLogDir : directive :=
  with_opts (fun opts => set_audit (fun c => c <| Dir := opts |>)).

Definition file_mode (opts : gostring) : Z + DirErr :=
  match ParseFileMode opts with inl m => inl m | inr e => inr (ErrNumber e) end.

Definition directiveSecAuditLogDirMode : directive :=
  with_opts (fun opts =>
    let* m := plift (file_mode opts) in set_audit (fun c => c <| DirMode := m |>)).

Definition directiveSecAuditLogFileMode : directive :=
  with_opts (fun opts =>
    let* m := plift (file_mode opts) in set_audit (fun c => c <| FileMode := m |>)).

Definition directiveSecAuditLogRelevantStatus : directive :=
  with_opts (fun opts =>
    match regexp_Compile opts with
    | None => pfail ErrStatusRegexp
    | Some re => set_WAF (fun w => w <| AuditLogRelevantStatus := Some re |>)
    end).

Definition directiveSecAuditLogParts : directive :=
  with_opts (fun opts =>
    match ParseAuditLogParts opts with
    | None => pfail ErrAuditParts
    | Some parts => set_WAF (fun w => w <| w_AuditLogParts := parts |>)
    end).

Definition directiveSecAuditEngine : directive :=
  with_opts (fun opts =>
    match ParseAuditEngineStatus opts with
    | None => pfail ErrEngineStatus
    | Some au => set_WAF (fun w => w <| w_AuditEngine := au |>)
    end).

Definition directiveSecDataDir : directive :=
  with_opts (fun opts => set_WAF (fun w => w <| DataDir := opts |>)).

Definition directiveSecUploadKeepFiles : directive :=
  let* o := pget in
  let* b := plift (parseBoolean (Opts o)) in
  set_WAF (fun w => w <| UploadKeepFiles := b |>).

Definition directiveSecUploadFileMode : directive :=
  with_opts (fun opts =>
    let* m := plift (file_mode opts) in set_WAF (fun w => w <| UploadFileMode := m |>)).

Definition directiveSecUploadFileLimit : directive :=
  with_opts (fun opts =>
    let* n := plift (to_number (Strconv.Atoi opts)) in
    set_WAF (fun w => w <| UploadFileLimit := n |>)).

(** In a build with access to the file system. *)
Definition directiveSecUploadDir : directive :=
  with_opts (fun opts =>
    if IsDirWritable opts then set_WAF (fun w => w <| UploadDir := opts |>)
    else pfail (ErrNotWritable opts)).

Definition directiveSecRequestBodyNoFilesLimit : directive :=
  with_opts (fun opts =>
    let* n := plift (to_number (Strconv.ParseInt opts 64)) in
    set_WAF (fun w => w <| RequestBodyNoFilesLimit := n |>)).

Definition directiveSecDebugLog : directive :=
  with_opts (fun opts => set_WAF (fun w => w <| LogOutput := Some opts |>)).

(** [Level.Valid] *)
Definition Level_Valid (level : Z) : bool := (0 <=? level) && (level <=? 9).

(** [WAF.SetDebugLogLevel] *)
Definition SetDebugLogLevel (lvl : Z) : directive :=
  if Level_Valid lvl then set_WAF (fun w => w <| LogLevel := lvl |>) else pfail ErrLogLevel.

Definition directiveSecDebugLogLevel : directive :=
  let* o := pget in
  let* lvl := plift (to_number (Strconv.ParseInt (Opts o) 8)) in
  SetDebugLogLevel lvl.

(** ** Updates of rules that are already there *)

(** A loop variable of a [range] over the rules: a copy of the rule whose
    slice of targets may share its array with the rule of the WAF.  [seen] is
    what that rule sees of the array, [spare] the unused capacity. *)
Record ruleCopy := mkRuleCopy {
  own : Rule;
  seen : list ruleVariableParams;
  spare : nat;
  aliased : bool;
}.

Definition copy_of (r : Rule) : ruleCopy := mkRuleCopy r (rule_variables r) (room r) true.

(** An [append] beyond the capacity moves the copy to an array of its own. *)
Definition copy_AddVariable (c : ruleCopy) (v : RuleVariable) (key : gostring) (iscount : bool)
  : option ruleCopy :=
  match AddVariable regexp_Compile (own c) v key iscount with
  | None => None
  | Some r => Some (mkRuleCopy r (seen c) (pred (spare c)) (aliased c && (0 <? spare c)%nat))
  end.

(** Exceptions are stored in the elements of the array. *)
Definition copy_AddVariableNegation (c : ruleCopy) (v : RuleVariable) (key : gostring)
  : option ruleCopy :=
  match AddVariableNegation regexp_Compile (own c) v key with
  | None => None
  | Some r =>
    Some (mkRuleCopy r (if aliased c then take (length (seen c)) (rule_variables r) else seen c)
            (spare c) (aliased c))
  end.

(** [rp.ParseVariables] on the loop variable, as the rule of the WAF is
    afterwards. *)
Definition update_copy (vars : gostring) (r : Rule) : Rule + DirErr :=
  match ParseVariables copy_AddVariable copy_AddVariableNegation vars (copy_of r) with
  | inr e => inr (ErrParse e)
  | inl c => inl (r <| rule_variables := seen c |>)
  end.

(** The loop over the rules, on those that a test selects. *)
Fixpoint update_copies (p : Rule -> bool) (vars : gostring) (rules : list Rule)
  : list Rule + DirErr :=
  match rules with
  | [] => inl []
  | r :: rules =>
    match (if p r then update_copy vars r else inl r) with
    | inr e => inr e
    | inl r =>
      match update_copies p vars rules with
      | inr e => inr e
      | inl rules => inl (r :: rules)
      end
    end
  end.

Definition update_targets (p : Rule -> bool) (vars : gostring) : directive :=
  let* o := pget in
  let* rules := plift (update_copies p vars (Rules (do_WAF o))) in
  set_rules (fun _ => rules).

(** The rule that [FindByID] points to is replaced. *)
Fixpoint replace_rule (i : Z) (r' : Rule) (rules : list Rule) : list Rule :=
  match rules with
  | [] => []
  | r :: rules => if rID r =? i then r' :: rules else r :: replace_rule i r' rules
  end.

Definition updateTargetBySingleID (i : Z) (vars : gostring) : directive :=
  let* o := pget in
  match FindByID (Rules (do_WAF o)) i with
  | None => pfail (ErrRuleNotFound i)
  | Some r =>
    match ParseVariables (AddVariable regexp_Compile) (AddVariableNegation regexp_Compile)
            (Trim_byte x22 vars) r with
    | inr e => pfail (ErrParse e)
    | inl r' => set_rules (replace_rule i r')
    end
  end.

(** The loop over the identifiers: a single one ends it. *)
Fixpoint target_ids (l : list gostring) (vars : gostring) : directive :=
  match l with
  | [] => pret tt
  | s :: l =>
    let* i := plift (parse_ids s) in
    match i with
    | single i => updateTargetBySingleID i vars
    | range start end_ =>
      if start =? end_ then updateTargetBySingleID start vars
      else if end_ <? start then pfail (ErrInvalidRange s)
      else
        update_targets (fun r => (start <=? rID r) && (rID r <=? end_)) (Trim_byte x22 vars) ;*
        target_ids l vars
    end
  end.

Definition directiveSecRuleUpdateTargetByID : directive :=
  with_opts (fun opts =>
    let l := Fields opts in
    match list.last l with
    | Some vars => if (length l <? 2)%nat then pfail ErrUpdateSyntax
                   else target_ids (removelast l) vars
    | None => pfail ErrUpdateSyntax
    end).

(** The configuration of a parser made for an update. *)
Definition zero_ParserConfig : ParserConfig := mkParserConfig [] [] [] false false 0 [] [] [].

(** [rp.ParseActions] without default actions, on a rule. *)
Definition parse_actions_on (r : Rule) (actions : gostring) : D Rule := fun o =>
  match ParseActions zero_ParserConfig (Trim_byte x22 actions)
          (mkRuleParser r ∅ (do_ids o)) with
  | Panic => Panic
  | Ok (inr e, p) => Ok (inr (ErrParse e), o <| do_ids := rp_ids p |>)
  | Ok (inl _, p) => Ok (inl (rp_rule p), o <| do_ids := rp_ids p |>)
  end.

Definition updateActionBySingleID (i : Z) (actions : gostring) : directive :=
  let* o := pget in
  match FindByID (Rules (do_WAF o)) i with
  | None => pfail (ErrRuleNotFound i)
  | Some r =>
    let* r' := parse_actions_on r actions in
    set_rules (replace_rule i r')
  end.

(** The loop over the rules of a range works on copies, whose fields the rules
    of the WAF do not share; the test that should leave rules out never
    holds. *)
Definition update_action_copies (start end_ : Z) (actions : gostring) : directive :=
  let* o := pget in
  pfor (fun r => if (rID r <? start) && (end_ <? rID r) then pret tt
                 else parse_actions_on r actions ;* pret tt) (Rules (do_WAF o)).

Fixpoint action_ids (l : list gostring) (actions : gostring) : directive :=
  match l with
  | [] => pret tt
  | s :: l =>
    let* i := plift (parse_ids s) in
    match i with
    | single i => updateActionBySingleID i actions
    | range start end_ =>
      if start =? end_ then updateActionBySingleID start actions
      else if end_ <? start then pfail (ErrInvalidRange s)
      else update_action_copies start end_ actions ;* action_ids l actions
    end
  end.

Definition directiveSecRuleUpdateActionByID : directive :=
  with_opts (fun opts =>
    let l := Fields opts in
    match list.last l with
    | Some actions => if (length l <? 2)%nat then pfail ErrUpdateSyntax
                      else action_ids (removelast l) actions
    | None => pfail ErrUpdateSyntax
    end).

Definition directiveSecRuleUpdateTargetByTag : directive :=
  let* o := pget in
  match Fields (Opts o) with
  | [inputTag; vars] =>
    update_targets (fun r => InSlice (Trim_byte x22 inputTag) (Tags_ (meta r))) (Trim_byte x22 vars)
  | _ => pfail ErrUpdateSyntax
  end.

(** ** The parser's own options *)

Definition directiveSecIgnoreRuleCompilationErrors : directive :=
  let* o := pget in
  let* b := plift (parseBoolean (Opts o)) in
  set_Parser (fun c => c <| IgnoreRuleCompilationErrors := b |>).

(** The lines of a dataset that are kept. *)
Definition dataset_lines (d : gostring) : list gostring :=
  List.filter (fun s => negb (bool_decide (s = [])) && negb (bool_decide (head s = Some "#"%byte)))
    (Strings.TrimSpace <$> split_on x0a (Trim_byte "`"%byte d)).

Definition directiveSecDataset : directive :=
  with_opts (fun opts =>
    match Strings.Cut opts " "%byte with
    | (_, _, false) => pfail ErrDatasetSyntax
    | (name, d, true) =>
      let* o := pget in
      pput (o <| do_Datasets := <[name := dataset_lines d]> (do_Datasets o) |>)
    end).

Definition directiveSecArgumentsLimit : directive :=
  let* o := pget in
  let* limit := plift (to_number (Strconv.Atoi (Opts o))) in
  if limit <=? 0 then pfail ErrArgumentLimitLow
  else set_WAF (fun w => w <| ArgumentLimit := limit |>).

(** The directives that are accepted without effect. *)
Definition directiveSecConnWriteStateLimit : directive := pret tt.
Definition directiveSecConnReadStateLimit : directive := pret tt.
Definition directiveSecPcreMatchLimitRecursion : directive := pret tt.
Definition directiveSecPcreMatchLimit : directive := pret tt.
Definition directiveSecHTTPBlKey : directive := pret tt.
Definition directiveSecGsbLookupDb : directive := pret tt.
Definition directiveSecHashMethodPm : directive := pret tt.
Definition directiveSecHashMethodRx : directive := pret tt.
Definition directiveSecHashParam : directive := pret tt.
Definition directiveSecHashKey : directive := pret tt.
Definition directiveSecHashEngine : directive := pret tt.
Definition directiveSecConnEngine : directive := pret tt.
Definition directiveSecCollectionTimeout : directive := pret tt.

(** ** The table of directives *)

Definition directivesMap : list (gostring * directive) := [
  (lit "seccomponentsignature", directiveSecComponentSignature);
  (lit "secmarker", directiveSecMarker);
  (lit "secaction", directiveSecAction);
  (lit "secrule", directiveSecRule);
  (lit "secresponsebodyaccess", directiveSecResponseBodyAccess);
  (lit "secrequestbodylimit", directiveSecRequestBodyLimit);
  (lit "secrequestbodyaccess", directiveSecRequestBodyAccess);
  (lit "secruleengine", directiveSecRuleEngine);
  (lit "secwebappid", directiveSecWebAppID);
  (lit "secserversignature", directiveSecServerSignature);
  (lit "secruleremovebytag", directiveSecRuleRemoveByTag);
  (lit "secruleremovebymsg", directiveSecRuleRemoveByMsg);
  (lit "secruleremovebyid", directiveSecRuleRemoveByID);
  (lit "secresponsebodymimetypesclear", directiveSecResponseBodyMimeTypesClear);
  (lit "secresponsebodymimetype", directiveSecResponseBodyMimeType);
  (lit "secresponsebodylimitaction", directiveSecResponseBodyLimitAction);
  (lit "secresponsebodylimit", directiveSecResponseBodyLimit);
  (lit "secrequestbodylimitaction", directiveSecRequestBodyLimitAction);
  (lit "secrequestbodyinmemorylimit", directiveSecRequestBodyInMemoryLimit);
  (lit "secremoterulesfailaction", directiveSecRemoteRulesFailAction);
  (lit "secremoterules", directiveSecRemoteRules);
  (lit "secconnwritestatelimit", directiveSecConnWriteStateLimit);
  (lit "secsensorid", directiveSecSensorID);
  (lit "secconnreadstatelimit", directiveSecConnReadStateLimit);
  (lit "secpcrematchlimitrecursion", directiveSecPcreMatchLimitRecursion);
  (lit "secpcrematchlimit", directiveSecPcreMatchLimit);
  (lit "sechttpblkey", directiveSecHTTPBlKey);
  (lit "secgsblookupdb", directiveSecGsbLookupDb);
  (lit "sechashmethodpm", directiveSecHashMethodPm);
  (lit "sechashmethodrx", directiveSecHashMethodRx);
  (lit "sechashparam", directiveSecHashParam);
  (lit "sechashkey", directiveSecHashKey);
  (lit "sechashengine", directiveSecHashEngine);
  (lit "secdefaultaction", directiveSecDefaultAction);
  (lit "secconnengine", directiveSecConnEngine);
  (lit "seccollectiontimeout", directiveSecCollectionTimeout);
  (lit "secauditlog", directiveSecAuditLog);
  (lit "secauditlogtype", directiveSecAuditLogType);
  (lit "secauditlogformat", directiveSecAuditLogFormat);
  (lit "secauditlogdir", directiveSecAuditLogDir);
  (lit "secauditlogdirmode", directiveSecAuditLogDirMode);
  (lit "secauditlogfilemode", directiveSecAuditLogFileMode);
  (lit "secauditlogrelevantstatus", directiveSecAuditLogRelevantStatus);
  (lit "secauditlogparts", directiveSecAuditLogParts);
  (lit "secauditengine", directiveSecAuditEngine);
  (lit "secdatadir", directiveSecDataDir);
  (lit "secuploadkeepfiles", directiveSecUploadKeepFiles);
  (lit "secuploadfilemode", directiveSecUploadFileMode);
  (lit "secuploadfilelimit", directiveSecUploadFileLimit);
  (lit "secuploaddir", directiveSecUploadDir);
  (lit "secrequestbodynofileslimit", directiveSecRequestBodyNoFilesLimit);
  (lit "secdebuglog", directiveSecDebugLog);
  (lit "secdebugloglevel", directiveSecDebugLogLevel);
  (lit "secruleupdatetargetbyid", directiveSecRuleUpdateTargetByID);
  (lit "secruleupdateactionbyid", directiveSecRuleUpdateActionByID);
  (lit "secruleupdatetargetbytag", directiveSecRuleUpdateTargetByTag);
  (lit "secignorerulecompilationerrors", directiveSecIgnoreRuleCompilationErrors);
  (lit "secdataset", directiveSecDataset);
  (lit "secargumentslimit", directiveSecArgumentsLimit);
  (lit "secargumentseparator", directiveUnsupported);
  (lit "seccookieformat", directiveUnsupported);
  (lit "secruleupdatetargetbymsg", directiveUnsupported);
  (lit "secrulescript", directiveUnsupported);
  (lit "secruleperftime", directiveUnsupported);
  (lit "secunicodemap", directiveUnsupported);
  (lit "sectmpdir", directiveUnsupported) ].

(** [directivesMap[name]] *)
Definition find_directive (name : gostring) : option directive :=
  snd <$> List.find (fun e => bool_decide (fst e = name)) directivesMap.
End directives.
