(* ===== verification/SecLang.v ===== *)
(** * The configuration parser (internal/seclang/parser.go) and the construction
    of a WAF (waf.go, config.go)

    The parser reads lines, joins those that are continued or quoted with
    backticks, and runs the directive of each; [Include] reads more files.
    [NewWAF] feeds it the sources of a configuration. *)

From stdpp Require Import options.
From Stdlib Require Import Strings.Byte.
From S2P Require Import Prelude GoLib HttpParse Variables Types Collections BodyBuffer.
From S2P Require Import Transaction Macro Rule TransactionOps Actions Operators RuleEval RuleGroup.
From S2P Require Import RuleParser Directives Transformations.
Import types.

Open Scope parser_scope.

(** The struct [Parser] without the root of its file system. *)
Record Parser := mkParser {
  p_options : DirectiveOptions;
  currentLine : Z;
  currentFile : gostring;
  currentDir : gostring;
  includeCount : Z;
}.

#[global] Instance Parser_form : RecordForm Parser :=
  fun p => mkParser (p_options p) (currentLine p) (currentFile p) (currentDir p) (includeCount p).

(** The errors of the parser; [ErrIncludeDepth] is the model's own, for a
    recursion that runs out of fuel. *)
Inductive ParserErr :=
| ErrDirective (e : DirErr)
| ErrUnknownDirective (name : gostring)
| ErrTooManyIncludes
| ErrReadFile (path : gostring)
| ErrGlobPattern
| ErrBackticks
| ErrGetwd
| ErrIncludeDepth.

Abbreviation PM A := (P Parser ParserErr A).

Definition maxIncludeRecursion : Z := 100.

(** [NewParser]; the datasets are empty. *)
Definition NewParser (ids : transformationIDs) (w : WAF) : Parser :=
  mkParser (mkDirectiveOptions w [] [] ∅ zero_ParserConfig ids) 0 [] [] 0.

(** ** Lines *)

Definition is_backtick (c : option byte) : bool := bool_decide (c = Some "`"%byte).

(** Whether a line is inside backticks: one that ends with a backtick opens a
    block, one that starts with a backtick closes it. *)
Definition backticks_at (inBackticks : bool) (line : gostring) : bool :=
  if negb inBackticks && is_backtick (list.last line) then true
  else if inBackticks && is_backtick (head line) then false
  else inBackticks.

Section parser.
Context `{GoUnicode} `{Registries} `{Environment}.

(** [path.Dir]: what is before the last slash. *)
Definition path_Dir (p : gostring) : gostring :=
  path_Clean (Strings.trim_right (fun c => negb (bool_decide (c = "/"%byte))) p).

Definition set_options (f : DirectiveOptions -> DirectiveOptions) : PM unit :=
  let* p := pget in pput (p <| p_options := f (p_options p) |>).

(** A directive run on the parser's options. *)
Definition run_directive (d : directive) : PM unit := fun p =>
  match d (p_options p) with
  | Panic => Panic
  | Ok (r, o) =>
    Ok (match r with inl u => inl u | inr e => inr (ErrDirective e) end, p <| p_options := o |>)
  end.

(** The options of a directive, with the quotes around them removed. *)
Definition directive_opts (opts : gostring) : gostring :=
  if (3 <=? zlen opts) && bool_decide (head opts = Some x22)
     && bool_decide (list.last opts = Some x22)
  then Trim_byte x22 opts else opts.

(** [evaluateLine]; [include] is [FromFile]. *)
Definition evaluateLine (include : gostring -> PM unit) (l : gostring) : PM unit :=
  if bool_decide (l = []) || bool_decide (head l = Some "#"%byte) then ppanic
  else
    let '(dir, opts, _) := Strings.Cut l " "%byte in
    let directive := Strings.ToLower dir in
    let opts := directive_opts opts in
    if bool_decide (directive = lit "include") then
      let* p := pget in
      if maxIncludeRecursion <=? includeCount p then pfail ErrTooManyIncludes
      else pput (p <| includeCount := includeCount p + 1 |>) ;* include opts
    else
      match find_directive directive with
      | None => pfail (ErrUnknownDirective directive)
      | Some d =>
        let* p := pget in
        set_options (fun o => o <| do_Raw := l |> <| Opts := opts |>
          <| do_Parser := (do_Parser o) <| LastLine := currentLine p |>
                            <| ConfigFile := currentFile p |> <| ConfigDir := currentDir p |> |>) ;*
        match Getwd with
        | None => pfail ErrGetwd
        | Some wd =>
          set_options (fun o => o <| do_Parser := (do_Parser o) <| WorkingDir := wd |> |>) ;*
          run_directive d
        end
      end.

(** The loop of [parseString]. *)
Fixpoint parse_lines (include : gostring -> PM unit) (lines : list gostring)
  (linebuffer : gostring) (inBackticks : bool) : PM unit :=
  match lines with
  | [] => if inBackticks then pfail ErrBackticks else pret tt
  | text :: lines =>
    let* p := pget in
    pput (p <| currentLine := currentLine p + 1 |>) ;*
    let line := Strings.TrimSpace text in
    if bool_decide (line = []) || bool_decide (head line = Some "#"%byte)
    then parse_lines include lines linebuffer inBackticks
    else
      let inBackticks := backticks_at inBackticks line in
      if inBackticks then parse_lines include lines (linebuffer ++ line ++ [x0a]) inBackticks
      else if bool_decide (list.last line = Some "\"%byte)
      then parse_lines include lines (linebuffer ++ removelast line) inBackticks
      else
        evaluateLine include (linebuffer ++ line) ;*
        parse_lines include lines [] inBackticks
  end.

Definition parseString (include : gostring -> PM unit) (data : gostring) : PM unit :=
  parse_lines include (scan_lines data) [] false.

(** ** Files *)

(** A failure inside [FromFile] restores the directory and clears the file. *)
Definition restoring (originalDir : gostring) (m : PM unit) : PM unit := fun p =>
  match m p with
  | Ok (inr e, p) => Ok (inr e, p <| currentDir := originalDir |> <| currentFile := [] |>)
  | r => r
  end.

(** The body of the loop over the files. *)
Definition read_one (include : gostring -> PM unit) (originalDir profilePath : gostring)
  : PM unit :=
  let profilePath := Strings.TrimSpace profilePath in
  let* p := pget in
  let profilePath := if Strings.HasPrefix profilePath (lit "/") then profilePath
                     else filepath_Join (currentDir p) profilePath in
  let lastDir := currentDir p in
  pput (p <| currentFile := profilePath |> <| currentDir := path_Dir profilePath |>) ;*
  restoring originalDir
    (match ReadFile profilePath with
     | None => pfail (ErrReadFile profilePath)
     | Some file => parseString include file
     end) ;*
  let* p := pget in
  pput (p <| currentDir := lastDir |>).

(** [FromFile]; the fuel bounds the depth of inclusion. *)
Fixpoint FromFile (fuel : nat) (profilePath : gostring) : PM unit :=
  match fuel with
  | O => pfail ErrIncludeDepth
  | S fuel =>
    let* p := pget in
    let originalDir := currentDir p in
    let* files := plift (if Strings.Contains profilePath (lit "*")
                         then match Glob profilePath with
                              | None => inr ErrGlobPattern
                              | Some files => inl files
                              end
                         else inl [profilePath]) in
    pfor (read_one (FromFile fuel) originalDir) files ;*
    let* p := pget in
    pput (p <| currentDir := originalDir |> <| currentFile := [] |>)
  end.

(** Enough fuel: there are at most [maxIncludeRecursion] inclusions. *)
Definition include_fuel : nat := 102.

Definition FromString (data : gostring) : PM unit := fun p =>
  match parseString (FromFile include_fuel) data (p <| currentFile := lit "_inline_" |>) with
  | Panic => Panic
  | Ok (r, p') => Ok (r, p' <| currentFile := currentFile p |>)
  end.

(** ** WAF configurations (config.go) *)

(** The struct [wafRule]: a rule, a text of directives or a file of them. *)
Inductive wafRule :=
| ruleOf (r : Rule)
| strOf (s : gostring)
| fileOf (path : gostring).

Record auditLogConfig := mkAuditLogConfig' {
  relevantOnly : bool;
  al_parts : list byte;
  al_writer : option AuditLogWriter;
}.

#[global] Instance auditLogConfig_form : RecordForm auditLogConfig :=
  fun c => mkAuditLogConfig' (relevantOnly c) (al_parts c) (al_writer c).

(** The struct [wafConfig] without the root of the file system; a debug logger
    is its level and its output. *)
Record wafConfig := mkWafConfig {
  c_rules : list wafRule;
  c_auditLog : option auditLogConfig;
  c_requestBodyAccess : bool;
  c_requestBodyLimit : option Z;
  c_requestBodyInMemoryLimit : option Z;
  c_responseBodyAccess : bool;
  c_responseBodyLimit : option Z;
  c_responseBodyMimeTypes : option (list gostring);
  c_debugLogger : option (Z * option gostring);
  c_errorCallback : bool;
}.

#[global] Instance wafConfig_form : RecordForm wafConfig :=
  fun c => mkWafConfig (c_rules c) (c_auditLog c) (c_requestBodyAccess c) (c_requestBodyLimit c)
    (c_requestBodyInMemoryLimit c) (c_responseBodyAccess c) (c_responseBodyLimit c)
    (c_responseBodyMimeTypes c) (c_debugLogger c) (c_errorCallback c).

Definition NewWAFConfig : wafConfig :=
  mkWafConfig [] None false None None false None None None false.

Definition NewAuditLogConfig : auditLogConfig := mkAuditLogConfig' false [] None.

Definition WithRules (c : wafConfig) (rules : list Rule) : wafConfig :=
  c <| c_rules := c_rules c ++ (ruleOf <$> rules) |>.
Definition WithDirectivesFromFile (c : wafConfig) (path : gostring) : wafConfig :=
  c <| c_rules := c_rules c ++ [fileOf path] |>.
Definition WithDirectives (c : wafConfig) (directives : gostring) : wafConfig :=
  c <| c_rules := c_rules c ++ [strOf directives] |>.
Definition WithRequestBodyAccess (c : wafConfig) : wafConfig := c <| c_requestBodyAccess := true |>.
Definition WithResponseBodyAccess (c : wafConfig) : wafConfig := c <| c_responseBodyAccess := true |>.
Definition WithDebugLogger (c : wafConfig) (logger : Z * option gostring) : wafConfig :=
  c <| c_debugLogger := Some logger |>.
Definition WithErrorCallback (c : wafConfig) : wafConfig := c <| c_errorCallback := true |>.
Definition WithRequestBodyLimit (c : wafConfig) (limit : Z) : wafConfig :=
  c <| c_requestBodyLimit := Some limit |>.
Definition WithRequestBodyInMemoryLimit (c : wafConfig) (limit : Z) : wafConfig :=
  c <| c_requestBodyInMemoryLimit := Some limit |>.
Definition WithResponseBodyLimit (c : wafConfig) (limit : Z) : wafConfig :=
  c <| c_responseBodyLimit := Some limit |>.
Definition WithResponseBodyMimeTypes (c : wafConfig) (mimeTypes : list gostring) : wafConfig :=
  c <| c_responseBodyMimeTypes := Some mimeTypes |>.

Definition LogRelevantOnly (c : auditLogConfig) : auditLogConfig := c <| relevantOnly := true |>.
Definition WithParts (c : auditLogConfig) (parts : list byte) : auditLogConfig :=
  c <| al_parts := parts |>.

(** ** coraza.NewWAF *)

Inductive NewWAFErr :=
| ErrTmpDir | ErrConfigRule (e : AddErr) | ErrConfig (e : ParserErr) | ErrAuditLogInit
| ErrAuditLogTwice | ErrValidate (e : ValidateErr).

(** [WAF.InitAuditLogWriter] *)
Definition InitAuditLogWriter (w : WAF) : WAF + NewWAFErr :=
  if auditLogWriterInitialized w then inr ErrAuditLogTwice
  else if writer_Init (auditLogWriter w) (AuditLogWriterConfig w)
  then inl (w <| auditLogWriterInitialized := true |>)
  else inr ErrAuditLogInit.

Definition populateAuditLog (w : WAF) (c : wafConfig) : WAF :=
  match c_auditLog c with
  | None => w
  | Some a =>
    let w := w <| w_AuditEngine := if relevantOnly a then AuditEngineRelevantOnly
                                   else AuditEngineOn |> in
    let w := if bool_decide (al_parts a = []) then w else w <| w_AuditLogParts := al_parts a |> in
    match al_writer a with
    | None => w
    | Some writer => w <| auditLogWriter := writer |>
    end
  end.

(** One source of the configuration; an empty text or path is passed over. *)
Definition add_source (src : wafRule) : P Parser NewWAFErr unit := fun p =>
  let lower r :=
    match r with
    | Panic => Panic
    | Ok (inl tt, p) => Ok (inl tt, p)
    | Ok (inr e, p) => Ok (inr (ErrConfig e), p)
    end in
  match src with
  | ruleOf r =>
    let w := do_WAF (p_options p) in
    match Add mandatory (Rules w) (Some r) with
    | inr e => Ok (inr (ErrConfigRule e), p)
    | inl rules =>
      Ok (inl tt, p <| p_options := (p_options p) <| do_WAF := w <| Rules := rules |> |> |>)
    end
  | strOf s => if bool_decide (s = []) then Ok (inl tt, p) else lower (FromString s p)
  | fileOf f => if bool_decide (f = []) then Ok (inl tt, p) else lower (FromFile include_fuel f p)
  end.

Definition override {A} (o : option A) (f : A -> WAF -> WAF) (w : WAF) : WAF :=
  match o with None => w | Some a => f a w end.

(** The settings of the configuration go over those of the directives. *)
Definition apply_config (c : wafConfig) (w : WAF) : WAF :=
  let w := if c_requestBodyAccess c then w <| w_RequestBodyAccess := true |> else w in
  let w := override (c_requestBodyLimit c) (fun n w => w <| w_RequestBodyLimit := n |>) w in
  let w := override (c_requestBodyInMemoryLimit c)
             (fun n w => w <| requestBodyInMemoryLimit := Some n |>) w in
  let w := if c_responseBodyAccess c then w <| w_ResponseBodyAccess := true |> else w in
  let w := override (c_responseBodyLimit c) (fun n w => w <| w_ResponseBodyLimit := n |>) w in
  let w := override (c_responseBodyMimeTypes c) (fun l w => w <| ResponseBodyMimeTypes := l |>) w in
  if c_errorCallback c then w <| ErrorLogCb := true |> else w.

(** [coraza.NewWAF]: the WAF, and the tables of transformation identifiers. *)
Definition coraza_NewWAF (tmp : gostring) (ids : transformationIDs) (c : wafConfig)
  : outcome ((WAF + NewWAFErr) * transformationIDs) :=
  let w := NewWAF tmp in
  if negb (IsDirWritable (TmpDir w)) then Ok (inr ErrTmpDir, ids)
  else
    let w := override (c_debugLogger c) (fun l w => w <| LogLevel := fst l |> <| LogOutput := snd l |>) w in
    match pfor add_source (c_rules c) (NewParser ids w) with
    | Panic => Panic
    | Ok (inr e, p) => Ok (inr e, do_ids (p_options p))
    | Ok (inl _, p) =>
      let ids := do_ids (p_options p) in
      match InitAuditLogWriter (populateAuditLog (do_WAF (p_options p)) c) with
      | inr e => Ok (inr e, ids)
      | inl w =>
        let w := apply_config c w in
        match Validate w with
        | Some e => Ok (inr (ErrValidate e), ids)
        | None => Ok (inl w, ids)
        end
      end
    end.
End parser.
