(* ===== verification/ParserFacts.v ===== *)
(** * Facts about the configuration parser

    Reasoning about computations that keep a state and fail, the logical lines
    of a configuration text, and the tables of transformation identifiers that
    keep the rule parser from panicking. *)

From stdpp Require Import options.
From Stdlib Require Import Strings.Byte.
From S2P Require Import Prelude GoLib HttpParse Variables Types Collections BodyBuffer.
From S2P Require Import Transaction Macro Rule TransactionOps Actions Operators RuleEval RuleGroup.
From S2P Require Import RuleParser Directives SecLang.
Import types.

Create HintDb parser.

Lemma Forall_elem {A} (Q : A -> Prop) l a : Forall Q l -> a ∈ l -> Q a.
Proof. intros HQ Ha. by eapply (proj1 (List.Forall_forall _ _) HQ), list_elem_of_In. Qed.

(** ** Triples

    [psafe I R ok m]: from a state where [I] holds, [m] panics only if [panics]
    allows it; otherwise the state moves along [R] and an error is one that
    [ok] allows. *)
Section triples.
Context {S E : Type}.
Implicit Types (I : S -> Prop) (R : S -> S -> Prop) (ok : E -> Prop).

Definition psafe {A} I R ok (panics : Prop) (m : P S E A) : Prop := forall s, I s ->
  match m s with
  | Panic => panics
  | Ok (r, s') => R s s' /\ forall e, r = inr e -> ok e
  end.

Context {I : S -> Prop} {R : S -> S -> Prop} {ok : E -> Prop} {panics : Prop} `{!PreOrder R}.
Context (closed : forall s s', I s -> R s s' -> I s').

Lemma psafe_ret {A} (a : A) : psafe I R ok panics (pret a).
Proof using PreOrder0. intros s _. by split. Qed.

Lemma psafe_fail {A} e : ok e -> psafe (A := A) I R ok panics (pfail e).
Proof using PreOrder0. intros He s _. split; [done|]. by intros ? [= <-]. Qed.

Lemma psafe_panic {A} : panics -> psafe (A := A) I R ok panics ppanic.
Proof using Type. by intros Hp s _. Qed.

Lemma psafe_get : psafe I R ok panics pget.
Proof using PreOrder0. intros s _. by split. Qed.

Lemma psafe_bind {A B} (m : P S E A) (k : A -> P S E B) :
  psafe I R ok panics m -> (forall a, psafe I R ok panics (k a)) ->
  psafe I R ok panics (pbind m k).
Proof using closed PreOrder0.
  intros Hm Hk s Hs. unfold pbind. specialize (Hm s Hs). destruct (m s) as [[[a|e] s1]|]; [| |done].
  - destruct Hm as [H1 _]. specialize (Hk a s1 (closed _ _ Hs H1)).
    destruct (k a s1) as [[r s2]|]; [|done]. destruct Hk as [H2 He]. split; [by etrans|done].
  - destruct Hm as [H1 He]. split; [done|]. intros e' [= <-]. by apply He.
Qed.

Lemma psafe_bind_ret {A B} (a : A) (k : A -> P S E B) :
  psafe I R ok panics (k a) -> psafe I R ok panics (pbind (pret a) k).
Proof using Type. done. Qed.

Lemma psafe_bind_fail {A B} e (k : A -> P S E B) :
  ok e -> psafe I R ok panics (pbind (pfail e) k).
Proof using PreOrder0. intros He s _. split; [done|]. by intros ? [= <-]. Qed.

Lemma pbind_ok {A B} (m : P S E A) (k : A -> P S E B) s b s' :
  pbind m k s = Ok (inl b, s') -> exists a s1, m s = Ok (inl a, s1) /\ k a s1 = Ok (inl b, s').
Proof using Type.
  unfold pbind. destruct (m s) as [[[a|e] s1]|]; [|done|done]. intros Ek. by exists a, s1.
Qed.

Lemma plift_ok {A} (r : A + E) (s : S) a s' : plift r s = Ok (inl a, s') -> r = inl a /\ s' = s.
Proof using Type. destruct r; [|done]. by intros [= -> ->]. Qed.

(** The state read by [pget] is the one that the rest starts in. *)
Lemma psafe_bind_get {B} (k : S -> P S E B) :
  (forall s, I s -> psafe (fun s' => s' = s) R ok panics (k s)) -> psafe I R ok panics (pbind pget k).
Proof using Type. intros Hk s Hs. by apply Hk. Qed.

Lemma psafe_lift {A} (r : A + E) : (forall e, r = inr e -> ok e) -> psafe I R ok panics (plift r).
Proof using PreOrder0. intros He s _. destruct r; simpl; split; try done; naive_solver. Qed.

Lemma psafe_for {A} (f : A -> P S E unit) l :
  (forall a, psafe I R ok panics (f a)) -> psafe I R ok panics (pfor f l).
Proof using closed PreOrder0.
  intros Hf. induction l as [|a l IH]; simpl; [apply psafe_ret|]. by apply psafe_bind.
Qed.

Lemma psafe_for_In {A} (f : A -> P S E unit) l :
  (forall a, a ∈ l -> psafe I R ok panics (f a)) -> psafe I R ok panics (pfor f l).
Proof using closed PreOrder0.
  intros Hf. induction l as [|a l IH]; simpl; [apply psafe_ret|].
  apply psafe_bind; [apply Hf; set_solver|]. intros _. apply IH. set_solver.
Qed.

Lemma psafe_weaken {A} (I' : S -> Prop) (m : P S E A) :
  (forall s, I' s -> I s) -> psafe I R ok panics m -> psafe I' R ok panics m.
Proof using Type. intros HI Hm s Hs. by apply Hm, HI. Qed.
End triples.

#[export] Hint Resolve psafe_ret psafe_fail psafe_get psafe_lift : parser.

(** ** Text that is not trimmed *)

Lemma TrimSpace_anchored s b c :
  Forall (fun x => bz x < 0x80) s -> head s = Some b -> list.last s = Some c ->
  Strings.solid b -> Strings.solid c -> Strings.TrimSpace s = s.
Proof.
  intros Hs Hb Hc [_ Sb] [_ Sc]. unfold Strings.TrimSpace. rewrite Utf8.runes_ascii by done.
  destruct s as [|b' s]; [done|]. injection Hb as ->. cbn [map Strings.drop_space fst]. rewrite Sb.
  change ((bz b, [b]) :: map (fun b => (bz b, [b])) s) with (map (fun b => (bz b, [b])) (b :: s)).
  rewrite <- map_rev.
  destruct (exists_last (l := b :: s) ltac:(done)) as (l & c' & E). rewrite E in *.
  rewrite last_snoc in Hc. injection Hc as ->. rewrite rev_app_distr.
  cbn [app rev map Strings.drop_space fst]. rewrite Sc.
  change ((bz c, [c]) :: map (fun b => (bz b, [b])) (rev l))
    with (map (fun b => (bz b, [b])) (c :: rev l)).
  rewrite <- map_rev, map_map. cbn [rev]. rewrite rev_involutive.
  generalize (l ++ [c]) as k. induction k as [|x k IH]; [done|]. cbn. by f_equal.
Qed.

Lemma drop_space_snoc l x :
  unicode_IsSpace (fst x) = false -> exists l', Strings.drop_space (l ++ [x]) = l' ++ [x].
Proof.
  intros Hx. induction l as [|y l IH]; simpl; [rewrite Hx; by exists []|].
  destruct (unicode_IsSpace (fst y)); [done|]. by exists (y :: l).
Qed.

Lemma TrimSpace_head s b :
  head s = Some b -> Strings.solid b -> exists t, Strings.TrimSpace s = b :: t.
Proof.
  intros Hs [Ha Hb]. destruct s as [|b' s]; [done|]. injection Hs as ->.
  unfold Strings.TrimSpace, Utf8.runes. cbn [length Utf8.runes_go].
  unfold Utf8.DecodeRune. rewrite (proj2 (Z.ltb_lt _ _) Ha). cbn [Strings.drop_space fst].
  rewrite Hb. cbn [rev take]. rewrite take_0.
  destruct (drop_space_snoc (rev (Utf8.runes_go (length s) (drop 1 (b :: s)))) (bz b, [b]) Hb)
    as [l' ->].
  rewrite rev_app_distr. by eexists.
Qed.

(** ** Logical lines *)

(** The lines that [parseString] evaluates, each with the number of lines of
    the text it ends; then the number of lines that follow and whether a
    backtick is open. *)
Fixpoint logical_lines (lines : list gostring) (n : nat) (buf : gostring) (inBackticks : bool)
  : list (nat * gostring) * nat * bool :=
  match lines with
  | [] => ([], n, inBackticks)
  | text :: lines =>
    let line := Strings.TrimSpace text in
    if bool_decide (line = []) || bool_decide (head line = Some "#"%byte)
    then logical_lines lines (S n) buf inBackticks
    else
      let inBackticks := backticks_at inBackticks line in
      if inBackticks then logical_lines lines (S n) (buf ++ line ++ [x0a]) inBackticks
      else if bool_decide (list.last line = Some "\"%byte)
      then logical_lines lines (S n) (buf ++ removelast line) inBackticks
      else
        let '(ls, k, open) := logical_lines lines 0 [] inBackticks in
        ((S n, buf ++ line) :: ls, k, open)
  end.

Definition logical (data : gostring) := logical_lines (scan_lines data) 0 [] false.

(** A line that [evaluateLine] accepts. *)
Definition valid_line (l : gostring) : Prop := l <> [] /\ head l <> Some "#"%byte.

Lemma valid_line_app a b : valid_line a -> valid_line (a ++ b).
Proof. intros [Ha Hh]. destruct a; [done|]. by split. Qed.

Lemma removelast_valid s c :
  valid_line s -> list.last s = Some c -> removelast s <> [] -> valid_line (removelast s).
Proof.
  intros [Hs Hh] _ Hr. split; [done|]. destruct s as [|x [|y s]]; try done.
Qed.

Lemma logical_lines_valid lines n buf bt :
  buf = [] \/ valid_line buf ->
  Forall (fun nl => valid_line (snd nl)) (fst (fst (logical_lines lines n buf bt))).
Proof.
  revert n buf bt. induction lines as [|text lines IH]; intros n buf bt Hbuf; simpl; [done|].
  set (line := Strings.TrimSpace text).
  destruct (bool_decide (line = []) || bool_decide (head line = Some "#"%byte)) eqn:E.
  { by apply IH. }
  apply orb_false_iff in E as [E1%bool_decide_eq_false E2%bool_decide_eq_false].
  assert (valid_line line) as Hl by done.
  assert (forall x, valid_line x -> valid_line (buf ++ x)) as Hb.
  { intros x Hx. destruct Hbuf as [->|Hbuf]; [done|]. by apply valid_line_app. }
  destruct (backticks_at bt line).
  { apply IH. right. by apply Hb, valid_line_app. }
  case_bool_decide as Hlast.
  { apply IH. destruct (decide (removelast line = [])) as [->|Hr].
    - by rewrite app_nil_r.
    - right. apply Hb. by eapply removelast_valid. }
  specialize (IH 0%nat [] false (or_introl eq_refl)).
  destruct (logical_lines lines 0 [] false) as [[ls k] open]. simpl in *.
  constructor; [by apply Hb|done].
Qed.

Section run_lines.
Context `{GoUnicode} `{Registries} `{Environment}.

(** [n] lines of the text are read. *)
Definition advance (n : nat) (p : Parser) : Parser := p <| currentLine := currentLine p + Z.of_nat n |>.

Definition run_line (include : gostring -> PM unit) (nl : nat * gostring) : PM unit := fun p =>
  evaluateLine include (snd nl) (advance (fst nl) p).

Lemma advance_advance n k p : advance n (advance k p) = advance (k + n) p.
Proof using Type. unfold advance. simpl. f_equal. lia. Qed.

Lemma advance_0 p : advance 0 p = p.
Proof using Type. destruct p. unfold advance. simpl. f_equal. lia. Qed.

Lemma parse_lines_logical include lines n buf bt p :
  parse_lines include lines buf bt (advance n p) =
  (let '(ls, k, open) := logical_lines lines n buf bt in
   pbind (pfor (run_line include) ls)
     (fun _ p => Ok (if open then inr ErrBackticks else inl tt, advance k p))) p.
Proof using Type.
  revert n buf bt p. induction lines as [|text lines IH]; intros n buf bt p.
  { cbn. by destruct bt. }
  cbn [parse_lines logical_lines]. unfold pbind at 1, pget. unfold pbind at 1, pput. cbv beta iota.
  change ((advance n p) <| currentLine := currentLine (advance n p) + 1 |>) with (advance 1 (advance n p)).
  rewrite advance_advance. replace (n + 1)%nat with (S n) by lia.
  set (line := Strings.TrimSpace text).
  destruct (bool_decide (line = []) || bool_decide (head line = Some "#"%byte)); [apply IH|].
  cbv zeta. destruct (backticks_at bt line); [apply IH|].
  case_bool_decide; [apply IH|].
  specialize (IH 0%nat [] false). destruct (logical_lines lines 0 [] false) as [[ls k] open].
  cbn [pfor]. unfold pbind in *. change (run_line include (S n, buf ++ line) p)
    with (evaluateLine include (buf ++ line) (advance (S n) p)).
  destruct (evaluateLine include (buf ++ line) (advance (S n) p)) as [[[[]|e] p']|]; [|done|done].
  specialize (IH p'). by rewrite advance_0 in IH.
Qed.

Lemma parseString_logical include data p :
  parseString include data p =
  (let '(ls, k, open) := logical data in
   pbind (pfor (run_line include) ls)
     (fun _ p => Ok (if open then inr ErrBackticks else inl tt, advance k p))) p.
Proof using Type.
  pose proof (parse_lines_logical include (scan_lines data) 0 [] false p) as E.
  by rewrite advance_0 in E.
Qed.
End run_lines.

(** ** Inclusion *)

Section includes.
Context `{GoUnicode} `{Registries} `{Environment}.

(** The count of inclusions only grows, and stays within its bound. *)
Definition includes_grow (p p' : Parser) : Prop :=
  includeCount p <= includeCount p' <= Z.max (includeCount p) maxIncludeRecursion.

#[global] Instance includes_grow_pre : PreOrder includes_grow.
Proof using Type.
  split; red; unfold includes_grow; intros; lia.
Qed.

(** What fuel [n] allows: every inclusion that the count still allows. *)
Definition enough (n : nat) (p : Parser) : Prop := maxIncludeRecursion <= Z.of_nat n + includeCount p.

(** The same for a file that is being included. *)
Definition may_include (n : nat) (p : Parser) : Prop :=
  maxIncludeRecursion < Z.of_nat n + includeCount p /\ includeCount p <= maxIncludeRecursion.

Lemma enough_closed n p p' : enough n p -> includes_grow p p' -> enough n p'.
Proof using Type. unfold enough, includes_grow. lia. Qed.

Definition not_depth (e : ParserErr) : Prop := e <> ErrIncludeDepth.

Abbreviation safe n m := (psafe (enough n) includes_grow not_depth True m).

(** A step that leaves the count alone. *)
Lemma keep_count {A} I (m : PM A) :
  (forall p, match m p with
             | Panic => True
             | Ok (r, p') => includeCount p' = includeCount p /\ forall e, r = inr e -> not_depth e
             end) -> psafe I includes_grow not_depth True m.
Proof using Type.
  intros Hm p _. specialize (Hm p). destruct (m p) as [[r p']|]; [|done].
  destruct Hm as [E He]. split; [|done]. unfold includes_grow. lia.
Qed.

Lemma evaluateLine_safe include n l :
  (forall path, psafe (may_include n) includes_grow not_depth True (include path)) ->
  safe n (evaluateLine include l).
Proof using Type.
  intros Hinc p Hp. unfold evaluateLine. destruct (_ || _); [done|].
  destruct (Strings.Cut l " "%byte) as [[dir opts] b]. case_bool_decide.
  - unfold pbind at 1, pget. destruct (maxIncludeRecursion <=? includeCount p) eqn:E.
    { cbn. split; [done|]. intros e [= <-]. done. }
    unfold pbind, pput. set (p1 := p <| includeCount := includeCount p + 1 |>).
    assert (includeCount p1 = includeCount p + 1) as E1 by done.
    assert (may_include n p1) as Hp1 by (unfold may_include, enough in *; lia).
    specialize (Hinc (directive_opts opts) p1 Hp1).
    destruct (include _ p1) as [[r p2]|]; [|done]. destruct Hinc as [HR He].
    split; [|done]. unfold includes_grow in *. lia.
  - destruct (find_directive _) as [d|].
    + revert p Hp. apply keep_count. intros p. unfold pbind, pget, set_options, pput. cbn.
      destruct Getwd as [wd|]; [|by split; [|intros ? [= <-]]]. cbn. unfold run_directive.
      destruct (d _) as [[r o]|]; [|done]. split; [done|]. intros e He. destruct r; [done|]. by injection He as <-.
    + cbn. split; [done|]. by intros e [= <-].
Qed.

Lemma run_line_safe include n nl :
  (forall l, safe n (evaluateLine include l)) -> safe n (run_line include nl).
Proof using Type. intros Hl p Hp. by apply (Hl (snd nl) (advance (fst nl) p)). Qed.

Lemma parseString_safe include n data :
  (forall l, safe n (evaluateLine include l)) -> safe n (parseString include data).
Proof using Type.
  intros Hl p Hp. rewrite parseString_logical. destruct (logical data) as [[ls k] open].
  revert p Hp. apply psafe_bind; [apply enough_closed| |].
  - apply psafe_for; [apply enough_closed|]. intros. by apply run_line_safe.
  - intros _. apply keep_count. intros p. split; [done|]. intros e. by destruct open; [intros [= <-]|].
Qed.

Lemma read_one_safe include n dir path :
  (forall l, safe n (evaluateLine include l)) -> safe n (read_one include dir path).
Proof using Type.
  intros Hl p Hp. unfold read_one, pbind, pget, pput, restoring. cbv beta zeta iota.
  set (path' := if Strings.HasPrefix _ _ then _ else _).
  set (p1 := p <| currentFile := path' |> <| currentDir := path_Dir path' |>).
  destruct (ReadFile path') as [file|].
  - pose proof (parseString_safe include n file Hl p1 Hp) as Hs.
    destruct (parseString include file p1) as [[[[]|e] p2]|]; [| |done];
      destruct Hs as [HR He]; by split.
  - cbn. split; [unfold includes_grow; simpl; lia|]. by intros e [= <-].
Qed.

Lemma FromFile_safe n path : psafe (may_include n) includes_grow not_depth True (FromFile n path).
Proof using Type.
  revert path. induction n as [|n IH]; intros path.
  { intros p [Hp Hc]. lia. }
  assert (forall l, safe n (evaluateLine (FromFile n) l)) as Hl by (intros; by apply evaluateLine_safe).
  apply (psafe_weaken (I := enough n)); [unfold may_include, enough; lia|].
  simpl. apply psafe_bind; [apply enough_closed|apply psafe_get|]. intros p0.
  apply psafe_bind; [apply enough_closed| |].
  { apply psafe_lift. intros e. destruct (Strings.Contains _ _); [|done].
    destruct (Glob path); [done|]. by intros [= <-]. }
  intros files. apply psafe_bind; [apply enough_closed| |].
  { apply psafe_for; [apply enough_closed|]. intros. by apply read_one_safe. }
  intros _. apply keep_count. intros p. by split.
Qed.
End includes.

(** ** Initialisation of actions *)

Section init.
Context `{GoUnicode} `{Registries}.

(** The tables are well formed and name the rule's transformations. *)
Definition known_pipeline (ids : transformationIDs) (r : Rule) : Prop :=
  ids_wf ids /\ is_Some (ids_name ids (transformationsID r)).

Lemma NewRule_known ids : ids_wf ids -> known_pipeline ids NewRule.
Proof using Type. intros Hwf. split; [done|]. exists []. apply (ids_first _ Hwf). Qed.

(** What [Init] does besides changing fields that only it knows of: it does
    not panic, the action has the type of its kind, and the lists of targets
    and actions and the chain stay. *)
Record init_post (c : ruleActionWrapper) (r r' : Rule) (a : action) : Prop := {
  init_type : action_Type a = action_Type (new_action c);
  init_actions : actions r' = actions r;
  init_variables : rule_variables r' = rule_variables r;
  init_operator : operator r' = operator r;
  init_chain : Chain r' = Chain r;
  init_phase : action_Type a <> ActionTypeMetadata -> rPhase r' = rPhase r;
}.

Lemma t_Init_total ids r data :
  known_pipeline ids r ->
  match t_Init GetTransformation ids r data with
  | Panic => False
  | Ok (inr _) => True
  | Ok (inl (r', a, ids')) => known_pipeline ids' r' /\ init_post t_ r r' a
  end.
Proof using Type.
  intros [Hwf [cur Hcur]]. unfold t_Init. case_bool_decide; [by split; [split; [|exists cur]|]|].
  destruct (GetTransformation data) as [f|]; [|done].
  unfold AddTransformation. case_bool_decide; [done|].
  destruct (transformationID_spec ids cur data _ Hwf Hcur) as (j & t' & -> & Hwf' & Hj & _).
  split; [|by split]. split; [done|]. simpl. by rewrite Hj.
Qed.

Lemma Init_total ids r c data :
  known_pipeline ids r ->
  match Init GetTransformation ids r c data with
  | Panic => False
  | Ok (inr _) => True
  | Ok (inl (r', a, ids')) => known_pipeline ids' r' /\ init_post c r r' a
  end.
Proof using Type.
  intros Hr. destruct c; cbn [Init]; try (by apply t_Init_total);
    unfold allow_Init, auditlog_Init, block_Init, capture_Init, chain_Init, ctl_Init, deny_Init,
      drop_Init, exec_Init, expirevar_Init, id_Init, initcol_Init, log_Init, logdata_Init,
      maturity_Init, msg_Init, multimatch_Init, noauditlog_Init, nolog_Init, pass_Init, phase_Init,
      redirect_Init, rev_Init, setenv_Init, setvar_Init, severity_Init, skip_Init, skipafter_Init,
      status_Init, tag_Init, ver_Init, no_arguments, some_argument;
    repeat case_match; simplify_eq; try done; (split; [done|by split]).
Qed.
End init.

(** ** Lists of actions *)

Section action_lists.
Context `{GoUnicode}.

(** An action that the registry made. *)
Definition well_made (a : ruleAction) : Prop :=
  exists f, Get (ra_Key a) = Some f /\ ra_F a = Some f /\
    ra_Atype a = Some (action_Type (new_action f)).

Definition disruptives (l : list ruleAction) : list ruleAction := List.filter is_disruptive l.

Lemma disruptives_app l l' : disruptives (l ++ l') = disruptives l ++ disruptives l'.
Proof using Type. apply List.filter_app. Qed.

Lemma disruptives_cons a l :
  disruptives (a :: l) = if is_disruptive a then a :: disruptives l else disruptives l.
Proof using Type. done. Qed.

(** The index of the loop points to the only disruptive action. *)
Definition only_disruptive (res : list ruleAction) (i : option nat) : Prop :=
  Forall well_made res /\
  match i with
  | None => disruptives res = []
  | Some i => exists l a l', res = l ++ a :: l' /\ length l = i /\ is_disruptive a = true /\
                disruptives l = [] /\ disruptives l' = []
  end.

Lemma appendRuleAction_only res key val i res' i' :
  only_disruptive res i -> appendRuleAction res key val i = inl (res', i') ->
  only_disruptive res' i' /\ res' <> [].
Proof using Type.
  intros [Hres Hi]. unfold appendRuleAction. set (k := Strings.ToLower _). set (v := MaybeRemoveQuotes _).
  destruct (Get k) as [f|] eqn:Ef; [|done]. set (a := mkRuleAction _ _ _ _).
  assert (well_made a) as Ha by by exists f.
  assert (forall j, action_Type (new_action f) <> ActionTypeDisruptive -> j = i ->
            only_disruptive (res ++ [a]) j /\ res ++ [a] <> []) as Hother.
  { intros j Ht ->. split; [|by destruct res]. split; [by apply Forall_app_2, List.Forall_cons|].
    assert (is_disruptive a = false) as Hd by by apply bool_decide_eq_false; intros [= ?].
    destruct i as [i|].
    - destruct Hi as (l & b & l' & -> & Hl & Hb & H1 & H2). exists l, b, (l' ++ [a]).
      rewrite <- app_assoc. split_and!; try done. rewrite disruptives_app, H2. simpl. by rewrite Hd.
    - rewrite disruptives_app, Hi. simpl. by rewrite Hd. }
  destruct (action_Type (new_action f)) eqn:Et; try (intros [= <- <-]; by apply Hother).
  assert (is_disruptive a = true) as Hd by by apply bool_decide_eq_true.
  destruct i as [i|]; intros [= <- <-].
  - destruct Hi as (l & b & l' & -> & <- & Hb & H1 & H2).
    rewrite insert_app_r_alt, Nat.sub_diag by done. cbn [insert list_insert].
    split; [|by destruct l]. split; [|by exists l, a, l'].
    apply Forall_app in Hres as [? Hl']. apply Forall_app. split; [done|].
    constructor; [done|]. by inversion Hl'.
  - split; [|by destruct res]. split; [by apply Forall_app_2, List.Forall_cons|].
    by exists res, a, [].
Qed.

Lemma parseActions_go_only s prev q key cur res i res' i' :
  only_disruptive res i -> parseActions_go s prev q key cur res i = inl (res', i') ->
  only_disruptive res' i' /\ res' <> [].
Proof using Type.
  revert prev q key cur res i. induction s as [|c s IH]; intros prev q key cur res i Hres; simpl.
  - destruct key; intros E; by eapply appendRuleAction_only.
  - case_bool_decide; [by apply IH|]. case_bool_decide; [by apply IH|]. destruct q; [by apply IH|].
    case_bool_decide; [destruct key; by apply IH|]. case_bool_decide; [|by apply IH].
    destruct (match key with None => _ | Some _ => _ end) as [[res1 i1]|] eqn:E; [|done].
    intros E'. eapply IH; [|exact E'].
    destruct key; by eapply appendRuleAction_only.
Qed.

Lemma parseActions_only s l :
  parseActions s = inl l ->
  Forall well_made l /\ l <> [] /\ (length (disruptives l) <= 1)%nat.
Proof using Type.
  assert (only_disruptive [] None) as H0 by by split; [apply List.Forall_nil|].
  unfold parseActions. intros E.
  assert (exists i, only_disruptive l i /\ l <> []) as (i & [Hl Hi] & Hne).
  { destruct s as [|c s].
    - destruct (appendRuleAction [] [] [] None) as [[res i]|] eqn:E'; [|done]. injection E as <-.
      exists i. by eapply appendRuleAction_only.
    - destruct (parseActions_go _ _ _ _ _ _ _) as [[res i]|] eqn:E'; [|done]. injection E as <-.
      exists i. by eapply parseActions_go_only. }
  split_and!; [done|done|]. destruct i as [i|].
  - destruct Hi as (l1 & a & l2 & -> & _ & Ha & H1 & H2).
    rewrite disruptives_app, H1, disruptives_cons, Ha, H2. simpl. lia.
  - rewrite Hi. simpl. lia.
Qed.

(** ** Inherited actions *)

Definition is_block (a : ruleAction) : bool :=
  is_disruptive a && bool_decide (ra_Key a = lit "block").

(** The disruptive action that a rule ends up with: its own, or the default
    one if it has none or says [block]. *)
Definition effective (origin : list ruleAction) (d : ruleAction) : ruleAction :=
  match disruptives origin with
  | a :: _ => if bool_decide (ra_Key a = lit "block") then d else a
  | [] => d
  end.

Lemma filter_filter (p q : ruleAction -> bool) l :
  List.filter p (List.filter q l) = List.filter (fun a => p a && q a) l.
Proof using Type.
  induction l as [|a l IH]; simpl; [done|]. destruct (q a) eqn:Eq; simpl.
  - destruct (p a); simpl; by rewrite IH.
  - destruct (p a); simpl; by rewrite IH.
Qed.

Lemma last_default_disruptive l z :
  foldl (fun da a => if is_disruptive a then a else da) z l = List.last (disruptives l) z.
Proof using Type.
  revert z. induction l as [|a l IH]; intros z; [done|]. rewrite disruptives_cons. cbn [foldl].
  rewrite IH. destruct (is_disruptive a); [|done].
  destruct (disruptives l) as [|b k]; [done|]. change (List.last (b :: k) a = List.last (b :: k) z).
  clear IH. revert b. induction k as [|c k IHk]; intros b; [done|]. apply IHk.
Qed.

Lemma existsb_disruptives (p : ruleAction -> bool) l :
  existsb (fun a => is_disruptive a && p a) l = existsb p (disruptives l).
Proof using Type.
  induction l as [|a l IH]; [done|]. rewrite disruptives_cons. cbn [existsb].
  destruct (is_disruptive a); simpl; by rewrite IH.
Qed.

Lemma disruptives_all l : Forall (fun a => is_disruptive a = true) (disruptives l).
Proof using Type. apply List.Forall_forall. intros a [_ Ha]%List.filter_In. done. Qed.

Lemma mergeActions_spec origin defaults d :
  Forall well_made origin -> Forall well_made defaults ->
  (length (disruptives origin) <= 1)%nat -> disruptives defaults = [d] ->
  Forall well_made (mergeActions origin defaults) /\
  disruptives (mergeActions origin defaults) = [effective origin d].
Proof using Type.
  intros Ho Hd Hlen Edef.
  assert (forall p l, Forall well_made l -> Forall well_made (List.filter p l)) as Hsub.
  { intros p l Hl. apply List.Forall_forall. intros a [Ha _]%List.filter_In.
    by eapply List.Forall_forall in Ha. }
  assert (d ∈ disruptives defaults) as Hin by (rewrite Edef; set_solver).
  apply list_elem_of_In, List.filter_In in Hin as [Hin Hdis].
  assert (well_made d) as Wd by by eapply (proj1 (List.Forall_forall _ _) Hd).
  unfold mergeActions. rewrite last_default_disruptive, Edef. cbn [List.last].
  rewrite (existsb_disruptives (fun a => negb (is_disruptive a && bool_decide (ra_Key a = lit "block")))).
  split.
  { apply Forall_app_2; [by apply Hsub|]. apply Forall_app_2; [by apply Hsub|].
    destruct (existsb _ _); [done|]. by apply List.Forall_cons. }
  rewrite !disruptives_app. unfold disruptives at 1 2. rewrite !filter_filter.
  rewrite (List.filter_ext _ (fun _ => false)), List.filter_false.
  2: { intros a. by destruct (is_disruptive a). }
  rewrite (List.filter_ext (fun a => is_disruptive a && _)
    (fun a => negb (is_disruptive a && bool_decide (ra_Key a = lit "block")) && is_disruptive a))
    by (intros a; apply andb_comm).
  rewrite <- filter_filter. fold (disruptives origin). unfold effective.
  pose proof (disruptives_all origin) as Hall. destruct (disruptives origin) as [|a [|? ?]]; simpl in Hlen; [| |lia].
  - simpl. by rewrite Hdis.
  - inversion Hall as [|? ? Ha _]. cbn [existsb List.filter]. rewrite Ha. cbn [andb].
    case_bool_decide; cbn [negb orb app]; [|done]. rewrite disruptives_cons. by rewrite Hdis.
Qed.
End action_lists.

(** ** The rule parser does not panic *)

Section rule_safe.
Context `{GoUnicode} `{Registries}.

Definition defaults_ok (m : gmap RulePhase (list ruleAction)) : Prop :=
  map_Forall (fun _ l => Forall well_made l /\ exists d, disruptives l = [d]) m.

Definition rp_inv (p : RuleParser) : Prop :=
  known_pipeline (rp_ids p) (rp_rule p) /\ defaults_ok (rp_defaultActions p).

Definition keeps_inv (p p' : RuleParser) : Prop := rp_inv p -> rp_inv p'.

#[global] Instance keeps_inv_pre : PreOrder keeps_inv.
Proof using Type. split; red; unfold keeps_inv; auto. Qed.

Lemma keeps_inv_closed p p' : rp_inv p -> keeps_inv p p' -> rp_inv p'.
Proof using Type. unfold keeps_inv. auto. Qed.

Definition any_err (e : ParseErr) : Prop := True.

Abbreviation total m := (psafe rp_inv keeps_inv any_err False m).

Lemma scan_defaults_disruptive act ph d0 ph' d' :
  scan_defaults act ph d0 = inl (ph', d') -> d' <> d0 -> disruptives act <> [].
Proof using Type.
  revert ph d0. induction act as [|a act IH]; intros ph d0; cbn [scan_defaults].
  - by intros [= _ <-].
  - rewrite disruptives_cons. case_bool_decide.
    + destruct (ParseRulePhase _); [|done]. intros E Hd. destruct (is_disruptive a); [done|]. by eapply IH.
    + destruct (is_metadata a); [done|]. case_bool_decide; [done|].
      destruct (is_disruptive a); [done|]. apply IH.
Qed.

Lemma ParseDefaultActions_total actions : total (ParseDefaultActions actions).
Proof using Type.
  intros p Hp. unfold ParseDefaultActions, plift.
  destruct (parseActions actions) as [act|e] eqn:Ea; [|by split; [|done]].
  apply parseActions_only in Ea as (Hw & _ & Hlen). unfold pbind, pret.
  destruct (scan_defaults act 0 []) as [[phase d]|e] eqn:Es; [|by split; [|done]].
  destruct (phase =? 0); [by split; [|done]|]. case_bool_decide as Hd; [by split; [|done]|].
  cbn. case_bool_decide; [by split; [|done]|]. split; [|done]. intros _.
  destruct Hp as [Hk Hds]. split; [done|]. apply map_Forall_insert_2; [|done]. split; [done|].
  eapply scan_defaults_disruptive in Es; [|done].
  destruct (disruptives act) as [|x [|? ?]]; simpl in Hlen; [done|by exists x|lia].
Qed.

Lemma init_action_total a : well_made a -> total (init_action a).
Proof using Type.
  intros (f & _ & Hf & _) p Hp. unfold init_action. rewrite Hf. cbn.
  pose proof (Init_total (rp_ids p) (rp_rule p) f (ra_Value a) (proj1 Hp)) as Hi.
  destruct (Init _ _ _ _ _) as [[[[r fn] ids]|e]|]; [|by split|done].
  split; [|done]. intros _. split; [by apply Hi|by apply Hp].
Qed.

Lemma add_action_total a : well_made a -> total (add_action a).
Proof using Type.
  intros Ha. unfold add_action. destruct (is_metadata a); [apply psafe_ret|].
  apply psafe_bind; [apply keeps_inv_closed|by apply init_action_total|]. intros fn p _.
  split; [|done]. intros [Hk Hds]. by split.
Qed.

(** The actions that the last loop of [ParseActions] adds. *)
Definition all_actions (p : RuleParser) (act : list ruleAction) : list ruleAction :=
  match rp_defaultActions p !! rPhase (rp_rule p) with
  | None => act
  | Some defaults => mergeActions act defaults
  end.

Lemma all_actions_made p act :
  rp_inv p -> Forall well_made act -> (length (disruptives act) <= 1)%nat ->
  Forall well_made (all_actions p act).
Proof using Type.
  intros [_ Hd] Hw Hlen. unfold all_actions.
  destruct (rp_defaultActions p !! _) as [defaults|] eqn:E; [|done].
  destruct (map_Forall_lookup_1 _ _ _ _ Hd E) as (Hw' & d & Ed). by eapply mergeActions_spec.
Qed.

Lemma ParseActions_total cfg actions : total (ParseActions cfg actions).
Proof using Type.
  unfold ParseActions, plift. destruct (parseActions actions) as [act|e] eqn:Ea; [|by apply psafe_bind_fail].
  apply parseActions_only in Ea as (Hw & _ & Hlen). apply psafe_bind_ret.
  apply psafe_bind; [apply keeps_inv_closed| |intros _].
  { apply psafe_for; [apply keeps_inv_closed|]. intros a.
    destruct (InSlice _ _); [by apply psafe_fail|apply psafe_ret]. }
  apply psafe_bind; [apply keeps_inv_closed| |intros _].
  { apply psafe_for_In; [apply keeps_inv_closed|]. intros a Ha.
    destruct (is_metadata a); [|apply psafe_ret].
    apply psafe_bind; [apply keeps_inv_closed| |intros; apply psafe_ret].
    apply init_action_total. by apply (Forall_elem _ _ _ Hw). }
  intros p Hp. pose proof (all_actions_made p act Hp Hw Hlen) as Hall.
  apply (psafe_for_In (I := rp_inv) keeps_inv_closed add_action (all_actions p act)); [|done].
  intros a Ha. apply add_action_total. by apply (Forall_elem _ _ _ Hall).
Qed.

(** ** Operators *)

Lemma complete_operator_head operator :
  head (complete_operator operator) = Some "@"%byte \/ head (complete_operator operator) = Some "!"%byte.
Proof using Type.
  unfold complete_operator. destruct operator as [|c rest]; [by left|].
  destruct (bool_decide_reflect (c = "@"%byte)) as [->|Hc]; cbn [negb andb].
  { left. case_bool_decide; [done|]. by destruct rest. }
  destruct (bool_decide_reflect (c = "!"%byte)) as [->|Hc']; cbn [negb andb]; [|by left].
  right. case_bool_decide; [done|]. destruct rest; [done|]. by case_bool_decide.
Qed.

Lemma ParseOperator_total options operator : total (ParseOperator options operator).
Proof using Type.
  unfold ParseOperator. pose proof (complete_operator_head operator) as Hh.
  pose proof (Strings.Cut_spec (complete_operator operator) " "%byte) as Hc.
  destruct (Strings.Cut _ _) as [[opRaw opdata] found].
  assert (exists c rest, Strings.TrimSpace opRaw = c :: rest) as (c & rest & ->).
  { assert (head opRaw = Some "@"%byte \/ head opRaw = Some "!"%byte) as [E|E].
    { destruct found; [destruct Hc as [Hc _]|by destruct Hc as [-> _]].
      rewrite Hc in Hh. destruct opRaw; [|done]. by destruct Hh. }
    all: eapply TrimSpace_head in E as [t E]; [by eexists _, _|by vm_compute]. }
  destruct (operator_name (c :: rest)) as [op|] eqn:En.
  - destruct (operators_Get op _); [|by apply psafe_fail].
    intros p _. split; [|done]. intros [Hk Hds]. by split.
  - exfalso. unfold operator_name in En. repeat case_match; done.
Qed.

(** ** Rules *)

Lemma ParseVariables_go_ind {S} (addV : S -> RuleVariable -> gostring -> bool -> option S) addN
  (Q : S -> Prop) :
  (forall r v k b r', Q r -> addV r v k b = Some r' -> Q r') ->
  (forall r v k r', Q r -> addN r v k = Some r' -> Q r') ->
  forall s n st r r', Q r -> ParseVariables_go addV addN s n st r = inl r' -> Q r'.
Proof using Type.
  intros HV HN. induction s as [|c s IH]; intros n st r r' Hr; cbn [ParseVariables_go].
  { by intros [= <-]. }
  destruct n as [|n]; [|by apply IH]. destruct (ends_variable _ _ _); [|by apply IH].
  unfold finish_variable. repeat case_match; try done; intros; simplify_eq; eauto.
Qed.

Lemma parse_targets_total vars : total (parse_targets vars).
Proof using Type.
  intros p Hp. unfold parse_targets, pbind, pget, plift.
  destruct (ParseVariables _ _ vars (rp_rule p)) as [r|e] eqn:E; [|by split].
  split; [|done]. intros [[Hwf Hk] Hds]. split; [|done]. split; [done|]. cbn.
  replace (transformationsID r) with (transformationsID (rp_rule p)); [done|].
  unfold ParseVariables in E. symmetry.
  eapply (ParseVariables_go_ind _ _ (fun r => transformationsID r = transformationsID (rp_rule p)));
    [| | |exact E]; [| |done].
  - intros r0 v k b r1 <-. unfold AddVariable. destruct (keyRegexp _ _); [|done]. by intros [= <-].
  - intros r0 v k r1 <-. unfold AddVariableNegation. destruct (keyRegexp _ _); [|done]. by intros [= <-].
Qed.

Lemma read_defaults_total cfg : total (read_defaults cfg).
Proof using Type.
  unfold read_defaults. apply psafe_bind; [apply keeps_inv_closed| |intros _].
  { apply psafe_for; [apply keeps_inv_closed|]. intros. apply ParseDefaultActions_total. }
  apply psafe_bind; [apply keeps_inv_closed|apply psafe_get|]. intros p.
  case_bool_decide; [apply psafe_ret|apply ParseDefaultActions_total].
Qed.

Lemma parse_rule_parts_total options : total (parse_rule_parts options).
Proof using Type.
  unfold parse_rule_parts. apply psafe_bind; [apply keeps_inv_closed|apply read_defaults_total|intros _].
  destruct (WithOperator options); [|apply ParseActions_total].
  apply psafe_bind; [apply keeps_inv_closed|by apply psafe_lift|]. intros [[vars op] acts].
  destruct (InSlice _ _); [by apply psafe_fail|].
  apply psafe_bind; [apply keeps_inv_closed|apply parse_targets_total|intros _].
  apply psafe_bind; [apply keeps_inv_closed|apply ParseOperator_total|intros _].
  case_bool_decide; [apply psafe_ret|apply ParseActions_total].
Qed.

Lemma start_inv ids : ids_wf ids -> rp_inv (mkRuleParser NewRule ∅ ids).
Proof using Type. intros Hwf. split; [by apply NewRule_known|]. apply map_Forall_empty. Qed.
End rule_safe.

(** ** The disruptive action of a parsed rule *)

Section rule_actions.
Context `{GoUnicode} `{Registries}.

(** The names of the disruptive actions of a rule. *)
Definition rule_disruptives (r : Rule) : list gostring :=
  act_Name <$> List.filter
    (fun a => bool_decide (action_Type (act_Function a) = ActionTypeDisruptive)) (actions r).

(** A step that leaves the default actions and the rule's list of actions. *)
Definition same_lists (p p' : RuleParser) : Prop :=
  rp_defaultActions p' = rp_defaultActions p /\ actions (rp_rule p') = actions (rp_rule p).

#[global] Instance same_lists_pre : PreOrder same_lists.
Proof using Type. split; red; unfold same_lists; naive_solver congruence. Qed.

Definition returns {A} (m : P RuleParser ParseErr A) (Q : RuleParser -> A -> RuleParser -> Prop) : Prop :=
  forall p a p', rp_inv p -> m p = Ok (inl a, p') -> rp_inv p' /\ Q p a p'.

Lemma returns_of_total {A} (m : P RuleParser ParseErr A) Q :
  psafe rp_inv keeps_inv any_err False m ->
  (forall p a p', rp_inv p -> m p = Ok (inl a, p') -> Q p a p') -> returns m Q.
Proof using Type.
  intros Ht HQ p a p' Hp E. split; [|by eapply HQ]. specialize (Ht p Hp). rewrite E in Ht. by apply Ht.
Qed.

Lemma returns_bind {A B} (m : P RuleParser ParseErr A) (k : A -> P RuleParser ParseErr B) Q1 Q2 Q :
  returns m Q1 -> (forall a, returns (k a) (Q2 a)) ->
  (forall p a p1 b p', Q1 p a p1 -> Q2 a p1 b p' -> Q p b p') -> returns (pbind m k) Q.
Proof using Type.
  intros Hm Hk HQ p b p' Hp. unfold pbind. destruct (m p) as [[[a|e] p1]|] eqn:Em; [|done|done].
  intros Ek. destruct (Hm _ _ _ Hp Em) as [Hp1 H1']. destruct (Hk a _ _ _ Hp1 Ek) as [Hp' H2'].
  split; [done|]. by eapply HQ.
Qed.

Lemma returns_for {A} (f : A -> P RuleParser ParseErr unit) l (Q : RuleParser -> RuleParser -> Prop) `{!PreOrder Q} :
  (forall a, a ∈ l -> returns (f a) (fun p _ p' => Q p p')) -> returns (pfor f l) (fun p _ p' => Q p p').
Proof using Type.
  intros Hf. induction l as [|a l IH]; cbn [pfor].
  - intros p u p' Hp E. injection E as _ <-. by split.
  - eapply (returns_bind _ _ _ (fun _ p _ p' => Q p p'));
      [apply Hf; set_solver|intros _; apply IH; set_solver|].
    intros p u p1 u' p' HQ1 HQ2. exact (transitivity (R := Q) HQ1 HQ2).
Qed.

Lemma init_action_returns a :
  well_made a ->
  returns (init_action a) (fun p fn p' =>
    same_lists p p' /\ Some (action_Type fn) = ra_Atype a /\
    (is_metadata a = false -> rPhase (rp_rule p') = rPhase (rp_rule p))).
Proof using Type.
  intros Ha. apply returns_of_total; [by apply init_action_total|].
  destruct Ha as (f & _ & Hf & Ht). intros p fn p' Hp. unfold init_action. rewrite Hf. cbn.
  pose proof (Init_total (rp_ids p) (rp_rule p) f (ra_Value a) (proj1 Hp)) as Hi.
  destruct (Init _ _ _ _ _) as [[[[r fn'] ids]|e]|]; [|done|done].
  destruct Hi as [_ [Ety Hacts _ _ _ Hph]]. intros [= <- <-]. rewrite Ht. split_and!; [done|by rewrite Ety|].
  intros Hmd. apply Hph. rewrite Ety. intros E. unfold is_type in Hmd. rewrite Ht, E in Hmd.
  by rewrite bool_decide_eq_true_2 in Hmd.
Qed.

(** The rule's disruptive actions after a step that may add some. *)
Definition adds (names : list gostring) (p p' : RuleParser) : Prop :=
  rp_defaultActions p' = rp_defaultActions p /\ rPhase (rp_rule p') = rPhase (rp_rule p) /\
  rule_disruptives (rp_rule p') = rule_disruptives (rp_rule p) ++ names.

Lemma add_action_returns a :
  well_made a ->
  returns (add_action a) (fun p _ p' => adds (if is_disruptive a then [ra_Key a] else []) p p').
Proof using Type.
  intros Ha. unfold add_action. destruct (is_metadata a) eqn:Em.
  { intros p u p' Hp E. injection E as _ <-. split; [done|]. unfold adds.
    assert (is_disruptive a = false) as ->; [|by rewrite app_nil_r].
    apply bool_decide_eq_true in Em. unfold is_type. rewrite Em. by apply bool_decide_eq_false. }
  eapply (returns_bind _ _ _ (fun fn p1 _ p' => p' = p1 <| rp_rule := AddAction (rp_rule p1) (ra_Key a) fn |>));
    [by apply init_action_returns| |].
  - intros fn p u p' Hp E. injection E as _ <-. split; [|done]. destruct Hp as [Hk Hds]. by split.
  - intros p fn p1 [] p' [[Hd Hacts] [Ht Hph]] ->. split; [done|]. split; [by apply Hph|].
    unfold rule_disruptives. cbn. rewrite List.filter_app, fmap_app, Hacts. f_equal. cbn.
    unfold is_type. rewrite <- Ht.
    destruct (bool_decide_reflect (action_Type fn = ActionTypeDisruptive)) as [->|Hne].
    + by rewrite bool_decide_eq_true_2.
    + rewrite bool_decide_eq_false_2; [done|]. by intros [= ?].
Qed.

Lemma add_actions_return l :
  Forall well_made l ->
  returns (pfor add_action l) (fun p _ p' => adds (ra_Key <$> disruptives l) p p').
Proof using Type.
  induction 1 as [|a l Ha _ IH]; cbn [pfor].
  - intros p u p' Hp E. injection E as _ <-. split; [done|]. unfold adds. cbn. by rewrite app_nil_r.
  - eapply (returns_bind _ _ _ (fun _ p _ p' => adds (ra_Key <$> disruptives l) p p'));
      [by apply add_action_returns|intros _; apply IH|].
    intros p u p1 u' p' (Ed & Ep & E) (Ed' & Ep' & E'). split; [by rewrite Ed'|]. split; [by rewrite Ep'|].
    rewrite E', E, disruptives_cons, <- app_assoc. f_equal. by destruct (is_disruptive a).
Qed.

(** [ParseActions] adds the disruptive actions of the list that it makes of
    the rule's actions and the defaults of the rule's phase. *)
Lemma ParseActions_returns cfg text :
  returns (ParseActions cfg text) (fun p _ p' =>
    exists act, parseActions text = inl act /\
      rule_disruptives (rp_rule p') = rule_disruptives (rp_rule p) ++
        (ra_Key <$> disruptives
           (match rp_defaultActions p !! rPhase (rp_rule p') with
            | None => act
            | Some defaults => mergeActions act defaults
            end)) /\
      rp_defaultActions p' = rp_defaultActions p).
Proof using Type.
  unfold ParseActions, plift. destruct (parseActions text) as [act|e] eqn:Ea; [|done].
  destruct (parseActions_only _ _ Ea) as (Hw & _ & Hlen).
  assert (returns (pfor (fun a => if InSlice (ra_Key a) (DisabledRuleActions cfg)
            then pfail (ErrActionDisabled (ra_Key a)) else pret tt) act)
            (fun p _ p' => same_lists p p')) as Hdisabled.
  { apply returns_for; [apply _|]. intros a _ p u p' Hp. destruct (InSlice _ _); [done|].
    intros E. injection E as _ <-. by split. }
  assert (returns (pfor (fun a => if is_metadata a then pbind (init_action a) (fun _ => pret tt)
                                  else pret tt) act) (fun p _ p' => same_lists p p')) as Hmeta.
  { apply returns_for; [apply _|]. intros a Ha. destruct (is_metadata a).
    - eapply (returns_bind _ _ _ (fun _ p _ p' => p' = p));
        [apply init_action_returns; by apply (Forall_elem _ _ _ Hw)| |].
      + intros fn p u p' Hp E. injection E as _ <-. by split.
      + by intros p fn p1 u p' [Hs _] ->.
    - intros p u p' Hp E. injection E as _ <-. by split. }
  assert (returns (pbind pget (fun p => pfor add_action (all_actions p act))) (fun p _ p' =>
            adds (ra_Key <$> disruptives (all_actions p' act)) p p')) as Hadd.
  { intros p u p' Hp E. pose proof (all_actions_made p act Hp Hw Hlen) as Hall.
    destruct (add_actions_return _ Hall p u p' Hp E) as [Hp' Ha]. split; [done|].
    destruct Ha as (Ed & Ep & Ea'). replace (all_actions p' act) with (all_actions p act); [by split|].
    unfold all_actions. by rewrite Ed, Ep. }
  intros p u p' Hp E. apply pbind_ok in E as (act' & p0 & E0 & E). injection E0 as <- <-.
  apply pbind_ok in E as (u1 & p1 & E1 & E). destruct (Hdisabled _ _ _ Hp E1) as [Hp1 [Hd1 Ha1]].
  apply pbind_ok in E as (u2 & p2 & E2 & E). destruct (Hmeta _ _ _ Hp1 E2) as [Hp2 [Hd2 Ha2]].
  destruct (Hadd _ _ _ Hp2 E) as [Hp' (Ed & Ep & Ea')].
  split; [done|]. exists act. split; [done|]. unfold all_actions in Ea'.
  rewrite Ed, Hd2, Hd1 in Ea'. split; [|by rewrite Ed, Hd2].
  rewrite Ea'. unfold rule_disruptives. by rewrite Ha2, Ha1.
Qed.
End rule_actions.
