(* ===== verification/ConfigExamples.v ===== *)
(** * A concrete environment for the configuration language

    The registries with the operators and transformations that are modelled, a
    file system with one file, and small texts, on which the theorems about the
    configuration language are exercised. *)

From stdpp Require Import options.
From Stdlib Require Import Strings.Byte.
From S2P Require Import Prelude GoLib HttpParse Variables Types Collections BodyBuffer.
From S2P Require Import Transaction Macro Rule TransactionOps Actions Operators RuleEval RuleGroup.
From S2P Require Import Transformations RuleParser Directives SecLang Examples.
Import types.

Module config_demo.
Export demo.

Definition same (s : gostring) : gostring := s.

(** Regular expressions match as plain text. *)
#[global] Instance libs : MatcherLibs := {|
  Operators.regexp_Compile _ := None;
  binaryregexp_Compile _ := None;
  ahocorasick_Build _ _ := [];
  libinjection_IsSQLi _ := (false, []);
  libinjection_IsXSS _ := false;
  jsonschema_Compile _ := None;
  fs_ReadFile _ := inr ErrNotExist;
  exec_CombinedOutput _ _ := None;
  rbl_Lookup _ := RblError;
|}.

#[global] Instance registries : Registries := {|
  RuleParser.operators_Get := Operators.operators_Get;
  RuleParser.GetTransformation := Transformations.GetTransformation same same same;
  RuleParser.regexp_Compile s := Some (fun d => Strings.Contains d s);
|}.

#[global] Instance environment : Environment := {|
  IsDirWritable _ := true;
  ReadFile f := if bool_decide (f = lit "/etc/rules.conf") then Some (lit "SecMarker END") else None;
  Glob _ := Some [];
  Getwd := Some (lit "/srv");
  mandatory := false;
  room _ := 0%nat;
  writer_Init _ _ := true;
|}.

Definition quoted (s : string) : gostring := x22 :: lit s ++ [x22].

Definition cfg : ParserConfig := zero_ParserConfig.

Definition options_of (s : gostring) : RuleOptions := mkRuleOptions true cfg s (lit "SecRule") s ∅.

(** [SecRule ARGS "@contains evil" "id:100,phase:2,block"] *)
Definition rule_text : gostring :=
  lit "ARGS " ++ quoted "@contains evil" ++ lit " " ++ quoted "id:100,phase:2,block".

(** A rule without actions. *)
Definition bare_rule_text : gostring := lit "ARGS " ++ quoted "@contains evil".

(** The rule of a text, with the rules of the WAF and the tables. *)
Definition parsed (s : gostring) : option (Rule * list Rule * transformationIDs) :=
  match ParseRule initialIDs [] (options_of s) with
  | Ok (inl (Some r), rules, ids) => Some (r, rules, ids)
  | _ => None
  end.

Lemma parsed_ok s r rules ids :
  parsed s = Some (r, rules, ids) -> ParseRule initialIDs [] (options_of s) = Ok (inl (Some r), rules, ids).
Proof.
  unfold parsed. destruct (ParseRule _ _ _) as [[[[[r'|]|e] rules'] ids']|]; try done. by intros [= -> -> ->].
Qed.

Definition config_text : gostring :=
  lit "SecRequestBodyAccess On" ++ [x0a] ++
  lit "SecRule ARGS " ++ quoted "@contains evil" ++ lit " " ++ quoted "id:100,phase:2,deny" ++ [x0a] ++
  lit "Include /etc/rules.conf".

(** The WAF that the text describes. *)
Definition configured : option WAF :=
  match coraza_NewWAF (lit "/tmp") initialIDs (WithDirectives NewWAFConfig config_text) with
  | Ok (inl w, _) => Some w
  | _ => None
  end.

Lemma configured_ok w :
  configured = Some w ->
  exists ids, coraza_NewWAF (lit "/tmp") initialIDs (WithDirectives NewWAFConfig config_text) = Ok (inl w, ids).
Proof.
  unfold configured. destruct (coraza_NewWAF _ _ _) as [[[w'|e] ids]|]; try done. intros [= ->]. by exists ids.
Qed.

Definition start : DirectiveOptions := p_options (NewParser initialIDs (NewWAF (lit "/tmp"))).

Definition options_with (opts : gostring) (rules : list Rule) : DirectiveOptions :=
  start <| Opts := opts |> <| do_WAF := (do_WAF start) <| Rules := rules |> |>.
End config_demo.
