(* ===== verification/OperatorProps.v ===== *)
(** * Properties of the operators

    Operators meet the interface that the engine's theorems rest on, compare
    numbers as numbers, and validate byte ranges and URL encoding as they
    say. *)

From stdpp Require Import options.
From Stdlib Require Import Strings.Byte.
From S2P Require Import Prelude GoLib HttpParse Variables Types Collections BodyBuffer.
From S2P Require Import Transaction Macro Rule TransactionOps Actions Operators RuleEval.
From S2P Require Import EvalFacts BodyProcessors PhaseFacts Transformations TransformProps.
From S2P Require Import Examples GoNet NetFacts SecLang ConfigExamples.

Section interface.
Context `{GoUnicode} `{MapOrder} `{MatcherLibs}.

(** ** The engine's interface *)

(** What an operator may do to a transaction. *)
Definition tame (op : Operator) : Prop := forall d, keeps only_variables (op d).

Lemma CaptureField_only i s : keeps only_variables (CaptureField i s).
Proof.
  apply only_variables_modify. intros tx. destruct (Capture tx).
  - eexists (map_upd variables.TX _ (variables_ tx)), (tick tx). reflexivity.
  - exists (variables_ tx), (tick tx). by destruct tx.
Qed.

Lemma keeps_lift {A} (o : outcome A) : keeps only_variables (lift o).
Proof.
  intros tx a tx'. unfold lift. destruct o as [b|]; [|done]. simpl. intros [= _ <-]. reflexivity.
Qed.

Lemma nid_go_only fn l i res : keeps only_variables (nid_go fn i l res).
Proof.
  revert i res. induction l as [|m l IH]; intros i res; cbn [nid_go]; [keeps_step|].
  destruct (10 <=? i); [keeps_step|]. keeps_step; [apply keeps_lift|].
  keeps_step; [|apply IH]. keeps_step; [apply CaptureField_only|apply IH].
Qed.

Lemma capture_groups_only l i : keeps only_variables (capture_groups i l).
Proof.
  revert i. induction l as [|c l IH]; intros i; cbn [capture_groups]; [keeps_step|].
  destruct (i =? 9); [keeps_step|]. keeps_step; [apply CaptureField_only|apply IH].
Qed.

Lemma pm_captures_only v l n : keeps only_variables (pm_captures n v l).
Proof.
  revert n. induction l as [|[s e] l IH]; intros n; cbn [pm_captures]; [keeps_step|].
  keeps_step; [apply CaptureField_only|]. destruct (n + 1 =? 10); [keeps_step|apply IH].
Qed.

Lemma with_macro_tame test options op : with_macro test options = inl op -> tame op.
Proof.
  unfold with_macro. destruct (NewMacro _) as [m|]; [|done]. intros [= <-] d.
  keeps_step; [|keeps_step]. intros tx s tx'. unfold expandM. case_match; [|done].
  intros [= _ <-]. reflexivity.
Qed.

Lemma rx_tame re : tame (rx_Evaluate re).
Proof.
  intros d. unfold rx_Evaluate. repeat keeps_step. apply capture_groups_only.
Qed.

Lemma pm_tame matcher : tame (pmEvaluate matcher).
Proof. intros d. unfold pmEvaluate. repeat keeps_step. apply pm_captures_only. Qed.

Lemma ret_tame (f : gostring -> bool) : tame (fun d => ret (f d)).
Proof. intros d. keeps_step. Qed.
Lemma byte_range_tame v : tame (validateByteRange_Evaluate v).
Proof. apply (ret_tame (fun data => existsb (fun c => negb (v (bz c))) data)). Qed.

(** Every factory makes tame operators. *)
Definition makes_tame (f : OperatorFactory) : Prop :=
  forall options op, f options = inl op -> tame op.

Lemma newRX_tame : makes_tame newRX.
Proof.
  intros options op. unfold newRX, newBinaryRX.
  repeat case_match; intros [= <-]; apply rx_tame.
Qed.

Lemma newValidateNID_tame : makes_tame newValidateNID.
Proof.
  intros options op. unfold newValidateNID. destruct (Strings.Cut _ _) as [[typ expr] ok].
  repeat case_match; intros [= <-] d; apply nid_go_only.
Qed.

Lemma ip_match_tame subnets : tame (ipMatch_Evaluate subnets).
Proof. apply ret_tame. Qed.

Lemma from_file_tame : makes_tame newIPMatchFromFile.
Proof. intros options op. unfold newIPMatchFromFile. case_match; intros [= <-]. apply ip_match_tame. Qed.

Lemma restpath_tame re : tame (restpath_Evaluate re).
Proof.
  intros d. unfold restpath_Evaluate. destruct (FindStringSubmatch re d) as [|m l]; [keeps_step|].
  keeps_step; [|keeps_step]. generalize (drop 1 (m :: l)). induction (drop 1 (SubexpNames re)) as [|n names IH]; intros k.
  - cbn [path_arguments]. keeps_step.
  - destruct k as [|x k]; cbn [path_arguments]; [by intros ? ? ?|]. keeps_step; [|apply IH].
    case_bool_decide; [keeps_step|]. apply only_variables_modify. intros tx.
    eexists (map_upd variables.ArgsPath _ (variables_ tx)), (tick tx). reflexivity.
Qed.

Lemma rbl_tame service : tame (rbl_Evaluate service).
Proof.
  intros d. unfold rbl_Evaluate. destruct (rbl_Lookup _) as [| |[txt|]]; [keeps_step..| |keeps_step].
  keeps_step; [|keeps_step; [apply CaptureField_only|keeps_step]]. apply only_variables_modify. intros tx.
  eexists (map_upd variables.TX _ (variables_ tx)), (tick tx). reflexivity.
Qed.

Lemma schema_tame valid : tame (validateSchema_Evaluate valid).
Proof.
  intros d. unfold validateSchema_Evaluate, tx_body. repeat keeps_step.
Qed.

Lemma NewValidateSchema_tame : makes_tame NewValidateSchema.
Proof.
  intros options op. unfold NewValidateSchema. repeat case_match; intros [= <-]; apply schema_tame.
Qed.

Lemma registered_tame :
  Forall (fun e => makes_tame (snd e)) operators.
Proof.
  unfold operators. repeat apply List.Forall_cons; [..|apply List.Forall_nil]; cbn [snd];
    first [intros ? ?; apply with_macro_tame | apply newRX_tame | apply newValidateNID_tame | apply NewValidateSchema_tame
          | intros ? ? [= <-]; first [apply pm_tame | apply ret_tame] | idtac].
  - intros options op [= <-] d. destruct (libinjection_IsSQLi d) as [[|] f]; [|keeps_step].
    keeps_step; [apply CaptureField_only|keeps_step].
  - intros options op. unfold newIPMatchFromDataset. repeat case_match; intros [= <-]. apply ip_match_tame.
  - apply from_file_tame.
  - apply from_file_tame.
  - intros options op. unfold newPMFromDataset. case_match; intros [= <-]. apply pm_tame.
  - intros options op. unfold newPMFromFile. case_match; intros [= <-]. apply pm_tame.
  - intros options op. unfold newPMFromFile. case_match; intros [= <-]. apply pm_tame.
  - intros options op [= <-] d. apply rbl_tame.
  - intros options op. unfold newRESTPath. case_match; intros [= <-]. apply restpath_tame.
  - intros options op. unfold newValidateByteRange.
    repeat case_match; intros [= <-]; [by apply (ret_tame (fun _ => true))|apply byte_range_tame].
Qed.

(** C22: Every operator the registry makes, from whatever arguments and
    whatever the library matchers return, meets the interface that the
    engine's theorems assume of operators: it may change variables (captures)
    and nothing else of the transaction. *)
Theorem operators_meet_interface (name fn : gostring) (options : OperatorOptions) (op : Operator)
    (r : Rule) :
  operators_Get name options = inl op ->
  rule_ops_ok (SetOperator r op fn (Arguments options)).
Proof.
  unfold operators_Get. destruct (List.find _ _) as [[n f]|] eqn:E; [|done].
  apply find_some in E as [Hin _]. pose proof registered_tame as Hr.
  rewrite List.Forall_forall in Hr. intros Hop%(Hr _ Hin).
  intros p Hp. unfold SetOperator in Hp. simpl in Hp. injection Hp as <-. exact Hop.
Qed.
End interface.

(** ** Comparisons *)

Section comparisons.
Context `{GoUnicode} `{MapOrder}.

(** The bytes of a printed number. *)
Definition numeral (b : byte) : Prop := Strconv.is_digit b = true \/ b = "-"%byte.

Lemma Itoa_numeral z : Forall numeral (Strconv.Itoa z).
Proof.
  unfold Strconv.Itoa. destruct (Z.ltb_spec z 0); [constructor; [by right|]|].
  all: eapply Forall_impl; [|apply Strconv.dec_digits; lia]; by left.
Qed.

Lemma Itoa_not_nil z : Strconv.Itoa z <> [].
Proof.
  unfold Strconv.Itoa. destruct (z <? 0); [done|].
  by destruct (Strconv.dec_cons z) as (c & s & ->).
Qed.

Lemma numeral_solid b : numeral b -> Strings.solid b.
Proof.
  intros Hn. assert (bz b < 0x80 /\ unicode_IsSpace (bz b) = false) as ?; [|done].
  destruct Hn as [Hd| ->]; [|done]. by destruct b.
Qed.

Lemma no_open_plain s : "%"%byte ∉ s -> no_open s = true.
Proof.
  induction s as [|a [|b s] IH]; [done|done|]. intros Hs. cbn [no_open].
  rewrite bool_decide_eq_false_2 by set_solver. apply IH. set_solver.
Qed.

Lemma Itoa_plain z : no_open (Strconv.Itoa z) = true.
Proof.
  apply no_open_plain. intros Hin%list_elem_of_In. pose proof (Itoa_numeral z) as Hn.
  rewrite List.Forall_forall in Hn. by destruct (Hn _ Hin).
Qed.

(** An operator whose argument is plain text tests against that text. *)
Lemma with_macro_plain test options :
  Arguments options <> [] -> no_open (Arguments options) = true ->
  exists op, with_macro test options = inl op /\
    forall value tx, op value tx = Ok (test (Arguments options) value, tx).
Proof.
  intros Hne Ho. destruct (plain_macro_expands_to_itself _ Hne Ho) as (m & Em & Hm).
  unfold with_macro. rewrite Em. eexists. split; [done|]. intros value tx.
  unfold bind, expandM. by rewrite Hm.
Qed.

Lemma atoi_Itoa z : in_int64 z -> atoi (Strconv.Itoa z) = z.
Proof. intros Hz. unfold atoi. by rewrite Strconv.Atoi_Itoa. Qed.

(** The comparison operators decide the order of the numbers: with a
    number as argument and the spelling of a number as value, each returns
    what its name says, over the whole 64-bit range, without changing the
    transaction. *)
Theorem comparisons_decide_order (m n : Z) (options : OperatorOptions) :
  in_int64 m -> in_int64 n -> Arguments options = Strconv.Itoa m ->
  Forall (fun fr : OperatorFactory * (Z -> Z -> bool) =>
            exists op, fst fr options = inl op /\
              forall tx, op (Strconv.Itoa n) tx = Ok (snd fr n m, tx))
    [(newEq, Z.eqb); (newGE, Z.geb); (newGT, Z.gtb); (newLE, Z.leb); (newLT, Z.ltb)].
Proof.
  intros Hm Hn Ha. pose proof (atoi_Itoa m Hm) as Em. pose proof (atoi_Itoa n Hn) as En.
  repeat apply List.Forall_cons; [..|apply List.Forall_nil]; cbn [fst snd];
    (edestruct with_macro_plain as (op & E & Hop);
      [rewrite Ha; apply Itoa_not_nil|rewrite Ha; apply Itoa_plain|];
     exists op; split; [exact E|]; intros tx; rewrite Hop, Ha, Em, En; do 2 f_equal; lia).
Qed.

(** ** URL encoding *)

(** Text in which every percent sign starts an escape of two digits. *)
Inductive well_encoded : gostring -> Prop :=
| we_nil : well_encoded []
| we_plain b s : b <> "%"%byte -> well_encoded s -> well_encoded (b :: s)
| we_escape h1 h2 s : ValidHex h1 = true -> ValidHex h2 = true -> well_encoded s ->
    well_encoded ("%"%byte :: h1 :: h2 :: s).

Lemma url_encoding_go_spec s : url_encoding_go s = 1 <-> well_encoded s.
Proof.
  revert s. fix go 1. intros [|a s]; [by split; [constructor|]|].
  cbn [url_encoding_go]. destruct (bool_decide_reflect (a = "%"%byte)) as [->|Hne].
  - destruct s as [|c1 [|c2 s]].
    + split; [done|]. by inversion 1.
    + split; [done|]. by inversion 1.
    + destruct (ValidHex c1) eqn:E1, (ValidHex c2) eqn:E2; simpl.
      1: rewrite go. 1: split; [by constructor|]. 1: inversion 1; done.
      all: split; [done|]; inversion 1; congruence.
  - rewrite go. split; [by constructor|]. by inversion 1.
Qed.

Lemma encoded_byte_well b s : well_encoded s -> well_encoded (encoded_byte b ++ s).
Proof.
  intros Hs. destruct b; cbn -[ValidHex];
    first [by apply we_plain | by apply we_escape].
Qed.

(** [@validateUrlEncoding] matches exactly the values in which some
    percent sign does not start an escape of two hexadecimal digits; so it
    never flags what URL encoding produced. *)
Theorem url_encoding_is_validated (value : gostring) (tx : Transaction) :
  (exists b, validateURLEncoding_Evaluate value tx = Ok (b, tx) /\ (b = false <-> well_encoded value))
  /\ validateURLEncoding_Evaluate (value_of (urlEncode value)) tx = Ok (false, tx).
Proof.
  assert (forall v, exists b, validateURLEncoding_Evaluate v tx = Ok (b, tx) /\
                              (b = false <-> well_encoded v)) as Hspec.
  { intros v. eexists. split; [reflexivity|]. unfold validateURLEncodingInternal.
    destruct (bool_decide_reflect (v = [])) as [->|Hne]; [by split; [constructor|]|].
    rewrite negb_false_iff, Z.eqb_eq. apply url_encoding_go_spec. }
  split; [apply Hspec|]. destruct (Hspec (value_of (urlEncode value))) as (b & -> & Hb).
  do 2 f_equal. apply Hb. change (value_of (urlEncode value)) with (flat_map encoded_byte value).
  clear Hb Hspec. induction value as [|c s IH]; [constructor|]. cbn [flat_map]. by apply encoded_byte_well.
Qed.
End comparisons.

(** ** Byte ranges *)

Section ranges.
Context `{GoUnicode} `{MapOrder}.

(** The spelling of a range. *)
Definition print_range (se : Z * Z) : gostring :=
  Strconv.Itoa (fst se) ++ "-"%byte :: Strconv.Itoa (snd se).

Definition bytes_of (se : Z * Z) : Prop := 0 <= fst se <= 255 /\ 0 <= snd se <= 255.

Definition in_range (b : Z) (se : Z * Z) : bool := (fst se <=? b) && (b <=? snd se).

Lemma print_range_numeral se : Forall numeral (print_range se).
Proof.
  unfold print_range. apply Forall_app. split; [apply Itoa_numeral|].
  constructor; [by right|apply Itoa_numeral].
Qed.

Lemma print_range_no_comma se : ","%byte ∉ print_range se.
Proof.
  intros Hin%list_elem_of_In. pose proof (print_range_numeral se) as Hn.
  rewrite List.Forall_forall in Hn. by destruct (Hn _ Hin).
Qed.

Lemma parse_byte_Itoa b : 0 <= b <= 255 -> parse_byte (Strconv.Itoa b) = inl b.
Proof.
  intros Hb. unfold parse_byte. rewrite Strconv.Atoi_Itoa by (unfold in_int64, maxInt64; lia).
  unfold validateByte. by rewrite (proj2 (Z.ltb_ge b 0)), (proj2 (Z.ltb_ge 255 b)) by lia.
Qed.

Lemma cut_print_range se :
  0 <= fst se ->
  Strings.Cut (Strings.TrimSpace (print_range se)) "-"%byte =
  (Strconv.Itoa (fst se), Strconv.Itoa (snd se), true).
Proof.
  intros Hs. rewrite Strings.TrimSpace_solid
    by (eapply Forall_impl; [apply numeral_solid|apply print_range_numeral]).
  apply Strings.Cut_app. unfold Strconv.Itoa. rewrite (proj2 (Z.ltb_ge _ _) Hs).
  intros Hin%list_elem_of_In. pose proof (Strconv.dec_digits _ Hs) as Hd.
  rewrite List.Forall_forall in Hd. by apply Hd in Hin.
Qed.

Lemma byte_range_piece_print v se :
  bytes_of se -> byte_range_piece v (print_range se) = inl (mark_range (fst se) (snd se) v).
Proof.
  intros [Hs He]. unfold byte_range_piece. rewrite cut_print_range by lia.
  by rewrite !parse_byte_Itoa.
Qed.

Lemma byte_range_go_print l v :
  Forall bytes_of l ->
  exists v', byte_range_go v (print_range <$> l) = inl v' /\
    forall b, v' b = existsb (in_range b) l || v b.
Proof.
  intros Hl. revert v. induction Hl as [|se l Hse _ IH]; intros v; [by exists v|].
  rewrite fmap_cons. cbn [byte_range_go]. rewrite byte_range_piece_print by done.
  destruct (IH (mark_range (fst se) (snd se) v)) as (v' & -> & Hv'). exists v'.
  split; [done|]. intros b. rewrite Hv'. unfold mark_range. cbn [existsb]. unfold in_range at 2.
  destruct (existsb (in_range b) l); [by rewrite orb_true_r|].
  by rewrite orb_false_r.
Qed.

(** [@validateByteRange], given the spelling of a list of ranges, is
    accepted and matches exactly the values that have a byte outside all of
    them. *)
Theorem byte_ranges_are_validated (l : list (Z * Z)) (options : OperatorOptions)
    (data : gostring) (tx : Transaction) :
  l <> [] -> Forall bytes_of l ->
  Arguments options = join ","%byte (print_range <$> l) ->
  exists op, newValidateByteRange options = inl op /\
    op data tx = Ok (existsb (fun c => negb (existsb (in_range (bz c)) l)) data, tx).
Proof.
  intros Hne Hl Ha. unfold newValidateByteRange.
  assert (split_on ","%byte (Arguments options) = print_range <$> l) as Hsp.
  { rewrite Ha. apply split_on_join; [by destruct l|].
    apply List.Forall_forall. intros p (se & <- & _)%in_map_iff. apply print_range_no_comma. }
  rewrite bool_decide_eq_false_2; [|intros E; rewrite E in Hsp].
  - rewrite Hsp. destruct (byte_range_go_print l (fun _ => false) Hl) as (v & -> & Hv).
    eexists. split; [done|]. unfold validateByteRange_Evaluate, ret. do 2 f_equal.
    induction data as [|c data IH]; [done|]. cbn [existsb]. by rewrite Hv, orb_false_r, IH.
  - destruct l as [|se l]; [done|]. cbn in Hsp. injection Hsp as Hsp _.
    unfold print_range in Hsp. by destruct (Strconv.Itoa (fst se)).
Qed.
End ranges.

(** ** Identification numbers *)

(** [nidCl] tests the length before it removes other characters: an input of
    eight bytes without a digit or a k makes it panic. *)
Lemma nidCl_panics `{GoUnicode} nid :
  8 <= zlen nid -> digits_or_k (Strings.ToLower nid) = [] -> nidCl nid = Panic.
Proof.
  intros Hl He. unfold nidCl. rewrite (proj2 (Z.ltb_ge _ _) Hl), He. done.
Qed.

(** ** Addresses *)

Section addresses.
Context `{GoUnicode} `{MapOrder} `{MatcherLibs}.

Lemma net_byte_solid c : net_byte c \/ c = "/"%byte \/ Strconv.is_digit c = true -> Strings.solid c /\ c <> ","%byte.
Proof using Type.
  intros Hc. destruct c; first [by split; [split; vm_compute|]
    | by destruct Hc as [[[[d Hd]|E]|E]|[E|Hd]]; discriminate].
Qed.

Lemma print_network_bytes net : network_ok net ->
  Forall (fun c => Strings.solid c /\ c <> ","%byte) (print_network net) /\ "/"%byte ∈ print_network net.
Proof using Type.
  intros (addr & a & n & -> & _ & Hb & Hn & _)%network_address. split; [|set_solver].
  apply List.Forall_forall. intros c Hc. apply list_elem_of_In in Hc. apply net_byte_solid.
  apply elem_of_app in Hc as [Hc|[->|Hc]%elem_of_cons]; [by left; apply Hb|by right; left|]. right. right.
  pose proof (Strconv.dec_digits n) as Hd. rewrite List.Forall_forall in Hd. apply Hd; [lia|]. by apply list_elem_of_In.
Qed.

(** The networks that the argument names. *)
Lemma ip_subnets_print l : Forall network_ok l ->
  Forall2 (fun N net => forall ip, address ip -> Net.IPNet_Contains N ip = in_network ip net)
    (ip_subnets (join ","%byte (print_network <$> l))) l.
Proof using Type.
  intros Hl. unfold ip_subnets. destruct (decide (l = [])) as [->|Hne]; [constructor|].
  rewrite split_on_join; [|by destruct l|].
  - clear Hne. induction Hl as [|net l Hnet Hl IH]; [constructor|]. cbn [fmap list_fmap].
    destruct (print_network_bytes net Hnet) as [Hb Hs]. destruct (ParseCIDR_print net Hnet) as (N & EN & HN).
    assert (Strings.TrimSpace (print_network net) = print_network net) as Et.
    { apply Strings.TrimSpace_solid. eapply List.Forall_impl; [|exact Hb]. by intros c [? _]. }
    cbn [omap list_omap]. rewrite Et, bool_decide_eq_false_2 by (intros E; rewrite E in Hs; by apply elem_of_nil in Hs).
    unfold subnet_text. rewrite (bool_decide_eq_true_2 ("/"%byte ∈ _)) by done. rewrite !andb_false_r, EN.
    by constructor.
  - apply List.Forall_forall. intros p (net & <- & Hin)%in_map_iff Hc. rewrite List.Forall_forall in Hl.
    destruct (print_network_bytes net (Hl _ Hin)) as [Hb _]. rewrite List.Forall_forall in Hb.
    apply list_elem_of_In in Hc. by destruct (Hb _ Hc).
Qed.

(** C32: [ipMatch] decides membership: with a list of networks as its argument,
    IPv4 or IPv6, it matches the text of an address exactly when the address
    has the prefix of one of them, and leaves the transaction alone. *)
Theorem ip_match_decides_membership (l : list network) (options : OperatorOptions) (ip : Net.IP) (tx : Transaction) :
  Forall network_ok l -> Arguments options = join ","%byte (print_network <$> l) -> address ip ->
  exists op, newIPMatch options = inl op /\ op (Net.IP_String ip) tx = Ok (existsb (in_network ip) l, tx).
Proof using Type.
  intros Hl Ha Hip. eexists. split; [done|]. unfold ipMatch_Evaluate, ret. rewrite ParseIP_String by done. simpl.
  do 2 f_equal. rewrite Ha. generalize (ip_subnets_print l Hl). generalize (ip_subnets (join ","%byte (print_network <$> l))).
  clear Ha Hl. intros Ns HF. induction HF as [|N net Ns nets HN _ IH]; [done|]. simpl. by rewrite HN, IH.
Qed.
End addresses.

Module operator_witnesses.
Import config_demo.

Lemma operators_meet_interface_witness :
  rule_ops_ok (SetOperator NewRule (fun _ => ret true) (lit "unconditionalMatch") []).
Proof.
  apply (operators_meet_interface
    (lit "unconditionalMatch") (lit "unconditionalMatch") (mkOperatorOptions [] [] ∅)).
  reflexivity.
Defined.

Lemma ip_match_decides_membership_witness :
  exists op, newIPMatch (mkOperatorOptions (lit "10.0.0.0/8,2001:db8::/32") [] ∅) = inl op
    /\ op (lit "10.1.2.3") tx0 = Ok (true, tx0).
Proof.
  apply (ip_match_decides_membership
    [V4Net [10; 0; 0; 0] 8; V6Net [32; 1; 13; 184; 0; 0; 0; 0; 0; 0; 0; 0; 0; 0; 0; 0] 32]
    (mkOperatorOptions (lit "10.0.0.0/8,2001:db8::/32") [] ∅)
    [0; 0; 0; 0; 0; 0; 0; 0; 0; 0; 255; 255; 10; 1; 2; 3] tx0).
  - repeat (apply List.Forall_cons || apply List.Forall_nil || split || lia || by vm_compute); unfold octet; lia.
  - by vm_compute.
  - split; [done|]. repeat (apply List.Forall_cons || apply List.Forall_nil); unfold octet; lia.
Defined.

Lemma comparisons_decide_order_witness :
  Forall (fun fr : OperatorFactory * (Z -> Z -> bool) =>
            exists op, fst fr (mkOperatorOptions (lit "5") [] ∅) = inl op /\
              forall tx, op (Strconv.Itoa (-7)) tx = Ok (snd fr (-7) 5, tx))
    [(newEq, Z.eqb); (newGE, Z.geb); (newGT, Z.gtb); (newLE, Z.leb); (newLT, Z.ltb)].
Proof.
  apply (comparisons_decide_order 5 (-7) (mkOperatorOptions (lit "5") [] ∅));
    [split; vm_compute; discriminate..|reflexivity].
Defined.

Lemma byte_ranges_are_validated_witness :
  exists op, newValidateByteRange (mkOperatorOptions (lit "10-10,32-126") [] ∅) = inl op /\
    op (lit "ok") tx0 = Ok (false, tx0).
Proof.
  apply (byte_ranges_are_validated [(10, 10); (32, 126)]
    (mkOperatorOptions (lit "10-10,32-126") [] ∅) (lit "ok") tx0); [discriminate| |reflexivity].
  repeat apply List.Forall_cons; [..|apply List.Forall_nil]; split; cbn; lia.
Defined.
End operator_witnesses.
