(* ===== verification/SecLangProps.v ===== *)
(** * Properties of the configuration language *)

From stdpp Require Import options.
From Stdlib Require Import Strings.Byte.
From S2P Require Import Prelude GoLib HttpParse Variables Types Collections BodyBuffer.
From S2P Require Import Transaction Macro Rule TransactionOps Actions Operators RuleEval RuleGroup.
From S2P Require Import Transformations RuleParser Directives SecLang ParserFacts ConfigExamples.
Import types.

Section rules.
Context `{GoUnicode} `{Registries}.

(** ** Rules *)

(** C14: No text makes the rule parser panic: from well-formed tables of
    transformation identifiers [ParseRule] returns a rule, nothing (a chained
    rule) or an error, and the tables stay well formed. *)
Theorem rule_parser_never_panics ids rules options :
  ids_wf ids ->
  exists r rules' ids', ParseRule ids rules options = Ok (r, rules', ids') /\ ids_wf ids'.
Proof using Type.
  intros Hwf. unfold ParseRule. case_bool_decide; [by eexists _, _, _|].
  pose proof (parse_rule_parts_total options _ (start_inv _ Hwf)) as Ht.
  destruct (parse_rule_parts options _) as [[[u|e] p]|]; [| |done];
    destruct Ht as [Hp _]; destruct (Hp (start_inv _ Hwf)) as [[Hwf' _] _];
    [destruct (getLastRuleExpectingChain rules)|]; by eexists _, _, _.
Qed.

(** The text of the actions of a rule, if it has one. *)
Definition action_text (options : RuleOptions) : option gostring :=
  if WithOperator options then
    match parseActionOperator (RuleParser.Data options) with
    | inl (_, _, acts) => if bool_decide (acts = []) then None else Some acts
    | inr _ => None
    end
  else Some (MaybeRemoveQuotes (RuleParser.Data options)).

Lemma ParseDefaultActions_returns text :
  returns (ParseDefaultActions text) (fun p _ p' =>
    rp_rule p' = rp_rule p /\
    (forall ph, is_Some (rp_defaultActions p !! ph) -> rp_defaultActions p' !! ph = rp_defaultActions p !! ph)).
Proof using Type.
  apply returns_of_total; [apply ParseDefaultActions_total|]. intros p u p' Hp E.
  unfold ParseDefaultActions in E. apply pbind_ok in E as (act & p1 & E1 & E).
  apply plift_ok in E1 as [_ ->].
  apply pbind_ok in E as ([ph d] & p2 & E2 & E).
  apply plift_ok in E2 as [_ ->].
  destruct (ph =? 0); [done|]. case_bool_decide; [done|]. cbn in E.
  case_bool_decide as Hn; [done|]. injection E as _ <-. split; [done|]. cbn. intros ph' Hph'.
  apply lookup_insert_ne. by intros ->.
Qed.

Lemma phase2_defaults :
  exists act d, parseActions defaultActionsPhase2 = inl act /\ disruptives act = [d] /\
    ra_Key d = lit "pass" /\ scan_defaults act 0 [] = inl (2, lit "pass").
Proof using Type.
  eexists _, _. split; [vm_compute; reflexivity|]. split; [vm_compute; reflexivity|].
  split; vm_compute; reflexivity.
Qed.

(** Steps that leave the default actions and the rule's actions alone. *)
Lemma parse_targets_returns vars : returns (parse_targets vars) (fun p _ p' => same_lists p p').
Proof using Type.
  apply returns_of_total; [apply parse_targets_total|]. intros p u p' Hp E.
  unfold parse_targets in E. apply pbind_ok in E as (p0 & p1 & E0 & E). injection E0 as <- <-.
  apply pbind_ok in E as (r & p2 & E2 & E). apply plift_ok in E2 as [E2 ->]. injection E as _ <-.
  split; [done|]. cbn. unfold ParseVariables in E2.
  eapply (ParseVariables_go_ind _ _ (fun r => actions r = actions (rp_rule p))); [| |done|exact E2].
  - intros r0 v k b r1 <-. unfold AddVariable. destruct (keyRegexp _ _); [|done]. by intros [= <-].
  - intros r0 v k r1 <-. unfold AddVariableNegation. destruct (keyRegexp _ _); [|done]. by intros [= <-].
Qed.

Lemma ParseOperator_returns options op :
  returns (ParseOperator options op) (fun p _ p' => same_lists p p').
Proof using Type.
  apply returns_of_total; [apply ParseOperator_total|]. intros p u p' Hp. unfold ParseOperator.
  destruct (Strings.Cut _ _) as [[opRaw opdata] found]. destruct (operator_name _); [|done].
  destruct (operators_Get _ _); [|done]. intros E. injection E as _ <-. by split.
Qed.

Definition same_rule (p p' : RuleParser) : Prop := rp_rule p' = rp_rule p.

#[local] Instance same_rule_pre : PreOrder same_rule.
Proof using Type. split; red; unfold same_rule; congruence. Qed.

(** The parser before the actions: phase 2 has default actions with one
    disruptive action. *)
Lemma read_defaults_returns cfg p u p' :
  rp_inv p -> rp_defaultActions p = ∅ -> read_defaults cfg p = Ok (inl u, p') ->
  rp_inv p' /\ rp_rule p' = rp_rule p /\
  exists defaults d, rp_defaultActions p' !! 2 = Some defaults /\ Forall well_made defaults /\
    disruptives defaults = [d] /\ (HasRuleDefaultActions cfg = false -> ra_Key d = lit "pass").
Proof using Type.
  intros Hp Hempty E. apply pbind_ok in E as (u1 & p1 & E1 & E).
  assert (rp_inv p1 /\ same_rule p p1) as [Hp1 Hr1].
  { eapply (returns_for ParseDefaultActions _ same_rule); [|exact Hp|exact E1].
    intros a _ q v q' Hq Eq. by destruct (ParseDefaultActions_returns a q v q' Hq Eq) as [? [? _]]. }
  apply pbind_ok in E as (p1' & p1'' & E0 & E). injection E0 as <- <-.
  case_bool_decide as H2.
  - injection E as _ <-. split; [done|]. split; [done|]. destruct H2 as [defaults H2].
    destruct Hp1 as [_ Hd1]. destruct (map_Forall_lookup_1 _ _ _ _ Hd1 H2) as (Hw & d & Hd).
    exists defaults, d. split_and!; try done. intros Hno. exfalso. rewrite Hno in E1.
    injection E1 as _ <-. by rewrite Hempty in H2.
  - destruct (ParseDefaultActions_returns _ _ _ _ Hp1 E) as [Hp' [Hr' _]].
    split; [done|]. split; [by rewrite Hr'|].
    destruct phase2_defaults as (act & d & Ea & Ed & Ek & Es). exists act, d.
    destruct (parseActions_only _ _ Ea) as (Hw & _).
    split_and!; [|exact Hw|exact Ed|by intros _].
    unfold ParseDefaultActions in E. rewrite Ea in E. cbn [plift pbind pret] in E.
    unfold plift, pbind, pret in E. rewrite Es in E. cbn in E. rewrite bool_decide_eq_false_2 in E by done.
    injection E as _ <-. apply lookup_insert_eq.
Qed.

(** What the parts of a rule leave: the defaults of phase 2 and the disruptive
    actions. *)
Lemma parse_rule_parts_returns options p u p' :
  rp_inv p -> rp_defaultActions p = ∅ -> actions (rp_rule p) = [] ->
  parse_rule_parts options p = Ok (inl u, p') -> forall text, action_text options = Some text ->
  exists act defaults d, parseActions text = inl act /\ rp_defaultActions p' !! 2 = Some defaults /\
    disruptives defaults = [d] /\ Forall well_made defaults /\
    (HasRuleDefaultActions (ro_ParserConfig options) = false -> ra_Key d = lit "pass") /\
    rule_disruptives (rp_rule p') =
      ra_Key <$> disruptives (match rp_defaultActions p' !! rPhase (rp_rule p') with
                              | None => act
                              | Some defaults => mergeActions act defaults
                              end).
Proof using Type.
  intros Hp Hempty Hacts E text Htext. unfold parse_rule_parts in E.
  apply pbind_ok in E as (u1 & p1 & E1 & E).
  destruct (read_defaults_returns _ _ _ _ Hp Hempty E1) as (Hp1 & Hr1 & defaults & d & Hd & Hw & Hdis & Hpass).
  assert (exists p2 u2, rp_inv p2 /\ same_lists p1 p2 /\
    ParseActions (ro_ParserConfig options) text p2 = Ok (inl u2, p')) as (p2 & u2 & Hp2 & [Hs1 Hs2] & E2).
  { unfold action_text in Htext. destruct (WithOperator options).
    - apply pbind_ok in E as ([[vars op] acts] & q & Eq & E). apply plift_ok in Eq as [Eq ->].
      rewrite Eq in Htext. case_bool_decide; [done|]. injection Htext as ->.
      destruct (InSlice _ _); [done|]. apply pbind_ok in E as (v1 & q1 & Eq1 & E).
      destruct (parse_targets_returns _ _ _ _ Hp1 Eq1) as [Hq1 Hsq1].
      apply pbind_ok in E as (v2 & q2 & Eq2 & E).
      destruct (ParseOperator_returns _ _ _ _ _ Hq1 Eq2) as [Hq2 Hsq2].
      exists q2, u. split_and!; [done| |done]. by etrans.
    - injection Htext as <-. by exists p1, u. }
  destruct (ParseActions_returns _ _ _ _ _ Hp2 E2) as [Hp' (act & Ea & Er & Ed)].
  exists act, defaults, d. rewrite Ed, Hs1. split_and!; try done.
  rewrite Er, Hs1. unfold rule_disruptives. by rewrite Hs2, Hr1, Hacts.
Qed.


(** A rule without a list of actions inherits none of the default actions:
    it has no action at all, although a default list is always there. *)
Theorem rule_without_actions_inherits_nothing ids rules options rule rules' ids' vars op :
  ids_wf ids -> WithOperator options = true ->
  parseActionOperator (RuleParser.Data options) = inl (vars, op, []) ->
  ParseRule ids rules options = Ok (inl (Some rule), rules', ids') ->
  actions rule = [] /\ rule_disruptives rule = [].
Proof using Type.
  intros Hwf Hop Hparts. unfold ParseRule. case_bool_decide; [done|].
  destruct (parse_rule_parts options _) as [[[u|e] p]|] eqn:E; [|done|done].
  destruct (getLastRuleExpectingChain rules); [done|]. intros [= <- _ _].
  assert (actions (rp_rule p) = []) as Ha; [|by unfold rule_disruptives; cbn; rewrite Ha].
  unfold parse_rule_parts in E. apply pbind_ok in E as (u1 & p1 & E1 & E).
  destruct (read_defaults_returns _ _ _ _ (start_inv _ Hwf) eq_refl E1) as (Hp1 & Hr1 & _).
  rewrite Hop, Hparts in E. cbn [plift] in E. apply pbind_ok in E as (x & q & Eq & E).
  injection Eq as <- <-. destruct (InSlice _ _); [done|]. apply pbind_ok in E as (v1 & q1 & Eq1 & E).
  destruct (parse_targets_returns _ _ _ _ Hp1 Eq1) as [Hq1 [_ Ha1]].
  apply pbind_ok in E as (v2 & q2 & Eq2 & E).
  destruct (ParseOperator_returns _ _ _ _ _ Hq1 Eq2) as [_ [_ Ha2]].
  rewrite bool_decide_eq_true_2 in E by done. injection E as _ <-. by rewrite Ha2, Ha1, Hr1.
Qed.
End rules.

(** ** Configuration texts *)

Section texts.
Context `{GoUnicode} `{Registries} `{Environment}.


Lemma scan_long l1 long l2 : MaxScanTokenSize <= zlen long -> scan (l1 ++ long :: l2) = scan l1.
Proof using Type.
  intros Hlong. induction l1 as [|l l1 IH]; simpl.
  - by rewrite (proj2 (Z.leb_le _ _)).
  - destruct (_ <=? _); [done|]. by rewrite IH.
Qed.

Lemma raw_lines_join ls :
  Forall (fun l => x0a ∉ l) ls -> list.last ls <> Some [] -> raw_lines (join x0a ls) = ls.
Proof using Type.
  intros Hls Hlast. unfold raw_lines. destruct ls as [|l ls]; [done|].
  rewrite split_on_join by done. by rewrite bool_decide_eq_false_2.
Qed.

(** A line of 65536 bytes or more silently ends a configuration text: it
    and everything after it is ignored, and the result is that of the text
    before it. *)
Theorem long_line_ends_configuration include ls1 long ls2 p :
  Forall (fun l => x0a ∉ l) (ls1 ++ long :: ls2) -> list.last ls1 <> Some [] ->
  MaxScanTokenSize <= zlen long ->
  parseString include (join x0a (ls1 ++ long :: ls2)) p = parseString include (join x0a ls1) p.
Proof using Type.
  intros Hls Hlast Hlong. unfold parseString. f_equal. unfold scan_lines.
  rewrite (raw_lines_join ls1); [|by apply Forall_app in Hls as [? _]|done].
  unfold raw_lines. rewrite split_on_join; [|by destruct ls1|done].
  case_bool_decide as Hl; [|by apply scan_long].
  destruct (exists_last (l := long :: ls2) ltac:(done)) as (l & x & E). rewrite E in *.
  rewrite app_assoc, removelast_last. destruct l as [|y l].
  - injection E as -> ->. cbn [app] in Hl. rewrite last_snoc in Hl. injection Hl as ->. by vm_compute in Hlong.
  - injection E as <- ->. by apply scan_long.
Qed.

(** A piece of a directive that is continued on the next line. *)
Definition piece_ok (s : gostring) : Prop :=
  Forall (fun b => bz b < 0x80 /\ b <> x0a) s /\ zlen s < 65535 /\
  exists b, head s = Some b /\ Strings.solid b /\ b <> "#"%byte.

(** Its last piece. *)
Definition last_ok (s : gostring) : Prop :=
  piece_ok s /\ exists c, list.last s = Some c /\ Strings.solid c /\ c <> "\"%byte /\ c <> "`"%byte.

Lemma piece_line s : piece_ok s -> Strings.TrimSpace (dropCR (s ++ ["\"%byte])) = s ++ ["\"%byte].
Proof using Type.
  intros (Ha & _ & b & Hb & Hs & _). unfold dropCR. rewrite last_snoc, bool_decide_eq_false_2 by done.
  eapply TrimSpace_anchored; [| |by rewrite last_snoc|exact Hs|by vm_compute].
  - apply Forall_app_2; [|by apply List.Forall_cons]. eapply Forall_impl; [|exact Ha]. by intros ? [? _].
  - by destruct s.
Qed.

Lemma last_line s : last_ok s -> Strings.TrimSpace (dropCR s) = s.
Proof using Type.
  intros [(Ha & _ & b & Hb & Hs & _) (c & Hc & Sc & _)].
  assert (dropCR s = s) as ->.
  { unfold dropCR. rewrite Hc, bool_decide_eq_false_2; [done|]. intros [= ->]. by destruct Sc. }
  eapply TrimSpace_anchored; try done. eapply Forall_impl; [|exact Ha]. by intros ? [? _].
Qed.

Lemma logical_lines_continued pieces lst n buf :
  Forall piece_ok pieces -> last_ok lst ->
  logical_lines (scan (((fun s => s ++ ["\"%byte]) <$> pieces) ++ [lst])) n buf false =
  ([(n + S (length pieces), buf ++ concat pieces ++ lst)%nat], 0%nat, false).
Proof using Type.
  intros Hp Hl. revert n buf. induction Hp as [|s pieces Hs _ IH]; intros n buf.
  - cbn [fmap list_fmap app scan]. pose proof (last_line lst Hl) as Hline.
    destruct Hl as [Hp (c & Hc & Sc & Hb & Ht)].
    rewrite (proj2 (Z.leb_gt _ _)) by (destruct Hp as (_ & ? & _); unfold MaxScanTokenSize; lia).
    cbn [logical_lines]. rewrite Hline. destruct Hp as (_ & _ & b & Hh & _ & Hne).
    rewrite bool_decide_eq_false_2 by (by destruct lst). rewrite bool_decide_eq_false_2 by congruence.
    cbn [orb]. unfold backticks_at, is_backtick. rewrite Hc.
    rewrite bool_decide_eq_false_2 by congruence. cbn [negb andb].
    rewrite bool_decide_eq_false_2 by congruence. cbn [length concat app]. do 4 f_equal. lia.
  - cbn [fmap list_fmap app scan].
    rewrite (proj2 (Z.leb_gt _ _)) by (destruct Hs as (_ & ? & _); unfold MaxScanTokenSize, zlen in *;
      rewrite length_app; cbn [length]; lia).
    cbn [logical_lines]. rewrite (piece_line s Hs). destruct Hs as (_ & _ & b & Hh & _ & Hne).
    rewrite bool_decide_eq_false_2 by (by destruct s).
    rewrite bool_decide_eq_false_2 by (destruct s; cbn in *; congruence).
    cbn [orb]. unfold backticks_at, is_backtick. rewrite last_snoc.
    rewrite bool_decide_eq_false_2 by done. cbn [negb andb].
    rewrite bool_decide_eq_true_2 by done. rewrite removelast_last, IH.
    cbn [length concat]. rewrite <- !app_assoc. do 4 f_equal. lia.
Qed.

(** A directive may be split over lines that end with a backslash: whatever
    the places, it is evaluated as the text without the backslashes and line
    breaks, at the number of its last line. *)
Theorem continued_directive_is_joined include pieces lst p :
  Forall piece_ok pieces -> last_ok lst ->
  parseString include (join x0a (((fun s => s ++ ["\"%byte]) <$> pieces) ++ [lst])) p =
  evaluateLine include (concat pieces ++ lst) (advance (S (length pieces)) p).
Proof using Type.
  intros Hp Hl. rewrite parseString_logical. unfold logical, scan_lines.
  rewrite raw_lines_join.
  - rewrite logical_lines_continued by done. cbn. unfold pbind, run_line. cbn [fst snd app Nat.add].
    destruct (evaluateLine _ _ _) as [[[[]|e] p']|]; [|done|done]. cbn. by rewrite advance_0.
  - apply Forall_app_2.
    + apply List.Forall_forall. intros l Hin. apply list_elem_of_In, list_elem_of_fmap in Hin as (s & -> & Hs).
      destruct (Forall_elem _ _ _ Hp Hs) as (Ha & _). intros [Hin|Hin]%elem_of_app.
      * by destruct (Forall_elem _ _ _ Ha Hin).
      * by apply list_elem_of_singleton in Hin.
    + apply List.Forall_cons; [|done]. destruct Hl as [(Ha & _) _]. intros Hin.
      by destruct (Forall_elem _ _ _ Ha Hin).
  - rewrite last_snoc. intros [= ->]. by destruct Hl as [(_ & _ & b & Hh & _) _].
Qed.
End texts.

(** ** Construction of a WAF *)

Section construction.
Context `{GoUnicode} `{Registries} `{Environment}.

Lemma FromString_safe data : psafe (fun p => 0 <= includeCount p <= maxIncludeRecursion) includes_grow
  not_depth True (FromString data).
Proof using Type.
  intros p Hp. unfold FromString. set (p1 := p <| currentFile := lit "_inline_" |>).
  assert (enough include_fuel p1) as He by (unfold enough, include_fuel, maxIncludeRecursion in *; simpl; lia).
  pose proof (parseString_safe (FromFile include_fuel) include_fuel data) as Hs.
  specialize (Hs ltac:(intros l; apply evaluateLine_safe; intros; apply FromFile_safe) p1 He).
  destruct (parseString _ _ _) as [[r p2]|]; [|done]. exact Hs.
Qed.

Lemma FromFile_top_safe path : psafe (fun p => 0 <= includeCount p <= maxIncludeRecursion) includes_grow
  not_depth True (FromFile include_fuel path).
Proof using Type.
  eapply psafe_weaken; [|apply FromFile_safe]. unfold may_include, include_fuel, maxIncludeRecursion. lia.
Qed.

Lemma add_source_safe src : psafe (fun p => 0 <= includeCount p <= maxIncludeRecursion) includes_grow
  (fun e => e <> ErrConfig ErrIncludeDepth) True (add_source src).
Proof using Type.
  intros p Hp. unfold add_source. destruct src as [r|s|f].
  - destruct (Add _ _ _); (split; [unfold includes_grow; simpl; lia|]); intros e E; by simplify_eq.
  - case_bool_decide; [by split|]. pose proof (FromString_safe s p Hp) as Hs.
    destruct (FromString s p) as [[[[]|e] p']|]; [| |done]; destruct Hs as [HR He]; split; try done.
    intros e' [= <-] [= E]. by apply (He e eq_refl).
  - case_bool_decide; [by split|]. pose proof (FromFile_top_safe f p Hp) as Hs.
    destruct (FromFile include_fuel f p) as [[[[]|e] p']|]; [| |done]; destruct Hs as [HR He]; split; try done.
    intros e' [= <-] [= E]. by apply (He e eq_refl).
Qed.

(** C13: Inclusion terminates: the fuel of the recursion is never used up, since
    a parser includes at most 100 files, whatever the files include. *)
Theorem inclusion_terminates data ids w :
  match FromString data (NewParser ids w) with
  | Panic => True
  | Ok (r, p) => r <> inr ErrIncludeDepth /\ 0 <= includeCount p <= maxIncludeRecursion
  end /\
  forall tmp ids' c, coraza_NewWAF tmp ids c <> Ok (inr (ErrConfig ErrIncludeDepth), ids').
Proof using Type.
  assert (forall w, 0 <= includeCount (NewParser ids w) <= maxIncludeRecursion) as H0'.
  { intros. simpl. unfold maxIncludeRecursion. lia. }
  split.
  - pose proof (FromString_safe data (NewParser ids w) (H0' w)) as Hs.
    destruct (FromString data _) as [[r p]|]; [|done]. destruct Hs as [HR He].
    split; [intros ->; by apply (He _ eq_refl)|]. specialize (H0' w). unfold includes_grow in HR. lia.
  - intros tmp ids' c. unfold coraza_NewWAF. destruct (negb _); [done|].
    set (w' := override _ _ _).
    pose proof (psafe_for (I := fun p => 0 <= includeCount p <= maxIncludeRecursion) (R := includes_grow)
      (ok := fun e => e <> ErrConfig ErrIncludeDepth) (panics := True)
      ltac:(unfold includes_grow; intros; lia) add_source (c_rules c) add_source_safe
      (NewParser ids w') (H0' w')) as Hs.
    destruct (pfor _ _ _) as [[[u|e] p]|]; [| |done].
    + destruct (InitAuditLogWriter _) as [w1|e1] eqn:Ei.
      * destruct (Validate _); done.
      * intros [= E]. unfold InitAuditLogWriter in Ei. repeat case_match; simplify_eq.
    + destruct Hs as [_ He]. intros [= -> _]. by apply (He _ eq_refl).
Qed.

End construction.

(** ** Witnesses *)

Module seclang_witnesses.
Import config_demo.

Lemma rule_parser_never_panics_witness :
  exists r rules ids, ParseRule initialIDs [] (options_of rule_text) = Ok (r, rules, ids) /\ ids_wf ids.
Proof. exact (rule_parser_never_panics initialIDs [] (options_of rule_text) initialIDs_wf). Defined.


Lemma rule_without_actions_inherits_nothing_witness :
  exists r rules ids, ParseRule initialIDs [] (options_of bare_rule_text) = Ok (inl (Some r), rules, ids) /\
    actions r = [].
Proof.
  assert (is_Some (parsed bare_rule_text)) as Hs by (apply (bool_decide_eq_true_1 (is_Some _)); vm_compute; reflexivity).
  destruct (parsed bare_rule_text) as [[[r rules] ids]|] eqn:E; [|by destruct Hs].
  exists r, rules, ids. split; [by apply parsed_ok|].
  apply (rule_without_actions_inherits_nothing initialIDs [] (options_of bare_rule_text) r rules ids
    (lit "ARGS") (lit "@contains evil") initialIDs_wf eq_refl); [vm_compute; reflexivity|by apply parsed_ok].
Defined.

(** A line that is too long. *)
Definition long_line : gostring := replicate (Z.to_nat 65536) "a"%byte.

Lemma long_line_ends_configuration_witness :
  parseString (FromFile 1) (join x0a ([lit "SecMarker A"] ++ long_line :: [lit "SecMarker B"]))
    (NewParser initialIDs (NewWAF [])) =
  parseString (FromFile 1) (join x0a [lit "SecMarker A"]) (NewParser initialIDs (NewWAF [])).
Proof.
  apply (long_line_ends_configuration (FromFile 1) [lit "SecMarker A"] long_line [lit "SecMarker B"]).
  - apply List.Forall_cons; [apply (bool_decide_eq_true_1 (_ ∉ _)); vm_compute; reflexivity|].
    apply List.Forall_cons; [|apply List.Forall_cons; [|apply List.Forall_nil]].
    + intros [H _]%elem_of_replicate. discriminate H.
    + apply (bool_decide_eq_true_1 (_ ∉ _)); vm_compute; reflexivity.
  - discriminate.
  - unfold zlen, long_line. rewrite length_replicate, Z2Nat.id; unfold MaxScanTokenSize; lia.
Defined.

Lemma continued_directive_is_joined_witness :
  parseString (FromFile 1) (join x0a (((fun s => s ++ ["\"%byte]) <$> [lit "SecMarker "]) ++ [lit "END"]))
    (NewParser initialIDs (NewWAF [])) =
  evaluateLine (FromFile 1) (concat [lit "SecMarker "] ++ lit "END")
    (advance 2 (NewParser initialIDs (NewWAF []))).
Proof.
  apply (continued_directive_is_joined (FromFile 1) [lit "SecMarker "] (lit "END")).
  - constructor; [|constructor]. split; [|split; [vm_compute; reflexivity|]].
    + vm_compute. repeat constructor; try discriminate.
    + exists "S"%byte. by vm_compute.
  - split.
    + split; [|split; [vm_compute; reflexivity|]].
      * vm_compute. repeat constructor; try discriminate.
      * exists "E"%byte. by vm_compute.
    + exists "D"%byte. by vm_compute.
Defined.


(** The rule that the text configures is found, and carries its actions. *)
Example configured_rule :
  (fun w => (fun r => (rID r, rule_disruptives r)) <$> Rules w) <$> configured =
  Some [(100, [lit "deny"]); (0, [])].
Proof. vm_compute. reflexivity. Qed.
End seclang_witnesses.
