(* ===== verification/RuleTextProps.v ===== *)
(** * Round trips of rule texts

    Targets, actions and whole rules that are written out are read back by the
    rule parser. *)

From stdpp Require Import options.
From Stdlib Require Import Strings.Byte.
From S2P Require Import Prelude GoLib HttpParse Variables Types Collections BodyBuffer.
From S2P Require Import Transaction Macro Rule TransactionOps Actions Operators RuleEval RuleGroup.
From S2P Require Import RuleParser Directives SecLang ParserFacts ConfigExamples.
Import types.

(** ** Targets *)

(** What follows the name of a variable. *)
Inductive selector :=
| NoKey
| PlainKey (k : gostring)
| RegexKey (re : gostring)
| QuotedRegex (re : gostring).

Record target := mkTarget {
  tg_neg : bool;
  tg_count : bool;
  tg_var : RuleVariable;
  tg_sel : selector;
}.

Definition sel_text (s : selector) : gostring :=
  match s with
  | NoKey => []
  | PlainKey k => ":"%byte :: k
  | RegexKey re => ":"%byte :: "/"%byte :: re ++ ["/"%byte]
  | QuotedRegex re => ":"%byte :: "'"%byte :: "/"%byte :: re ++ ["/"%byte; "'"%byte]
  end.

Definition sel_key (s : selector) : gostring :=
  match s with
  | NoKey => []
  | PlainKey k => k
  | RegexKey re | QuotedRegex re => "/"%byte :: re ++ ["/"%byte]
  end.

Definition flags_text (t : target) : gostring :=
  (if tg_neg t then ["!"%byte] else []) ++ (if tg_count t then ["&"%byte] else []).

Definition target_text (t : target) : gostring :=
  flags_text t ++ variables.Name (tg_var t) ++ sel_text (tg_sel t).

(** A regular expression in which every slash is escaped and no escape is left
    open. *)
Fixpoint regex_ok (escaped : bool) (re : gostring) : bool :=
  match re with
  | [] => negb escaped
  | c :: re =>
    if bool_decide (c = "/"%byte) then escaped && regex_ok false re
    else if bool_decide (c = "\"%byte) then regex_ok (negb escaped) re
    else regex_ok false re
  end.

Definition xpath_variable (v : RuleVariable) : bool :=
  match v with variables.XML | variables.JSON => true | _ => false end.

Definition target_ok (t : target) : bool :=
  match tg_sel t with
  | NoKey => true
  | PlainKey k =>
    variables.CanBeSelected (tg_var t) && negb (bool_decide (k = [])) &&
    forallb (fun c => negb (bool_decide (c ∈ ["|"; "/"; "'"]%byte))) k
  | RegexKey re | QuotedRegex re => negb (xpath_variable (tg_var t)) && regex_ok false re
  end.

Definition name_char (c : byte) : bool := negb (bool_decide (c ∈ ["!"; "&"; ":"; "|"]%byte)).

Lemma Name_chars v : forallb name_char (variables.Name v) = true /\ variables.Name v <> [].
Proof. destruct v; vm_compute; done. Qed.

Lemma Name_slash v : "/"%byte ∉ variables.Name v.
Proof. apply (bool_decide_eq_true_1 ("/"%byte ∉ variables.Name v)). destruct v; vm_compute; done. Qed.

Lemma Name_xpath v :
  xpath_variable v = false ->
  bool_decide (variables.Name v = lit "XML") || bool_decide (variables.Name v = lit "JSON") = false.
Proof. destruct v; vm_compute; done. Qed.

Section targets.
Context `{GoUnicode}.
Context {S : Type} (addV : S -> RuleVariable -> gostring -> bool -> option S).
Context (addN : S -> RuleVariable -> gostring -> option S).

Abbreviation go := (ParseVariables_go addV addN).

(** What a target does to the rule. *)
Definition apply_target (r : S) (t : target) : option S :=
  if tg_neg t then addN r (tg_var t) (sel_key (tg_sel t))
  else addV r (tg_var t) (sel_key (tg_sel t)) (tg_count t).

Fixpoint apply_targets (r : S) (ts : list target) : S + ParseErr :=
  match ts with
  | [] => inl r
  | t :: ts => match apply_target r t with None => inr ErrKeyRegexp | Some r => apply_targets r ts end
  end.

(** Bytes inside a target are read one by one. *)
Fixpoint inside (st : varState) (s : gostring) : bool :=
  match s with
  | [] => true
  | c :: s => negb (ends_variable st c false) && inside (step_variable st c) s
  end.

Lemma go_inside s rest st r :
  rest <> [] -> inside st s = true -> go (s ++ rest) 0 st r = go rest 0 (foldl step_variable st s) r.
Proof using Type.
  intros Hrest. revert st. induction s as [|c s IH]; intros st; [done|].
  cbn [inside app ParseVariables_go foldl]. intros [He%negb_true_iff Hs]%andb_true_iff.
  rewrite bool_decide_eq_false_2 by (by destruct s). rewrite He. by apply IH.
Qed.

Lemma inside_app st s s' :
  inside st (s ++ s') = inside st s && inside (foldl step_variable st s) s'.
Proof using Type.
  revert st. induction s as [|c s IH]; intros st; [done|]. cbn [inside app foldl].
  by rewrite IH, andb_assoc.
Qed.

(** The name is read into [curVar]. *)
Lemma read_name s st :
  curr st = inName -> forallb name_char s = true ->
  inside st s = true /\ foldl step_variable st s = st <| curVar := curVar st ++ s |>.
Proof using Type.
  revert st. induction s as [|c s IH]; intros st Hst Hs.
  - split; [done|]. destruct st. cbn. by rewrite app_nil_r.
  - cbn [forallb] in Hs. apply andb_true_iff in Hs as [Hc Hs].
    apply negb_true_iff, bool_decide_eq_false in Hc.
    assert (step_variable st c = st <| curVar := curVar st ++ [c] |>) as E.
    { unfold step_variable. rewrite Hst. repeat rewrite bool_decide_eq_false_2 by set_solver. done. }
    destruct (IH (step_variable st c)) as [Hi Hf]; [by rewrite E|done|].
    cbn [inside foldl]. rewrite Hi, Hf, E. unfold ends_variable. rewrite Hst.
    rewrite bool_decide_eq_false_2 by set_solver. split; [done|]. cbn. by rewrite <- app_assoc.
Qed.

Lemma read_flags t :
  inside varState0 (flags_text t) = true /\
  foldl step_variable varState0 (flags_text t) =
    varState0 <| isNegation := tg_neg t |> <| isCount := tg_count t |>.
Proof using Type. unfold flags_text. by destruct (tg_neg t), (tg_count t). Qed.

(** The state after the flags and the name of a target. *)
Definition named (t : target) : varState :=
  mkVarState inName (tg_neg t) (tg_count t) (variables.Name (tg_var t)) [] false false.

Lemma read_head t :
  inside varState0 (flags_text t ++ variables.Name (tg_var t)) = true /\
  foldl step_variable varState0 (flags_text t ++ variables.Name (tg_var t)) = named t.
Proof using Type.
  destruct (read_flags t) as [H1 E1]. destruct (Name_chars (tg_var t)) as [Hn _].
  rewrite inside_app, foldl_app, H1, E1.
  destruct (read_name (variables.Name (tg_var t))
    (varState0 <| isNegation := tg_neg t |> <| isCount := tg_count t |>)) as [-> ->]; done.
Qed.

(** A plain key is read into [curKey]. *)
Lemma read_key st k :
  curr st = inKey \/ curr st = inXPath -> isEscaped st = false -> isquoted st = false ->
  forallb (fun c => negb (bool_decide (c ∈ ["|"; "/"; "'"]%byte))) k = true ->
  inside st k = true /\
  exists c, (c = inKey \/ c = inXPath) /\
    foldl step_variable st k = st <| curr := c |> <| curKey := curKey st ++ k |>.
Proof using Type.
  revert st. induction k as [|c k IH]; intros st Hst He Hq Hk.
  - split; [done|]. exists (curr st). split; [done|]. destruct st. cbn. by rewrite app_nil_r.
  - cbn [forallb] in Hk. apply andb_true_iff in Hk as [Hc Hk].
    apply negb_true_iff, bool_decide_eq_false in Hc.
    assert (exists c', (c' = inKey \/ c' = inXPath) /\
      step_variable st c = st <| curr := c' |> <| curKey := curKey st ++ [c] |>) as (c' & Hc' & E).
    { unfold step_variable. destruct Hst as [Hst|Hst]; rewrite Hst.
      - destruct (bool_decide (curKey st = []) && _); [exists inXPath; split; [by right|done]|].
        exists inKey. split; [by left|]. repeat rewrite bool_decide_eq_false_2 by set_solver.
        destruct st; cbn in *; by subst.
      - exists inXPath. split; [by right|]. destruct st; cbn in *; by subst. }
    destruct (IH (step_variable st c)) as [Hi (c2 & Hc2 & Hf)];
      [by rewrite E; destruct Hc' as [->| ->]; [left|right]|by rewrite E|by rewrite E|done|].
    cbn [inside foldl]. rewrite Hi, Hf, E. unfold ends_variable.
    rewrite (bool_decide_eq_false_2 (c = "|"%byte)) by set_solver.
    rewrite (bool_decide_eq_false_2 (c = "/"%byte)) by set_solver. rewrite andb_false_r.
    split; [done|]. exists c2. split; [done|]. cbn. by rewrite <- app_assoc.
Qed.

(** A regular expression is read into [curKey]. *)
Lemma read_regex st re :
  curr st = inRegex -> regex_ok (isEscaped st) re = true ->
  inside st re = true /\
  foldl step_variable st re = st <| curKey := curKey st ++ re |> <| isEscaped := false |>.
Proof using Type.
  revert st. induction re as [|c re IH]; intros st Hst; cbn [regex_ok].
  - intros Hq%negb_true_iff. split; [done|]. destruct st. cbn in *. by rewrite app_nil_r, Hq.
  - intros Hre. cbn [inside foldl].
    assert (exists e, step_variable st c = st <| curKey := curKey st ++ [c] |> <| isEscaped := e |> /\
      ends_variable st c false = false /\ regex_ok e re = true) as (e & E & En & Hre').
    { unfold step_variable, ends_variable. rewrite Hst. rewrite (bool_decide_eq_true_2 (inRegex = inRegex)) by done.
      rewrite andb_false_r. destruct (bool_decide_reflect (c = "/"%byte)) as [->|Hs].
      - apply andb_true_iff in Hre as [Hesc Hre]. exists false. rewrite Hesc. by split_and!.
      - cbn [andb]. destruct (bool_decide_reflect (c = "\"%byte)) as [->|Hb].
        + exists (negb (isEscaped st)). by split_and!.
        + exists false. by split_and!. }
    destruct (IH (step_variable st c)) as [Hi Hf]; [by rewrite E|by rewrite E|].
    rewrite En, Hi, Hf, E. split; [done|]. cbn. by rewrite <- app_assoc.
Qed.

(** The rule after a target, handed to the rest of the parse. *)
Definition then_ (r : S) (t : target) (k : S -> S + ParseErr) : S + ParseErr :=
  match apply_target r t with None => inr ErrKeyRegexp | Some r => k r end.

(** The state after the whole text of a target, and before its closing slash
    if it is a regular expression. *)
Definition read (t : target) (c : reading) (key : gostring) (quoted : bool) : varState :=
  mkVarState c (tg_neg t) (tg_count t) (variables.Name (tg_var t)) key false quoted.

Lemma finish_pipe t c key next r :
  c <> inRegex -> (c = inKey -> variables.CanBeSelected (tg_var t) = true) ->
  sel_key (tg_sel t) = key ->
  finish_variable addV addN (read t c key false) "|"%byte next r =
  match apply_target r t with None => inr ErrKeyRegexp | Some r => inl (0%nat, r) end.
Proof using Type.
  intros Hc Hsel <-. unfold finish_variable, apply_target. cbn [curr isquoted isNegation isCount curVar curKey read].
  rewrite (bool_decide_eq_true_2 ("|"%byte = "|"%byte)) by done. cbn [negb andb].
  rewrite variables.Parse_Name.
  destruct (bool_decide_reflect (c = inKey)) as [E|_]; [rewrite (Hsel E)|];
    cbn [negb andb]; rewrite bool_decide_eq_false_2 by done; by destruct (tg_neg t).
Qed.

Lemma finish_slash t re quoted next r :
  (quoted = true -> next = Some "'"%byte) ->
  sel_key (tg_sel t) = "/"%byte :: re ++ ["/"%byte] ->
  finish_variable addV addN (read t inRegex re quoted) "/"%byte next r =
  match apply_target r t with
  | None => inr ErrKeyRegexp
  | Some r => inl (if quoted then 2%nat else 1%nat, r)
  end.
Proof using Type.
  intros Hq Hkey. unfold finish_variable, apply_target. rewrite Hkey.
  cbn [curr isquoted isNegation isCount curVar curKey read].
  rewrite (bool_decide_eq_false_2 ("/"%byte = "|"%byte)) by done.
  rewrite (bool_decide_eq_false_2 (inRegex = inName)), (bool_decide_eq_true_2 (inRegex = inRegex)) by done.
  cbn [negb andb]. rewrite variables.Parse_Name.
  rewrite (bool_decide_eq_false_2 (inRegex = inKey)) by done. cbn [andb].
  destruct quoted; cbn [andb].
  - rewrite (bool_decide_eq_true_2 (next = _)) by auto. by destruct (tg_neg t).
  - by destruct (tg_neg t).
Qed.

(** The text up to the state in which the target ends. *)
Lemma read_plain t k :
  target_ok t = true -> tg_sel t = PlainKey k ->
  exists c, (c = inKey \/ c = inXPath) /\
    inside varState0 (target_text t) = true /\
    foldl step_variable varState0 (target_text t) = read t c k false.
Proof using Type.
  intros Hok Hs. unfold target_ok in Hok. rewrite Hs in Hok.
  apply andb_true_iff in Hok as [_ Hk]. unfold target_text. rewrite Hs, app_assoc. cbn [sel_text].
  destruct (read_head t) as [Hi Hf]. rewrite inside_app, Hi, Hf, foldl_app, Hf. cbn [inside foldl andb].
  destruct (read_key (step_variable (named t) ":"%byte) k) as [Hi' (c & Hc & Hf')];
    [by left|done|done|done|].
  exists c. split; [done|]. by rewrite Hi', Hf'.
Qed.

Lemma read_slashed t re (quoted : bool) :
  xpath_variable (tg_var t) = false -> regex_ok false re = true ->
  let text := flags_text t ++ variables.Name (tg_var t) ++
    ":"%byte :: (if quoted then ["'"%byte] else []) ++ "/"%byte :: re in
  inside varState0 text = true /\ foldl step_variable varState0 text = read t inRegex re quoted.
Proof using Type.
  intros Hx Hre text. unfold text. rewrite app_assoc. destruct (read_head t) as [Hi Hf].
  rewrite inside_app, Hi, Hf, foldl_app, Hf. cbn [inside foldl andb].
  assert (step_variable (named t) ":"%byte = read t inKey [] false) as -> by done.
  assert (inside (read t inKey [] false) ((if quoted then ["'"%byte] else []) ++ ["/"%byte]) = true /\
    foldl step_variable (read t inKey [] false) ((if quoted then ["'"%byte] else []) ++ ["/"%byte]) =
      read t inRegex [] quoted) as [Hi' Hf'].
  { pose proof (Name_xpath _ Hx) as Hn.
    assert (step_variable (read t inKey [] false) "'"%byte = read t inKey [] true) as Eq.
    { unfold step_variable. cbn [curr curKey curVar read]. by rewrite Hn, andb_false_r. }
    assert (step_variable (read t inKey [] quoted) "/"%byte = read t inRegex [] quoted) as Es.
    { unfold step_variable. cbn [curr curKey curVar read]. by rewrite Hn, andb_false_r. }
    destruct quoted; cbn [app inside foldl]; [rewrite Eq|]; by rewrite Es. }
  replace ((if quoted then ["'"%byte] else []) ++ "/"%byte :: re)
    with (((if quoted then ["'"%byte] else []) ++ ["/"%byte]) ++ re) by by destruct quoted.
  rewrite inside_app, Hi', Hf', foldl_app, Hf'.
  destruct (read_regex (read t inRegex [] quoted) re) as [-> ->]; done.
Qed.

(** One step of the loop at the end of a target. *)
Lemma go_end c s st r n r' :
  ends_variable st c (bool_decide (s = [])) = true -> isEscaped st = false ->
  finish_variable addV addN st c (head s) r = inl (n, r') ->
  go (c :: s) 0 st r = go s n varState0 r'.
Proof using Type.
  intros He Hesc Hf. cbn [ParseVariables_go]. rewrite He, Hf. destruct st. cbn in *. by subst.
Qed.

Lemma go_end_err c s st r e :
  ends_variable st c (bool_decide (s = [])) = true ->
  finish_variable addV addN st c (head s) r = inr e -> go (c :: s) 0 st r = inr e.
Proof using Type. intros He Hf. cbn [ParseVariables_go]. by rewrite He, Hf. Qed.

Lemma go_finish c s st r t n :
  ends_variable st c (bool_decide (s = [])) = true -> isEscaped st = false ->
  finish_variable addV addN st c (head s) r =
    match apply_target r t with None => inr ErrKeyRegexp | Some r => inl (n, r) end ->
  go (c :: s) 0 st r = then_ r t (fun r => go s n varState0 r).
Proof using Type.
  intros He Hesc. unfold then_. destruct (apply_target r t) as [r'|].
  - by apply go_end.
  - by apply go_end_err.
Qed.

(** A target with a regular expression. *)
Lemma go_slashed t re (quoted : bool) rest r :
  target_ok t = true -> tg_sel t = (if quoted then QuotedRegex re else RegexKey re) ->
  go (target_text t ++ rest) 0 varState0 r = then_ r t (fun r => go rest 1 varState0 r).
Proof using Type.
  intros Hok Hs. unfold target_ok in Hok. rewrite Hs in Hok.
  assert (xpath_variable (tg_var t) = false /\ regex_ok false re = true) as [Hx Hre].
  { destruct quoted; apply andb_true_iff in Hok as [Hx%negb_true_iff Hre]; done. }
  destruct (read_slashed t re quoted Hx Hre) as [Hi Hf]. unfold target_text. rewrite Hs.
  set (tail := (if quoted then ["'"%byte] else []) ++ rest).
  replace ((flags_text t ++ variables.Name (tg_var t) ++ _) ++ rest)
    with ((flags_text t ++ variables.Name (tg_var t) ++
           ":"%byte :: (if quoted then ["'"%byte] else []) ++ "/"%byte :: re) ++ "/"%byte :: tail)
    by (unfold tail; destruct quoted; cbn [sel_text app]; rewrite <- !app_assoc; cbn [app];
        by rewrite <- !app_assoc).
  rewrite go_inside by done. rewrite Hf.
  rewrite (go_finish _ _ _ _ t (if quoted then 2 else 1)); [by destruct quoted|by destruct tail|done|].
  apply (finish_slash t re quoted); [by destruct quoted|by rewrite Hs; destruct quoted].
Qed.

(** A target that is followed by another. *)
Lemma go_middle t rest r :
  target_ok t = true ->
  go (target_text t ++ "|"%byte :: rest) 0 varState0 r = then_ r t (fun r => go rest 0 varState0 r).
Proof using Type.
  intros Hok. pose proof Hok as Hok'. unfold target_ok in Hok'. destruct (tg_sel t) as [|k|re|re] eqn:Hs.
  - unfold target_text. rewrite Hs. cbn [sel_text]. rewrite app_nil_r.
    destruct (read_head t) as [Hi Hf]. rewrite go_inside, Hf by done.
    apply go_finish; [done|done|]. apply (finish_pipe t inName); [done|done|by rewrite Hs].
  - destruct (read_plain t k Hok Hs) as (c & Hc & Hi & Hf). rewrite go_inside, Hf by done.
    apply andb_true_iff in Hok' as [[Hsel _]%andb_true_iff _].
    apply go_finish; [by destruct Hc as [->| ->]|done|].
    apply finish_pipe; [by destruct Hc as [->| ->]|done|by rewrite Hs].
  - by rewrite (go_slashed t re false).
  - by rewrite (go_slashed t re true).
Qed.

Lemma ends_last st c : ends_variable st c (bool_decide (@nil byte = [])) = true.
Proof using Type.
  unfold ends_variable. by rewrite (bool_decide_eq_true_2 (@nil byte = [])), orb_true_r by done.
Qed.

Lemma finish_last t c st r :
  st = mkVarState (curr st) (tg_neg t) (tg_count t) (curVar st) (curKey st) false false ->
  c <> "|"%byte -> c <> "/"%byte ->
  (curr st = inName /\ curVar st ++ [c] = variables.Name (tg_var t) /\ curKey st = sel_key (tg_sel t)) \/
  ((curr st = inKey \/ curr st = inXPath) /\ curVar st = variables.Name (tg_var t) /\
   curKey st ++ [c] = sel_key (tg_sel t) /\ variables.CanBeSelected (tg_var t) = true) ->
  finish_variable addV addN st c None r =
  match apply_target r t with None => inr ErrKeyRegexp | Some r => inl (0%nat, r) end.
Proof using Type.
  intros -> Hp Hs Hst. unfold finish_variable, apply_target.
  cbn [curr isquoted isNegation isCount curVar curKey] in *.
  rewrite (bool_decide_eq_false_2 (c = "|"%byte)), (bool_decide_eq_false_2 (c = "/"%byte)) by done.
  cbn [negb andb]. destruct Hst as [(-> & Hv & Hk)|([->| ->] & Hv & Hk & Hsel)].
  - rewrite (bool_decide_eq_true_2 (inName = inName)) by done. cbn [negb andb].
    rewrite Hv, Hk, variables.Parse_Name. rewrite (bool_decide_eq_false_2 (inName = inKey)) by done.
    cbn [andb]. rewrite (bool_decide_eq_false_2 (inName = inRegex)) by done. by destruct (tg_neg t).
  - rewrite (bool_decide_eq_false_2 (inKey = inName)), (bool_decide_eq_false_2 (inKey = inRegex)) by done.
    cbn [negb andb]. rewrite Hv, Hk, variables.Parse_Name, Hsel. cbn [negb]. rewrite andb_false_r.
    by destruct (tg_neg t).
  - rewrite (bool_decide_eq_false_2 (inXPath = inName)), (bool_decide_eq_false_2 (inXPath = inRegex)) by done.
    cbn [negb andb]. rewrite Hv, Hk, variables.Parse_Name, Hsel. cbn [negb]. rewrite andb_false_r.
    by destruct (tg_neg t).
Qed.

Lemma go_last_name t r : tg_sel t = NoKey -> go (target_text t) 0 varState0 r = then_ r t inl.
Proof using Type.
  intros Hs. unfold target_text. rewrite Hs. cbn [sel_text]. rewrite app_nil_r.
  destruct (Name_chars (tg_var t)) as [Hn Hne]. pose proof (Name_slash (tg_var t)) as Hsl.
  destruct (exists_last Hne) as (n & c & En). rewrite En, forallb_app in Hn.
  apply andb_true_iff in Hn as [Hn1 Hc]. cbn [forallb] in Hc. rewrite andb_true_r in Hc.
  rewrite En, app_assoc. destruct (read_flags t) as [Hi Hf].
  destruct (read_name n (foldl step_variable varState0 (flags_text t))) as [Hi' Hf']; [by rewrite Hf|done|].
  rewrite go_inside by (done || by rewrite inside_app, Hi, Hi'). rewrite foldl_app, Hf', Hf.
  rewrite (go_finish _ _ _ _ t 0); [done|apply ends_last|done|].
  apply negb_true_iff, bool_decide_eq_false in Hc. rewrite En in Hsl.
  apply finish_last; [done|set_solver|set_solver|]. left. cbn. by rewrite Hs, En.
Qed.

Lemma go_last_key t k r :
  target_ok t = true -> tg_sel t = PlainKey k -> go (target_text t) 0 varState0 r = then_ r t inl.
Proof using Type.
  intros Hok Hs. unfold target_ok in Hok. rewrite Hs in Hok.
  apply andb_true_iff in Hok as [[Hsel Hk]%andb_true_iff Hkc].
  apply negb_true_iff, bool_decide_eq_false in Hk. destruct (exists_last Hk) as (k' & c & ->).
  rewrite forallb_app in Hkc. apply andb_true_iff in Hkc as [Hk1 Hc]. cbn [forallb] in Hc.
  rewrite andb_true_r in Hc. apply negb_true_iff, bool_decide_eq_false in Hc.
  unfold target_text. rewrite Hs. cbn [sel_text].
  replace (flags_text t ++ variables.Name (tg_var t) ++ ":"%byte :: k' ++ [c])
    with (((flags_text t ++ variables.Name (tg_var t)) ++ ":"%byte :: k') ++ [c])
    by (by rewrite <- !app_assoc).
  destruct (read_head t) as [Hi Hf].
  destruct (read_key (step_variable (named t) ":"%byte) k') as [Hi' (c' & Hc' & Hf')]; [by left|done|done|done|].
  rewrite go_inside by (done || by rewrite inside_app, Hi, Hf; cbn [inside]; rewrite Hi').
  rewrite foldl_app, Hf. cbn [foldl]. rewrite Hf'.
  rewrite (go_finish _ _ _ _ t 0); [done|apply ends_last|done|].
  apply finish_last; [done|set_solver|set_solver|]. right. cbn. by rewrite Hs.
Qed.

(** The last target. *)
Lemma go_last t r : target_ok t = true -> go (target_text t) 0 varState0 r = then_ r t inl.
Proof using Type.
  intros Hok. destruct (tg_sel t) as [|k|re|re] eqn:Hs.
  - by apply go_last_name.
  - by apply (go_last_key t k).
  - pose proof (go_slashed t re false [] r Hok Hs) as E. by rewrite app_nil_r in E.
  - pose proof (go_slashed t re true [] r Hok Hs) as E. by rewrite app_nil_r in E.
Qed.

(** C6: Targets that are written out and joined with bars are read back: the
    parser adds, in order, exactly these targets and exceptions to the rule,
    with their counts, keys and regular expressions, and fails only where a
    regular expression does not compile. *)
Theorem targets_roundtrip ts r :
  ts <> [] -> Forall (fun t => target_ok t = true) ts ->
  ParseVariables addV addN (join "|"%byte (target_text <$> ts)) r = apply_targets r ts.
Proof using Type.
  intros Hne Hts. unfold ParseVariables. revert r Hne.
  induction Hts as [|t ts Ht _ IH]; intros r Hne; [done|]. destruct ts as [|t' ts].
  - cbn [fmap list_fmap join apply_targets]. rewrite (go_last t r Ht). done.
  - change (join "|"%byte (target_text <$> t :: t' :: ts))
      with (target_text t ++ "|"%byte :: join "|"%byte (target_text <$> t' :: ts)).
    rewrite go_middle by done. unfold then_. cbn [apply_targets].
    destruct (apply_target r t) as [r'|]; [|done]. by apply IH.
Qed.
End targets.

(** ** Actions *)

Section action_texts.
Context `{GoUnicode}.

(** The name of an action and its argument. *)
Definition item : Type := gostring * option gostring.

Definition item_text (i : item) : gostring :=
  fst i ++ match snd i with None => [] | Some v => ":"%byte :: "'"%byte :: v ++ ["'"%byte] end.

(** A registered name, and an ASCII argument without quotes that does not end
    with a backslash. *)
Definition item_ok (i : item) : bool :=
  bool_decide (fst i ∈ actionmap.*1) &&
  match snd i with
  | None => true
  | Some v => forallb (fun c => (bz c <? 128) && negb (bool_decide (c = "'"%byte))) v &&
              negb (bool_decide (list.last v = Some "\"%byte))
  end.

(** The action that the text of an item stands for. *)
Definition made (i : item) : ruleAction :=
  let f := Get (fst i) in
  mkRuleAction (fst i) (default [] (snd i)) ((fun c => action_Type (new_action c)) <$> f) f.

(** Adding an action to a list: a disruptive action takes the place of the one
    that is there. *)
Definition place (res : list ruleAction) (a : ruleAction) : list ruleAction :=
  if is_disruptive a && existsb is_disruptive res
  then (fun b => if is_disruptive b then a else b) <$> res
  else res ++ [a].

Definition key_char (c : byte) : bool := negb (bool_decide (c ∈ ["\"; "'"; ":"; ","]%byte)).

Lemma registered_key k :
  k ∈ actionmap.*1 ->
  forallb key_char k = true /\ k <> [] /\ Strings.ToLower (Strings.TrimSpace k) = k /\ is_Some (Get k).
Proof using Type.
  intros Hk. assert (forallb (fun k => forallb key_char k && negb (bool_decide (k = [])) &&
    bool_decide (Strings.ToLower (Strings.TrimSpace k) = k) && bool_decide (is_Some (Get k)))
    (actionmap.*1) = true) as Hall by (vm_compute; reflexivity).
  rewrite forallb_forall in Hall. apply list_elem_of_In in Hk. specialize (Hall k Hk).
  rewrite !andb_true_iff, !bool_decide_eq_true, negb_true_iff, bool_decide_eq_false in Hall. naive_solver.
Qed.

Lemma place_none res a : is_disruptive a = false -> place res a = res ++ [a].
Proof using Type. unfold place. by intros ->. Qed.

Lemma no_disruptives l : disruptives l = [] -> existsb is_disruptive l = false.
Proof using Type.
  induction l as [|b l IH]; [done|]. rewrite disruptives_cons. cbn [existsb].
  destruct (is_disruptive b); [done|]. apply IH.
Qed.

Lemma replace_none l a :
  disruptives l = [] -> (fun b => if is_disruptive b then a else b) <$> l = l.
Proof using Type.
  induction l as [|b l IH]; [done|]. rewrite disruptives_cons. rewrite fmap_cons.
  destruct (is_disruptive b); [done|]. intros E. by rewrite IH.
Qed.

(** [appendRuleAction] on the key and value of an item. *)
Lemma append_item res i d val :
  item_ok i = true -> only_disruptive res d ->
  MaybeRemoveQuotes (Strings.TrimSpace val) = default [] (snd i) ->
  exists d', appendRuleAction res (fst i) val d = inl (place res (made i), d') /\
    only_disruptive (place res (made i)) d'.
Proof using Type.
  intros Hok Hd Hval. apply andb_true_iff in Hok as [Hk%bool_decide_eq_true _].
  destruct (registered_key _ Hk) as (_ & _ & Hlow & [f Hf]).
  assert (exists d', appendRuleAction res (fst i) val d = inl (place res (made i), d')) as [d' E].
  { unfold appendRuleAction, made. rewrite Hlow, Hf, Hval. cbn [fmap option_fmap option_map].
    destruct Hd as [_ Hd]. destruct (action_Type (new_action f)) eqn:Et;
      try (exists d; rewrite place_none; [done|by apply bool_decide_eq_false]).
    unfold place. set (a := mkRuleAction _ _ _ _).
    assert (is_disruptive a = true) as -> by by apply bool_decide_eq_true.
    destruct d as [n|].
    - destruct Hd as (l & b & l' & -> & <- & Hb & H1 & H2). exists (Some (length l)).
      assert (existsb is_disruptive (l ++ b :: l') = true) as ->.
      { rewrite existsb_app. cbn [existsb]. by rewrite Hb, orb_true_r. }
      cbn [andb]. rewrite fmap_app, fmap_cons, Hb, !replace_none by done.
      by rewrite insert_app_r_alt, Nat.sub_diag by done.
    - exists (Some (length res)). by rewrite no_disruptives. }
  exists d'. split; [done|]. by eapply appendRuleAction_only.
Qed.

(** ** The loop *)

Lemma go_key k rest prev cur res d :
  forallb key_char k = true -> prev <> "\"%byte ->
  exists prev', prev' <> "\"%byte /\
    parseActions_go (k ++ rest) prev false None cur res d =
    parseActions_go rest prev' false None (cur ++ k) res d.
Proof using Type.
  revert prev cur. induction k as [|c k IH]; intros prev cur Hk Hp.
  - exists prev. by rewrite app_nil_r.
  - cbn [forallb] in Hk. apply andb_true_iff in Hk as [Hc Hk].
    apply negb_true_iff, bool_decide_eq_false in Hc.
    destruct (IH c (cur ++ [c])) as (p' & Hp' & E); [done|set_solver|]. exists p'. split; [done|].
    cbn [app parseActions_go]. repeat rewrite bool_decide_eq_false_2 by set_solver.
    by rewrite E, <- app_assoc.
Qed.

Lemma go_quoted v rest prev k cur res d :
  forallb (fun c => (bz c <? 128) && negb (bool_decide (c = "'"%byte))) v = true ->
  prev <> "\"%byte ->
  parseActions_go (v ++ rest) prev true (Some k) cur res d =
  parseActions_go rest (default prev (list.last v)) true (Some k) (cur ++ v) res d.
Proof using Type.
  intros Hv Hp. assert (forall prev cur, parseActions_go (v ++ rest) prev true (Some k) cur res d =
    parseActions_go rest (default prev (list.last v)) true (Some k) (cur ++ v) res d) as Hgo; [|apply Hgo].
  clear Hp prev cur. induction v as [|c v IH]; intros prev cur; [by rewrite app_nil_r|].
  cbn [forallb] in Hv. apply andb_true_iff in Hv as [Hc Hv].
  apply andb_true_iff in Hc as [_ Hc%negb_true_iff%bool_decide_eq_false].
  cbn [app parseActions_go]. rewrite (bool_decide_eq_false_2 (c = "'"%byte)) by done.
  replace (default prev (list.last (c :: v))) with (default c (list.last v))
    by (by rewrite last_cons; destruct (list.last v)).
  replace (cur ++ c :: v) with ((cur ++ [c]) ++ v) by (by rewrite <- app_assoc).
  rewrite <- IH by done. by case_bool_decide.
Qed.

(** The loop over an item, up to what follows it. *)
Definition read_item (i : item) : option gostring * gostring :=
  match snd i with
  | None => (None, fst i)
  | Some v => (Some (fst i), "'"%byte :: v ++ ["'"%byte])
  end.

Lemma go_item i rest prev res d :
  item_ok i = true -> prev <> "\"%byte ->
  exists prev', prev' <> "\"%byte /\
    parseActions_go (item_text i ++ rest) prev false None [] res d =
    parseActions_go rest prev' false (fst (read_item i)) (snd (read_item i)) res d.
Proof using Type.
  intros Hok Hp. apply andb_true_iff in Hok as [Hk%bool_decide_eq_true Hv].
  destruct (registered_key _ Hk) as (Hkc & _ & _ & _). unfold item_text, read_item.
  destruct (snd i) as [v|]; cbn [fst snd].
  - apply andb_true_iff in Hv as [Hv Hl%negb_true_iff%bool_decide_eq_false].
    rewrite <- !app_assoc. cbn [app]. rewrite <- !app_assoc. cbn [app].
    destruct (go_key (fst i) (":"%byte :: "'"%byte :: v ++ "'"%byte :: rest) prev [] res d Hkc Hp)
      as (p1 & Hp1 & ->).
    exists "'"%byte. split; [done|]. cbn [app parseActions_go].
    rewrite (bool_decide_eq_false_2 (p1 = _)) by done.
    rewrite (bool_decide_eq_false_2 (":"%byte = "'"%byte)), (bool_decide_eq_true_2 (":"%byte = _)) by done.
    cbn [parseActions_go]. rewrite (bool_decide_eq_false_2 (":"%byte = "\"%byte)) by done.
    rewrite (bool_decide_eq_true_2 ("'"%byte = "'"%byte)) by done. cbn [negb app].
    rewrite go_quoted by done. cbn [parseActions_go].
    rewrite bool_decide_eq_false_2 by (destruct (list.last v); cbn; congruence).
    by rewrite (bool_decide_eq_true_2 ("'"%byte = "'"%byte)).
  - rewrite app_nil_r. by apply go_key.
Qed.

Lemma quoted_value v :
  forallb (fun c => (bz c <? 128) && negb (bool_decide (c = "'"%byte))) v = true ->
  MaybeRemoveQuotes (Strings.TrimSpace ("'"%byte :: v ++ ["'"%byte])) = v.
Proof using Type.
  intros Hv. rewrite (TrimSpace_anchored _ "'"%byte "'"%byte).
  - unfold MaybeRemoveQuotes, zlen. cbn [length]. rewrite length_app. cbn [length].
    rewrite (proj2 (Z.ltb_ge _ _)) by lia. cbn [head]. rewrite bool_decide_eq_true_2 by by right.
    rewrite bool_decide_eq_true_2 by (change ("'"%byte :: v ++ ["'"%byte]) with (("'"%byte :: v) ++ ["'"%byte]);
      apply last_snoc).
    cbn [drop]. replace (S (length v + 1) - 2)%nat with (length v) by lia.
    by rewrite drop_0, take_app_length.
  - constructor; [by vm_compute|]. apply Forall_app_2; [|by constructor].
    apply List.Forall_forall. intros c Hc. rewrite forallb_forall in Hv. specialize (Hv c Hc).
    apply andb_true_iff in Hv as [Hc' _]. by apply Z.ltb_lt in Hc'.
  - done.
  - change ("'"%byte :: v ++ ["'"%byte]) with (("'"%byte :: v) ++ ["'"%byte]). apply last_snoc.
  - by vm_compute.
  - by vm_compute.
Qed.

Lemma append_read i res d :
  item_ok i = true -> only_disruptive res d ->
  exists d', match fst (read_item i) with
    | None => appendRuleAction res (snd (read_item i)) [] d
    | Some k => appendRuleAction res k (snd (read_item i)) d
    end = inl (place res (made i), d') /\ only_disruptive (place res (made i)) d'.
Proof using Type.
  intros Hok Hd. unfold read_item. destruct (snd i) as [v|] eqn:Ev; cbn [fst snd].
  - apply append_item; [done|done|]. rewrite Ev. apply quoted_value.
    unfold item_ok in Hok. rewrite Ev in Hok. by apply andb_true_iff in Hok as [_ [? _]%andb_true_iff].
  - apply append_item; [done|done|]. by rewrite Ev.
Qed.

Lemma go_items items prev res d :
  items <> [] -> Forall (fun i => item_ok i = true) items -> prev <> "\"%byte -> only_disruptive res d ->
  exists d', parseActions_go (join ","%byte (item_text <$> items)) prev false None [] res d =
    inl (foldl place res (made <$> items), d').
Proof using Type.
  intros Hne Hok. revert prev res d Hne. induction Hok as [|i items Hi Hok IH]; intros prev res d Hne Hp Hd; [done|].
  destruct (append_read i res d Hi Hd) as (d1 & E1 & Hd1). destruct items as [|j items].
  - destruct (go_item i [] prev res d Hi Hp) as (p' & _ & E). rewrite app_nil_r in E.
    exists d1. cbn [fmap list_fmap join foldl]. by rewrite E.
  - change (join ","%byte (item_text <$> i :: j :: items))
      with (item_text i ++ ","%byte :: join ","%byte (item_text <$> j :: items)).
    destruct (go_item i (","%byte :: join ","%byte (item_text <$> j :: items)) prev res d Hi Hp)
      as (p' & Hp' & ->).
    cbn [parseActions_go]. rewrite (bool_decide_eq_false_2 (p' = _)) by done.
    rewrite (bool_decide_eq_false_2 (","%byte = "'"%byte)), (bool_decide_eq_false_2 (","%byte = ":"%byte)),
      (bool_decide_eq_true_2 (","%byte = ","%byte)), E1 by done.
    by apply IH.
Qed.

(** C40: A list of actions that is written out, with arguments in quotes, is
    read back: [parseActions] gives the actions in order, except that of
    several disruptive actions only the last one stays, at the place of the
    first. *)
Theorem actions_roundtrip items :
  items <> [] -> Forall (fun i => item_ok i = true) items ->
  parseActions (join ","%byte (item_text <$> items)) = inl (foldl place [] (made <$> items)).
Proof using Type.
  intros Hne Hok.
  assert (only_disruptive [] None) as H0 by by split; [apply List.Forall_nil|].
  destruct (go_items items "a"%byte [] None Hne Hok ltac:(done) H0) as [d' E].
  destruct items as [|i items]; [done|]. inversion Hok as [|? ? Hi Hok']; subst.
  apply andb_true_iff in Hi as [Hk%bool_decide_eq_true _]. destruct (registered_key _ Hk) as (Hkc & Hnk & _).
  destruct i as [[|c k] v]; [done|]. cbn [fst forallb] in Hkc. apply andb_true_iff in Hkc as [Hc _].
  apply negb_true_iff, bool_decide_eq_false in Hc. unfold parseActions.
  match type of E with parseActions_go ?x _ _ _ _ _ _ = _ => set (text := x) in E |- * end.
  assert (exists s, text = c :: s) as [s Es] by (unfold text; destruct items; by eexists).
  clearbody text. subst text. cbn [parseActions_go] in E. revert E.
  rewrite (bool_decide_eq_false_2 ("a"%byte = "\"%byte)) by done.
  repeat rewrite (bool_decide_eq_false_2 (c = _)) by set_solver. cbn [app]. by intros ->.
Qed.
End action_texts.

(** ** Whole rules *)

(** A text in which every quote is escaped and no escape is left open; [n]
    backslashes precede it. *)
Fixpoint quotes_escaped (n : nat) (s : gostring) : bool :=
  match s with
  | [] => negb (Nat.odd n)
  | c :: s =>
    if bool_decide (c = x22) then Nat.odd n && quotes_escaped 0 s
    else quotes_escaped (if bool_decide (c = "\"%byte) then S n else 0%nat) s
  end.

Lemma cutQuoted_escaped s rest n seen :
  quotes_escaped n s = true ->
  cutQuoted_go (s ++ x22 :: rest) n seen = Some (seen ++ s ++ [x22], rest).
Proof.
  revert n seen. induction s as [|c s IH]; intros n seen; cbn [quotes_escaped app cutQuoted_go].
  - intros Hn%negb_true_iff. rewrite bool_decide_eq_true_2 by done. cbn [negb]. by rewrite Hn.
  - destruct (bool_decide_reflect (c = x22)) as [->|Hc]; cbn [negb].
    + intros [Hn Hs]%andb_true_iff. rewrite Hn, IH by done. by rewrite <- app_assoc.
    + intros Hs. rewrite IH by done. by rewrite <- app_assoc.
Qed.

Definition in_quotes (s : gostring) : gostring := x22 :: s ++ [x22].

Lemma MaybeRemoveQuotes_in_quotes s : MaybeRemoveQuotes (in_quotes s) = s.
Proof.
  unfold MaybeRemoveQuotes, in_quotes, zlen. cbn [length]. rewrite length_app. cbn [length].
  rewrite (proj2 (Z.ltb_ge _ _)) by lia. cbn [head]. rewrite bool_decide_eq_true_2 by by left.
  rewrite bool_decide_eq_true_2 by (change (x22 :: s ++ [x22]) with ((x22 :: s) ++ [x22]); apply last_snoc).
  cbn [drop]. replace (S (length s + 1) - 2)%nat with (length s) by lia.
  by rewrite drop_0, take_app_length.
Qed.

Lemma trim_left_id p s c : head s = Some c -> p c = false -> Strings.trim_left p s = s.
Proof. destruct s as [|d s]; [done|]. intros [= ->] Hp. simpl. by rewrite Hp. Qed.

Lemma trim_id p s c d :
  head s = Some c -> list.last s = Some d -> p c = false -> p d = false -> Strings.trim p s = s.
Proof.
  intros Hc Hd Pc Pd. unfold Strings.trim, Strings.trim_right. rewrite (trim_left_id p s c) by done.
  rewrite (trim_left_id p (rev s) d), rev_involutive; [done| |done].
  destruct (exists_last (l := s) ltac:(by destruct s)) as (l & x & ->).
  rewrite last_snoc in Hd. rewrite rev_app_distr. by injection Hd as ->.
Qed.

Lemma app_assoc_cons {A} (l m n : list A) x y :
  l ++ x :: m ++ y :: n = (l ++ x :: m) ++ y :: n.
Proof. by rewrite <- app_assoc. Qed.

(** The three parts of a rule are cut where they were joined: variables
    without a space, an operator whose quotes are escaped, however many
    backslashes it holds, and any actions. *)
Theorem rule_text_roundtrip vars op acts :
  vars <> [] -> " "%byte ∉ vars -> quotes_escaped 0 op = true ->
  parseActionOperator (vars ++ " "%byte :: in_quotes op ++ " "%byte :: in_quotes acts) =
  inl (vars, op, acts).
Proof.
  intros Hne Hv Hop. unfold parseActionOperator. destruct vars as [|c vars]; [done|].
  rewrite (trim_id _ _ c x22); [|done| |by apply bool_decide_eq_false; set_solver|done].
  2: { rewrite app_assoc_cons, last_app_cons. unfold in_quotes.
       change (" "%byte :: x22 :: acts ++ [x22]) with ((" "%byte :: x22 :: acts) ++ [x22]). apply last_snoc. }
  rewrite Strings.Cut_app by done. rewrite (trim_left_id _ _ x22) by done. cbn [head app in_quotes].
  unfold in_quotes at 1. cbn [app head]. rewrite bool_decide_eq_true_2 by done. cbn [negb].
  unfold cutQuotedString. rewrite bool_decide_eq_true_2 by done. cbn [negb].
  rewrite <- app_assoc. cbn [app]. rewrite cutQuoted_escaped by done. cbn [app].
  fold (in_quotes op). rewrite MaybeRemoveQuotes_in_quotes.
  assert (Strings.trim_left (fun b => bool_decide (b = " "%byte)) (" "%byte :: x22 :: acts ++ [x22])
    = in_quotes acts) as -> by done.
  rewrite bool_decide_eq_false_2 by done. rewrite (bool_decide_eq_true_2 (head _ = _)) by done.
  rewrite (bool_decide_eq_true_2 (list.last _ = _))
    by (unfold in_quotes; change (x22 :: acts ++ [x22]) with ((x22 :: acts) ++ [x22]); apply last_snoc).
  rewrite MaybeRemoveQuotes_in_quotes.
  unfold zlen, in_quotes. cbn [length]. rewrite length_app. cbn [length].
  by rewrite (proj2 (Z.ltb_ge _ _)) by lia.
Qed.

(** ** Witnesses *)

Module ruletext_witnesses.
Import config_demo.

Definition some_targets : list target :=
  [ mkTarget false false variables.Args NoKey; mkTarget true false variables.Args (PlainKey (lit "foo"));
    mkTarget false true variables.RequestHeaders (RegexKey (lit "a\/b"));
    mkTarget false false variables.TX (QuotedRegex (lit "x")) ].

Lemma targets_roundtrip_witness :
  ParseVariables (AddVariable regexp_Compile) (AddVariableNegation regexp_Compile)
    (lit "ARGS|!ARGS:foo|&REQUEST_HEADERS:/a\/b/|TX:'/x/'") NewRule =
  apply_targets (AddVariable regexp_Compile) (AddVariableNegation regexp_Compile) NewRule some_targets.
Proof.
  apply (targets_roundtrip (AddVariable regexp_Compile) (AddVariableNegation regexp_Compile)
    some_targets NewRule); [discriminate|].
  repeat (apply List.Forall_cons; [vm_compute; reflexivity|]). apply List.Forall_nil.
Defined.

Definition some_items : list item :=
  [(lit "id", Some (lit "7")); (lit "deny", None); (lit "msg", Some (lit "a, b: c")); (lit "pass", None)].

Lemma actions_roundtrip_witness :
  parseActions (lit "id:'7',deny,msg:'a, b: c',pass") = inl (foldl place [] (made <$> some_items)).
Proof.
  apply (actions_roundtrip some_items); [discriminate|].
  repeat (apply List.Forall_cons; [vm_compute; reflexivity|]). apply List.Forall_nil.
Defined.

(** Only the last disruptive action stays. *)
Example last_disruptive_stays :
  ra_Key <$> foldl place [] (made <$> some_items) = [lit "id"; lit "pass"; lit "msg"].
Proof. vm_compute. reflexivity. Qed.

Lemma rule_text_roundtrip_witness :
  parseActionOperator (lit "ARGS" ++ " "%byte :: in_quotes (lit "@rx a\" ++ x22 :: lit "b") ++
    " "%byte :: in_quotes (lit "id:1")) = inl (lit "ARGS", lit "@rx a\" ++ x22 :: lit "b", lit "id:1").
Proof.
  apply (rule_text_roundtrip (lit "ARGS") (lit "@rx a\" ++ x22 :: lit "b") (lit "id:1")).
  - discriminate.
  - apply (bool_decide_eq_true_1 (_ ∉ _)); vm_compute; reflexivity.
  - vm_compute. reflexivity.
Defined.

(** A closing quote that does not follow a regular expression becomes part of
    the key. *)
Example quoted_key_keeps_quote :
  match ParseVariables (AddVariable regexp_Compile) (AddVariableNegation regexp_Compile)
          (lit "ARGS:'foo'") NewRule with
  | inl r => rv_KeyStr <$> rule_variables r
  | inr _ => []
  end = [lit "foo'"].
Proof. vm_compute. reflexivity. Qed.

(** A regular expression without its closing slash loses its last byte. *)
Example open_regex_loses_byte :
  match ParseVariables (AddVariable regexp_Compile) (AddVariableNegation regexp_Compile)
          (lit "ARGS:/abc") NewRule with
  | inl r => rv_KeyStr <$> rule_variables r
  | inr _ => []
  end = [lit "/ab/"].
Proof. vm_compute. reflexivity. Qed.
End ruletext_witnesses.
