(* ===== verification/DirectiveProps.v ===== *)
(** * Properties of the directives *)

From stdpp Require Import options.
From Stdlib Require Import Strings.Byte.
From S2P Require Import Prelude GoLib HttpParse Variables Types Collections BodyBuffer.
From S2P Require Import Transaction Macro Rule TransactionOps Actions Operators RuleEval RuleGroup.
From S2P Require Import RuleParser Directives SecLang ParserFacts ConfigExamples.
Import types.

(** ** Lists of rules with the same identifiers *)

Lemma ids_unique_same rules rules' :
  rID <$> rules' = rID <$> rules -> ids_unique rules -> ids_unique rules'.
Proof. unfold ids_unique. by intros ->. Qed.

Lemma ids_unique_sublist rules rules' :
  rules' `sublist_of` rules -> ids_unique rules -> ids_unique rules'.
Proof.
  unfold ids_unique. intros Hs Hu. eapply sublist_NoDup; [exact Hu|]. clear Hu.
  induction Hs as [|r l1 l2 _ IH|r l1 l2 _ IH]; cbn; [done| |].
  - destruct (negb _); [by constructor|done].
  - destruct (negb _); [by constructor|done].
Qed.

Lemma DeleteByID_sublist rules i : DeleteByID rules i `sublist_of` rules.
Proof. induction rules as [|r rules IH]; cbn; [done|]. destruct (_ =? _); by constructor. Qed.

Lemma DeleteByMsg_sublist rules s kept : DeleteByMsg rules s = Ok kept -> kept `sublist_of` rules.
Proof.
  revert kept. induction rules as [|r rules IH]; intros kept; cbn [DeleteByMsg]; [by intros [= <-]|].
  destruct (Msg r) as [m|]; [|done]. destruct (DeleteByMsg rules s) as [l|]; cbn; [|done].
  intros [= <-]. specialize (IH l eq_refl). case_bool_decide; by constructor.
Qed.

Lemma Add_unique rules rule rules' :
  ids_unique rules -> Add false rules rule = inl rules' -> ids_unique rules'.
Proof.
  intros Hu. unfold Add. destruct rule as [r|]; [|by intros [= <-]].
  destruct (FindByID rules (rID r)) as [r0|] eqn:E.
  - rewrite bool_decide_eq_true_2 by done. rewrite andb_true_r.
    destruct (rID r =? 0) eqn:E0; [|done]. intros [= <-]. unfold ids_unique in *.
    rewrite fmap_app, List.filter_app. cbn. rewrite E0. cbn. by rewrite app_nil_r.
  - rewrite bool_decide_eq_false_2 by apply is_Some_None. rewrite andb_false_r. intros [= <-].
    apply FindByID_None in E. unfold ids_unique in *. rewrite fmap_app, List.filter_app. cbn.
    destruct (negb (rID r =? 0)); [|by rewrite app_nil_r].
    apply list.NoDup_app. split_and!; [done| |apply list.NoDup_singleton].
    intros i Hi ->%list_elem_of_singleton. apply E.
    apply list_elem_of_In in Hi. apply filter_In in Hi as [Hi _]. by apply list_elem_of_In.
Qed.

Lemma replace_rule_ids i r' rules :
  rID r' = i -> rID <$> replace_rule i r' rules = rID <$> rules.
Proof.
  intros Hr. induction rules as [|r rules IH]; [done|]. cbn [replace_rule].
  destruct (Z.eqb_spec (rID r) i) as [E|_]; cbn; congruence.
Qed.

Lemma append_chain_ID r rule : rID (append_chain r rule) = rID r.
Proof. by destruct r. Qed.

Lemma attach_ids rules parent rule raw :
  getLastRuleExpectingChain rules = Some parent ->
  rID <$> attach_to_chain rules parent rule raw = rID <$> rules.
Proof.
  unfold getLastRuleExpectingChain. destruct (list.last rules) as [r|] eqn:E; [|done].
  destruct (HasChain _); [|done]. intros [= ->]. apply last_Some in E as [l ->].
  unfold attach_to_chain. rewrite removelast_last, !fmap_app. cbn. by destruct parent.
Qed.

Section identifiers.
Context `{GoUnicode} `{Registries} `{Environment}.
Context (default_build : mandatory = false).

Definition unique_in (o : DirectiveOptions) : Prop := ids_unique (Rules (do_WAF o)).

Definition keeps_unique (o o' : DirectiveOptions) : Prop := unique_in o -> unique_in o'.

#[local] Instance keeps_unique_pre : PreOrder keeps_unique.
Proof using Type. split; red; unfold keeps_unique; auto. Qed.

Definition any_dir_err (e : DirErr) : Prop := True.

Abbreviation uniq d := (psafe unique_in keeps_unique any_dir_err True d).

Lemma keeps_unique_closed o o' : unique_in o -> keeps_unique o o' -> unique_in o'.
Proof using Type. unfold keeps_unique. auto. Qed.

Lemma uniq_bind {A B} (m : P DirectiveOptions DirErr A) (k : A -> P DirectiveOptions DirErr B) :
  uniq m -> (forall a, uniq (k a)) -> uniq (pbind m k).
Proof using Type. apply psafe_bind, keeps_unique_closed. Qed.

Lemma uniq_set_WAF f : (forall w, ids_unique (Rules w) -> ids_unique (Rules (f w))) -> uniq (set_WAF f).
Proof using Type. intros Hf o Ho. split; [|done]. intros _. by apply Hf. Qed.

Lemma uniq_set_rules f : (forall l, ids_unique l -> ids_unique (f l)) -> uniq (set_rules f).
Proof using Type. intros Hf. apply uniq_set_WAF. intros w. apply Hf. Qed.

Lemma uniq_set_Parser f : uniq (set_Parser f).
Proof using Type. intros o Ho. split; [|done]. by intros ?. Qed.

Lemma uniq_with_opts k : (forall opts, uniq (k opts)) -> uniq (with_opts k).
Proof using Type.
  intros Hk. apply uniq_bind; [apply psafe_get|]. intros o.
  case_bool_decide; [by apply psafe_fail|apply Hk].
Qed.

Lemma uniq_lift {A} (r : A + DirErr) : uniq (plift r).
Proof using Type. by apply psafe_lift. Qed.

Lemma uniq_fail {A} e : uniq (pfail (A := A) e).
Proof using Type. by apply psafe_fail. Qed.

Lemma uniq_add_rule rule : uniq (add_rule rule).
Proof using default_build.
  intros o Ho. unfold add_rule. cbn. rewrite default_build.
  destruct (Add false _ rule) as [rules|e] eqn:E; [|by split].
  split; [|done]. intros _. unfold unique_in. cbn. by eapply Add_unique.
Qed.

Lemma uniq_parse_rule options : uniq (parse_rule options).
Proof using Type.
  intros o Ho. unfold parse_rule, ParseRule. case_bool_decide; [by split; [intros ?|]|].
  destruct (parse_rule_parts options _) as [[[u|e] p]|]; [|by split; [intros ?|]|done].
  destruct (getLastRuleExpectingChain _) as [parent|] eqn:E; [|by split; [intros ?|]].
  split; [|done]. intros Hu. unfold unique_in. cbn. eapply ids_unique_same; [|exact Hu]. by apply attach_ids.
Qed.

Lemma uniq_ignoring b d : uniq d -> uniq (ignoring b d).
Proof using Type.
  intros Hd o Ho. unfold ignoring. specialize (Hd o Ho). destruct (d o) as [[[u|e] o']|]; [done| |done].
  split; [by apply Hd|done].
Qed.

Lemma uniq_update_targets p vars : uniq (update_targets p vars).
Proof using Type.
  intros o Ho. unfold update_targets. cbn.
  destruct (update_copies p vars (Rules (do_WAF o))) as [rules|e] eqn:E; [|by split].
  split; [|done]. intros Hu. unfold unique_in. cbn. eapply ids_unique_same; [|exact Hu].
  clear Ho Hu. revert rules E. generalize (Rules (do_WAF o)) as l.
  induction l as [|r l IH]; intros rules; cbn [update_copies]; [by intros [= <-]|].
  destruct (if p r then update_copy vars r else inl r) as [r'|e] eqn:Er; [|done].
  destruct (update_copies p vars l) as [l'|e]; [|done]. intros [= <-]. rewrite !fmap_cons. f_equal; [|by apply IH].
  destruct (p r); [|by injection Er as <-]. unfold update_copy in Er.
  destruct (ParseVariables _ _ _ _); [|done]. by injection Er as <-.
Qed.

Lemma uniq_updateTarget i vars : uniq (updateTargetBySingleID i vars).
Proof using Type.
  intros o Ho. unfold updateTargetBySingleID. cbn.
  destruct (FindByID (Rules (do_WAF o)) i) as [r|] eqn:E; [|by split].
  destruct (ParseVariables _ _ _ r) as [r'|e] eqn:Er; [|by split].
  split; [|done]. intros Hu. unfold unique_in. cbn. eapply ids_unique_same; [|exact Hu].
  apply replace_rule_ids. apply List.find_some in E as [_ E%Z.eqb_eq]. rewrite <- E.
  eapply (ParseVariables_go_ind _ _ (fun r' => rID r' = rID r)); [| |done|exact Er].
  - intros r0 v k b r1 <-. unfold AddVariable. destruct (keyRegexp _ _); [|done]. by intros [= <-].
  - intros r0 v k r1 <-. unfold AddVariableNegation. destruct (keyRegexp _ _); [|done]. by intros [= <-].
Qed.

Lemma uniq_target_ids l vars : uniq (target_ids l vars).
Proof using Type.
  induction l as [|s l IH]; cbn [target_ids]; [apply psafe_ret|].
  apply uniq_bind; [apply uniq_lift|]. intros [i|start end_]; [apply uniq_updateTarget|].
  destruct (_ =? _); [apply uniq_updateTarget|]. destruct (_ <? _); [apply uniq_fail|].
  apply uniq_bind; [apply uniq_update_targets|done].
Qed.

Lemma uniq_remove_ids s : uniq (remove_ids s).
Proof using Type.
  apply uniq_bind; [apply uniq_lift|]. intros [i|start end_].
  - apply uniq_set_rules. intros l. apply ids_unique_sublist, DeleteByID_sublist.
  - destruct (_ <? _); [apply uniq_fail|]. apply uniq_set_rules. intros l. apply ids_unique_sublist, filter_sublist.
Qed.

Ltac head_of t := lazymatch t with ?f _ => head_of f | _ => t end.

Ltac unfold_head := match goal with |- psafe _ _ _ _ ?x => let h := head_of x in unfold h end.

Ltac uniq_step :=
  lazymatch goal with
  | |- psafe _ _ _ _ (with_opts _) => apply uniq_with_opts; intros
  | |- psafe _ _ _ _ (pret _) => apply psafe_ret
  | |- psafe _ _ _ _ (pfail _) => apply uniq_fail
  | |- psafe _ _ _ _ ppanic => by apply psafe_panic
  | |- psafe _ _ _ _ pget => apply psafe_get
  | |- psafe _ _ _ _ (plift _) => apply uniq_lift
  | |- psafe _ _ _ _ (pbind _ _) => apply uniq_bind; [|intros]
  | |- psafe _ _ _ _ (set_Parser _) => apply uniq_set_Parser
  | |- psafe _ _ _ _ (set_audit _) => apply uniq_set_WAF; by intros
  | |- psafe _ _ _ _ (set_WAF _) => apply uniq_set_WAF; by intros
  | |- psafe _ _ _ _ (SetDebugLogLevel _) => unfold SetDebugLogLevel
  | |- psafe _ _ _ _ (add_rule _) => apply uniq_add_rule
  | |- psafe _ _ _ _ (parse_rule _) => apply uniq_parse_rule
  | |- psafe _ _ _ _ (ignoring _ _) => apply uniq_ignoring
  | |- psafe _ _ _ _ (pfor remove_ids _) => apply psafe_for; [apply keeps_unique_closed|apply uniq_remove_ids]
  | |- psafe _ _ _ _ (update_targets _ _) => apply uniq_update_targets
  | |- psafe _ _ _ _ (target_ids _ _) => apply uniq_target_ids
  | |- psafe _ _ _ _ (match ?x with _ => _ end) => destruct x eqn:?
  end.

Lemma uniq_removals :
  uniq directiveSecRuleRemoveByTag /\ uniq directiveSecRuleRemoveByMsg /\ uniq directiveSecDataset.
Proof using Type.
  split_and!.
  - apply uniq_with_opts. intros opts. apply uniq_set_rules. intros l. apply ids_unique_sublist, filter_sublist.
  - apply uniq_with_opts. intros opts o Ho. cbn.
    destruct (DeleteByMsg (Rules (do_WAF o)) opts) as [kept|] eqn:E; [|done].
    split; [|done]. intros Hu. eapply ids_unique_sublist; [|exact Hu]. by eapply DeleteByMsg_sublist.
  - apply uniq_with_opts. intros opts o Ho.
    destruct (Strings.Cut opts " "%byte) as [[name d] [|]]; (split; [by intros ?|done]).
Qed.

Lemma directives_uniq name d :
  In (name, d) directivesMap -> name <> lit "secruleupdateactionbyid" -> uniq d.
Proof using default_build.
  destruct uniq_removals as (Htag & Hmsg & Hset). unfold directivesMap. intros Hin Hne. cbn [In] in Hin.
  repeat (destruct Hin as [Hin|Hin]; [injection Hin as Hname <-|]);
    try assumption; try (by rewrite <- Hname in Hne); try contradiction;
    unfold_head; repeat uniq_step.
Qed.

(** C27: In the default build no directive except SecRuleUpdateActionById makes
    two rules share an identifier: whatever it adds, chains, updates or
    removes, the non-zero identifiers of the WAF's rules stay unique. *)
Theorem directives_keep_identifiers_unique name d o r o' :
  find_directive name = Some d -> name <> lit "secruleupdateactionbyid" ->
  ids_unique (Rules (do_WAF o)) -> d o = Ok (r, o') -> ids_unique (Rules (do_WAF o')).
Proof using default_build.
  unfold find_directive. destruct (List.find _ _) as [[n d']|] eqn:E; [|done]. intros [= ->] Hne Hu Ed.
  apply List.find_some in E as [Hin Hn%bool_decide_eq_true]. cbn in Hn. subst n.
  pose proof (directives_uniq name d Hin Hne o Hu) as Hd. rewrite Ed in Hd. by apply Hd.
Qed.
End identifiers.

(** ** Updates of a range of rules *)

Section ranges.
Context `{GoUnicode} `{Registries} `{Environment}.

(** A target without its exceptions. *)
Definition bare (rv : ruleVariableParams) : ruleVariableParams := rv <| rv_Exceptions := [] |>.

(** The copy sees the same targets as the rule of the WAF, as far as these go. *)
Definition same_targets (T : list ruleVariableParams) (c : ruleCopy) : Prop :=
  bare <$> seen c = T /\ take (length T) (bare <$> rule_variables (own c)) = T.

Lemma copy_AddVariable_same T c v k b c' :
  same_targets T c -> copy_AddVariable c v k b = Some c' -> same_targets T c'.
Proof using Type.
  intros [Hseen Hown]. unfold copy_AddVariable, AddVariable. destruct (keyRegexp _ _) as [re|]; [|done].
  intros [= <-]. split; [done|]. cbn. rewrite fmap_app.
  assert (length T <= length (bare <$> rule_variables (own c)))%nat as Hl.
  { rewrite <- Hown at 1. rewrite length_take. lia. }
  by rewrite take_app_le.
Qed.

Lemma copy_AddVariableNegation_same T c v k c' :
  same_targets T c -> copy_AddVariableNegation c v k = Some c' -> same_targets T c'.
Proof using Type.
  intros [Hseen Hown]. unfold copy_AddVariableNegation, AddVariableNegation.
  destruct (keyRegexp _ _) as [re|]; [|done]. set (f := fun rv : ruleVariableParams => _). intros [= <-].
  assert (bare <$> (f <$> rule_variables (own c)) = bare <$> rule_variables (own c)) as E.
  { rewrite <- list_fmap_compose. apply list_fmap_ext. intros i rv _. unfold f, compose. by case_bool_decide. }
  assert (length (seen c) = length T) as Hl by by rewrite <- Hseen, length_fmap.
  split; cbn; [|by rewrite E]. destruct (aliased c); [|done]. by rewrite fmap_take, E, Hl.
Qed.

Lemma update_copy_targets vars r r' :
  update_copy vars r = inl r' -> bare <$> rule_variables r' = bare <$> rule_variables r.
Proof using Type.
  unfold update_copy. destruct (ParseVariables _ _ _ _) as [c|e] eqn:E; [|done]. intros [= <-].
  assert (same_targets (bare <$> rule_variables r) c) as [Hc _]; [|done].
  eapply (ParseVariables_go_ind _ _ (same_targets (bare <$> rule_variables r))); [| | |exact E].
  - intros. by eapply copy_AddVariable_same.
  - intros. by eapply copy_AddVariableNegation_same.
  - split; [done|]. cbn. by rewrite firstn_all.
Qed.


(** SecRuleUpdateActionById on a range of identifiers changes no rule: its
    test leaves no rule out of the range's loop, and the loop works on copies. *)
Theorem range_action_update_changes_nothing start end_ text o r o' :
  update_action_copies start end_ text o = Ok (r, o') ->
  do_WAF o' = do_WAF o /\
  (start <= end_ -> forall rule, ((rID rule <? start) && (end_ <? rID rule)) = false).
Proof using Type.
  intros E. split.
  - assert (forall l o, match pfor (fun r => if (rID r <? start) && (end_ <? rID r) then pret tt
              else pbind (parse_actions_on r text) (fun _ => pret tt)) l o with
              Panic => True | Ok (_, o') => do_WAF o' = do_WAF o end) as Hl.
    { clear E. induction l as [|x l IH]; intros o1; cbn [pfor]; [done|]. unfold pbind at 1.
      destruct ((rID x <? start) && _); [apply IH|]. unfold pbind, parse_actions_on.
      destruct (ParseActions _ _ _) as [[[u|e] p]|]; [|done|done]. cbn.
      match goal with |- context [pfor _ l ?o2] => specialize (IH o2) end.
      destruct (pfor _ l _) as [[u' o2]|]; [|done]. by rewrite IH. }
    specialize (Hl (Rules (do_WAF o)) o). unfold update_action_copies in E.
    unfold pbind at 1, pget in E. by rewrite E in Hl.
  - intros Hle rule. apply andb_false_iff. lia.
Qed.
End ranges.

(** ** Witnesses *)

Module directive_witnesses.
Import config_demo.

Lemma directives_keep_identifiers_unique_witness :
  exists o', directiveSecRuleRemoveByID (options_with (lit "100") [deny_evil; deny_all]) = Ok (inl tt, o') /\
    ids_unique (Rules (do_WAF o')).
Proof.
  assert (mandatory = false) as Hdefault by reflexivity. eexists. split; [reflexivity|].
  apply (directives_keep_identifiers_unique Hdefault (lit "secruleremovebyid") directiveSecRuleRemoveByID
    (options_with (lit "100") [deny_evil; deny_all]) (inl tt)); [reflexivity|discriminate| |reflexivity].
  apply (bool_decide_eq_true_1 (NoDup _)); vm_compute; reflexivity.
Defined.

(** The exception of the first rule is stored, the new target is not. *)
Definition updated : list Rule :=
  match update_copies (fun _ => true) (lit "!ARGS:foo|TX") [deny_evil] with inl l => l | inr _ => [] end.


Lemma range_action_update_changes_nothing_witness :
  exists o', update_action_copies 100 200 (lit "nolog") (options_with [] [deny_evil; deny_all]) = Ok (inl tt, o') /\
    Rules (do_WAF o') = [deny_evil; deny_all].
Proof.
  eexists. split; [reflexivity|].
  apply (f_equal Rules (proj1 (range_action_update_changes_nothing 100 200 (lit "nolog")
    (options_with [] [deny_evil; deny_all]) (inl tt) _ eq_refl))).
Defined.

(** An update of the actions can make two rules share an identifier. *)
Example action_update_duplicates_identifier :
  match updateActionBySingleID 100 (lit "id:101") (options_with [] [deny_evil; deny_all]) with
  | Ok (_, o) => rID <$> Rules (do_WAF o)
  | Panic => []
  end = [101; 101].
Proof. vm_compute. reflexivity. Qed.

(** A chained rule inherits the default actions. *)
Example chained_rule_inherits_defaults :
  match pbind directiveSecRule (fun _ => pret tt)
          (options_with (lit "ARGS " ++ quoted "@contains b" ++ lit " " ++ quoted "capture")
             [deny_evil <| HasChain := true |>]) with
  | Ok (_, o) => (fun r => (fun c => act_Name <$> actions c) <$> Chain r) <$> Rules (do_WAF o)
  | Panic => []
  end = [Some [lit "log"; lit "auditlog"; lit "capture"; lit "pass"]].
Proof. vm_compute. reflexivity. Qed.
End directive_witnesses.
