(* ===== verification/RateLimit.v ===== *)
(** * Rate limiting (internal/app/ratelimit/ratelimit.go)

    A sliding-window limiter.  Visitors are kept in 256 shards by the FNV-1a
    hash of their address; every operation that looks at the clock gets the
    time as an argument, in nanoseconds.  The optional Redis backend is an
    interface. *)

From stdpp Require Import options sorting.
From Stdlib Require Import Strings.Byte.
From S2P Require Import Prelude GoLib.

(** ** Configuration *)

Definition second : Z := 1000000000.
Definition minute : Z := 60 * second.

Definition NumShards : Z := 256.
Definition DefaultRequestsPerMinute : Z := 200.
Definition DefaultBurstSize : Z := 300.
Definition DefaultBlockDuration : Z := 1 * minute.
Definition LoginRequestsPerMinute : Z := 5.
Definition LoginBurstSize : Z := 10.
Definition LoginBlockDuration : Z := 15 * minute.
Definition localHostIP : gostring := lit "127.0.0.1".

Record EndpointConfig := mkEndpointConfig {
  RequestsPerMinute : Z;
  BurstSize : Z;
  BlockDuration : Z;
}.

#[global] Instance EndpointConfig_eq_dec : EqDecision EndpointConfig.
Proof. solve_decision. Defined.

(** The struct [Config]; the global limits are [Global]. *)
Record Config := mkConfig {
  Global : EndpointConfig;
  cfg_Whitelist : list gostring;
  EndpointLimits : gmap gostring EndpointConfig;
  CleanupInterval : Z;
}.

Definition DefaultConfig : Config :=
  mkConfig (mkEndpointConfig DefaultRequestsPerMinute DefaultBurstSize DefaultBlockDuration)
    [localHostIP; lit "::1"; lit "[::1]"; lit "localhost"]
    (<[lit "/api/login" := mkEndpointConfig LoginRequestsPerMinute LoginBurstSize LoginBlockDuration]>
      (<[lit "/api/admin" := mkEndpointConfig 30 50 (5 * minute)]> ∅))
    (5 * minute).

(** ** State *)

(** The struct [visitor]; [blockUntil] is in seconds. *)
Record visitor := mkVisitor {
  timestamps : list Z;
  blocked : bool;
  blockUntil : Z;
}.

#[global] Instance visitor_form : RecordForm visitor :=
  fun v => mkVisitor (timestamps v) (blocked v) (blockUntil v).

Abbreviation shard := (gmap gostring visitor).

(** What the limiter uses of [RedisRateLimiter]. *)
Class RedisBackend (R : Type) := {
  redis_IsBlacklisted : R -> gostring -> bool;
  redis_AllowEndpoint : R -> Z -> gostring -> gostring -> bool * R;
  redis_Blacklist : R -> gostring -> R;
  redis_Whitelist : R -> gostring -> R;
  redis_RemoveFromBlacklist : R -> gostring -> R;
  redis_RemoveFromWhitelist : R -> gostring -> R;
  redis_Reset : R -> gostring -> R;
  redis_Unblock : R -> gostring -> R;
}.

Record RateLimiter (R : Type) := mkRateLimiter {
  shards : list shard;
  config : Config;
  whitelist : gset gostring;
  blacklist : gset gostring;
  redisBackend : option R;
  totalAllowed : Z;
  totalBlocked : Z;
  totalVisitors : Z;
}.
Arguments mkRateLimiter {R}.
Arguments shards {R}.
Arguments config {R}.
Arguments whitelist {R}.
Arguments blacklist {R}.
Arguments redisBackend {R}.
Arguments totalAllowed {R}.
Arguments totalBlocked {R}.
Arguments totalVisitors {R}.

#[global] Instance RateLimiter_form {R} : RecordForm (RateLimiter R) :=
  fun rl => mkRateLimiter (shards rl) (config rl) (whitelist rl) (blacklist rl) (redisBackend rl)
    (totalAllowed rl) (totalBlocked rl) (totalVisitors rl).

(** [NewRateLimiter] *)
Definition NewRateLimiter {R} (cfg : Config) : RateLimiter R :=
  mkRateLimiter (replicate (Z.to_nat NumShards) ∅) cfg (list_to_set (cfg_Whitelist cfg)) ∅ None 0 0 0.

(** ** Shards *)

(** The 32-bit FNV-1a hash of the standard library. *)
Definition fnv32a (s : gostring) : Z :=
  foldl (fun h c => (Z.lxor h (bz c) * 16777619) mod 4294967296) 2166136261 s.

(** The index that [getShard] computes. *)
Definition shard_index (ip : gostring) : nat := Z.to_nat (fnv32a ip mod NumShards).

Section limiter.
Context {R : Type} `{RedisBackend R} `{GoRange}.
Implicit Type rl : RateLimiter R.

Definition getShard rl (ip : gostring) : shard := default ∅ (shards rl !! shard_index ip).

Definition setShard rl (ip : gostring) (sh : shard) : RateLimiter R :=
  rl <| shards := <[shard_index ip := sh]> (shards rl) |>.

(** ** Cleanup *)

(** [ts.After(windowStart)] *)
Definition in_window (now ts : Z) : bool := now - minute <? ts.

(** The body of the loop over the visitors; [None] removes the visitor. *)
Definition cleanup_visitor (now : Z) (v : visitor) : option visitor :=
  let v := if blocked v && (blockUntil v * second <? now) then v <| blocked := false |> else v in
  let v := v <| timestamps := List.filter (in_window now) (timestamps v) |> in
  if bool_decide (timestamps v = []) && negb (blocked v) then None else Some v.

Definition cleanup_shard (now : Z) (sh : shard) : shard := omap (cleanup_visitor now) sh.

Definition total (l : list shard) : Z := foldr (fun sh n => zlen (map_to_list sh) + n) 0 l.

Definition cleanup (now : Z) rl : RateLimiter R :=
  let l := cleanup_shard now <$> shards rl in
  rl <| shards := l |> <| totalVisitors := totalVisitors rl - (total (shards rl) - total l) |>.

(** ** Requests *)

Definition normalizeIP (ip : gostring) : gostring :=
  if bool_decide (ip = lit "[::1]") || bool_decide (ip = lit "::1") || bool_decide (ip = lit "localhost")
  then localHostIP else ip.

(** The prefixes, longest first. *)
Definition longer (p q : gostring) : Prop := (length q <= length p)%nat.

#[global] Instance longer_dec p q : Decision (longer p q) := le_dec _ _.

Definition sorted_prefixes (m : gmap gostring EndpointConfig) : list gostring :=
  merge_sort longer ((range_map m).*1).

Definition getEndpointConfig rl (endpoint : gostring) : EndpointConfig :=
  match List.find (fun p => Strings.HasPrefix endpoint p) (sorted_prefixes (EndpointLimits (config rl))) with
  | Some p => default (Global (config rl)) (EndpointLimits (config rl) !! p)
  | None => Global (config rl)
  end.

Definition allow rl : bool * RateLimiter R := (true, rl <| totalAllowed := totalAllowed rl + 1 |>).
Definition deny rl : bool * RateLimiter R := (false, rl <| totalBlocked := totalBlocked rl + 1 |>).

(** What the limiter decides for a visitor that it knows. *)
Definition visit (now : Z) (cfg : EndpointConfig) (v : visitor) : bool * visitor :=
  if blocked v && negb (blockUntil v * second <? now) then (false, v)
  else
    let v := v <| blocked := false |>
               <| timestamps := List.filter (in_window now) (timestamps v) |> in
    if RequestsPerMinute cfg <=? zlen (timestamps v)
    then (false, v <| blocked := true |> <| blockUntil := (now + BlockDuration cfg) / second |>)
    else (true, v <| timestamps := timestamps v ++ [now] |>).

(** The part of [AllowEndpoint] under the lock of the shard. *)
Definition allow_local (now : Z) rl (ip endpoint : gostring) : bool * RateLimiter R :=
  let cfg := getEndpointConfig rl endpoint in
  match getShard rl ip !! ip with
  | None =>
    let rl := setShard rl ip (<[ip := mkVisitor [now] false 0]> (getShard rl ip)) in
    allow (rl <| totalVisitors := totalVisitors rl + 1 |>)
  | Some v =>
    let '(ok, v) := visit now cfg v in
    let rl := setShard rl ip (<[ip := v]> (getShard rl ip)) in
    if ok then allow rl else deny rl
  end.

Definition AllowEndpoint (now : Z) rl (ip endpoint : gostring) : bool * RateLimiter R :=
  if bool_decide (ip ∈ whitelist rl) || bool_decide (normalizeIP ip ∈ whitelist rl) then allow rl
  else if bool_decide (ip ∈ blacklist rl) then deny rl
  else
    match redisBackend rl with
    | Some r =>
      if redis_IsBlacklisted r (normalizeIP ip) || redis_IsBlacklisted r ip then deny rl
      else
        let '(ok, r) := redis_AllowEndpoint r now ip endpoint in
        let rl := rl <| redisBackend := Some r |> in
        if ok then allow rl else deny rl
    | None => allow_local now rl ip endpoint
    end.

Definition Allow (now : Z) rl (ip : gostring) : bool * RateLimiter R := AllowEndpoint now rl ip [].

(** ** Administration *)

Definition on_redis (f : R -> R) rl : RateLimiter R := rl <| redisBackend := f <$> redisBackend rl |>.

Definition Blacklist rl (ip : gostring) : RateLimiter R :=
  let rl := on_redis (fun r => redis_Blacklist r ip) rl in
  rl <| blacklist := {[ip]} ∪ blacklist rl |> <| whitelist := whitelist rl ∖ {[ip]} |>.

Definition Whitelist rl (ip : gostring) : RateLimiter R :=
  let rl := on_redis (fun r => redis_Whitelist r ip) rl in
  rl <| whitelist := {[ip]} ∪ whitelist rl |> <| blacklist := blacklist rl ∖ {[ip]} |>.

Definition RemoveFromBlacklist rl (ip : gostring) : RateLimiter R :=
  let rl := on_redis (fun r => redis_RemoveFromBlacklist r ip) rl in
  rl <| blacklist := blacklist rl ∖ {[ip]} |>.

Definition RemoveFromWhitelist rl (ip : gostring) : RateLimiter R :=
  let rl := on_redis (fun r => redis_RemoveFromWhitelist r ip) rl in
  rl <| whitelist := whitelist rl ∖ {[ip]} |>.

Definition Reset rl (ip : gostring) : RateLimiter R :=
  if bool_decide (ip = []) then
    (on_redis (fun r => redis_Reset r []) rl) <| shards := const ∅ <$> shards rl |> <| totalVisitors := 0 |>
  else
    let rl := match getShard rl ip !! ip with
              | Some _ => (setShard rl ip (delete ip (getShard rl ip)))
                            <| totalVisitors := totalVisitors rl - 1 |>
              | None => rl
              end in
    on_redis (fun r => redis_Reset r ip) rl.

Definition Unblock rl (ip : gostring) : RateLimiter R :=
  let rl := match getShard rl ip !! ip with
            | Some v => setShard rl ip (<[ip := v <| blocked := false |> <| timestamps := [] |>]> (getShard rl ip))
            | None => rl
            end in
  on_redis (fun r => redis_Unblock r ip) rl.

(** The addresses that [GetStats] lists as rate limited, with the seconds
    until they may retry; counters of the local limiter. *)
Definition rate_limited (now : Z) rl : list (gostring * Z) :=
  concat ((fun sh : shard =>
    omap (fun iv : gostring * visitor =>
      if blocked (snd iv)
      then Some (fst iv, if now <? blockUntil (snd iv) * second
                         then (blockUntil (snd iv) * second - now) / second else 0)
      else None) (range_map sh)) <$> shards rl).

(** ** Middleware *)

(** The parts of a request that the middleware reads. *)
Record request := mkRequest {
  XForwardedFor : gostring;
  XRealIP : gostring;
  RemoteAddr : gostring;
  URLPath : gostring;
}.

(** The address before the last colon; an address that ends with a bracket
    before any colon is kept. *)
Fixpoint strip_port (rev_ip : gostring) : option gostring :=
  match rev_ip with
  | [] => None
  | c :: rest =>
    if bool_decide (c = ":"%byte) then Some (rev rest)
    else if bool_decide (c = "]"%byte) then None
    else strip_port rest
  end.

Definition extractIP (r : request) : gostring :=
  if bool_decide (XForwardedFor r = []) then
    if bool_decide (XRealIP r = []) then default (RemoteAddr r) (strip_port (rev (RemoteAddr r)))
    else XRealIP r
  else fst (fst (Strings.Cut (XForwardedFor r) ","%byte)).

(** What the middleware answers itself: the status and the header fields with
    the retry time and the limit. *)
Inductive middleware_result :=
| TooManyRequests (retryAfter limit : Z)
| Served (limit : Z).

Definition Middleware (now : Z) rl (r : request) : middleware_result * RateLimiter R :=
  let ip := extractIP r in
  let '(ok, rl) := AllowEndpoint now rl ip (URLPath r) in
  if ok then (Served (RequestsPerMinute (Global (config rl))), rl)
  else
    let cfg := getEndpointConfig rl (URLPath r) in
    (TooManyRequests (Z.quot (BlockDuration cfg) second) (RequestsPerMinute cfg), rl).
End limiter.
