(* ===== verification/RateLimitFacts.v ===== *)
(** * The rate limiter on traces

    Traces are sequences of timed operations of a limiter without a Redis
    backend.  The sharded limiter refines a limiter with one map of visitors;
    the lemmas on what an event makes of one visitor follow from that. *)

From stdpp Require Import options sorting.
From Stdlib Require Import Strings.Byte.
From S2P Require Import Prelude GoLib RateLimit.

(** ** Traces *)

Inductive event :=
| Request (ip endpoint : gostring)
| Cleaning
| Blacklisting (ip : gostring)
| Whitelisting (ip : gostring)
| Unblacklisting (ip : gostring)
| Unwhitelisting (ip : gostring)
| Resetting (ip : gostring)
| Unblocking (ip : gostring).

Abbreviation trace := (list (Z * event)).

(** The time stamps of a trace never decrease, from [t] on. *)
Fixpoint timed (t : Z) (tr : trace) : Prop :=
  match tr with
  | [] => True
  | (now, _) :: tr => t <= now /\ timed now tr
  end.

(** The administrator forgets the requests of [ip]. *)
Definition forgives (ip : gostring) (e : event) : bool :=
  match e with
  | Resetting ip' => bool_decide (ip' = []) || bool_decide (ip' = ip)
  | Unblocking ip' => bool_decide (ip' = ip)
  | _ => false
  end.

Create HintDb ratelimit discriminated.

Definition never (p : event -> bool) (tr : trace) : Prop := Forall (fun te => p (snd te) = false) tr.

Section facts.
Context {R : Type} `{RedisBackend R} `{GoRange}.
Implicit Type rl : RateLimiter R.

(** The operation of an event, with its answer. *)
Definition step (now : Z) (e : event) rl : option bool * RateLimiter R :=
  match e with
  | Request ip endpoint => let '(ok, rl) := AllowEndpoint now rl ip endpoint in (Some ok, rl)
  | Cleaning => (None, cleanup now rl)
  | Blacklisting ip => (None, Blacklist rl ip)
  | Whitelisting ip => (None, Whitelist rl ip)
  | Unblacklisting ip => (None, RemoveFromBlacklist rl ip)
  | Unwhitelisting ip => (None, RemoveFromWhitelist rl ip)
  | Resetting ip => (None, Reset rl ip)
  | Unblocking ip => (None, Unblock rl ip)
  end.

Definition run (tr : trace) rl : RateLimiter R := foldl (fun rl te => snd (step (fst te) (snd te) rl)) rl tr.

(** The answers to a trace. *)
Fixpoint answers (tr : trace) rl : list (option bool) :=
  match tr with
  | [] => []
  | (now, e) :: tr => let '(a, rl) := step now e rl in a :: answers tr rl
  end.

(** ** One map of visitors *)

Definition whitelisted rl ip : bool :=
  bool_decide (ip ∈ whitelist rl) || bool_decide (normalizeIP ip ∈ whitelist rl).

Definition listed rl ip : bool := whitelisted rl ip || bool_decide (ip ∈ blacklist rl).

(** The visitors as one map: what a limiter without shards keeps. *)
Definition visitors rl : shard := ⋃ (shards rl).

Definition request_visitor (now : Z) (cfg : EndpointConfig) (v : option visitor) : bool * visitor :=
  match v with
  | None => (true, mkVisitor [now] false 0)
  | Some v => visit now cfg v
  end.

(** What an event makes of one visitor. *)
Definition visitor_step rl (now : Z) (e : event) (ip : gostring) (v : option visitor) : option visitor :=
  match e with
  | Request ip' endpoint =>
    if bool_decide (ip' = ip) && negb (listed rl ip)
    then Some (snd (request_visitor now (getEndpointConfig rl endpoint) v)) else v
  | Cleaning => v ≫= cleanup_visitor now
  | Resetting ip' => if bool_decide (ip' = []) || bool_decide (ip' = ip) then None else v
  | Unblocking ip' =>
    if bool_decide (ip' = ip) then (fun v => v <| blocked := false |> <| timestamps := [] |>) <$> v else v
  | _ => v
  end.

(** *** The representation *)

(** The shard at [i + k] holds addresses with that index only. *)
Definition placed (i : nat) (l : list shard) : Prop :=
  forall k sh ip, l !! k = Some sh -> is_Some (sh !! ip) -> shard_index ip = (i + k)%nat.

Record sharded rl : Prop := {
  sharded_local : redisBackend rl = None;
  sharded_length : length (shards rl) = Z.to_nat NumShards;
  sharded_placed : placed 0 (shards rl);
  sharded_count : totalVisitors rl = total (shards rl);
}.

Lemma shard_index_lt ip : (shard_index ip < Z.to_nat NumShards)%nat.
Proof using Type.
  unfold shard_index, NumShards. pose proof (Z.mod_pos_bound (fnv32a ip) 256). lia.
Qed.

Lemma getShard_lookup rl ip : length (shards rl) = Z.to_nat NumShards ->
  shards rl !! shard_index ip = Some (getShard rl ip).
Proof using Type.
  intros Hl. unfold getShard.
  destruct (lookup_lt_is_Some_2 (shards rl) (shard_index ip)) as [sh ->]; [|done].
  rewrite Hl. apply shard_index_lt.
Qed.

Lemma placed_cons i sh l : placed i (sh :: l) <->
  (forall ip, is_Some (sh !! ip) -> shard_index ip = i) /\ placed (S i) l.
Proof using Type.
  split.
  - intros Hp. split.
    + intros ip Hs. rewrite (Hp 0%nat sh ip); [lia|done..].
    + intros k sh' ip Hk Hs. rewrite (Hp (S k) sh' ip); [lia|done..].
  - intros [H1' Hp] [|k] sh' ip Hk Hs; simplify_eq/=.
    + rewrite (H1' ip Hs). lia.
    + rewrite (Hp k sh' ip Hk Hs). lia.
Qed.

Lemma placed_here i l ip v : placed i l -> (⋃ l : shard) !! ip = Some v -> (i <= shard_index ip)%nat.
Proof using Type.
  revert i. induction l as [|sh l IH]; intros i Hp Hv; simpl in Hv; [done|].
  apply placed_cons in Hp as [Hsh Hp]. apply lookup_union_Some_raw in Hv as [Hv|[_ Hv]].
  - rewrite (Hsh ip); [lia|eauto].
  - specialize (IH _ Hp Hv). lia.
Qed.

Lemma placed_lookup i l k ip : placed i l -> shard_index ip = (i + k)%nat ->
  (⋃ l : shard) !! ip = l !! k ≫= (fun sh : shard => sh !! ip).
Proof using Type.
  revert i k. induction l as [|sh l IH]; intros i k Hp Hi; [done|].
  apply placed_cons in Hp as [Hsh Hp]. simpl. rewrite lookup_union.
  destruct k as [|k]; simpl.
  - destruct ((⋃ l : shard) !! ip) eqn:E; [|by rewrite (right_id_L None _)].
    apply (placed_here (S i)) in E; [lia|done].
  - destruct (sh !! ip) eqn:E; [specialize (Hsh ip ltac:(eauto)); lia|].
    rewrite (left_id_L None _). apply (IH (S i)); [done|lia].
Qed.

Lemma placed_total i l : placed i l -> total l = Z.of_nat (size (⋃ l : shard)).
Proof using Type.
  revert i. induction l as [|sh l IH]; intros i Hp; simpl; [done|].
  apply placed_cons in Hp as [Hsh Hp]. rewrite (IH _ Hp), map_size_disj_union.
  - unfold zlen. rewrite length_map_to_list. lia.
  - apply map_disjoint_spec. intros ip v v' Hv Hv'.
    apply (placed_here (S i)) in Hv'; [|done]. rewrite (Hsh ip) in Hv'; [lia|eauto].
Qed.

Lemma visitors_lookup rl ip : sharded rl -> visitors rl !! ip = getShard rl ip !! ip.
Proof using Type.
  intros Hs. unfold visitors.
  rewrite (placed_lookup 0 _ (shard_index ip)); [|apply Hs|lia].
  by rewrite (getShard_lookup _ _ (sharded_length _ Hs)).
Qed.

Lemma visitors_count rl : sharded rl -> totalVisitors rl = Z.of_nat (size (visitors rl)).
Proof using Type. intros Hs. rewrite (sharded_count _ Hs). apply (placed_total 0), Hs. Qed.

Lemma total_insert l i sh sh' : l !! i = Some sh ->
  total (<[i := sh']> l) = total l + Z.of_nat (size sh') - Z.of_nat (size sh).
Proof using Type.
  revert i. induction l as [|x l IH]; intros [|i] Hi; simplify_eq/=.
  - unfold zlen. rewrite !length_map_to_list. lia.
  - rewrite (IH _ Hi). lia.
Qed.

Lemma placed_insert i l k sh : placed i l ->
  (forall ip, is_Some (sh !! ip) -> shard_index ip = (i + k)%nat) -> placed i (<[k := sh]> l).
Proof using Type.
  intros Hp Hsh k' sh' ip Hk Hs. apply list_lookup_insert_Some in Hk as [(-> & -> & _)|[_ Hk]]; eauto.
Qed.

Lemma getShard_placed rl ip ip' : sharded rl -> is_Some (getShard rl ip !! ip') -> shard_index ip' = shard_index ip.
Proof using Type.
  intros Hs. apply (sharded_placed _ Hs). apply getShard_lookup, Hs.
Qed.

(** Replacing the entry of [ip] in its shard. *)
Lemma setShard_sharded rl (ip : gostring) (f : shard -> shard) (n : Z) : sharded rl ->
  (forall ip' : gostring, ip' <> ip -> f (getShard rl ip) !! ip' = getShard rl ip !! ip') ->
  n = totalVisitors rl + Z.of_nat (size (f (getShard rl ip))) - Z.of_nat (size (getShard rl ip)) ->
  let rl' := (setShard rl ip (f (getShard rl ip))) <| totalVisitors := n |> in
  sharded rl' /\ visitors rl' = partial_alter (fun _ => f (getShard rl ip) !! ip) ip (visitors rl).
Proof using Type.
  intros Hs Hf Hn rl'.
  assert (sharded rl') as Hs'.
  { split; cbn.
    - apply Hs.
    - rewrite length_insert. apply Hs.
    - apply placed_insert; [apply Hs|]. intros ip' Hi. simpl.
      destruct (decide (ip' = ip)) as [->|Hne]; [done|]. apply (getShard_placed rl); [done|].
      by rewrite <- Hf.
    - rewrite (total_insert _ _ (getShard rl ip)); [|apply getShard_lookup, Hs].
      rewrite Hn, (sharded_count _ Hs). lia. }
  split; [done|]. apply map_eq. intros ip'. rewrite visitors_lookup by done.
  unfold getShard at 1. subst rl'. cbn.
  destruct (decide (shard_index ip' = shard_index ip)) as [He|He].
  - rewrite He, list_lookup_insert_eq by (rewrite (sharded_length _ Hs); apply shard_index_lt). simpl.
    destruct (decide (ip' = ip)) as [->|Hne]; [by rewrite lookup_partial_alter_eq|].
    rewrite Hf, lookup_partial_alter_ne by done. rewrite visitors_lookup by done.
    unfold getShard. by rewrite He.
  - rewrite list_lookup_insert_ne by done. rewrite lookup_partial_alter_ne by congruence.
    by rewrite visitors_lookup by done.
Qed.

(** Only the shards, their count and the backend matter for the representation. *)
Lemma sharded_ext rl rl' : sharded rl -> shards rl' = shards rl -> totalVisitors rl' = totalVisitors rl ->
  redisBackend rl' = redisBackend rl -> sharded rl' /\ visitors rl' = visitors rl.
Proof using Type.
  intros Hs E1 E2 E3. unfold visitors. rewrite E1. split; [|done].
  split; rewrite ?E1, ?E2, ?E3; apply Hs.
Qed.

Lemma allow_local_sharded now rl ip endpoint : sharded rl ->
  let r := request_visitor now (getEndpointConfig rl endpoint) (visitors rl !! ip) in
  sharded (snd (allow_local now rl ip endpoint))
  /\ visitors (snd (allow_local now rl ip endpoint)) = <[ip := snd r]> (visitors rl)
  /\ fst (allow_local now rl ip endpoint) = fst r.
Proof using Type.
  intros Hs. rewrite (visitors_lookup rl ip Hs). unfold allow_local, request_visitor.
  destruct (getShard rl ip !! ip) as [v|] eqn:Ev.
  - destruct (visit now (getEndpointConfig rl endpoint) v) as [ok v'] eqn:E.
    destruct (setShard_sharded rl ip (insert ip v') (totalVisitors rl) Hs) as [Hs' Hv'].
    { intros. by rewrite lookup_insert_ne. }
    { rewrite map_size_insert_Some by eauto. lia. }
    destruct ok; cbn; rewrite lookup_insert_eq in Hv'; (split_and!; [|exact Hv'|done]);
      eapply sharded_ext; eauto.
  - destruct (setShard_sharded rl ip (insert ip (mkVisitor [now] false 0)) (totalVisitors rl + 1) Hs) as [Hs' Hv'].
    { intros. by rewrite lookup_insert_ne. }
    { rewrite map_size_insert_None by done. lia. }
    rewrite lookup_insert_eq in Hv'. split_and!; [|exact Hv'|done]. eapply sharded_ext; eauto.
Qed.

Lemma AllowEndpoint_local now rl ip endpoint : redisBackend rl = None -> listed rl ip = false ->
  AllowEndpoint now rl ip endpoint = allow_local now rl ip endpoint.
Proof using Type.
  unfold listed, whitelisted, AllowEndpoint. intros ->.
  by intros [-> ->]%orb_false_iff.
Qed.

Lemma AllowEndpoint_listed now rl ip endpoint : listed rl ip = true ->
  fst (AllowEndpoint now rl ip endpoint) = whitelisted rl ip
  /\ shards (snd (AllowEndpoint now rl ip endpoint)) = shards rl
  /\ totalVisitors (snd (AllowEndpoint now rl ip endpoint)) = totalVisitors rl
  /\ redisBackend (snd (AllowEndpoint now rl ip endpoint)) = redisBackend rl.
Proof using Type.
  unfold listed, AllowEndpoint. fold (whitelisted rl ip).
  destruct (whitelisted rl ip); [done|]. simpl. by intros ->.
Qed.

Lemma cleanup_sharded now rl : sharded rl ->
  sharded (cleanup now rl) /\ visitors (cleanup now rl) = omap (cleanup_visitor now) (visitors rl).
Proof using Type.
  intros Hs.
  assert (sharded (cleanup now rl)) as Hs'.
  { split; cbn -[total]; [apply Hs|rewrite length_fmap; apply Hs| |rewrite (sharded_count _ Hs); lia].
    intros k sh ip (sh0 & -> & Hk)%list_lookup_fmap_Some Hi. unfold cleanup_shard in Hi.
    rewrite lookup_omap in Hi. apply (sharded_placed _ Hs k sh0); [done|].
    destruct (sh0 !! ip); [eauto|]. by destruct Hi. }
  split; [done|]. apply map_eq. intros ip. rewrite lookup_omap, !visitors_lookup by done.
  unfold getShard. cbn. rewrite list_lookup_fmap, (getShard_lookup _ ip (sharded_length _ Hs)).
  simpl. unfold cleanup_shard. by rewrite lookup_omap.
Qed.

Lemma on_redis_local (f : R -> R) rl : redisBackend rl = None -> on_redis f rl = rl.
Proof using Type. destruct rl. unfold on_redis. simpl. by intros ->. Qed.

Lemma Reset_sharded rl ip : sharded rl ->
  sharded (Reset rl ip) /\ visitors (Reset rl ip) = if bool_decide (ip = []) then ∅ else delete ip (visitors rl).
Proof using Type.
  intros Hs. unfold Reset. case_bool_decide as He.
  - assert (placed 0 (const ∅ <$> shards rl)) as Hp.
    { intros k sh ip' (sh0 & -> & Hk)%list_lookup_fmap_Some [v Hi]. done. }
    assert ((⋃ (const ∅ <$> shards rl) : shard) = ∅) as E.
    { clear Hp. induction (shards rl) as [|sh l IH]; [done|]. simpl. rewrite (left_id_L ∅ _). apply IH. }
    split; [|done]. split; cbn -[total].
    + by rewrite (sharded_local _ Hs).
    + rewrite length_fmap. apply Hs.
    + exact Hp.
    + by rewrite (placed_total 0 _ Hp), E.
  - destruct (getShard rl ip !! ip) as [v|] eqn:Ev.
    + destruct (setShard_sharded rl ip (delete ip) (totalVisitors rl - 1) Hs) as [Hs' Hv'].
      { intros. by rewrite lookup_delete_ne. }
      { rewrite map_size_delete_Some by eauto.
        assert (size (getShard rl ip) <> 0%nat); [|lia]. intros E%map_size_empty_inv. by rewrite E in Ev. }
      rewrite lookup_delete_eq in Hv'.
      rewrite on_redis_local by apply Hs'. split; [done|]. by rewrite Hv'.
    + rewrite on_redis_local by apply Hs. split; [done|]. rewrite delete_id; [done|]. by rewrite visitors_lookup.
Qed.

Lemma Unblock_sharded rl ip : sharded rl ->
  sharded (Unblock rl ip)
  /\ visitors (Unblock rl ip) = alter (fun v => v <| blocked := false |> <| timestamps := [] |>) ip (visitors rl).
Proof using Type.
  intros Hs. unfold Unblock. destruct (getShard rl ip !! ip) as [v|] eqn:Ev.
  - destruct (setShard_sharded rl ip (insert ip (v <| blocked := false |> <| timestamps := [] |>)) (totalVisitors rl) Hs)
      as [Hs' Hv'].
    { intros. by rewrite lookup_insert_ne. }
    { rewrite map_size_insert_Some by eauto. lia. }
    rewrite on_redis_local by apply Hs'.
    destruct (sharded_ext _ (setShard rl ip (<[ip := v <| blocked := false |> <| timestamps := [] |>]> (getShard rl ip))) Hs')
      as [Hs'' Hv'']; [done..|].
    split; [done|]. rewrite Hv'', Hv', lookup_insert_eq. apply map_eq. intros ip'.
    destruct (decide (ip' = ip)) as [->|Hne].
    + rewrite lookup_partial_alter_eq, lookup_alter_eq, visitors_lookup by done. by rewrite Ev.
    + by rewrite lookup_partial_alter_ne, lookup_alter_ne by done.
  - rewrite on_redis_local by apply Hs. split; [done|]. apply map_eq. intros ip'.
    destruct (decide (ip' = ip)) as [->|Hne].
    + rewrite lookup_alter_eq, visitors_lookup by done. by rewrite Ev.
    + by rewrite lookup_alter_ne by done.
Qed.

(** *** The limiter without shards *)

Record plain := mkPlain {
  p_visitors : shard;
  p_whitelist : gset gostring;
  p_blacklist : gset gostring;
}.

Definition abstract rl : plain := mkPlain (visitors rl) (whitelist rl) (blacklist rl).

Definition plain_whitelisted (p : plain) (ip : gostring) : bool :=
  bool_decide (ip ∈ p_whitelist p) || bool_decide (normalizeIP ip ∈ p_whitelist p).

Definition plain_step (limits : gostring -> EndpointConfig) (now : Z) (e : event) (p : plain) : option bool * plain :=
  let '(mkPlain m white black) := p in
  match e with
  | Request ip endpoint =>
    if plain_whitelisted p ip then (Some true, p)
    else if bool_decide (ip ∈ black) then (Some false, p)
    else
      let '(ok, v) := request_visitor now (limits endpoint) (m !! ip) in
      (Some ok, mkPlain (<[ip := v]> m) white black)
  | Cleaning => (None, mkPlain (omap (cleanup_visitor now) m) white black)
  | Blacklisting ip => (None, mkPlain m (white ∖ {[ip]}) ({[ip]} ∪ black))
  | Whitelisting ip => (None, mkPlain m ({[ip]} ∪ white) (black ∖ {[ip]}))
  | Unblacklisting ip => (None, mkPlain m white (black ∖ {[ip]}))
  | Unwhitelisting ip => (None, mkPlain m (white ∖ {[ip]}) black)
  | Resetting ip => (None, mkPlain (if bool_decide (ip = []) then ∅ else delete ip m) white black)
  | Unblocking ip =>
    (None, mkPlain (alter (fun v => v <| blocked := false |> <| timestamps := [] |>) ip m) white black)
  end.

Fixpoint plain_answers (limits : gostring -> EndpointConfig) (tr : trace) (p : plain) : list (option bool) * plain :=
  match tr with
  | [] => ([], p)
  | (now, e) :: tr =>
    let '(a, p) := plain_step limits now e p in
    let '(l, p) := plain_answers limits tr p in (a :: l, p)
  end.

Lemma AllowEndpoint_lists now rl ip endpoint :
  let rl' := snd (AllowEndpoint now rl ip endpoint) in
  whitelist rl' = whitelist rl /\ blacklist rl' = blacklist rl /\ config rl' = config rl.
Proof using Type.
  unfold AllowEndpoint. destruct (bool_decide _ || _); [done|]. destruct (bool_decide _); [done|].
  destruct (redisBackend rl) as [r|].
  - destruct (redis_IsBlacklisted _ _ || _); [done|].
    by destruct (redis_AllowEndpoint r now ip endpoint) as [[|] ?].
  - unfold allow_local. destruct (getShard rl ip !! ip) as [v|]; [|done].
    by destruct (visit now (getEndpointConfig rl endpoint) v) as [[|] ?].
Qed.

Lemma Reset_lists rl ip :
  whitelist (Reset rl ip) = whitelist rl /\ blacklist (Reset rl ip) = blacklist rl /\ config (Reset rl ip) = config rl.
Proof using Type. unfold Reset. case_bool_decide; [done|]. by destruct (getShard rl ip !! ip). Qed.

Lemma Unblock_lists rl ip :
  whitelist (Unblock rl ip) = whitelist rl /\ blacklist (Unblock rl ip) = blacklist rl
  /\ config (Unblock rl ip) = config rl.
Proof using Type. unfold Unblock. by destruct (getShard rl ip !! ip). Qed.

(** One step of the sharded limiter is one step of the plain one. *)
Lemma step_refines now e rl : sharded rl ->
  sharded (snd (step now e rl)) /\ config (snd (step now e rl)) = config rl
  /\ plain_step (getEndpointConfig rl) now e (abstract rl) = (fst (step now e rl), abstract (snd (step now e rl))).
Proof using Type.
  intros Hs. destruct e as [ip endpoint| |ip|ip|ip|ip|ip|ip]; simpl.
  - destruct (AllowEndpoint_lists now rl ip endpoint) as (E1 & E2 & E3).
    destruct (listed rl ip) eqn:El.
    + destruct (AllowEndpoint_listed now rl ip endpoint El) as (Ea & E4 & E5 & E6).
      destruct (sharded_ext _ (snd (AllowEndpoint now rl ip endpoint)) Hs) as [Hs' Hv']; [done..|].
      unfold listed in El. unfold abstract in *. unfold plain_whitelisted. simpl. fold (whitelisted rl ip).
      destruct (AllowEndpoint now rl ip endpoint) as [ok rl'] eqn:E. simpl in *.
      rewrite Ea, E1, E2, Hv'. destruct (whitelisted rl ip); [done|]. simpl in El. by rewrite El.
    + rewrite (AllowEndpoint_local now rl ip endpoint) in * by (done || apply Hs).
      destruct (allow_local_sharded now rl ip endpoint Hs) as (Hs' & Hv' & Ea).
      unfold listed in El. apply orb_false_iff in El as [Ew Eb].
      unfold abstract in *. unfold plain_whitelisted. simpl. fold (whitelisted rl ip). rewrite Ew, Eb.
      destruct (allow_local now rl ip endpoint) as [ok rl'] eqn:E. simpl in *.
      rewrite E1, E2, Hv', Ea.
      by destruct (request_visitor now (getEndpointConfig rl endpoint) (visitors rl !! ip)).
  - destruct (cleanup_sharded now rl Hs) as [Hs' Hv']. split_and!; [done..|]. unfold abstract. by rewrite Hv'.
  - unfold Blacklist. rewrite on_redis_local by apply Hs. split_and!; [by eapply sharded_ext|done..].
  - unfold Whitelist. rewrite on_redis_local by apply Hs. split_and!; [by eapply sharded_ext|done..].
  - unfold RemoveFromBlacklist. rewrite on_redis_local by apply Hs. split_and!; [by eapply sharded_ext|done..].
  - unfold RemoveFromWhitelist. rewrite on_redis_local by apply Hs. split_and!; [by eapply sharded_ext|done..].
  - destruct (Reset_sharded rl ip Hs) as [Hs' Hv'], (Reset_lists rl ip) as (E1 & E2 & E3).
    split_and!; [done..|]. unfold abstract. by rewrite Hv', E1, E2.
  - destruct (Unblock_sharded rl ip Hs) as [Hs' Hv'], (Unblock_lists rl ip) as (E1 & E2 & E3).
    split_and!; [done..|]. unfold abstract. by rewrite Hv', E1, E2.
Qed.

Lemma getEndpointConfig_config rl rl' : config rl = config rl' -> getEndpointConfig rl = getEndpointConfig rl'.
Proof using Type. intros E. unfold getEndpointConfig. by rewrite E. Qed.

Lemma run_cons now e tr rl : run ((now, e) :: tr) rl = run tr (snd (step now e rl)).
Proof using Type. done. Qed.

Lemma run_refines tr rl : sharded rl ->
  sharded (run tr rl) /\ config (run tr rl) = config rl
  /\ plain_answers (getEndpointConfig rl) tr (abstract rl) = (answers tr rl, abstract (run tr rl)).
Proof using Type.
  revert rl. induction tr as [|[now e] tr IH]; intros rl Hs; [done|].
  rewrite run_cons. cbn [plain_answers answers]. destruct (step_refines now e rl Hs) as (Hs' & Hc & E). rewrite E.
  destruct (step now e rl) as [a rl']. simpl in *. destruct (IH _ Hs') as (Hs'' & Hc' & E').
  rewrite (getEndpointConfig_config rl' rl Hc) in E'. rewrite E'. split_and!; [done|congruence|done].
Qed.

Lemma NewRateLimiter_sharded cfg : sharded (NewRateLimiter cfg : RateLimiter R).
Proof using Type.
  split; [done| |intros k sh ip Hk [v Hv]|by vm_compute].
  - apply length_replicate.
  - apply lookup_replicate in Hk as [-> _]. by rewrite lookup_empty in Hv.
Qed.

Lemma NewRateLimiter_visitors cfg : visitors (NewRateLimiter cfg : RateLimiter R) = ∅.
Proof using Type. by vm_compute. Qed.

(** ** One visitor *)

Lemma visitors_step now e rl ip : sharded rl ->
  visitors (snd (step now e rl)) !! ip = visitor_step rl now e ip (visitors rl !! ip).
Proof using Type.
  intros Hs. destruct (step_refines now e rl Hs) as (_ & _ & E).
  apply (f_equal (fun r => p_visitors (snd r) !! ip)) in E. simpl in E. rewrite <- E. clear E. unfold abstract. destruct e as [ip' endpoint| |ip'|ip'|ip'|ip'|ip'|ip']; simpl; try done.
  - unfold plain_whitelisted, listed. simpl. fold (whitelisted rl ip').
    destruct (decide (ip' = ip)) as [->|Hne].
    + rewrite (bool_decide_true (ip = ip)) by done. destruct (whitelisted rl ip); [done|].
      destruct (bool_decide (ip ∈ blacklist rl)); [done|]. simpl.
      destruct (request_visitor _ _ _). simpl. by rewrite lookup_insert_eq.
    + rewrite (bool_decide_false (ip' = ip)) by done. simpl. destruct (whitelisted rl ip'); [done|].
      destruct (bool_decide (ip' ∈ blacklist rl)); [done|]. simpl.
      destruct (request_visitor _ _ _). simpl. by rewrite lookup_insert_ne.
  - by rewrite lookup_omap.
  - destruct (decide (ip' = [])) as [->|Hn]; [by rewrite bool_decide_true|].
    rewrite bool_decide_false by done. simpl.
    case_bool_decide; [subst; by rewrite lookup_delete_eq|by rewrite lookup_delete_ne].
  - case_bool_decide; [subst; by rewrite lookup_alter_eq|by rewrite lookup_alter_ne].
Qed.

Lemma request_answer now rl ip endpoint : sharded rl -> listed rl ip = false ->
  fst (AllowEndpoint now rl ip endpoint)
  = fst (request_visitor now (getEndpointConfig rl endpoint) (visitors rl !! ip)).
Proof using Type.
  intros Hs El. rewrite AllowEndpoint_local by (done || apply Hs). by apply allow_local_sharded.
Qed.
End facts.

#[export] Hint Resolve NewRateLimiter_sharded : ratelimit.
