(* ===== verification/RateLimitProps.v ===== *)
(** * Properties of the rate limiter

    The sharded limiter behaves as one with a single map; no address is
    admitted more often than the limit in any window of a minute, a block
    holds for its duration, and a client that waits is served again. *)

From stdpp Require Import options sorting.
From Stdlib Require Import Strings.Byte.
From S2P Require Import Prelude GoLib RateLimit RateLimitFacts.

Section claims.
Context {R : Type} `{RedisBackend R} `{GoRange}.
Implicit Type rl : RateLimiter R.

(** C9: sharding is transparent: for every sequence of operations a new
    limiter gives the answers of a limiter that keeps its visitors in one map,
    ends with the visitors, the whitelist and the blacklist of that one, and
    its visitor counter is the number of addresses it knows. *)
Theorem sharding_is_transparent (cfg : Config) (tr : trace) :
  let rl := NewRateLimiter cfg : RateLimiter R in
  plain_answers (getEndpointConfig rl) tr (mkPlain ∅ (list_to_set (cfg_Whitelist cfg)) ∅)
    = (answers tr rl, abstract (run tr rl))
  /\ totalVisitors (run tr rl) = Z.of_nat (size (visitors (run tr rl))).
Proof using Type.
  intros rl. destruct (run_refines tr rl (NewRateLimiter_sharded cfg)) as (Hs & _ & E).
  split; [|by apply visitors_count]. rewrite <- E.
  unfold abstract. subst rl. by rewrite NewRateLimiter_visitors.
Qed.

(** C31: the limits of an endpoint are those of the longest configured prefix of
    its path, in whatever order the map of limits is visited; a path without
    a configured prefix has the global limits. *)
Theorem longest_prefix_wins rl (endpoint : gostring) :
  let limits := EndpointLimits (config rl) in
  (exists p, limits !! p = Some (getEndpointConfig rl endpoint) /\ Strings.HasPrefix endpoint p = true
    /\ forall q, is_Some (limits !! q) -> Strings.HasPrefix endpoint q = true -> (length q <= length p)%nat)
  \/ (forall q, is_Some (limits !! q) -> Strings.HasPrefix endpoint q = false)
     /\ getEndpointConfig rl endpoint = Global (config rl).
Proof using Type.
  intros limits. unfold getEndpointConfig. fold limits.
  assert (forall q, is_Some (limits !! q) <-> q ∈ sorted_prefixes limits) as Hin.
  { intros q. unfold sorted_prefixes. rewrite merge_sort_Permutation, range_map_perm, list_elem_of_fmap.
    split.
    - intros [c Hc]. exists (q, c). by rewrite elem_of_map_to_list.
    - intros ([q' c] & -> & Hc%elem_of_map_to_list). eauto. }
  assert (StronglySorted longer (sorted_prefixes limits)) as Hsorted.
  { apply StronglySorted_merge_sort. - intros x y z. unfold longer. lia. - intros x y. unfold longer. lia. }
  setoid_rewrite Hin.
  assert (forall p, p ∈ sorted_prefixes limits -> limits !! p = Some (default (Global (config rl)) (limits !! p))) as Hd.
  { intros p [c ->]%Hin. done. }
  revert Hsorted Hd. clear Hin. induction (sorted_prefixes limits) as [|p l IH]; intros Hsorted Hd.
  { right. split; [set_solver|done]. }
  apply StronglySorted_inv in Hsorted as [Hsorted Hp]. rewrite Forall_forall in Hp. simpl.
  destruct (Strings.HasPrefix endpoint p) eqn:E.
  - left. exists p. split_and!; [apply Hd; set_solver|done|].
    intros q [->|Hq]%elem_of_cons _; [done|]. by apply Hp, list_elem_of_In.
  - destruct IH as [(p' & E1 & E2 & Hmax)|[Hnone E1]]; [done|set_solver| |].
    + left. exists p'. split_and!; [done..|]. intros q [->|Hq]%elem_of_cons HP; [congruence|eauto].
    + right. split; [|done]. intros q [->|Hq]%elem_of_cons; eauto.
Qed.

(** ** The sliding window *)

(** The times at which [ip] was admitted because its window had room. *)
Fixpoint admissions (ip : gostring) (tr : trace) rl : list Z :=
  match tr with
  | [] => []
  | (now, e) :: tr =>
    let '(a, rl') := step now e rl in
    (if match e with Request ip' _ => bool_decide (ip' = ip) | _ => false end && negb (listed rl ip)
        && bool_decide (a = Some true) then [now] else []) ++ admissions ip tr rl'
  end.

(** How many of [l] are in the minute that ends at [t]. *)
Definition in_minute (t : Z) (l : list Z) : Z := zlen (List.filter (fun x => in_window t x && (x <=? t)) l).

Definition stamps (v : option visitor) : list Z := default [] (timestamps <$> v).

(** Within the window, the visitor remembers all of [h]. *)
Definition tracks (now : Z) (h : list Z) (v : option visitor) : Prop :=
  List.filter (in_window now) (stamps v) = List.filter (in_window now) h.

Lemma filter_window_later now now' l : now <= now' ->
  List.filter (in_window now') (List.filter (in_window now) l) = List.filter (in_window now') l.
Proof using Type.
  intros Hle. induction l as [|x l IH]; [done|]. simpl. unfold in_window in *.
  destruct (Z.ltb_spec (now - minute) x); simpl; [by rewrite IH|].
  destruct (Z.ltb_spec (now' - minute) x); [lia|done].
Qed.

Lemma tracks_later now now' h v : now <= now' -> tracks now h v -> tracks now' h v.
Proof using Type.
  unfold tracks. intros Hle E.
  by rewrite <- (filter_window_later now now' (stamps v)), E, filter_window_later.
Qed.

Lemma tracks_cleanup now h v : tracks now h v -> tracks now h (v ≫= cleanup_visitor now).
Proof using Type.
  unfold tracks. intros E. destruct v as [v|]; [|done]. simpl in *. rewrite <- E.
  unfold cleanup_visitor. set (v' := if blocked v && _ then _ else v).
  assert (timestamps v' = timestamps v) as E' by (subst v'; by destruct (blocked v && _)).
  simpl. rewrite E'. case_bool_decide as En; simpl.
  - destruct (blocked v'); unfold stamps; simpl; [by rewrite filter_window_later by lia|]. by rewrite En.
  - unfold stamps. simpl. by rewrite filter_window_later by lia.
Qed.

Lemma in_window_now now : in_window now now = true.
Proof using Type. unfold in_window, minute, second. lia. Qed.

(** A request keeps track, and is admitted only if the window has room. *)
Lemma request_tracks now cfg h v : tracks now h v ->
  let r := request_visitor now cfg v in
  tracks now (h ++ if fst r then [now] else []) (Some (snd r))
  /\ (fst r = true -> zlen (List.filter (in_window now) h) < Z.max 1 (RequestsPerMinute cfg)).
Proof using Type.
  unfold tracks, stamps. intros E. destruct v as [v|]; simpl in *.
  - unfold visit. destruct (blocked v && _); simpl; [by rewrite app_nil_r|].
    destruct (Z.leb_spec (RequestsPerMinute cfg) (zlen (List.filter (in_window now) (timestamps v)))); simpl.
    + by rewrite app_nil_r, filter_window_later by lia.
    + rewrite !List.filter_app, filter_window_later by lia. rewrite E in *. split; [done|lia].
  - rewrite List.filter_app, <- E. simpl. rewrite in_window_now. split; [done|]. unfold zlen. simpl. lia.
Qed.

Lemma in_minute_app t l k : in_minute t (l ++ k) = in_minute t l + in_minute t k.
Proof using Type. unfold in_minute. by rewrite List.filter_app, zlen_app. Qed.

Lemma in_minute_le now t h : now <= t -> in_minute t h <= zlen (List.filter (in_window now) h).
Proof using Type.
  intros Hle. unfold in_minute, zlen. induction h as [|x h IH]; [done|]. simpl. unfold in_window in *.
  destruct (Z.ltb_spec (now - minute) x), (Z.ltb_spec (t - minute) x), (Z.leb_spec x t); simpl; lia.
Qed.

(** An admission with room in the window keeps the bound. *)
Lemma in_minute_admit now h L t : zlen (List.filter (in_window now) h) < L ->
  (forall t, in_minute t h <= L) -> in_minute t (h ++ [now]) <= L.
Proof using Type.
  intros Hroom Hb. rewrite in_minute_app. destruct (Z.le_gt_cases now t) as [Hle|Hgt].
  - pose proof (in_minute_le now t h Hle). unfold in_minute at 2, zlen. simpl.
    destruct (in_window t now && _); simpl; lia.
  - specialize (Hb t). unfold in_minute at 2. simpl. rewrite (proj2 (Z.leb_gt now t)) by lia.
    rewrite andb_false_r. unfold zlen. simpl. lia.
Qed.

Lemma admissions_bounded L ip tr rl t0 h :
  sharded rl -> timed t0 tr -> never (forgives ip) tr -> 1 <= L ->
  (forall endpoint, RequestsPerMinute (getEndpointConfig rl endpoint) <= L) ->
  tracks t0 h (visitors rl !! ip) -> (forall t, in_minute t h <= L) ->
  forall t, in_minute t (h ++ admissions ip tr rl) <= L.
Proof using Type.
  intros Hs Ht Hn HL. revert rl t0 h Hs Ht. induction tr as [|[now e] tr IH]; intros rl t0 h Hs Ht Hlim Htr Hb t.
  { cbn [admissions]. rewrite app_nil_r. apply Hb. }
  destruct Ht as [Hle Ht]. apply Forall_cons_1 in Hn as [He Hn]. simpl in He.
  cbn [admissions]. destruct (step_refines now e rl Hs) as (Hs' & Hc & _).
  pose proof (visitors_step now e rl ip Hs) as Hv. apply (tracks_later t0 now) in Htr; [|done].
  assert (forall endpoint, RequestsPerMinute (getEndpointConfig (snd (step now e rl)) endpoint) <= L) as Hlim'.
  { by rewrite (getEndpointConfig_config _ rl Hc). }
  specialize (IH Hn (snd (step now e rl)) now).
  destruct (step now e rl) as [a rl'] eqn:E. simpl in *. rewrite (assoc_L app).
  apply IH; [done..| |]; clear IH; rewrite ?Hv; destruct e as [ip' endpoint| |ip'|ip'|ip'|ip'|ip'|ip'];
    simpl in *; rewrite ?app_nil_r; try done; try (by rewrite He); try by apply tracks_cleanup.
  all: case_bool_decide as Hip; simpl; rewrite ?app_nil_r; [subst ip'|done].
  all: destruct (listed rl ip) eqn:El; simpl; rewrite ?app_nil_r; [done|].
  all: pose proof (request_answer now rl ip endpoint Hs El) as Ea.
  all: destruct (request_tracks now (getEndpointConfig rl endpoint) h _ Htr) as [Hk Hroom].
  all: destruct (AllowEndpoint now rl ip endpoint) as [ok rl1]; simpl in *; simplify_eq.
  all: destruct (fst (request_visitor now _ _)); simpl in *; rewrite ?app_nil_r in *; try done.
  intros t'. apply in_minute_admit; [|done]. specialize (Hroom eq_refl). specialize (Hlim endpoint). lia.
Qed.


(** ** Blocks *)

(** The administrator whitelists [ip]. *)
Definition whitelists (ip : gostring) (e : event) : bool :=
  match e with
  | Whitelisting ip' => bool_decide (ip' = ip) || bool_decide (ip' = normalizeIP ip)
  | _ => false
  end.

(** Every request of [ip] in the trace is refused. *)
Definition refuses (ip : gostring) (tr : trace) rl : Prop :=
  Forall2 (fun te a => forall endpoint, snd te = Request ip endpoint -> a = Some false) tr (answers tr rl).

Definition blocked_until (u : Z) (v : option visitor) : Prop :=
  exists v', v = Some v' /\ blocked v' = true /\ blockUntil v' = u.

(** Nothing lifts a block before its time but the administrator. *)
Lemma block_persists u now e rl ip : sharded rl -> forgives ip e = false -> now <= u * second ->
  blocked_until u (visitors rl !! ip) -> blocked_until u (visitors (snd (step now e rl)) !! ip).
Proof using Type.
  intros Hs Hf Hle Hb. pose proof Hb as (v & Ev & Eb & Eu). rewrite visitors_step by done.
  assert ((blockUntil v * second <? now) = false) as Hnow by lia.
  destruct e as [ip' endpoint| |ip'|ip'|ip'|ip'|ip'|ip']; simpl in *; rewrite ?Hf, ?Ev in *; try done.
  - destruct (_ && _); [|done]. unfold request_visitor, visit. rewrite Eb, Hnow. by exists v.
  - simpl. unfold cleanup_visitor. rewrite Eb, Hnow. simpl. rewrite Eb, andb_false_r. by eexists.
Qed.

Lemma blocked_request_refused u now rl ip endpoint : sharded rl -> whitelisted rl ip = false ->
  now <= u * second -> blocked_until u (visitors rl !! ip) -> fst (AllowEndpoint now rl ip endpoint) = false.
Proof using Type.
  intros Hs Hw Hle (v & Ev & Eb & Eu). destruct (listed rl ip) eqn:El.
  - destruct (AllowEndpoint_listed now rl ip endpoint El) as [-> _]. done.
  - rewrite request_answer by done. rewrite Ev. unfold request_visitor, visit.
    assert ((blockUntil v * second <? now) = false) as -> by lia. by rewrite Eb.
Qed.

Lemma not_whitelisted_persists now e rl ip : whitelists ip e = false -> whitelisted rl ip = false ->
  whitelisted (snd (step now e rl)) ip = false.
Proof using Type.
  unfold whitelisted. rewrite !orb_false_iff, !bool_decide_eq_false. intros Hw [H1' H2'].
  destruct e as [ip' endpoint| |ip'|ip'|ip'|ip'|ip'|ip']; cbn [step snd]; try done.
  - pose proof (AllowEndpoint_lists now rl ip' endpoint) as (E & _).
    destruct (AllowEndpoint now rl ip' endpoint). simpl in *. by rewrite E.
  - change (whitelist (Blacklist rl ip')) with (whitelist rl ∖ {[ip']}). set_solver.
  - change (whitelist (Whitelist rl ip')) with ({[ip']} ∪ whitelist rl).
    simpl in Hw. rewrite orb_false_iff, !bool_decide_eq_false in Hw. set_solver.
  - change (whitelist (RemoveFromWhitelist rl ip')) with (whitelist rl ∖ {[ip']}). set_solver.
  - by destruct (Reset_lists rl ip') as (-> & _).
  - by destruct (Unblock_lists rl ip') as (-> & _).
Qed.

Lemma block_refuses u ip tr rl t0 : sharded rl -> timed t0 tr -> Forall (fun te => fst te <= u * second) tr ->
  never (forgives ip) tr -> never (whitelists ip) tr -> whitelisted rl ip = false ->
  blocked_until u (visitors rl !! ip) -> refuses ip tr rl.
Proof using Type.
  unfold refuses. intros Hs Ht Hu Hf Hw. revert rl t0 Hs Ht.
  induction tr as [|[now e] tr IH]; intros rl t0 Hs Ht Hl Hb; [constructor|].
  destruct Ht as [Hle Ht]. apply Forall_cons_1 in Hu as [Hu1 Hu], Hf as [Hf1 Hf], Hw as [Hw1 Hw]. simpl in *.
  pose proof (not_whitelisted_persists now e rl ip Hw1 Hl) as Hl'.
  pose proof (block_persists u now e rl ip Hs Hf1 Hu1 Hb) as Hb'.
  destruct (step_refines now e rl Hs) as (Hs' & _ & _).
  destruct (step now e rl) as [a rl'] eqn:E. simpl in *. constructor; [|by eapply IH].
  simpl. intros endpoint ->. simpl in E.
  pose proof (blocked_request_refused u now rl ip endpoint Hs Hl Hu1 Hb) as Ea.
  destruct (AllowEndpoint now rl ip endpoint) as [ok rl1]. simpl in *. congruence.
Qed.

(** C29: a client that exceeds the limit is blocked for the duration configured
    for the endpoint, counted in whole seconds: every later request of the
    client, to any endpoint, is refused until less than a second of the block
    is left, whatever is interleaved, unless the administrator whitelists or
    forgives the client. *)
Theorem exceeding_the_limit_blocks rl (tr : trace) (ip endpoint : gostring) (now : Z) (v : visitor) :
  let D := BlockDuration (getEndpointConfig rl endpoint) in
  sharded rl -> listed rl ip = false -> visitors rl !! ip = Some v ->
  blocked v && (now <=? blockUntil v * second) = false ->
  fst (AllowEndpoint now rl ip endpoint) = false ->
  timed now tr -> Forall (fun te => fst te <= now + D - second) tr ->
  never (forgives ip) tr -> never (whitelists ip) tr ->
  refuses ip tr (snd (AllowEndpoint now rl ip endpoint)).
Proof using Type.
  intros D Hs El Ev Hfree Hno Ht Hu Hf Hw.
  destruct (step_refines now (Request ip endpoint) rl Hs) as (Hs' & _ & _).
  pose proof (visitors_step now (Request ip endpoint) rl ip Hs) as Hv.
  assert (whitelisted rl ip = false) as Hl by (unfold listed in El; by apply orb_false_iff in El as [? _]).
  pose proof (not_whitelisted_persists now (Request ip endpoint) rl ip eq_refl Hl) as Hl'.
  rewrite request_answer in Hno by done. simpl in Hv, Hs', Hl'. rewrite bool_decide_true, El in Hv by done.
  destruct (AllowEndpoint now rl ip endpoint) as [ok rl']. simpl in *.
  apply (block_refuses ((now + D) / second) ip tr rl' now); try done.
  - revert Hu. apply Forall_impl. intros te Hle.
    pose proof (Z.mul_div_le (now + D) second). pose proof (Z.mod_pos_bound (now + D) second).
    pose proof (Z.div_mod (now + D) second). unfold second in *. lia.
  - rewrite Ev in *. simpl in *. unfold visit in *. rewrite <- Z.leb_antisym in *. rewrite Hfree in *.
    destruct (_ <=? zlen _); [|done]. rewrite Hv. by eexists.
Qed.

(** ** Waiting *)

(** What [v] remembers of the past ends at [t], and its block, if any, before [u]. *)
Definition settled (t u : Z) (v : option visitor) : Prop :=
  match v with
  | None => True
  | Some v => Forall (fun x => x <= t) (timestamps v) /\ (blocked v = true -> blockUntil v * second <= u)
  end.

Lemma settled_filter now t l : Forall (fun x => x <= t) l -> Forall (fun x => x <= t) (List.filter (in_window now) l).
Proof using Type.
  rewrite !Forall_forall. intros Hl x [Hx _]%filter_In. by apply Hl.
Qed.

Lemma request_settled now cfg t u v : now <= t -> now + BlockDuration cfg <= u -> settled t u v ->
  settled t u (Some (snd (request_visitor now cfg v))).
Proof using Type.
  intros Ht Hu Hv. destruct v as [v|]; simpl in *; [|split; [by repeat constructor|done]].
  destruct Hv as [Hts Hb]. unfold visit. destruct (blocked v && _) eqn:E; [done|].
  pose proof (settled_filter now t _ Hts) as Hts'. destruct (_ <=? zlen _); simpl; split; try done.
  - intros _. pose proof (Z.mul_div_le (now + BlockDuration cfg) second). unfold second in *. lia.
  - apply Forall_app. split; [done|]. by repeat constructor.
Qed.

Lemma cleanup_settled now t u v : settled t u v -> settled t u (v ≫= cleanup_visitor now).
Proof using Type.
  destruct v as [v|]; [|done]. simpl. intros [Hts Hb]. unfold cleanup_visitor.
  pose proof (settled_filter now t _ Hts) as Hts'.
  destruct (blocked v && _); simpl; destruct (bool_decide _ && _); simpl; by try split.
Qed.

Lemma run_settled B t ip tr rl : sharded rl ->
  (forall endpoint, BlockDuration (getEndpointConfig rl endpoint) <= B) ->
  Forall (fun te => forall endpoint, snd te = Request ip endpoint -> fst te <= t) tr ->
  settled t (t + B) (visitors rl !! ip) -> settled t (t + B) (visitors (run tr rl) !! ip).
Proof using Type.
  revert rl. induction tr as [|[now e] tr IH]; intros rl Hs HB Ht Hv; [done|].
  apply Forall_cons_1 in Ht as [Ht1 Ht]. rewrite run_cons.
  destruct (step_refines now e rl Hs) as (Hs' & Hc & _). apply IH; [done| |done|].
  - by rewrite (getEndpointConfig_config _ rl Hc).
  - rewrite visitors_step by done. clear IH. destruct e as [ip' endpoint| |ip'|ip'|ip'|ip'|ip'|ip']; simpl in *; try done.
    + case_bool_decide as Hip; [|done]. destruct (listed rl ip); [done|]. subst ip'. simpl.
      specialize (Ht1 endpoint eq_refl). specialize (HB endpoint). apply request_settled; [done|lia|done].
    + by apply cleanup_settled.
    + by destruct (_ || _).
    + destruct (bool_decide _); [|done]. destruct (visitors rl !! ip); [|done]. simpl. by split.
Qed.

(** C30: a client that waits is served again: after any sequence of operations,
    a client that sent its last request at [t] or before is admitted after
    the longest block duration and a minute have passed, to every endpoint
    with a positive limit, unless it is blacklisted. *)
Theorem waiting_client_is_served (cfg : Config) (tr : trace) (ip endpoint : gostring) (B t now : Z) :
  let rl := run tr (NewRateLimiter cfg : RateLimiter R) in
  (forall endpoint, BlockDuration (getEndpointConfig rl endpoint) <= B) ->
  1 <= RequestsPerMinute (getEndpointConfig rl endpoint) ->
  Forall (fun te => forall endpoint, snd te = Request ip endpoint -> fst te <= t) tr ->
  t + B < now -> t + minute <= now -> ip ∉ blacklist rl ->
  fst (AllowEndpoint now rl ip endpoint) = true.
Proof using Type.
  intros rl HB Hlim Ht Hnow Hmin Hbl.
  destruct (run_refines tr (NewRateLimiter cfg) (NewRateLimiter_sharded cfg)) as (Hs & Hc & _). fold rl in Hs, Hc.
  destruct (listed rl ip) eqn:El.
  { destruct (AllowEndpoint_listed now rl ip endpoint El) as [-> _]. unfold listed in El.
    rewrite (bool_decide_false (ip ∈ blacklist rl)), orb_false_r in El by done. done. }
  rewrite request_answer by done.
  assert (settled t (t + B) (visitors rl !! ip)) as Hv.
  { apply run_settled; [apply NewRateLimiter_sharded| |done|].
    - by rewrite (getEndpointConfig_config _ rl).
    - by rewrite NewRateLimiter_visitors. }
  destruct (visitors rl !! ip) as [v|]; [|done]. destruct Hv as [Hts Hb]. simpl. unfold visit.
  assert (blocked v && negb (blockUntil v * second <? now) = false) as ->.
  { destruct (blocked v); [|done]. specialize (Hb eq_refl). simpl. lia. }
  assert (List.filter (in_window now) (timestamps v) = []) as E.
  { clear -Hts Hmin. induction Hts as [|x l Hx Hl IH]; [done|]. simpl. unfold in_window at 1.
    rewrite (proj2 (Z.ltb_ge (now - minute) x)) by lia. done. }
  simpl. rewrite E. unfold zlen. simpl. by rewrite (proj2 (Z.leb_gt _ 0)) by lia.
Qed.
End claims.

Module ratelimit_witnesses.

#[local] Instance no_redis : RedisBackend unit := {
  redis_IsBlacklisted _ _ := false;
  redis_AllowEndpoint r _ _ _ := (true, r);
  redis_Blacklist r _ := r;
  redis_Whitelist r _ := r;
  redis_RemoveFromBlacklist r _ := r;
  redis_RemoveFromWhitelist r _ := r;
  redis_Reset r _ := r;
  redis_Unblock r _ := r;
}.

#[local] Instance key_order : GoRange.
Proof. by refine {| range_map V m := map_to_list m |}. Defined.

(** Two requests a minute, one to the login page. *)
Definition demo_config : Config :=
  mkConfig (mkEndpointConfig 2 10 minute) [localHostIP]
    (<[lit "/login" := mkEndpointConfig 1 2 (2 * minute)]> ∅) (5 * minute).

Abbreviation demo := (NewRateLimiter demo_config : RateLimiter unit).
Abbreviation client := (lit "10.0.0.7").

Definition demo_trace : trace :=
  [(0, Request client (lit "/")); (second, Request (lit "10.0.0.8") (lit "/"));
   (2 * second, Request client (lit "/a")); (3 * second, Request client (lit "/b")); (4 * second, Cleaning);
   (50 * second, Request client (lit "/")); (64 * second, Request client (lit "/"))].

Lemma demo_limits endpoint : RequestsPerMinute (getEndpointConfig demo endpoint) <= 2.
Proof.
  unfold getEndpointConfig. change (EndpointLimits (config demo)) with (EndpointLimits demo_config).
  destruct (List.find _ _) as [p|]; [|done].
  destruct (EndpointLimits demo_config !! p) as [c|] eqn:E; [|done]. unfold demo_config in E. simpl in E.
  apply lookup_insert_Some in E as [[_ <-]|[_ E]]; done.
Qed.

Lemma demo_durations endpoint : BlockDuration (getEndpointConfig demo endpoint) <= 2 * minute.
Proof.
  unfold getEndpointConfig. change (EndpointLimits (config demo)) with (EndpointLimits demo_config).
  destruct (List.find _ _) as [p|]; [|done].
  destruct (EndpointLimits demo_config !! p) as [c|] eqn:E; [|done]. unfold demo_config in E. simpl in E.
  apply lookup_insert_Some in E as [[_ <-]|[_ E]]; done.
Qed.

(** The third request within the minute is refused and blocks the client. *)
Example demo_answers :
  answers demo_trace demo = [Some true; Some true; Some true; Some false; None; Some false; Some true].
Proof. by vm_compute. Qed.


Definition after_two : RateLimiter unit := run (take 3 demo_trace) demo.
Definition later : trace :=
  [(4 * second, Request client (lit "/login")); (50 * second, Cleaning); (60 * second, Request client (lit "/"))].

Lemma after_two_sharded : sharded after_two.
Proof. apply run_refines, NewRateLimiter_sharded. Qed.

Lemma exceeding_the_limit_blocks_witness :
  fst (AllowEndpoint (3 * second) after_two client (lit "/b")) = false
  /\ refuses client later (snd (AllowEndpoint (3 * second) after_two client (lit "/b"))).
Proof.
  split; [by vm_compute|].
  apply (exceeding_the_limit_blocks after_two later client (lit "/b") (3 * second)
           (mkVisitor [0; 2 * second] false 0)).
  - apply after_two_sharded.
  - by vm_compute.
  - by vm_compute.
  - by vm_compute.
  - by vm_compute.
  - by vm_compute.
  - repeat (constructor; [by vm_compute|]). constructor.
  - by repeat constructor.
  - by repeat constructor.
Defined.

Lemma waiting_client_is_served_witness :
  fst (AllowEndpoint (3 * second + 2 * minute + 1) (run (take 5 demo_trace) demo) client (lit "/login")) = true.
Proof.
  apply (waiting_client_is_served demo_config (take 5 demo_trace) client (lit "/login") (2 * minute) (3 * second)).
  - intros endpoint. rewrite (getEndpointConfig_config _ demo) by done. apply demo_durations.
  - by vm_compute.
  - repeat (constructor; [intros endpoint [=]; by vm_compute|]). constructor.
  - by vm_compute.
  - by vm_compute.
  - by vm_compute.
Defined.

(** Blacklisting a loopback address other than 127.0.0.1 has no effect: the
    whitelist is consulted first, with the normalised address. *)
Example blacklisted_loopback_is_admitted :
  fst (Allow 0 (Blacklist (NewRateLimiter DefaultConfig : RateLimiter unit) (lit "::1")) (lit "::1")) = true.
Proof. by vm_compute. Qed.

(** A limit of zero still admits the first request. *)
Example zero_limit_admits_first :
  fst (Allow 0 (NewRateLimiter (mkConfig (mkEndpointConfig 0 0 minute) [] ∅ minute) : RateLimiter unit) client) = true.
Proof. by vm_compute. Qed.
End ratelimit_witnesses.
