(* ===== verification/IpAllow.v ===== *)
(** * The allow list of the administration (internal/app/ipallow/ipallow.go)

    Entries are objects that the map of the manager, its list of ranges and
    its callers share, so they live in a heap.  [AddIP] and [AddCIDR] insert
    under the lock, save without it and take the entry back under the lock
    when saving fails; the three steps are definitions of their own, and the
    operations compose them. *)

From stdpp Require Import options.
From Stdlib Require Import Strings.Byte.
From S2P Require Import Prelude GoLib GoNet.

Module ipallow.

Record AllowlistEntry := mkEntry {
  ID : gostring;
  IP : gostring;
  CIDR : option Net.IPNet;
  Description : gostring;
  CreatedAt : Z;
  CreatedBy : gostring;
  LastHit : option Z;
  HitCount : Z;
  Enabled : bool;
}.

#[global] Instance AllowlistEntry_form : RecordForm AllowlistEntry :=
  fun e => mkEntry (ID e) (IP e) (CIDR e) (Description e) (CreatedAt e) (CreatedBy e) (LastHit e) (HitCount e) (Enabled e).

Record Config := mkConfig {
  cfg_Enabled : bool;
  EnforceForAPI : bool;
  EnforceForDashboard : bool;
  AllowLocalhost : bool;
  BypassHeader : gostring;
  BypassSecret : gostring;
}.

#[global] Instance Config_form : RecordForm Config :=
  fun c => mkConfig (cfg_Enabled c) (EnforceForAPI c) (EnforceForDashboard c) (AllowLocalhost c) (BypassHeader c) (BypassSecret c).

Definition DefaultConfig : Config := mkConfig false true true true [] [].

(** The interface [AllowlistStore]. *)
Class AllowlistStore (St Err : Type) := {
  SaveEntry : St -> AllowlistEntry -> option Err * St;
  GetAllEntries : St -> list AllowlistEntry + Err;
  DeleteEntry : St -> gostring -> option Err * St;
  UpdateHit : St -> gostring -> Z -> St;
}.

Inductive AllowErr (Err : Type) :=
| ErrInvalidIP
| ErrInvalidCIDR
| ErrAlreadyExists
| ErrNotFound
| ErrStore (e : Err).
Arguments ErrInvalidIP {Err}.
Arguments ErrInvalidCIDR {Err}.
Arguments ErrAlreadyExists {Err}.
Arguments ErrNotFound {Err}.
Arguments ErrStore {Err}.

(** A pointer to an entry. *)
Abbreviation ptr := nat.

Record Manager (St : Type) := mkManager {
  heap : list AllowlistEntry;
  entries : gmap gostring ptr;
  cidrs : list ptr;
  config : Config;
  store : option St;
}.
Arguments mkManager {St}.
Arguments heap {St}.
Arguments entries {St}.
Arguments cidrs {St}.
Arguments config {St}.
Arguments store {St}.

#[global] Instance Manager_form {St} : RecordForm (Manager St) :=
  fun m => mkManager (heap m) (entries m) (cidrs m) (config m) (store m).

Section manager.
Context {St Err : Type} `{AllowlistStore St Err} `{GoRange}.
Implicit Type m : Manager St.

Definition NewManager (cfg : option Config) (st : option St) : Manager St :=
  mkManager [] ∅ [] (default DefaultConfig cfg) st.

Definition alloc (e : AllowlistEntry) m : ptr * Manager St :=
  (length (heap m), m <| heap := heap m ++ [e] |>).

(** ** Loading *)

Definition load_entry m (e : AllowlistEntry) : Manager St :=
  let '(p, m) := alloc e m in
  let m := m <| entries := <[IP e := p]> (entries m) |> in
  if CIDR e then m <| cidrs := cidrs m ++ [p] |> else m.

Definition LoadEntries m : option (AllowErr Err) * Manager St :=
  match store m with
  | None => (None, m)
  | Some st =>
    match GetAllEntries st with
    | inr e => (Some (ErrStore e), m)
    | inl l => (None, foldl load_entry m l)
    end
  end.

(** ** Adding *)

(** The part under the lock: the new entry goes into the map, and a range
    also at the end of the list. *)
Definition insert_entry (e : AllowlistEntry) m : option (ptr * Manager St) :=
  match entries m !! IP e with
  | Some _ => None
  | None => Some (length (heap m), load_entry m e)
  end.

(** What [AddIP] takes back. *)
Definition rollback_ip (key : gostring) m : Manager St := m <| entries := delete key (entries m) |>.

(** What [AddCIDR] takes back: the key and the last range of the list. *)
Definition rollback_cidr (key : gostring) m : Manager St :=
  (rollback_ip key m) <| cidrs := removelast (cidrs m) |>.

Definition save_entry (e : AllowlistEntry) m : option Err * Manager St :=
  match store m with
  | None => (None, m)
  | Some st => let '(err, st) := SaveEntry st e in (err, m <| store := Some st |>)
  end.

(** Inserting, saving, and taking back when saving fails. *)
Definition add_entry (rollback : gostring -> Manager St -> Manager St) (e : AllowlistEntry) m
  : (ptr + AllowErr Err) * Manager St :=
  match insert_entry e m with
  | None => (inr ErrAlreadyExists, m)
  | Some (p, m) =>
    match save_entry e m with
    | (None, m) => (inl p, m)
    | (Some err, m) => (inr (ErrStore err), rollback (IP e) m)
    end
  end.

Definition AddIP (now : Z) (id ip description createdBy : gostring) m : (ptr + AllowErr Err) * Manager St :=
  match Net.ParseIP ip with
  | None => (inr ErrInvalidIP, m)
  | Some parsedIP =>
    add_entry rollback_ip (mkEntry id (Net.IP_String parsedIP) None description now createdBy None 0 true) m
  end.

Definition AddCIDR (now : Z) (id cidr description createdBy : gostring) m : (ptr + AllowErr Err) * Manager St :=
  match Net.ParseCIDR cidr with
  | None => (inr ErrInvalidCIDR, m)
  | Some ipNet =>
    add_entry rollback_cidr
      (mkEntry id (Net.IPNet_String ipNet) (Some ipNet) description now createdBy None 0 true) m
  end.

(** ** Removing and switching *)

Definition entry_at m (p : ptr) : AllowlistEntry := nth p (heap m) (mkEntry [] [] None [] 0 [] None 0 false).

(** The loop over the map that looks for an identifier. *)
Definition find_entry m (id : gostring) : option ptr :=
  List.find (fun p => bool_decide (ID (entry_at m p) = id)) ((range_map (entries m)).*2).

Definition RemoveEntry (id : gostring) m : option (AllowErr Err) * Manager St :=
  match find_entry m id with
  | None => (Some ErrNotFound, m)
  | Some found =>
    let e := entry_at m found in
    let m := m <| entries := delete (IP e) (entries m) |> in
    let m := if CIDR e
             then m <| cidrs := List.filter (fun p => negb (bool_decide (ID (entry_at m p) = id))) (cidrs m) |>
             else m in
    match store m with
    | None => (None, m)
    | Some st => let '(err, st) := DeleteEntry st id in (ErrStore <$> err, m <| store := Some st |>)
    end
  end.

Definition set_entry (p : ptr) (f : AllowlistEntry -> AllowlistEntry) m : Manager St :=
  m <| heap := alter f p (heap m) |>.

Definition SetEnabled (id : gostring) (enabled : bool) m : option (AllowErr Err) * Manager St :=
  match find_entry m id with
  | None => (Some ErrNotFound, m)
  | Some p =>
    let m := set_entry p (fun e => e <| Enabled := enabled |>) m in
    let '(err, m) := save_entry (entry_at m p) m in (ErrStore <$> err, m)
  end.

(** ** Checking *)

(** Whether the address is allowed, and the entry whose hit is recorded later
    by a goroutine. *)
Definition IsAllowed m (ip : gostring) : bool * option ptr :=
  if negb (cfg_Enabled (config m)) then (true, None)
  else
    match Net.ParseIP ip with
    | None => (false, None)
    | Some parsedIP =>
      if AllowLocalhost (config m) && Net.IsLoopback parsedIP then (true, None)
      else
        let in_range :=
          match List.find (fun p => Enabled (entry_at m p)
                             && match CIDR (entry_at m p) with
                                | Some n => Net.IPNet_Contains n parsedIP
                                | None => false
                                end) (cidrs m) with
          | Some p => (true, Some p)
          | None => (false, None)
          end in
        match entries m !! Net.IP_String parsedIP with
        | Some p => if Enabled (entry_at m p) then (true, Some p) else in_range
        | None => in_range
        end
    end.

Definition recordHit (now : Z) (p : ptr) m : Manager St :=
  let m := set_entry p (fun e => e <| LastHit := Some now |> <| HitCount := HitCount e + 1 |>) m in
  m <| store := (fun st => UpdateHit st (ID (entry_at m p)) now) <$> store m |>.

Definition CheckBypassHeader m (headerValue : gostring) : bool :=
  if bool_decide (BypassHeader (config m) = []) || bool_decide (BypassSecret (config m) = []) then false
  else bool_decide (headerValue = BypassSecret (config m)).

Definition ListEntries m : list ptr := (range_map (entries m)).*2.

(** ** Configuration *)

Definition SetConfig (cfg : option Config) m : Manager St :=
  match cfg with
  | None => m
  | Some cfg => m <| config := cfg |>
  end.

Definition IsEnabled m : bool := cfg_Enabled (config m).
Definition Enable m : Manager St := m <| config := (config m) <| cfg_Enabled := true |> |>.
Definition Disable m : Manager St := m <| config := (config m) <| cfg_Enabled := false |> |>.
End manager.

Definition ExtractIP (remoteAddr forwardedFor : gostring) : gostring :=
  if bool_decide (forwardedFor = []) then default remoteAddr (Net.SplitHostPort remoteAddr)
  else fst (fst (Strings.Cut forwardedFor ","%byte)).
End ipallow.
