(* ===== verification/IpAllowProps.v ===== *)
(** * Properties of the allow list

    As long as operations do not interleave, the list of ranges and the map of
    entries agree, and an address is allowed exactly when an enabled entry
    covers it.  When a save fails while another range is being added, the
    wrong range is taken back. *)

From stdpp Require Import options.
From Stdlib Require Import Strings.Byte.
From S2P Require Import Prelude GoLib GoNet NetFacts IpAllow.
Import ipallow.

Lemma find_is_Some {A} (P : A -> bool) l x : In x l -> P x = true -> is_Some (List.find P l).
Proof.
  intros Hin HP. destruct (List.find P l) eqn:E; [eauto|]. apply (find_none _ _ E) in Hin. congruence.
Qed.

Section facts.
Context {St Err : Type} `{AllowlistStore St Err} `{GoRange}.
Implicit Type m : Manager St.

(** ** Consistency *)

Record consistent m : Prop := {
  entries_valid : forall k p, entries m !! k = Some p -> (p < length (heap m))%nat /\ IP (entry_at m p) = k;
  cidrs_valid : forall p, p ∈ cidrs m <-> exists k, entries m !! k = Some p /\ is_Some (CIDR (entry_at m p));
  ids_unique : forall k k' p p', entries m !! k = Some p -> entries m !! k' = Some p' ->
    ID (entry_at m p) = ID (entry_at m p') -> p = p';
}.

(** What consistency depends on. *)
Lemma consistent_ext m m' : consistent m -> entries m' = entries m -> cidrs m' = cidrs m ->
  (length (heap m) <= length (heap m'))%nat ->
  (forall p, (p < length (heap m))%nat -> IP (entry_at m' p) = IP (entry_at m p)
     /\ CIDR (entry_at m' p) = CIDR (entry_at m p) /\ ID (entry_at m' p) = ID (entry_at m p)) ->
  consistent m'.
Proof using Type.
  intros Hc E1 E2 Hl Hsame. split; rewrite ?E1.
  - intros k p Hk. destruct (entries_valid m Hc k p Hk) as [Hp <-]. split; [lia|]. by apply Hsame.
  - intros p. rewrite E2, (cidrs_valid m Hc). split; intros (k & Hk & Hs); exists k; split; try done.
    all: destruct (entries_valid m Hc k p Hk) as [Hp _]; destruct (Hsame p Hp) as (_ & E & _); congruence.
  - intros k k' p p' Hk Hk' E. destruct (entries_valid m Hc k p Hk) as [Hp _], (entries_valid m Hc k' p' Hk') as [Hp' _].
    apply (ids_unique m Hc k k'); [done..|]. destruct (Hsame p Hp) as (_ & _ & <-), (Hsame p' Hp') as (_ & _ & <-). done.
Qed.

Lemma entry_at_app m e p : (p < length (heap m))%nat ->
  entry_at (m <| heap := heap m ++ [e] |>) p = entry_at m p.
Proof using Type. intros Hp. unfold entry_at. simpl. by rewrite app_nth1. Qed.

Lemma entry_at_new m e : entry_at (m <| heap := heap m ++ [e] |>) (length (heap m)) = e.
Proof using Type. unfold entry_at. simpl. by rewrite nth_middle. Qed.

Definition fresh_id m (id : gostring) : Prop :=
  forall k p, entries m !! k = Some p -> ID (entry_at m p) <> id.

Lemma load_entry_consistent m e : consistent m -> fresh_id m (ID e) -> entries m !! IP e = None ->
  consistent (load_entry m e).
Proof using Type.
  intros Hc Hid Hnew. set (m1 := m <| heap := heap m ++ [e] |>).
  assert (forall p k, entries m !! k = Some p -> entry_at m1 p = entry_at m p /\ p <> length (heap m)) as Hold.
  { intros p k Hk. destruct (entries_valid m Hc k p Hk) as [Hp _]. split; [by apply entry_at_app|lia]. }
  assert (entry_at m1 (length (heap m)) = e) as Enew by apply entry_at_new.
  assert (heap (load_entry m e) = heap m1 /\ entries (load_entry m e) = <[IP e := length (heap m)]> (entries m)
    /\ cidrs (load_entry m e) = cidrs m ++ (if CIDR e then [length (heap m)] else [])) as (Eh & Ee & Ec).
  { unfold load_entry, alloc. destruct (CIDR e); [done|]. simpl. by rewrite app_nil_r. }
  assert (forall p, entry_at (load_entry m e) p = entry_at m1 p) as Eat by (intros p; unfold entry_at; by rewrite Eh).
  split; rewrite ?Eh, ?Ee; try setoid_rewrite Eat.
  - intros k p [[<- <-]|[Hne Hk]]%lookup_insert_Some.
    + split; [simpl; rewrite length_app; simpl; lia|by rewrite Enew].
    + destruct (entries_valid m Hc k p Hk) as [Hp <-]. destruct (Hold p _ Hk) as [-> _].
      split; [simpl; rewrite length_app; lia|done].
  - intros p. rewrite Ec, elem_of_app, (cidrs_valid m Hc). split.
    + intros [(k & Hk & Hs)|Hin].
      * exists k. destruct (Hold p k Hk) as [-> _]. split; [|done]. rewrite lookup_insert_ne; [done|]. congruence.
      * destruct (CIDR e) eqn:Ecd; [|by apply elem_of_nil in Hin]. apply list_elem_of_singleton in Hin as ->.
        exists (IP e). rewrite lookup_insert_eq, Enew, Ecd. eauto.
    + intros (k & [[<- <-]|[Hne Hk]]%lookup_insert_Some & Hs).
      * right. rewrite Enew in Hs. destruct Hs as [n ->]. set_solver.
      * left. exists k. destruct (Hold p k Hk) as [E _]. by rewrite <- E.
  - intros k k' p p' [[<- <-]|[Hne Hk]]%lookup_insert_Some [[<- <-]|[Hne' Hk']]%lookup_insert_Some E; [done|..].
    + destruct (Hold p' _ Hk') as [E' _]. rewrite Enew, E' in E. by destruct (Hid k' p' Hk').
    + destruct (Hold p _ Hk) as [E' _]. rewrite Enew, E' in E. by destruct (Hid k p Hk).
    + destruct (Hold p _ Hk) as [E1 _], (Hold p' _ Hk') as [E2 _]. rewrite E1, E2 in E. by apply (ids_unique m Hc k k').
Qed.

(** Taking back what was just inserted leaves the manager as it was, but for
    an object that nobody refers to. *)
Lemma rollback_inserted m e : entries m !! IP e = None ->
  let m' := (if CIDR e then rollback_cidr else rollback_ip) (IP e) (load_entry m e) in
  entries m' = entries m /\ cidrs m' = cidrs m /\ heap m' = heap m ++ [e].
Proof using Type.
  intros Hnew. unfold load_entry, alloc, rollback_cidr, rollback_ip. destruct (CIDR e); cbn [entries cidrs heap].
  - split_and!; [|cbn; apply removelast_last|done]. cbn. rewrite delete_insert_eq. by apply delete_id.
  - split_and!; [|done..]. cbn. rewrite delete_insert_eq. by apply delete_id.
Qed.

Lemma add_entry_consistent m e : consistent m -> fresh_id m (ID e) ->
  consistent (snd (add_entry (if CIDR e then rollback_cidr else rollback_ip) e m)).
Proof using Type.
  intros Hc Hid. unfold add_entry, insert_entry. destruct (entries m !! IP e) eqn:Hnew; [done|].
  pose proof (load_entry_consistent m e Hc Hid Hnew) as Hc'.
  destruct (rollback_inserted m e Hnew) as (E1 & E2 & E3).
  unfold save_entry. destruct (store (load_entry m e)) as [st|]; [|done].
  destruct (SaveEntry st e) as [[err|] st']; cbn [snd].
  - apply (consistent_ext m); [done| | | |]; destruct (CIDR e); try done.
    all: try (rewrite <- E1; done); try (rewrite <- E2; done).
    all: unfold rollback_cidr, rollback_ip, entry_at; cbn [heap]; cbn in E3; cbn; rewrite ?E3, ?length_app; try lia.
    all: intros p Hp; rewrite ?app_nth1 by done; done.
  - by apply (consistent_ext (load_entry m e)).
Qed.

Lemma find_entry_Some m id p : find_entry m id = Some p ->
  exists k, entries m !! k = Some p /\ ID (entry_at m p) = id.
Proof using Type.
  unfold find_entry. intros [Hin Hid]%find_some. apply bool_decide_eq_true in Hid.
  apply list_elem_of_In, list_elem_of_fmap in Hin as ([k q] & -> & Hin).
  rewrite range_map_perm, elem_of_map_to_list in Hin. eauto.
Qed.

Lemma find_entry_None m id : find_entry m id = None -> fresh_id m id.
Proof using Type.
  unfold find_entry. intros Hn k p Hk Hid.
  assert (p ∈ (range_map (entries m)).*2) as Hin.
  { apply list_elem_of_fmap. exists (k, p). split; [done|]. by rewrite range_map_perm, elem_of_map_to_list. }
  apply list_elem_of_In in Hin. eapply find_none in Hn; [|exact Hin]. simpl in Hn.
  by rewrite bool_decide_true in Hn.
Qed.

Lemma RemoveEntry_consistent m id : consistent m -> consistent (snd (RemoveEntry id m)).
Proof using Type.
  intros Hc. unfold RemoveEntry. destruct (find_entry m id) as [p|] eqn:Ef; [|done].
  apply find_entry_Some in Ef as (k & Hk & Hid). destruct (entries_valid m Hc k p Hk) as [Hp Hip].
  set (m1 := if CIDR (entry_at m p) then _ else _).
  assert (consistent m1) as Hc1.
  2: { destruct (store m1) as [st|]; [|done]. destruct (DeleteEntry st id). by apply (consistent_ext m1). }
  assert (entries m1 = delete k (entries m) /\ heap m1 = heap m) as [Ee Eh]
    by (subst m1; rewrite Hip; by destruct (CIDR (entry_at m p))).
  assert (forall q, entry_at m1 q = entry_at m q) as Eat by (intros q; unfold entry_at; by rewrite Eh).
  assert (forall q, q ∈ cidrs m1 <-> q ∈ cidrs m /\ ID (entry_at m q) <> id) as Ecd.
  { intros q. subst m1. destruct (CIDR (entry_at m p)) as [n|] eqn:En; cbn.
    - rewrite list_elem_of_In, filter_In, <- list_elem_of_In. rewrite negb_true_iff, bool_decide_eq_false. done.
    - split; [|by intros [? _]]. intros Hq. split; [done|]. intros Hq'. apply (cidrs_valid m Hc) in Hq as (k' & Hk' & Hs).
      assert (q = p) as -> by (apply (ids_unique m Hc k' k); congruence). rewrite En in Hs. by destruct Hs. }
  split; rewrite ?Ee, ?Eh; try setoid_rewrite Eat.
  - intros k' q [_ Hk']%lookup_delete_Some. by apply entries_valid.
  - intros q. rewrite Ecd, (cidrs_valid m Hc). split.
    + intros [(k' & Hk' & Hs) Hne]. exists k'. split; [|done]. apply lookup_delete_Some. split; [|done]. congruence.
    + intros (k' & [Hne Hk']%lookup_delete_Some & Hs). split; [eauto|]. intros Hq.
      assert (q = p) as -> by (apply (ids_unique m Hc k' k); congruence).
      destruct (entries_valid m Hc k' p Hk'). congruence.
  - intros k1 k2 q q' [_ H1']%lookup_delete_Some [_ H2']%lookup_delete_Some. by apply (ids_unique m Hc k1 k2).
Qed.

(** Changing an entry but for its address, range and identifier. *)
Lemma set_entry_consistent m p f : consistent m ->
  (forall e, IP (f e) = IP e /\ CIDR (f e) = CIDR e /\ ID (f e) = ID e) -> consistent (set_entry p f m).
Proof using Type.
  intros Hc Hf. apply (consistent_ext m); [done..| |].
  - simpl. by rewrite length_alter.
  - intros q Hq. unfold entry_at, set_entry. cbn [heap].
    destruct (lookup_lt_is_Some_2 (heap m) q Hq) as [e Eq].
    rewrite (nth_lookup_Some (heap m) q _ _ Eq). destruct (decide (q = p)) as [->|Hne].
    + rewrite (nth_lookup_Some _ p _ (f e)); [apply Hf|]. cbn. rewrite list_lookup_alter_eq, Eq. done.
    + rewrite (nth_lookup_Some _ q _ e); [done|]. cbn. by rewrite list_lookup_alter_ne.
Qed.

(** ** Sequences of operations *)

Inductive operation :=
| OpAddIP (now : Z) (id ip description createdBy : gostring)
| OpAddCIDR (now : Z) (id cidr description createdBy : gostring)
| OpRemoveEntry (id : gostring)
| OpSetEnabled (id : gostring) (enabled : bool)
| OpRecordHit (now : Z) (p : ptr)
| OpSetConfig (cfg : option Config)
| OpEnable
| OpDisable.

Definition perform (op : operation) m : Manager St :=
  match op with
  | OpAddIP now id ip d c => snd (AddIP now id ip d c m)
  | OpAddCIDR now id cidr d c => snd (AddCIDR now id cidr d c m)
  | OpRemoveEntry id => snd (RemoveEntry id m)
  | OpSetEnabled id enabled => snd (SetEnabled id enabled m)
  | OpRecordHit now p => recordHit now p m
  | OpSetConfig cfg => SetConfig cfg m
  | OpEnable => Enable m
  | OpDisable => Disable m
  end.

(** A new entry gets an identifier that no other has. *)
Definition admissible (op : operation) m : Prop :=
  match op with
  | OpAddIP _ id _ _ _ | OpAddCIDR _ id _ _ _ => fresh_id m id
  | _ => True
  end.

Inductive reachable : Manager St -> Prop :=
| reachable_new cfg st : reachable (NewManager cfg st)
| reachable_step op m : reachable m -> admissible op m -> reachable (perform op m).

Lemma perform_consistent op m : consistent m -> admissible op m -> consistent (perform op m).
Proof using Type.
  intros Hc Ha. destruct op as [now id ip d c|now id cidr d c|id|id enabled|now p|cfg| |]; simpl.
  - unfold AddIP. destruct (Net.ParseIP ip) as [a|]; [|done].
    by apply (add_entry_consistent m (mkEntry id (Net.IP_String a) None d now c None 0 true)).
  - unfold AddCIDR. destruct (Net.ParseCIDR cidr) as [n|]; [|done].
    by apply (add_entry_consistent m (mkEntry id (Net.IPNet_String n) (Some n) d now c None 0 true)).
  - by apply RemoveEntry_consistent.
  - unfold SetEnabled. destruct (find_entry m id) as [p|]; [|done].
    pose proof (set_entry_consistent m p (fun e => e <| Enabled := enabled |>) Hc ltac:(done)) as Hc'.
    unfold save_entry. destruct (store (set_entry p _ m)) as [st|]; [|done].
    destruct (SaveEntry st _) as [[err|] st']; by apply (consistent_ext (set_entry p (fun e => e <| Enabled := enabled |>) m)).
  - unfold recordHit. pose proof (set_entry_consistent m p (fun e => e <| LastHit := Some now |> <| HitCount := HitCount e + 1 |>) Hc ltac:(done)) as Hc'.
    by apply (consistent_ext _ _ Hc').
  - unfold SetConfig. destruct cfg; [|done]. by apply (consistent_ext m).
  - by apply (consistent_ext m).
  - by apply (consistent_ext m).
Qed.

Lemma reachable_consistent m : reachable m -> consistent m.
Proof using Type.
  induction 1 as [cfg st|op m Hr IH Ha]; [|by apply perform_consistent].
  split; simpl; [intros k p Hk; by rewrite lookup_empty in Hk| |intros k k' p p' Hk; by rewrite lookup_empty in Hk].
  intros p. split; [intros Hp; by apply elem_of_nil in Hp|]. intros (k & Hk & _). by rewrite lookup_empty in Hk.
Qed.

(** An entry of the map, by its key. *)
Definition entry_of m (k : gostring) : option AllowlistEntry := entry_at m <$> entries m !! k.

(** The entry covers the address: it is the entry of the address, or of a
    range that contains it. *)
Definition covers (a : Net.IP) (k : gostring) (e : AllowlistEntry) : Prop :=
  Enabled e = true /\ (k = Net.IP_String a \/ exists n, CIDR e = Some n /\ Net.IPNet_Contains n a = true).

(** The loop over the ranges finds an entry exactly when one contains the address. *)
Lemma range_hit m a : consistent m ->
  fst (match List.find (fun p => Enabled (entry_at m p)
                          && match CIDR (entry_at m p) with Some n => Net.IPNet_Contains n a | None => false end) (cidrs m) with
       | Some p => (true, Some p) | None => (false, None) end) = true
  <-> exists k p n, entries m !! k = Some p /\ Enabled (entry_at m p) = true /\ CIDR (entry_at m p) = Some n
        /\ Net.IPNet_Contains n a = true.
Proof using Type.
  intros Hc. split.
  - destruct (List.find _ (cidrs m)) as [p|] eqn:Ef; [|done]. intros _.
    apply find_some in Ef as [Hin Hp]. apply list_elem_of_In, (cidrs_valid m Hc) in Hin as (k & Hk & n & En).
    rewrite En in Hp. apply andb_true_iff in Hp as [? ?]. eauto 10.
  - intros (k & p & n & Hk & He & En & Hn). destruct (List.find _ (cidrs m)) eqn:Ef; [done|].
    eapply (find_none _ _) in Ef; [|apply list_elem_of_In, (cidrs_valid m Hc); eauto]. simpl in Ef.
    by rewrite He, En, Hn in Ef.
Qed.

Lemma IsAllowed_covered m (ip : gostring) : consistent m ->
  fst (IsAllowed m ip) = true <->
  cfg_Enabled (config m) = false
  \/ exists a, Net.ParseIP ip = Some a
       /\ (AllowLocalhost (config m) = true /\ Net.IsLoopback a = true
           \/ exists k e, entry_of m k = Some e /\ covers a k e).
Proof using Type.
  intros Hc. unfold IsAllowed. destruct (cfg_Enabled (config m)); simpl; [|by split; [left|]].
  destruct (Net.ParseIP ip) as [a|]; [|split; [done|by intros [?|(a & ? & _)]]].
  destruct (AllowLocalhost (config m) && Net.IsLoopback a) eqn:El; simpl.
  { apply andb_true_iff in El as [E1 E2]. split; [|done]. intros _. right. exists a. auto. }
  pose proof (range_hit m a Hc) as Hrange.
  split.
  - intros Hok. right. exists a. split; [done|]. right.
    destruct (entries m !! Net.IP_String a) as [p|] eqn:Ek.
    + destruct (Enabled (entry_at m p)) eqn:Ee.
      * exists (Net.IP_String a), (entry_at m p). unfold entry_of. rewrite Ek. split; [done|]. split; [done|by left].
      * apply Hrange in Hok as (k & q & n & Hk & He & En & Hn). exists k, (entry_at m q). unfold entry_of, covers.
        rewrite Hk. eauto 10.
    + apply Hrange in Hok as (k & q & n & Hk & He & En & Hn). exists k, (entry_at m q). unfold entry_of, covers.
      rewrite Hk. eauto 10.
  - intros [?|(a' & [= <-] & [[E1 E2]|(k & e & Hk & He & Hcov)])]; [done|by rewrite E1, E2 in El|].
    unfold entry_of in Hk. apply fmap_Some in Hk as (p & Hk & ->). destruct Hcov as [->|(n & En & Hn)].
    + by rewrite Hk, He.
    + destruct (entries m !! Net.IP_String a) as [q|]; [destruct (Enabled (entry_at m q)); [done|]|]; apply Hrange; eauto 10.
Qed.

(** a network that was added admits its addresses: when [AddCIDR] of the
    text of a network succeeds, the text of every address with the prefix of
    the network is allowed from then on. *)
Theorem added_network_admits m (net : network) (ip : Net.IP) (now : Z) (id d c : gostring) (p : ptr) m' :
  reachable m -> fresh_id m id -> network_ok net -> address ip -> in_network ip net = true ->
  AddCIDR now id (print_network net) d c m = (inl p, m') ->
  fst (IsAllowed m' (Net.IP_String ip)) = true.
Proof using Type.
  intros Hr Hid Hnet Hip Hin E. destruct (ParseCIDR_print net Hnet) as (N & EN & HN).
  set (e := mkEntry id (Net.IPNet_String N) (Some N) d now c None 0 true).
  assert (consistent m') as Hc.
  { replace m' with (perform (OpAddCIDR now id (print_network net) d c) m) by (simpl; by rewrite E).
    apply perform_consistent; [by apply reachable_consistent|done]. }
  apply IsAllowed_covered; [done|]. right. exists ip. split; [by apply ParseIP_String|]. right.
  exists (Net.IPNet_String N), e. unfold AddCIDR in E. rewrite EN in E. unfold add_entry, insert_entry in E.
  cbn [IP] in E. destruct (entries m !! Net.IPNet_String N) eqn:Ek; [done|].
  unfold save_entry in E. assert (entry_of (load_entry m e) (Net.IPNet_String N) = Some e) as Ee.
  { unfold entry_of, load_entry, alloc. cbn. rewrite lookup_insert_eq. simpl. f_equal. apply entry_at_new. }
  split; [|split; [done|right; exists N; by rewrite HN]]. fold e in E.
  destruct (store (load_entry m e)) as [st|]; [|by injection E as _ <-].
  destruct (SaveEntry st e) as [[err|] st']; [done|]. by injection E as _ <-.
Qed.

(** ** Interleaving *)

(** C38: when saving a range fails after another range was inserted, the wrong
    range is taken back from the list: the range that was not saved is gone
    from the map but keeps admitting its addresses, and the other is in the
    map but not in the list that is searched. *)
Theorem failed_save_takes_back_wrong_range m (e1 e2 : AllowlistEntry) (n1 n2 : Net.IPNet) (ip : gostring) (a : Net.IP) :
  consistent m -> entries m !! IP e1 = None -> entries m !! IP e2 = None -> IP e1 <> IP e2 ->
  CIDR e1 = Some n1 -> CIDR e2 = Some n2 -> Enabled e1 = true ->
  Net.ParseIP ip = Some a -> Net.IPNet_Contains n1 a = true ->
  let m' := rollback_cidr (IP e1) (load_entry (load_entry m e1) e2) in
  entry_of m' (IP e1) = None /\ fst (IsAllowed m' ip) = true
  /\ exists p, entries m' !! IP e2 = Some p /\ entry_at m' p = e2 /\ p ∉ cidrs m'.
Proof using Type.
  intros Hc H1' H2' Hne E1 E2 Hen Ea Hn m'.
  set (p1 := length (heap m)). set (p2 := length (heap m ++ [e1])).
  assert (heap m' = (heap m ++ [e1]) ++ [e2] /\ cidrs m' = cidrs m ++ [p1]
    /\ entries m' = delete (IP e1) (<[IP e2 := p2]> (<[IP e1 := p1]> (entries m)))) as (Eh & Ecd & Ee).
  { subst m'. unfold rollback_cidr, rollback_ip, load_entry, alloc. rewrite E1, E2. cbn. by rewrite removelast_last. }
  assert (entry_at m' p1 = e1) as Ep1.
  { unfold entry_at. rewrite Eh, app_nth1 by (rewrite length_app; simpl; unfold p1; lia). apply nth_middle. }
  clearbody m'. split_and!.
  - unfold entry_of. by rewrite Ee, lookup_delete_eq.
  - unfold IsAllowed. destruct (cfg_Enabled (config m')); [|done]. simpl. rewrite Ea.
    destruct (AllowLocalhost (config m') && Net.IsLoopback a); [done|].
    match goal with |- context [List.find ?P (cidrs m')] => destruct (find_is_Some P (cidrs m') p1) as [q ->] end.
    + rewrite Ecd. apply in_or_app. right. by left.
    + by rewrite Ep1, Hen, E1, Hn.
    + by repeat case_match.
  - exists p2. rewrite Ee, lookup_delete_ne, lookup_insert_eq by done. split_and!; [done| |].
    + unfold entry_at. rewrite Eh. apply nth_middle.
    + rewrite Ecd, elem_of_app, list_elem_of_singleton. unfold p1, p2. rewrite length_app. simpl.
      intros [(k & Hk & _)%(cidrs_valid m Hc)|]; [|lia]. destruct (entries_valid m Hc k _ Hk) as [Hp _]. lia.
Qed.
End facts.

Module ipallow_witnesses.

#[local] Instance silent_store : AllowlistStore unit unit := {
  SaveEntry st _ := (None, st);
  GetAllEntries _ := inl [];
  DeleteEntry st _ := (None, st);
  UpdateHit st _ _ := st;
}.

#[local] Instance key_order : GoRange.
Proof. by refine {| range_map V m := map_to_list m |}. Defined.

Definition strict : Config := mkConfig true true true true [] [].
Definition empty : Manager unit := NewManager (Some strict) (Some tt).
Definition with_ip : Manager unit := perform (OpAddIP 0 (lit "a1") (lit "192.0.2.7") [] []) empty.

Lemma empty_fresh id : fresh_id empty id.
Proof. intros k p Hk. simpl in Hk. by rewrite lookup_empty in Hk. Qed.

Lemma with_ip_reachable : reachable with_ip.
Proof. apply reachable_step; [apply reachable_new|apply empty_fresh]. Qed.


Definition lan : network := V4Net [10; 20; 0; 0] 16.
Definition host : Net.IP := [0; 0; 0; 0; 0; 0; 0; 0; 0; 0; 255; 255; 10; 20; 3; 4].

Lemma lan_ok : network_ok lan /\ address host.
Proof.
  repeat split; [|lia..|]; repeat (apply List.Forall_cons || apply List.Forall_nil); unfold octet; lia.
Qed.

Definition with_lan : Manager unit := snd (AddCIDR 0 (lit "b2") (print_network lan) [] [] empty).

Lemma added_network_admits_witness : fst (IsAllowed with_lan (Net.IP_String host)) = true.
Proof.
  apply (added_network_admits empty lan host 0 (lit "b2") [] [] 0%nat with_lan).
  - apply reachable_new.
  - apply empty_fresh.
  - apply lan_ok.
  - apply lan_ok.
  - by vm_compute.
  - by vm_compute.
Defined.

Definition range (id : string) (a : list Z) (n : Z) : AllowlistEntry :=
  let N := Net.mkIPNet a (Net.CIDRMask n 4) in
  mkEntry (lit id) (Net.IPNet_String N) (Some N) [] 0 [] None 0 true.

Lemma failed_save_takes_back_wrong_range_witness :
  let m' := rollback_cidr (lit "10.0.0.0/8")
              (load_entry (load_entry empty (range "1" [10; 0; 0; 0] 8)) (range "2" [172; 16; 0; 0] 12)) in
  entry_of m' (lit "10.0.0.0/8") = None /\ fst (IsAllowed m' (lit "10.9.9.9")) = true
  /\ exists p, entries m' !! lit "172.16.0.0/12" = Some p
       /\ entry_at m' p = range "2" [172; 16; 0; 0] 12 /\ p ∉ cidrs m'.
Proof.
  apply (failed_save_takes_back_wrong_range empty (range "1" [10; 0; 0; 0] 8) (range "2" [172; 16; 0; 0] 12)
    (Net.mkIPNet [10; 0; 0; 0] (Net.CIDRMask 8 4)) (Net.mkIPNet [172; 16; 0; 0] (Net.CIDRMask 12 4))
    (lit "10.9.9.9") [0; 0; 0; 0; 0; 0; 0; 0; 0; 0; 255; 255; 10; 9; 9; 9]).
  - apply (reachable_consistent empty), reachable_new.
  - by vm_compute.
  - by vm_compute.
  - by vm_compute.
  - done.
  - done.
  - done.
  - by vm_compute.
  - by vm_compute.
Defined.
End ipallow_witnesses.
