(* ===== verification/Security.v ===== *)
(** * Client addresses, passwords and the signing secret
    (internal/app/security/security.go)

    The manager knows the trusted proxies, the password policy and the secret
    that signs tokens.  The environment and random bytes are arguments. *)

From stdpp Require Import options.
From Stdlib Require Import Strings.Byte.
From S2P Require Import Prelude GoLib GoNet HttpParse Variables Rule Transformations.

Module security.

Record Config := mkConfig {
  RequireSecureSecret : bool;
  TrustedProxies : list gostring;
  MinPasswordLength : Z;
  RequireAllComplexity : bool;
}.

(** [DefaultConfig]; the argument is the variable OBSIDIAN_ENV. *)
Definition DefaultConfig (env : gostring) : Config :=
  mkConfig (bool_decide (env = lit "production"))
    [lit "127.0.0.1"; lit "::1"; lit "10.0.0.0/8"; lit "172.16.0.0/12"; lit "192.168.0.0/16"] 12 true.

Record Manager := mkManager {
  config : Config;
  trustedNets : list Net.IPNet;
  trustedIPs : gset gostring;
  jwtSecret : gostring;
  commonPasswords : gset gostring;
}.

#[global] Instance Manager_form : RecordForm Manager :=
  fun m => mkManager (config m) (trustedNets m) (trustedIPs m) (jwtSecret m) (commonPasswords m).

Inductive SecurityErr :=
| ErrInvalidProxy (proxy : gostring)
| ErrGenerateSecret
| ErrPasswordTooShort
| ErrCommonPassword
| ErrPasswordNoUpper
| ErrPasswordNoLower
| ErrPasswordNoNumber
| ErrPasswordNoSpecial
| ErrPasswordThreeOfFour.

Definition loadCommonPasswords : gset gostring := list_to_set
  [lit "password"; lit "123456"; lit "12345678"; lit "qwerty"; lit "abc123"; lit "monkey"; lit "1234567";
   lit "letmein"; lit "trustno1"; lit "dragon"; lit "baseball"; lit "iloveyou"; lit "master"; lit "sunshine";
   lit "ashley"; lit "bailey"; lit "passw0rd"; lit "shadow"; lit "123123"; lit "654321"; lit "superman";
   lit "qazwsx"; lit "michael"; lit "football"; lit "password1"; lit "password123"; lit "welcome";
   lit "welcome1"; lit "admin"; lit "admin123"; lit "root"; lit "toor"; lit "pass"; lit "test"; lit "guest";
   lit "master123"; lit "changeme"; lit "12345"; lit "123456789"; lit "1234567890"; lit "0987654321";
   lit "qwerty123"; lit "qwertyuiop"; lit "1q2w3e4r"; lit "1qaz2wsx"; lit "zaq12wsx"; lit "!qaz2wsx";
   lit "password!"; lit "p@ssw0rd"; lit "p@ssword"; lit "passw0rd!"; lit "pa$$word"; lit "pa$$w0rd";
   lit "secret"; lit "secret123"; lit "letmein123"; lit "access"; lit "login"; lit "administrator";
   lit "default"; lit "hello"; lit "hello123"; lit "winter"; lit "spring"; lit "summer"; lit "autumn";
   lit "january"; lit "february"; lit "march"; lit "april"; lit "may2024"; lit "june2024"; lit "july2024";
   lit "company"; lit "company123"; lit "corporate"; lit "business"; lit "enterprise"; lit "network";
   lit "server"; lit "database"; lit "mysql"; lit "oracle"; lit "postgres"; lit "mongo"; lit "redis";
   lit "security"; lit "secure"; lit "private"; lit "public"; lit "internal"; lit "external";
   lit "obsidian"; lit "sentinel"; lit "waf"; lit "firewall"; lit "proxy"; lit "gateway"; lit "router"].

(** ** Construction *)

(** The body of the loop over the proxies, and [AddTrustedProxy]. *)
Definition AddTrustedProxy (proxy : gostring) (m : Manager) : Manager + SecurityErr :=
  if bool_decide ("/"%byte ∈ proxy) then
    match Net.ParseCIDR proxy with
    | None => inr (ErrInvalidProxy proxy)
    | Some ipNet => inl (m <| trustedNets := trustedNets m ++ [ipNet] |>)
    end
  else inl (m <| trustedIPs := {[proxy]} ∪ trustedIPs m |>).

Fixpoint add_proxies (l : list gostring) (m : Manager) : Manager + SecurityErr :=
  match l with
  | [] => inl m
  | proxy :: l =>
    match AddTrustedProxy proxy m with
    | inl m => add_proxies l m
    | inr e => inr e
    end
  end.

(** [generateSecureSecret]; [None] when the generator fails. *)
Definition generateSecureSecret (random : option gostring) : option gostring := hex_EncodeToString <$> random.

(** [initJWTSecret]; [secret] is the variable OBSIDIAN_JWT_SECRET. *)
Definition initJWTSecret (secret : gostring) (random : option gostring) (m : Manager) : Manager + SecurityErr :=
  if bool_decide (secret = []) then
    match generateSecureSecret random with
    | None => inr ErrGenerateSecret
    | Some generated => inl (m <| jwtSecret := generated |>)
    end
  else inl (m <| jwtSecret := secret |>).

Definition NewManager (cfg : Config) (secret : gostring) (random : option gostring) : Manager + SecurityErr :=
  match add_proxies (TrustedProxies cfg) (mkManager cfg [] ∅ [] loadCommonPasswords) with
  | inl m => initJWTSecret secret random m
  | inr e => inr e
  end.

Definition GetJWTSecret (m : Manager) : gostring := jwtSecret m.

(** ** Client addresses *)

Definition TrimPrefix (s p : gostring) : gostring := if Strings.HasPrefix s p then drop (length p) s else s.
Definition TrimSuffix (s p : gostring) : gostring :=
  if Strings.HasSuffix s p then take (length s - length p) s else s.

Definition unbracket (s : gostring) : gostring := TrimSuffix (TrimPrefix s (lit "[")) (lit "]").

Definition isTrustedProxy (m : Manager) (ipStr : gostring) : bool :=
  let ipStr := unbracket ipStr in
  if bool_decide (ipStr ∈ trustedIPs m) then true
  else
    match Net.ParseIP ipStr with
    | None => false
    | Some ip => existsb (fun ipNet => Net.IPNet_Contains ipNet ip) (trustedNets m)
    end.

(** The loop over the forwarded addresses, from the right. *)
Fixpoint last_untrusted (m : Manager) (rev_ips : list gostring) : option gostring :=
  match rev_ips with
  | [] => None
  | x :: rev_ips =>
    let ip := Strings.TrimSpace x in
    if bool_decide (ip = []) then last_untrusted m rev_ips
    else if isTrustedProxy m ip then last_untrusted m rev_ips
    else Some ip
  end.

Definition directIP (remoteAddr : gostring) : gostring :=
  unbracket (default remoteAddr (Net.SplitHostPort remoteAddr)).

Definition ExtractClientIP (m : Manager) (remoteAddr xForwardedFor xRealIP : gostring) : gostring :=
  let direct := directIP remoteAddr in
  if bool_decide (xForwardedFor = []) && bool_decide (xRealIP = []) then direct
  else if negb (isTrustedProxy m direct) then direct
  else
    let forwarded := if bool_decide (xForwardedFor = []) then None
                     else last_untrusted m (rev (split_on ","%byte xForwardedFor)) in
    match forwarded with
    | Some ip => ip
    | None =>
      let real := Strings.TrimSpace xRealIP in
      if negb (bool_decide (xRealIP = [])) && negb (isTrustedProxy m real) then real else direct
    end.

(** ** Passwords *)

Definition special_bytes : gostring := lit "!@#$%^&*()_+-=[]{}|;':" ++ x22 :: lit ",./<>?`~".

Definition is_upper (c : Z) : bool := (65 <=? c) && (c <=? 90).
Definition is_lower (c : Z) : bool := (97 <=? c) && (c <=? 122).
Definition is_number (c : Z) : bool := (48 <=? c) && (c <=? 57).
Definition is_special (c : Z) : bool := existsb (fun b => bz b =? c) special_bytes.

(** The complexity groups of a password: upper case, lower case, numbers and
    special characters. *)
Definition complexity (password : gostring) : bool * bool * bool * bool :=
  let l := fst <$> Utf8.runes password in
  (existsb is_upper l, existsb is_lower l, existsb is_number l, existsb is_special l).

Section passwords.
Context `{GoUnicode}.

Definition isCommonPassword (m : Manager) (password : gostring) : bool :=
  bool_decide (Strings.ToLower password ∈ commonPasswords m).

Definition ValidatePassword (m : Manager) (password : gostring) : option SecurityErr :=
  if zlen password <? MinPasswordLength (config m) then Some ErrPasswordTooShort
  else if isCommonPassword m password then Some ErrCommonPassword
  else
    let '(hasUpper, hasLower, hasNumber, hasSpecial) := complexity password in
    if RequireAllComplexity (config m) then
      if negb hasUpper then Some ErrPasswordNoUpper
      else if negb hasLower then Some ErrPasswordNoLower
      else if negb hasNumber then Some ErrPasswordNoNumber
      else if negb hasSpecial then Some ErrPasswordNoSpecial
      else None
    else
      let count := Z.b2z hasUpper + Z.b2z hasLower + Z.b2z hasNumber + Z.b2z hasSpecial in
      if count <? 3 then Some ErrPasswordThreeOfFour else None.

Definition sensitiveFields : gset gostring := list_to_set
  [lit "password"; lit "passwd"; lit "secret"; lit "token"; lit "authorization"; lit "auth"; lit "key";
   lit "apikey"; lit "api_key"; lit "private"; lit "credential"; lit "credentials"; lit "session";
   lit "cookie"; lit "jwt"].

Definition SanitizeLogField (fieldName value : gostring) : gostring :=
  if bool_decide (Strings.ToLower fieldName ∈ sensitiveFields) then lit "[REDACTED]" else value.
End passwords.
End security.
