(* ===== verification/ApiKeys.v ===== *)
(** * API keys (internal/app/apikeys/apikeys.go)

    Keys are kept by the hash of their text, with the usage of the current
    window of a minute.  The clock, random bytes and the hash function are
    arguments; the store is an interface. *)

From stdpp Require Import options.
From Stdlib Require Import Strings.Byte.
From S2P Require Import Prelude GoLib HttpParse Variables Rule Transformations.

Module apikeys.

Abbreviation Scope := gostring.

Definition ScopeRead : Scope := lit "read".
Definition ScopeWrite : Scope := lit "write".
Definition ScopeAdmin : Scope := lit "admin".
Definition ScopeThreat : Scope := lit "threat".
Definition ScopeExport : Scope := lit "export".
Definition ScopeWebhook : Scope := lit "webhook".
Definition AllScopes : list Scope := [ScopeRead; ScopeWrite; ScopeAdmin; ScopeThreat; ScopeExport; ScopeWebhook].

Record APIKey := mkAPIKey {
  ID : gostring;
  Name : gostring;
  KeyHash : gostring;
  KeyPrefix : gostring;
  Scopes : list Scope;
  CreatedAt : Z;
  ExpiresAt : option Z;
  LastUsedAt : option Z;
  LastUsedIP : gostring;
  Enabled : bool;
  RateLimit : Z;
  Description : gostring;
  CreatedBy : gostring;
}.

#[global] Instance APIKey_form : RecordForm APIKey :=
  fun k => mkAPIKey (ID k) (Name k) (KeyHash k) (KeyPrefix k) (Scopes k) (CreatedAt k) (ExpiresAt k)
    (LastUsedAt k) (LastUsedIP k) (Enabled k) (RateLimit k) (Description k) (CreatedBy k).

Record KeyUsage := mkKeyUsage {
  Count : Z;
  WindowStart : Z;
}.

(** The interface [KeyStore]. *)
Class KeyStore (St Err : Type) := {
  SaveKey : St -> APIKey -> option Err * St;
  GetAllKeys : St -> list APIKey + Err;
  store_DeleteKey : St -> gostring -> option Err * St;
  UpdateKeyUsage : St -> gostring -> Z -> gostring -> St;
}.

Inductive KeyErr (Err : Type) :=
| ErrKeyNotFound
| ErrKeyExpired
| ErrKeyDisabled
| ErrInsufficientScope
| ErrRateLimitExceeded
| ErrRandom
| ErrStore (e : Err).
Arguments ErrKeyNotFound {Err}.
Arguments ErrKeyExpired {Err}.
Arguments ErrKeyDisabled {Err}.
Arguments ErrInsufficientScope {Err}.
Arguments ErrRateLimitExceeded {Err}.
Arguments ErrRandom {Err}.
Arguments ErrStore {Err}.

Record Manager (St : Type) := mkManager {
  keys : gmap gostring APIKey;
  prefixes : gmap gostring gostring;
  usage : gmap gostring KeyUsage;
  store : option St;
}.
Arguments mkManager {St}.
Arguments keys {St}.
Arguments prefixes {St}.
Arguments usage {St}.
Arguments store {St}.

#[global] Instance Manager_form {St} : RecordForm (Manager St) :=
  fun m => mkManager (keys m) (prefixes m) (usage m) (store m).

Definition minute : Z := 60 * 1000000000.

(** The hash function of the keys. *)
Class KeyHashing := sha256_Sum256 : gostring -> gostring.

Section manager.
Context {St Err : Type} `{KeyStore St Err} `{GoRange} `{KeyHashing} `{GoUnicode}.
Implicit Type m : Manager St.

Definition NewManager (st : option St) : Manager St := mkManager ∅ ∅ ∅ st.

Definition hash_key (plaintext : gostring) : gostring := hex_EncodeToString (sha256_Sum256 plaintext).

Definition put_key m (key : APIKey) : Manager St :=
  m <| keys := <[KeyHash key := key]> (keys m) |> <| prefixes := <[KeyPrefix key := KeyHash key]> (prefixes m) |>.

Definition LoadKeys m : option (KeyErr Err) * Manager St :=
  match store m with
  | None => (None, m)
  | Some st =>
    match GetAllKeys st with
    | inr e => (Some (ErrStore e), m)
    | inl l => (None, foldl put_key m l)
    end
  end.

Definition save_key (key : APIKey) m : option Err * Manager St :=
  match store m with
  | None => (None, m)
  | Some st => let '(err, st) := SaveKey st key in (err, m <| store := Some st |>)
  end.

(** [GenerateKey]; [rawKey] and [idBytes] are the random bytes, [None] when the
    generator fails. *)
Definition GenerateKey (now : Z) (rawKey idBytes : option gostring) (name : gostring) (scopes : list Scope)
    (expiresIn : option Z) (rateLimit : Z) (description createdBy : gostring) m
  : ((gostring * APIKey) + KeyErr Err) * Manager St :=
  match rawKey with
  | None => (inr ErrRandom, m)
  | Some raw =>
    let plaintext := lit "obs_" ++ hex_EncodeToString raw in
    let keyHash := hash_key plaintext in
    let keyPrefix := take 12 plaintext in
    match idBytes with
    | None => (inr ErrRandom, m)
    | Some idBytes =>
      let apiKey := mkAPIKey (hex_EncodeToString idBytes) name keyHash keyPrefix scopes now
                      ((fun d => now + d) <$> expiresIn) None [] true rateLimit description createdBy in
      match save_key apiKey (put_key m apiKey) with
      | (None, m) => (inl (plaintext, apiKey), m)
      | (Some err, m) =>
        (inr (ErrStore err),
         m <| keys := delete keyHash (keys m) |> <| prefixes := delete keyPrefix (prefixes m) |>)
      end
    end
  end.

Definition hasScope (key : APIKey) (required : Scope) : bool :=
  existsb (fun s => bool_decide (s = required) || bool_decide (s = ScopeAdmin)) (Scopes key).

Definition checkRateLimit (now : Z) (keyHash : gostring) (limit : Z) m : option (KeyErr Err) * Manager St :=
  match usage m !! keyHash with
  | Some u =>
    if minute <=? now - WindowStart u then
      (None, m <| usage := <[keyHash := mkKeyUsage 1 now]> (usage m) |>)
    else if limit <=? Count u then (Some ErrRateLimitExceeded, m)
    else (None, m <| usage := <[keyHash := mkKeyUsage (Count u + 1) (WindowStart u)]> (usage m) |>)
  | None => (None, m <| usage := <[keyHash := mkKeyUsage 1 now]> (usage m) |>)
  end.

(** [ValidateKey]; the three readings of the clock are for the expiration, the
    rate limit and the statistics. *)
Definition ValidateKey (t1 t2 t3 : Z) (plaintext : gostring) (requiredScope : Scope) (clientIP : gostring) m
  : (APIKey + KeyErr Err) * Manager St :=
  let keyHash := hash_key plaintext in
  match keys m !! keyHash with
  | None => (inr ErrKeyNotFound, m)
  | Some apiKey =>
    if negb (Enabled apiKey) then (inr ErrKeyDisabled, m)
    else if match ExpiresAt apiKey with Some t => t <? t1 | None => false end then (inr ErrKeyExpired, m)
    else if negb (bool_decide (requiredScope = [])) && negb (hasScope apiKey requiredScope)
    then (inr ErrInsufficientScope, m)
    else
      match (if 0 <? RateLimit apiKey then checkRateLimit t2 keyHash (RateLimit apiKey) m else (None, m)) with
      | (Some e, m) => (inr e, m)
      | (None, m) =>
        let apiKey := apiKey <| LastUsedAt := Some t3 |> <| LastUsedIP := clientIP |> in
        (inl apiKey,
         m <| keys := <[keyHash := apiKey]> (keys m) |>
           <| store := (fun st => UpdateKeyUsage st keyHash t3 clientIP) <$> store m |>)
      end
  end.

(** The loops over the keys that look for an identifier. *)
Definition find_key m (keyID : gostring) : option (gostring * APIKey) :=
  List.find (fun hk => bool_decide (ID (snd hk) = keyID)) (range_map (keys m)).

Definition RevokeKey (keyID : gostring) m : option (KeyErr Err) * Manager St :=
  match find_key m keyID with
  | None => (Some ErrKeyNotFound, m)
  | Some (hash, key) =>
    let key := key <| Enabled := false |> in
    let '(err, m) := save_key key (m <| keys := <[hash := key]> (keys m) |>) in (ErrStore <$> err, m)
  end.

Definition DeleteKey (keyID : gostring) m : option (KeyErr Err) * Manager St :=
  match find_key m keyID with
  | None => (Some ErrKeyNotFound, m)
  | Some (hash, key) =>
    let m := m <| keys := delete hash (keys m) |> <| prefixes := delete (KeyPrefix key) (prefixes m) |>
               <| usage := delete hash (usage m) |> in
    match store m with
    | None => (None, m)
    | Some st => let '(err, st) := store_DeleteKey st hash in (ErrStore <$> err, m <| store := Some st |>)
    end
  end.

Definition ListKeys m : list APIKey := (range_map (keys m)).*2.

Definition GetKeyByID m (keyID : gostring) : APIKey + KeyErr Err :=
  match find_key m keyID with
  | Some (_, key) => inl key
  | None => inr ErrKeyNotFound
  end.

(** [ExtractKeyFromHeader] *)
Definition ExtractKeyFromHeader (authHeader : gostring) : gostring :=
  let '(scheme, rest, found) := Strings.Cut authHeader " "%byte in
  if negb found then []
  else
    let scheme := Strings.ToLower scheme in
    if bool_decide (scheme = lit "bearer") || bool_decide (scheme = lit "apikey") then
      let token := Strings.TrimSpace rest in
      if Strings.HasPrefix token (lit "obs_") then token else []
    else [].
End manager.
End apikeys.
