(* ===== verification/AccessProps.v ===== *)
(** * Properties of client addresses and API keys

    A client cannot choose the address it is known by, a generated key
    authenticates its holder until it is revoked, and the rate of a key is
    bounded. *)

From stdpp Require Import options.
From Stdlib Require Import Strings.Byte.
From S2P Require Import Prelude GoLib GoNet HttpParse Variables Rule Transformations.
From S2P Require Import Security ApiKeys.

(** ** Client addresses *)

Section addresses.
Import security.
Implicit Type m : Manager.

Lemma split_on_app_any sep a b : split_on sep (a ++ sep :: b) = split_on sep a ++ split_on sep b.
Proof.
  induction a as [|c a IH]; simpl; [by rewrite bool_decide_true|].
  case_bool_decide; rewrite IH; [done|].
  pose proof (split_on_not_nil sep a). by destruct (split_on sep a).
Qed.

(** An address that a proxy adds to the header. *)
Definition forwarded (ip : gostring) : Prop := ip <> [] /\ Strings.TrimSpace ip = ip /\ ","%byte ∉ ip.

Lemma last_untrusted_skips m l rest :
  Forall (fun ip => forwarded ip /\ isTrustedProxy m ip = true) l ->
  last_untrusted m (l ++ rest) = last_untrusted m rest.
Proof.
  induction 1 as [|ip l [(Hne & Ht & _) Htr] Hl IH]; [done|]. simpl.
  rewrite Ht, bool_decide_false, Htr by done. done.
Qed.


(** The setting that is to refuse a start without a secret has no effect. *)
Lemma secret_requirement_has_no_effect cfg secret random m :
  NewManager cfg secret (Some random) = inl m -> jwtSecret m = if bool_decide (secret = []) then hex_EncodeToString random else secret.
Proof.
  unfold NewManager, initJWTSecret. destruct (add_proxies _ _) as [m0|]; [|done]. case_bool_decide; by intros [= <-].
Qed.
End addresses.

(** ** API keys *)

Section keys.
Import apikeys.
Context {St Err : Type} `{KeyStore St Err} `{GoRange} `{KeyHashing} `{GoUnicode}.
Implicit Type m : Manager St.

Lemma hex_solid s : Forall (fun c => Strings.solid c) (hex_EncodeToString s).
Proof using Type.
  assert (forall n, 0 <= n < 16 -> Strings.solid (hexdigit n)) as Hd.
  { intros n Hn. assert (exists k : nat, (k < 16)%nat /\ n = Z.of_nat k) as (k & ? & ->) by (exists (Z.to_nat n); lia).
    do 16 (destruct k as [|k]; [by split|]). lia. }
  induction s as [|b s IH]; [constructor|]. simpl. pose proof (bz_range b).
  pose proof (Z.mod_pos_bound (bz b) 16).
  constructor; [apply Hd; split; [apply Z.div_pos; lia|apply Z.div_lt_upper_bound; lia]|].
  constructor; [apply Hd; lia|done].
Qed.

Lemma obs_token s : Strings.TrimSpace (lit "obs_" ++ hex_EncodeToString s) = lit "obs_" ++ hex_EncodeToString s.
Proof using Type.
  apply Strings.TrimSpace_solid, Forall_app. split; [|apply hex_solid]. by repeat constructor.
Qed.

Lemma ExtractKeyFromHeader_bearer s :
  ExtractKeyFromHeader (lit "Bearer " ++ lit "obs_" ++ hex_EncodeToString s) = lit "obs_" ++ hex_EncodeToString s.
Proof using Type.
  unfold ExtractKeyFromHeader.
  change (lit "Bearer " ++ ?t) with (lit "Bearer" ++ " "%byte :: t).
  rewrite Strings.Cut_app by (intros Hin; repeat (apply elem_of_cons in Hin as [?|Hin]; [done|]); by apply elem_of_nil in Hin).
  rewrite Strings.ToLower_ascii by done. simpl negb. cbv iota.
  rewrite bool_decide_true by done. simpl orb. cbv iota.
  rewrite obs_token. by rewrite (proj2 (Strings.HasPrefix_spec _ _)) by eauto.
Qed.

(** A request with a key that passes all checks. *)
Lemma ValidateKey_accepts t1 t2 t3 plaintext scope ip m k :
  keys m !! hash_key plaintext = Some k -> Enabled k = true ->
  match ExpiresAt k with Some t => t1 <= t | None => True end ->
  scope = [] \/ hasScope k scope = true -> usage m !! hash_key plaintext = None ->
  exists m', ValidateKey t1 t2 t3 plaintext scope ip m
    = (inl (k <| LastUsedAt := Some t3 |> <| LastUsedIP := ip |>), m').
Proof using Type.
  intros Hk He Hx Hs Hu. unfold ValidateKey. rewrite Hk, He. simpl.
  assert (match ExpiresAt k with Some t => t <? t1 | None => false end = false) as ->
    by (destruct (ExpiresAt k); [lia|done]).
  assert (negb (bool_decide (scope = [])) && negb (hasScope k scope) = false) as ->.
  { destruct Hs as [-> | ->]; [done|]. by rewrite andb_false_r. }
  unfold checkRateLimit. rewrite Hu. destruct (0 <? RateLimit k); eauto.
Qed.


(** a revoked key is refused: after [RevokeKey] of its identifier, and even
    when the store cannot save the change, every request with the key fails
    and changes nothing. *)
Theorem revoked_key_is_refused (keyID plaintext scope ip : gostring) (t1 t2 t3 : Z) (k : APIKey) m :
  keys m !! hash_key plaintext = Some k -> ID k = keyID ->
  (forall h k', keys m !! h = Some k' -> ID k' = keyID -> h = hash_key plaintext) ->
  let m' := snd (RevokeKey keyID m) in
  ValidateKey t1 t2 t3 plaintext scope ip m' = (inr ErrKeyDisabled, m').
Proof using Type.
  intros Hk Hid Huniq m'. assert (exists k', keys m' !! hash_key plaintext = Some k' /\ Enabled k' = false) as (k' & Ek & Ee).
  2: { unfold ValidateKey. by rewrite Ek, Ee. }
  subst m'. unfold RevokeKey, find_key. destruct (List.find _ _) as [[h k0]|] eqn:Ef.
  - apply find_some in Ef as [Hin Hid']. apply bool_decide_eq_true in Hid'. simpl in Hid'.
    apply list_elem_of_In in Hin. rewrite range_map_perm, elem_of_map_to_list in Hin.
    pose proof (Huniq _ _ Hin Hid') as ->. unfold save_key. cbn.
    destruct (store m) as [st|]; [|cbn; rewrite lookup_insert_eq; eauto].
    destruct (SaveKey st _) as [[err|] st']; cbn; rewrite lookup_insert_eq; eauto.
  - exfalso. assert (In (hash_key plaintext, k) (range_map (keys m))) as Hin.
    { apply list_elem_of_In. by rewrite range_map_perm, elem_of_map_to_list. }
    eapply find_none in Ef; [|exact Hin]. simpl in Ef. by rewrite bool_decide_true in Ef.
Qed.

(** ** The rate of a key *)

(** A request: its time, key, scope and client address. *)
Record request := mkRequest {
  at_ : Z;
  r_key : gostring;
  r_scope : gostring;
  r_ip : gostring;
}.

Definition validate (r : request) m : (APIKey + KeyErr Err) * Manager St :=
  ValidateKey (at_ r) (at_ r) (at_ r) (r_key r) (r_scope r) (r_ip r) m.

(** The times at which requests with the key of hash [h] were accepted. *)
Fixpoint accepted (h : gostring) (l : list request) m : list Z :=
  match l with
  | [] => []
  | r :: l =>
    let '(a, m') := validate r m in
    match a with
    | inl _ => if bool_decide (hash_key (r_key r) = h) then [at_ r] else []
    | inr _ => []
    end ++ accepted h l m'
  end.

Fixpoint in_order (t : Z) (l : list request) : Prop :=
  match l with
  | [] => True
  | r :: l => t <= at_ r /\ in_order (at_ r) l
  end.

Definition count (P : Z -> bool) (l : list Z) : Z := zlen (List.filter P l).

Lemma count_app P l k : count P (l ++ k) = count P l + count P k.
Proof using Type. unfold count. by rewrite List.filter_app, zlen_app. Qed.

Lemma count_le (P Q : Z -> bool) l : (forall x, x ∈ l -> P x = true -> Q x = true) -> count P l <= count Q l.
Proof using Type.
  unfold count, zlen. induction l as [|x l IH]; intros Hl; [done|]. simpl.
  specialize (IH ltac:(intros y Hy; apply Hl; by right)). pose proof (Hl x ltac:(by left)).
  destruct (P x), (Q x); simpl; lia || (exfalso; naive_solver).
Qed.

Lemma count_none (P : Z -> bool) l : (forall x, x ∈ l -> P x = false) -> count P l = 0.
Proof using Type.
  unfold count. induction l as [|x l IH]; intros Hl; [done|]. simpl. rewrite Hl by (by left). apply IH.
  intros y Hy. apply Hl. by right.
Qed.

Lemma count_or (P Q : Z -> bool) l : count (fun x => P x || Q x) l <= count P l + count Q l.
Proof using Type.
  unfold count, zlen. induction l as [|x l IH]; [done|]. simpl. destruct (P x), (Q x); simpl; lia.
Qed.

Lemma count_one P x : count P [x] <= 1.
Proof using Type. unfold count, zlen. simpl. destruct (P x); simpl; lia. Qed.

(** The minute that ends at [t]. *)
Definition within (t x : Z) : bool := (t - minute <? x) && (x <=? t).

(** What the usage of the key says of the accepted times [h] up to [now]: the
    current window has at most as many as its counter, and the minute before
    it at most [L]. *)
Definition tracked (L now : Z) (h : list Z) (u : option KeyUsage) : Prop :=
  (forall x, x ∈ h -> x <= now) /\ (forall t, count (within t) h <= 2 * L)
  /\ match u with
     | None => h = []
     | Some u => WindowStart u <= now /\ (forall x, x ∈ h -> x < WindowStart u + minute)
                 /\ count (fun x => WindowStart u <=? x) h <= Count u <= L
                 /\ count (fun x => (WindowStart u - minute <? x) && (x <? WindowStart u)) h <= L
     end.

Lemma tracked_later L now now' h u : now <= now' -> tracked L now h u -> tracked L now' h u.
Proof using Type.
  intros Hle (H1' & H2' & H3'). split_and!; [intros x Hx; specialize (H1' x Hx); lia|done|].
  destruct u as [u|]; [|done]. destruct H3' as (? & ? & ? & ?). split_and!; try done; lia.
Qed.

(** One more request at [now]. *)
Lemma tracked_minutes L now h : (forall t, count (within t) h <= 2 * L) ->
  (forall t, now <= t -> count (within t) h < 2 * L) -> forall t, count (within t) (h ++ [now]) <= 2 * L.
Proof using Type.
  intros H1' H2' t. rewrite count_app. destruct (Z.le_gt_cases now t) as [Hle|Hgt].
  - pose proof (count_one (within t) now). specialize (H2' t Hle). lia.
  - rewrite (count_none (within t) [now]); [specialize (H1' t); lia|].
    intros x ->%list_elem_of_singleton. unfold within. lia.
Qed.

(** A window of a minute that starts now. *)
Lemma tracked_new L now h u : 1 <= L -> tracked L now h u ->
  match u with Some u => minute <= now - WindowStart u | None => True end ->
  tracked L now (h ++ [now]) (Some (mkKeyUsage 1 now)).
Proof using Type.
  intros HL (Hle & H2' & H3') Hold.
  assert (count (fun x => now - minute <? x) h <= L) as Hrecent.
  { destruct u as [u|]; [|subst h; unfold count, zlen; simpl; lia]. destruct H3' as (_ & _ & Hc & _).
    etrans; [apply (count_le _ (fun x => WindowStart u <=? x))|lia]. intros x _. lia. }
  assert (count (fun x => now <=? x) h = 0) as Hnone.
  { destruct u as [u|]; [|by subst h]. destruct H3' as (_ & Hb & _). apply count_none. intros x Hx.
    specialize (Hb x Hx). lia. }
  split_and!; cbn [WindowStart Count].
  - intros x [Hx| ->%list_elem_of_singleton]%elem_of_app; [by apply Hle|lia].
  - apply tracked_minutes; [done|]. intros t Ht.
    assert (count (within t) h <= L); [|lia]. etrans; [apply (count_le _ (fun x => now - minute <? x))|done].
    intros x _. unfold within. lia.
  - lia.
  - intros x [Hx| ->%list_elem_of_singleton]%elem_of_app; [specialize (Hle x Hx)|]; unfold minute; lia.
  - rewrite count_app, Hnone. apply count_one.
  - done.
  - rewrite count_app, (count_none _ [now]) by (intros x ->%list_elem_of_singleton; lia). rewrite Z.add_0_r.
    etrans; [apply (count_le _ (fun x => now - minute <? x))|done]. intros x _. lia.
Qed.

(** A request within the current window. *)
Lemma tracked_same L now h u : tracked L now h (Some u) -> now - WindowStart u < minute -> Count u < L ->
  tracked L now (h ++ [now]) (Some (mkKeyUsage (Count u + 1) (WindowStart u))).
Proof using Type.
  intros (Hle & H2' & Hws & Hb & Hc & Hp) Hin HL. split_and!; cbn [WindowStart Count].
  - intros x [Hx| ->%list_elem_of_singleton]%elem_of_app; [by apply Hle|lia].
  - apply tracked_minutes; [done|]. intros t Ht.
    assert (count (within t) h <= count (fun x => (WindowStart u <=? x)
      || ((WindowStart u - minute <? x) && (x <? WindowStart u))) h) as Hsplit.
    { apply count_le. intros x _. unfold within. lia. }
    pose proof (count_or (fun x => WindowStart u <=? x) (fun x => (WindowStart u - minute <? x) && (x <? WindowStart u)) h).
    simpl in *. lia.
  - done.
  - intros x [Hx| ->%list_elem_of_singleton]%elem_of_app; [by apply Hb|lia].
  - rewrite count_app. pose proof (count_one (fun x => WindowStart u <=? x) now). lia.
  - lia.
  - rewrite count_app, (count_none _ [now]) by (intros x ->%list_elem_of_singleton; lia). by rewrite Z.add_0_r.
Qed.

(** The state of the key of hash [h] after a request. *)
Lemma validate_tracked L h r m k : 1 <= L ->
  keys m !! h = Some k -> RateLimit k = L ->
  let m' := snd (validate r m) in
  (exists k', keys m' !! h = Some k' /\ RateLimit k' = L)
  /\ forall past, tracked L (at_ r) past (usage m !! h) ->
     tracked L (at_ r) (past ++ match fst (validate r m) with
                                | inl _ => if bool_decide (hash_key (r_key r) = h) then [at_ r] else []
                                | inr _ => [] end) (usage m' !! h).
Proof using Type.
  intros HL Hk Hlim. unfold validate, ValidateKey. set (h' := hash_key (r_key r)).
  destruct (keys m !! h') as [k'|] eqn:Ek'; [|split; [eauto|intros; by rewrite app_nil_r]].
  destruct (negb (Enabled k')); [split; [eauto|intros; by rewrite app_nil_r]|].
  destruct (match ExpiresAt k' with Some t => t <? at_ r | None => false end); [split; [eauto|intros; by rewrite app_nil_r]|].
  destruct (_ && _); [split; [eauto|intros; by rewrite app_nil_r]|].
  assert (exists k0, <[h' := k' <| LastUsedAt := Some (at_ r) |> <| LastUsedIP := r_ip r |>]> (keys m) !! h
    = Some k0 /\ RateLimit k0 = L) as Hkeys.
  { destruct (decide (h' = h)) as [->|Hne]; [|rewrite lookup_insert_ne by done; eauto].
    rewrite lookup_insert_eq. eexists. split; [done|]. rewrite Hk in Ek'. injection Ek' as <-. done. }
  destruct (decide (h' = h)) as [Eh|Hne].
  - rewrite Eh in *. rewrite Hk in Ek'. injection Ek' as <-. rewrite Hlim, (proj2 (Z.ltb_lt 0 L)) by lia.
    rewrite (bool_decide_true (h = h)) by done. unfold checkRateLimit. destruct (usage m !! h) as [u|] eqn:Eu.
    + destruct (Z.leb_spec minute (at_ r - WindowStart u)); cbn [fst snd].
      { split; [exact Hkeys|]. intros past Ht. cbn. rewrite lookup_insert_eq. by apply (tracked_new L _ _ (Some u)). }
      destruct (Z.leb_spec L (Count u)); cbn [fst snd].
      { split; [eauto|]. intros past Ht. by rewrite app_nil_r, Eu. }
      split; [exact Hkeys|]. intros past Ht. cbn. rewrite lookup_insert_eq. by apply tracked_same.
    + cbn [fst snd]. split; [exact Hkeys|]. intros past Ht. cbn. rewrite lookup_insert_eq.
      by apply (tracked_new L _ _ None).
  - rewrite (bool_decide_false (h' = h)) by done.
    destruct (0 <? RateLimit k'); [unfold checkRateLimit|].
    + destruct (usage m !! h') as [u|]; [destruct (minute <=? _); [|destruct (_ <=? Count u)]|]; cbn [fst snd];
        (split; [solve [eauto|exact Hkeys]|]); intros past Ht; cbn; by rewrite app_nil_r, ?lookup_insert_ne by done.
    + cbn [fst snd]. split; [exact Hkeys|]. intros past Ht. cbn. by rewrite app_nil_r.
Qed.

Lemma accepted_bounded L h l m k t0 past : 1 <= L -> keys m !! h = Some k -> RateLimit k = L -> in_order t0 l ->
  tracked L t0 past (usage m !! h) -> forall t, count (within t) (past ++ accepted h l m) <= 2 * L.
Proof using Type.
  intros HL. revert m k t0 past. induction l as [|r l IH]; intros m k t0 past Hk Hlim Ho Ht t.
  { simpl. rewrite app_nil_r. apply Ht. }
  destruct Ho as [Hle Ho]. destruct (validate_tracked L h r m k HL Hk Hlim) as [(k' & Hk' & Hlim') Htr].
  specialize (Htr past (tracked_later L t0 _ _ _ Hle Ht)). cbn [accepted].
  destruct (validate r m) as [a m']. simpl in *. rewrite (assoc_L app). by apply (IH m' k' (at_ r)).
Qed.

(** C34: the rate of a key is bounded: whatever requests with whatever keys are
    interleaved, in every period of a minute at most twice the limit of a key
    is accepted. *)
Theorem key_rate_bounded (h : gostring) (l : list request) (k : APIKey) (t0 t : Z) m :
  keys m !! h = Some k -> 1 <= RateLimit k -> usage m !! h = None -> in_order t0 l ->
  count (within t) (accepted h l m) <= 2 * RateLimit k.
Proof using Type.
  intros Hk HL Hu Ho. apply (accepted_bounded (RateLimit k) h l m k t0 []); try done.
  rewrite Hu. split_and!; [intros x Hx; by apply elem_of_nil in Hx| |done].
  intros t'. unfold count, zlen. simpl. lia.
Qed.
End keys.

Module access_witnesses.
Import apikeys.

#[local] Instance silent_store : KeyStore unit unit := {
  SaveKey st _ := (None, st);
  GetAllKeys _ := inl [];
  store_DeleteKey st _ := (None, st);
  UpdateKeyUsage st _ _ _ := st;
}.

#[local] Instance key_order : GoRange.
Proof. by refine {| range_map V m := map_to_list m |}. Defined.

#[local] Instance plain_hash : KeyHashing := fun s => s.

#[local] Instance ascii_only : GoUnicode.
Proof. by refine {| unicode_ToLower r := r; unicode_ToUpper r := r |}. Defined.

Definition raw_key : gostring := replicate 32 x5a.
Definition token : gostring := lit "obs_" ++ hex_EncodeToString raw_key.

Definition generated : ((gostring * APIKey) + KeyErr unit) * Manager unit :=
  GenerateKey 0 (Some raw_key) (Some (lit "id")) (lit "ci") [ScopeRead] (Some minute) 2 [] [] (NewManager (Some tt)).

Definition the_key : APIKey := match fst generated with inl (_, k) => k | inr _ => mkAPIKey [] [] [] [] [] 0 None None [] false 0 [] [] end.

Lemma generated_ok : generated = (inl (token, the_key), snd generated).
Proof. apply injective_projections; [by vm_compute|done]. Qed.

Lemma generated_key : keys (snd generated) !! hash_key token = Some the_key /\ usage (snd generated) !! hash_key token = None.
Proof. split; by vm_compute. Qed.


Lemma revoked_key_is_refused_witness :
  let m' := snd (RevokeKey (ID the_key) (snd generated)) in
  ValidateKey 10 10 10 token ScopeRead (lit "192.0.2.1") m' = (inr ErrKeyDisabled, m').
Proof.
  apply (revoked_key_is_refused (ID the_key) token ScopeRead (lit "192.0.2.1") 10 10 10 the_key (snd generated)).
  - apply generated_key.
  - done.
  - intros h k' Hk _. assert (keys (snd generated) = {[hash_key token := the_key]}) as E by reflexivity.
    rewrite E in Hk. by apply lookup_singleton_Some in Hk as [<- _].
Defined.

(** Two requests at the end of a window and two at the start of the next. *)
Definition burst : list request :=
  (fun t => mkRequest t token [] (lit "192.0.2.1")) <$> [0; 59 * 1000000000; minute; minute + 1].

Definition unlimited_time : Manager unit :=
  snd (GenerateKey 0 (Some raw_key) (Some (lit "id")) (lit "ci") [] None 2 [] [] (NewManager (Some tt))).

Definition long_key : APIKey := default the_key (keys unlimited_time !! hash_key token).

Lemma long_key_ok : keys unlimited_time !! hash_key token = Some long_key.
Proof. by vm_compute. Qed.

Lemma key_rate_bounded_witness :
  accepted (hash_key token) burst unlimited_time = [0; 59 * 1000000000; minute; minute + 1]
  /\ count (within (minute + 1)) (accepted (hash_key token) burst unlimited_time) <= 2 * 2.
Proof.
  split; [by vm_compute|].
  apply (key_rate_bounded (hash_key token) burst long_key 0 (minute + 1) unlimited_time).
  - apply long_key_ok.
  - by vm_compute.
  - by vm_compute.
  - by vm_compute.
Defined.

(** More than the limit of two within a minute. *)
Example limit_is_exceeded :
  count (within (minute + 1)) (accepted (hash_key token) burst unlimited_time) = 3.
Proof. by vm_compute. Qed.

Import security.

Definition proxied : Manager :=
  match security.NewManager (security.DefaultConfig []) (lit "secret") None with
  | inl m => m
  | inr _ => mkManager (security.DefaultConfig []) [] ∅ [] ∅
  end.

Lemma forwarded_dec ip :
  negb (bool_decide (ip = [])) && bool_decide (Strings.TrimSpace ip = ip) && negb (bool_decide (","%byte ∈ ip)) = true ->
  forwarded ip.
Proof.
  rewrite !andb_true_iff, !negb_true_iff, !bool_decide_eq_false, bool_decide_eq_true. by intros [[? ?] ?].
Qed.

End access_witnesses.
