(* ===== verification/HttpMiddleware.v ===== *)
(** * The HTTP middleware (http/middleware.go, http/interceptor.go)

    Between net/http and a transaction: the request is fed into the
    transaction, the handler writes its response to an interceptor that holds
    it back while it is inspected.  The transaction is the interface
    [types.Transaction], here the class [TransactionAPI]; the writer of
    net/http is a log of what was sent, and a request's header is a map. *)

From stdpp Require Import options.
From Stdlib Require Import Strings.Byte.
From S2P Require Import Prelude GoLib HttpParse Variables Types.
Import types.

Module middleware.

(** ** Interfaces *)

(** What the middleware uses of [types.Transaction]; every method may panic. *)
Class TransactionAPI (T Err : Type) := {
  IsRuleEngineOff : T -> bool;
  IsInterrupted : T -> bool;
  IsRequestBodyAccessible : T -> bool;
  IsResponseBodyAccessible : T -> bool;
  IsResponseBodyProcessable : T -> bool;
  ProcessConnection : gostring -> Z -> gostring -> Z -> T -> outcome T;
  ProcessURI : gostring -> gostring -> gostring -> T -> outcome T;
  AddRequestHeader : gostring -> gostring -> T -> outcome T;
  SetServerName : gostring -> T -> outcome T;
  ProcessRequestHeaders : T -> outcome (option Interruption * T);
  ReadRequestBodyFrom : gostring -> T -> outcome (option Interruption * gostring * option Err * T);
  RequestBodyReader : T -> outcome ((gostring + Err) * T);
  ProcessRequestBody : T -> outcome (option Interruption * option Err * T);
  AddResponseHeader : gostring -> gostring -> T -> outcome T;
  ProcessResponseHeaders : Z -> gostring -> T -> outcome (option Interruption * T);
  WriteResponseBody : gostring -> T -> outcome (option Interruption * nat * option Err * T);
  ResponseBodyReader : T -> outcome ((list gostring + Err) * T);
  ProcessResponseBody : T -> outcome (option Interruption * option Err * T);
  ProcessLogging : T -> outcome T;
  Close : T -> outcome T;
}.

(** What was sent to the client through the delegate writer. *)
Inductive sent_event :=
| SentHeader (statusCode : Z)
| SentBody (b : gostring)
| SentFlush.

#[global] Instance sent_event_eq_dec : EqDecision sent_event.
Proof. solve_decision. Defined.

(** The delegate writer: how many bytes it takes and whether it fails, after
    what was sent so far; whether it can flush. *)
Class ResponseWriter := {
  w_Write : list sent_event -> gostring -> nat * bool;
  is_Flusher : bool;
}.

Record rwInterceptor := mkInterceptor {
  statusCode : Z;
  proto : gostring;
  isWriteHeaderFlush : bool;
  wroteHeader : bool;
  wroteBufferedBodyToDownstream : bool;
  allowFlushing : bool;
}.

#[global] Instance rwInterceptor_form : RecordForm rwInterceptor :=
  fun i => mkInterceptor (statusCode i) (proto i) (isWriteHeaderFlush i) (wroteHeader i)
    (wroteBufferedBodyToDownstream i) (allowFlushing i).

(** The interceptor with the objects it refers to. *)
Record world (T : Type) := mkWorld {
  tx : T;
  headers : gmap gostring (list gostring);
  sent : list sent_event;
  icpt : rwInterceptor;
}.
Arguments mkWorld {T}.
Arguments tx {T}.
Arguments headers {T}.
Arguments sent {T}.
Arguments icpt {T}.

#[global] Instance world_form {T} : RecordForm (world T) :=
  fun w => mkWorld (tx w) (headers w) (sent w) (icpt w).

(** ** Computations on the world *)

Section monad.
Context {T : Type}.

Definition I (A : Type) : Type := world T -> outcome (A * world T).

Definition iret {A} (a : A) : I A := fun w => Ok (a, w).
Definition ibind {A B} (m : I A) (k : A -> I B) : I B := fun w => obind (m w) (fun p => k (fst p) (snd p)).
Definition iget {A} (f : world T -> A) : I A := fun w => Ok (f w, w).
Definition imodify (f : world T -> world T) : I unit := fun w => Ok (tt, f w).

(** A method of the transaction. *)
Definition on_tx {A} (m : T -> outcome (A * T)) : I A := fun w =>
  obind (m (tx w)) (fun p => Ok (fst p, w <| tx := snd p |>)).
Definition on_tx_ (m : T -> outcome T) : I unit := fun w =>
  obind (m (tx w)) (fun t => Ok (tt, w <| tx := t |>)).
Definition set_icpt (f : rwInterceptor -> rwInterceptor) : I unit := imodify (fun w => w <| icpt := f (icpt w) |>).
Definition send (e : sent_event) : I unit := imodify (fun w => w <| sent := sent w ++ [e] |>).

Fixpoint ifor {A} (l : list A) (body : A -> I unit) : I unit :=
  match l with
  | [] => iret tt
  | x :: l => ibind (body x) (fun _ => ifor l body)
  end.
End monad.

Declare Scope icpt_scope.
Notation "'let+' x ':=' m 'in' k" := (ibind m (fun x => k))
  (at level 200, x pattern, m at level 100, k at level 200) : icpt_scope.
Notation "m ';+' k" := (ibind m (fun _ => k))
  (at level 100, k at level 200, right associativity) : icpt_scope.
#[local] Open Scope icpt_scope.

Definition headerContentLength : gostring := lit "Content-Length".

(** [obtainStatusCodeFromInterruptionOrDefault] *)
Definition obtainStatusCodeFromInterruptionOrDefault (it : Interruption) (defaultStatusCode : Z) : Z :=
  if bool_decide (Action it = lit "deny") then (if Status it =? 0 then 403 else Status it)
  else defaultStatusCode.

(** The errors of the interceptor; [ErrTx] is one of the transaction. *)
Inductive IcptErr (Err : Type) :=
| ErrTx (e : Err)
| ErrWrite.
Arguments ErrTx {Err}.
Arguments ErrWrite {Err}.

Section interceptor.
Context {T Err : Type} `{TransactionAPI T Err} `{ResponseWriter} `{GoRange}.
Abbreviation IM := (@I T).

(** ** The interceptor *)

Definition overrideWriteHeader (code : Z) : IM unit := set_icpt (fun i => i <| statusCode := code |>).

Definition flushWriteHeader : IM unit :=
  let+ i := iget icpt in
  if isWriteHeaderFlush i then iret tt
  else send (SentHeader (statusCode i)) ;+ set_icpt (fun i => i <| isWriteHeaderFlush := true |>).

Definition cleanHeaders : IM unit := imodify (fun w => w <| headers := ∅ |>).

Definition set_header (k v : gostring) : IM unit := imodify (fun w => w <| headers := <[k := [v]]> (headers w) |>).

(** What every interruption of a response does. *)
Definition send_interruption (it : Interruption) : IM unit :=
  cleanHeaders ;+ set_header headerContentLength (lit "0") ;+
  (let+ i := iget icpt in overrideWriteHeader (obtainStatusCodeFromInterruptionOrDefault it (statusCode i))) ;+
  flushWriteHeader.

Definition WriteHeader (code : Z) : IM unit :=
  let+ i := iget icpt in
  if wroteHeader i then iret tt
  else
    let+ hs := iget headers in
    ifor (range_map hs) (fun kv => ifor (snd kv) (fun v => on_tx_ (AddResponseHeader (fst kv) v))) ;+
    overrideWriteHeader code ;+
    let+ i := iget icpt in
    let+ it := on_tx (ProcessResponseHeaders code (proto i)) in
    match it with
    | Some it => send_interruption it
    | None =>
      set_icpt (fun i => i <| wroteHeader := true |>) ;+
      let+ t := iget tx in
      if negb (IsResponseBodyAccessible t) || negb (IsResponseBodyProcessable t)
      then set_icpt (fun i => i <| allowFlushing := true |>) else iret tt
    end.

(** [i.w.Write] *)
Definition write_down (b : gostring) : IM (nat * bool) :=
  let+ s := iget sent in
  let '(n, fails) := w_Write s b in
  send (SentBody (take n b)) ;+ iret (n, fails).

(** The status codes that have no body. *)
Definition bodiless (code : Z) : bool := (code =? 204) || (code =? 205) || (code =? 304).

(** [io.Copy] of the chunks that the reader gives: it stops at the first write
    that fails or is short. *)
Fixpoint copy_down (chunks : list gostring) : IM bool :=
  match chunks with
  | [] => iret true
  | c :: chunks =>
    let+ r := write_down c in
    let '(n, fails) := r in
    if fails || negb (n =? length c)%nat then iret false else copy_down chunks
  end.

Definition writeBufferedResponseBodyToDownstream : IM (option (IcptErr Err)) :=
  let+ i := iget icpt in
  if wroteBufferedBodyToDownstream i then iret None
  else
    let+ reader := on_tx ResponseBodyReader in
    match reader with
    | inr e => overrideWriteHeader 500 ;+ flushWriteHeader ;+ iret (Some (ErrTx e))
    | inl chunks =>
      let+ i := iget icpt in
      if bodiless (statusCode i) then
        set_icpt (fun i => i <| wroteBufferedBodyToDownstream := true |>) ;+ iret None
      else
        flushWriteHeader ;+
        let+ ok := copy_down chunks in
        if ok : bool then
          set_icpt (fun i => i <| wroteBufferedBodyToDownstream := true |>) ;+ iret None
        else iret (Some ErrWrite)
    end.

Definition Write (b : gostring) : IM (nat * option (IcptErr Err)) :=
  let+ interrupted := iget (fun w => IsInterrupted (tx w)) in
  if interrupted : bool then iret (length b, None)
  else
    (let+ i := iget icpt in if wroteHeader i then iret tt else WriteHeader 200) ;+
    let+ t := iget tx in
    let+ i := iget icpt in
    if IsResponseBodyAccessible t && IsResponseBodyProcessable t && negb (wroteBufferedBodyToDownstream i) then
      let+ r := on_tx (fun t => obind (WriteResponseBody b t) (fun '(it, n, err, t') => Ok ((it, n, err), t'))) in
      let '(it, n, err) := r in
      match it with
      | Some it => send_interruption it ;+ iret (length b, None)
      | None =>
        match err with
        | Some e => iret (n, Some (ErrTx e))
        | None =>
          if (n =? length b)%nat then iret (n, None)
          else
            let+ e := writeBufferedResponseBodyToDownstream in
            match e with
            | Some e => iret (n, Some e)
            | None =>
              let+ r := write_down (drop n b) in
              iret ((n + fst r)%nat, if snd r then Some ErrWrite else None)
            end
        end
      end
    else if bodiless (statusCode i) then iret (length b, None)
    else
      flushWriteHeader ;+
      let+ r := write_down b in
      iret (fst r, if snd r then Some ErrWrite else None).

Definition Flush : IM unit :=
  (let+ i := iget icpt in if wroteHeader i then iret tt else WriteHeader 200) ;+
  let+ i := iget icpt in
  if allowFlushing i && isWriteHeaderFlush i && is_Flusher then send SentFlush else iret tt.

(** ** The response processor that [wrap] returns *)

Definition responseProcessor : IM (option (IcptErr Err)) :=
  let+ w := iget (fun w => w) in
  if IsInterrupted (tx w) then iret None
  else if IsResponseBodyAccessible (tx w) && IsResponseBodyProcessable (tx w)
          && negb (wroteBufferedBodyToDownstream (icpt w)) then
    let+ r := on_tx (fun t => obind (ProcessResponseBody t) (fun '(it, err, t') => Ok ((it, err), t'))) in
    match r with
    | (_, Some e) => overrideWriteHeader 500 ;+ flushWriteHeader ;+ iret (Some (ErrTx e))
    | (Some it, None) => send_interruption it ;+ iret None
    | (None, None) => writeBufferedResponseBodyToDownstream
    end
  else set_icpt (fun i => i <| allowFlushing := true |>) ;+ flushWriteHeader ;+ iret None.

(** ** Requests *)

(** The parts of a request that the middleware reads; the body is what is left
    of it, [None] when there is none. *)
Record request := mkRequest {
  RemoteAddr : gostring;
  URLString : gostring;
  Method : gostring;
  Proto : gostring;
  Header : gmap gostring (list gostring);
  Host : gostring;
  TransferEncoding : list gostring;
  Body : option gostring;
}.

(** The client's address and port. *)
Definition split_remote (addr : gostring) : gostring * Z :=
  let '(after, before, found) := Strings.Cut (rev addr) ":"%byte in
  if found then (rev before, fst (Strconv.Atoi (rev after))) else ([], 0).

(** [processRequestBody]: the result and the body that the handler will read. *)
Definition processRequestBody (body : option gostring) : IM ((option Interruption + Err) * option gostring) :=
  match body with
  | None => iret (inl None, None)
  | Some b =>
    let+ r := on_tx (fun t => obind (ReadRequestBodyFrom b t) (fun '(it, rest, err, t') => Ok ((it, rest, err), t'))) in
    let '(it, rest, err) := r in
    match err with
    | Some e => iret (inr e, Some rest)
    | None =>
      match it with
      | Some it => iret (inl (Some it), Some rest)
      | None =>
        let+ rbr := on_tx RequestBodyReader in
        match rbr with
        | inr e => iret (inr e, Some rest)
        | inl buffered => iret (inl None, Some (buffered ++ rest))
        end
      end
    end
  end.

Definition processRequest (req : request) : IM ((option Interruption + Err) * option gostring) :=
  let '(client, cport) := split_remote (RemoteAddr req) in
  on_tx_ (ProcessConnection client cport [] 0) ;+
  on_tx_ (ProcessURI (URLString req) (Method req) (Proto req)) ;+
  ifor (range_map (Header req)) (fun kv => ifor (snd kv) (fun v => on_tx_ (AddRequestHeader (fst kv) v))) ;+
  (if bool_decide (Host req = []) then iret tt
   else on_tx_ (AddRequestHeader (lit "Host") (Host req)) ;+ on_tx_ (SetServerName (Host req))) ;+
  match TransferEncoding req with
  | [] => iret tt
  | te :: _ => on_tx_ (AddRequestHeader (lit "Transfer-Encoding") te)
  end ;+
  let+ it := on_tx ProcessRequestHeaders in
  match it with
  | Some it => iret (inl (Some it), Body req)
  | None =>
    let+ t := iget tx in
    let+ r := (if IsRequestBodyAccessible t then processRequestBody (Body req) else iret (inl None, Body req)) in
    let '(res, body) := r in
    match res with
    | inl None =>
      let+ x := on_tx (fun t => obind (ProcessRequestBody t) (fun '(it, err, t') => Ok ((it, err), t'))) in
      match x with
      | (_, Some e) => iret (inr e, body)
      | (it, None) => iret (inl it, body)
      end
    | _ => iret (res, body)
    end
  end.

(** ** The handler and the middleware *)

(** What a handler does with its response writer. *)
Inductive action :=
| DoSetHeader (k v : gostring)
| DoWriteHeader (code : Z)
| DoWrite (b : gostring)
| DoFlush.

Definition act (a : action) : IM unit :=
  match a with
  | DoSetHeader k v => set_header k v
  | DoWriteHeader code => WriteHeader code
  | DoWrite b => Write b ;+ iret tt
  | DoFlush => Flush
  end.

(** The same on the plain writer, for an engine that is off: a write without a
    header sends 200 first. *)
Definition act_plain (a : action) : IM unit :=
  let+ s := iget sent in
  let header code := if existsb (fun e => match e with SentHeader _ => true | _ => false end) s
                     then iret tt else send (SentHeader code) in
  match a with
  | DoSetHeader k v => set_header k v
  | DoWriteHeader code => header code
  | DoWrite b => header 200 ;+ write_down b ;+ iret tt
  | DoFlush => if is_Flusher then header 200 ;+ send SentFlush else iret tt
  end.

(** A handler turns the body it is given into a sequence of actions. *)
Abbreviation handler := (option gostring -> list action).

Definition serve (h : handler) (req : request) : IM unit :=
  let+ t := iget tx in
  if IsRuleEngineOff t then ifor (h (Body req)) act_plain
  else
    let+ r := processRequest req in
    match r with
    | (inr _, _) => iret tt
    | (inl (Some it), _) => send (SentHeader (obtainStatusCodeFromInterruptionOrDefault it 200))
    | (inl None, body) =>
      ifor (h body) act ;+ responseProcessor ;+ iret tt
    end.

(** [WrapHandler]: the deferred function logs and closes the transaction. *)
Definition WrapHandler (h : handler) (req : request) (t : T) : outcome (unit * world T) :=
  (serve h req ;+ on_tx_ ProcessLogging ;+ on_tx_ Close)
    (mkWorld t ∅ [] (mkInterceptor 200 (Proto req) false false false false)).
End interceptor.
End middleware.
