(* ===== verification/HttpEngine.v ===== *)
(** * The engine behind the HTTP middleware

    The transactions of the engine (internal/corazawaf) as the interface that
    the middleware uses, and what the engine guarantees through it about
    bodies: reading a body leaves it as it is, a response body below its limit
    is buffered whole, and the rules of a phase do not touch it. *)

From stdpp Require Import options.
From Stdlib Require Import Strings.Byte.
From S2P Require Import Prelude GoLib GoTime HttpParse Variables Types Collections BodyBuffer.
From S2P Require Import Transaction Macro Rule TransactionOps Actions RuleEval EvalFacts.
From S2P Require Import RuleGroup BodyProcessors Phases Engine PhaseFacts BodyFacts PhaseProps HttpMiddleware.
Import types.

(** ** The instance *)

(** The chunks in which [io.Copy] reads a text. *)
Fixpoint cut_chunks (fuel n : nat) (d : gostring) : list gostring :=
  match fuel with
  | O => []
  | S fuel => if bool_decide (d = []) then [] else take n d :: cut_chunks fuel n (drop n d)
  end.

Lemma concat_cut_chunks fuel n d : (0 < n)%nat -> (length d <= fuel)%nat -> concat (cut_chunks fuel n d) = d.
Proof.
  intros Hn. revert d. induction fuel as [|fuel IH]; intros d Hd; cbn [cut_chunks].
  { destruct d; [done|simpl in Hd; lia]. }
  case_bool_decide as E; [done|]. cbn [concat]. rewrite IH; [apply take_drop|].
  rewrite length_drop. destruct d; [done|]. simpl in *. lia.
Qed.

(** The body of a request as a reader without a known length. *)
Definition body_of (b : gostring) : io_Reader :=
  mkIoReader None (if bool_decide (b = []) then [] else [b]) false.

Lemma concat_body_of b : concat (rd_chunks (body_of b)) = b.
Proof. unfold body_of. case_bool_decide; simpl; [done|apply app_nil_r]. Qed.

Section engine.
Context `{GoUnicode} `{MapOrder} `{StringData} `{LocalZone}.
Context (ParseRequestURI : gostring -> URL + gostring).
Context (fs : bool) (processors : gostring -> option BodyProcessor) (env : OsEnv) (w : WAF).

Definition unit_of {A} (m : M A) (tx : Transaction) : outcome Transaction := obind (m tx) (fun r => Ok (snd r)).

(** [RequestBodyReader] and [ResponseBodyReader] with what the copy of them
    reads. *)
Definition RequestBodyReader (tx : Transaction) : outcome ((gostring + PhaseErr) * Transaction) :=
  obind (bind open_request_reader (fun i => request_reader fs i) tx) (fun '((d, err), tx') =>
    Ok (match err with Some e => inr (ErrBuf e) | None => inl d end, tx')).

Definition ResponseBodyReader (tx : Transaction) : outcome ((list gostring + PhaseErr) * Transaction) :=
  obind (bind open_response_reader (fun i => response_reader fs i) tx) (fun '((d, err), tx') =>
    Ok (match err with Some e => inr (ErrBuf e) | None => inl (cut_chunks (length d) copy_size d) end, tx')).

#[global] Instance engine_transaction : middleware.TransactionAPI Transaction PhaseErr := {|
  middleware.IsRuleEngineOff tx := bool_decide (RuleEngine tx = RuleEngineOff);
  middleware.IsInterrupted := IsInterrupted;
  middleware.IsRequestBodyAccessible := RequestBodyAccess;
  middleware.IsResponseBodyAccessible := ResponseBodyAccess;
  middleware.IsResponseBodyProcessable := IsResponseBodyProcessable w;
  middleware.ProcessConnection c cp s sp := unit_of (ProcessConnection c cp s sp);
  middleware.ProcessURI u m v := unit_of (ProcessURI ParseRequestURI w u m v);
  middleware.AddRequestHeader k v := unit_of (AddRequestHeader k v);
  middleware.SetServerName n := unit_of (SetServerName n);
  middleware.ProcessRequestHeaders := ProcessRequestHeaders w;
  middleware.ReadRequestBodyFrom b tx :=
    obind (ReadRequestBodyFrom fs processors env w (body_of b) tx) (fun '((it, n, err), tx') =>
      Ok (it, drop (Z.to_nat n) b, err, tx'));
  middleware.RequestBodyReader := RequestBodyReader;
  middleware.ProcessRequestBody tx :=
    obind (ProcessRequestBody fs processors w tx) (fun '((it, err), tx') => Ok (it, err, tx'));
  middleware.AddResponseHeader k v := unit_of (AddResponseHeader k v);
  middleware.ProcessResponseHeaders c p := ProcessResponseHeaders w c p;
  middleware.WriteResponseBody b tx :=
    obind (WriteResponseBody fs processors env w b tx) (fun '((it, n, err), tx') => Ok (it, Z.to_nat n, err, tx'));
  middleware.ResponseBodyReader := ResponseBodyReader;
  middleware.ProcessResponseBody tx :=
    obind (ProcessResponseBody fs processors w tx) (fun '((it, err), tx') => Ok (it, err, tx'));
  middleware.ProcessLogging := unit_of (ProcessLogging w);
  middleware.Close := unit_of (Close fs env env (fun _ => true));
|}.
End engine.

(** ** Reading and evaluating leave the bodies alone *)

(** Reading moves readers only. *)
Definition same_body (b b' : BodyBuffer) : Prop := exists rs, b' = b <| readers := rs |>.

#[global] Instance same_body_preorder : PreOrder same_body.
Proof.
  split.
  - intros b. exists (readers b). by destruct b.
  - intros a b c [r1 ->] [r2 ->]. by exists r2.
Qed.

Lemma same_body_contents b b' : same_body b b' ->
  contents b' = contents b /\ options b' = options b /\ length_ b' = length_ b /\ (Buf_inv b -> Buf_inv b').
Proof. intros [rs ->]. split_and!; try done. intros []. by constructor. Qed.

Lemma Read_same fs b i n b' d err : Read fs b i n = Ok (b', d, err) -> same_body b b'.
Proof.
  assert (same_body b b) as Hr by reflexivity.
  assert (forall j r, same_body b (set_reader b j r)) as Hs by (intros; by eexists).
  unfold Read. destruct (readers b !! i) as [r|]; [|done]. cbv zeta.
  repeat case_match; intros; simplify_eq; auto.
Qed.

Lemma ReadAll_same fs fuel b i n acc b' d err :
  ReadAll fs fuel b i n acc = Ok (b', d, err) -> same_body b b'.
Proof.
  revert b acc. induction fuel as [|fuel IH]; intros b acc; [done|]. cbn [ReadAll].
  destruct (Read fs b i n) as [[[b1 d1] [e|]]|] eqn:E; [| |done]; apply Read_same in E.
  - destruct e; intros; by simplify_eq.
  - intros E'. etrans; [exact E|by eapply IH].
Qed.

(** Neither body of the transaction changes. *)
Definition same_bodies (tx tx' : Transaction) : Prop :=
  same_body (requestBodyBuffer tx) (requestBodyBuffer tx') /\
  same_body (responseBodyBuffer tx) (responseBodyBuffer tx').

#[global] Instance same_bodies_preorder : PreOrder same_bodies.
Proof.
  split.
  - intros tx. split; reflexivity.
  - intros a b c [] []. split; by etrans.
Qed.

Lemma only_variables_same_bodies tx tx' : only_variables tx tx' -> same_bodies tx tx'.
Proof. intros (vs & n & ->). split; by apply (reflexivity (R := same_body)). Qed.

Lemma keeps_same_only {A} (m : M A) : keeps only_variables m -> keeps same_bodies m.
Proof. intros Hm tx a tx' E. apply only_variables_same_bodies. by eapply Hm. Qed.

Section bodies.
Context `{GoUnicode} `{MapOrder} `{StringData} `{LocalZone}.
Context (fs : bool) (processors : gostring -> option BodyProcessor) (w : WAF).
Context (Hbp : forall name bp, processors name = Some bp -> bp_ok bp).
Context (Hops : waf_ops_ok w).
#[local] Set Default Proof Using "Type*".

Lemma keeps_same_readers i : keeps same_bodies (request_reader fs i) /\ keeps same_bodies (response_reader fs i).
Proof using Type.
  split; intros tx a tx'; unfold request_reader, response_reader;
    (destruct (ReadAll _ _ _ _ _ _) as [[[b d] err]|] eqn:E; [|done]); intros [= _ <-];
    apply ReadAll_same in E; (split; [try exact E; reflexivity|try exact E; reflexivity]).
Qed.

Lemma keeps_same_open : keeps same_bodies open_request_reader /\ keeps same_bodies open_response_reader.
Proof using Type. split; intros tx a tx' [= _ <-]; (split; (reflexivity || by eexists)). Qed.

#[local] Hint Extern 1 (keeps same_bodies (setSingle _ _)) => apply keeps_same_only, setSingle_only : waf.
#[local] Hint Extern 1 (keeps same_bodies (getSingle _)) => unfold getSingle; apply keeps_gets; typeclasses eauto : waf.
#[local] Hint Extern 1 (keeps same_bodies (request_reader _ _)) => exact (proj1 (keeps_same_readers _)) : waf.
#[local] Hint Extern 1 (keeps same_bodies (response_reader _ _)) => exact (proj2 (keeps_same_readers _)) : waf.
#[local] Hint Extern 1 (keeps same_bodies open_request_reader) => exact (proj1 keeps_same_open) : waf.
#[local] Hint Extern 1 (keeps same_bodies open_response_reader) => exact (proj2 keeps_same_open) : waf.

Lemma Eval_same_bodies p : keeps same_bodies (Eval w p).
Proof.
  intros tx b tx' E. destruct (Eval_eng w p tx b tx' Hops E) as (He & _).
  destruct He as [_ _ Hq Hr _ _ _ _]. cbn in Hq, Hr. split; [rewrite Hq|rewrite Hr]; reflexivity.
Qed.
#[local] Hint Resolve Eval_same_bodies : waf.

Lemma keeps_same_run : keeps same_bodies (run_request_processor fs processors)
  /\ keeps same_bodies (run_response_processor fs processors w).
Proof.
  split; unfold run_request_processor, run_response_processor, GetBodyProcessor,
    generateRequestBodyError, generateResponseBodyError; repeat keeps_step; auto with waf.
  - eapply (Hbp _ _ Heqo same_bodies); [typeclasses eauto|apply only_variables_same_bodies|auto with waf].
  - eapply (Hbp _ _ Heqo same_bodies (response_reader fs a0) []);
      [typeclasses eauto|apply only_variables_same_bodies|auto with waf].
Qed.

Lemma ProcessRequestBody_same : keeps same_bodies (ProcessRequestBody fs processors w).
Proof. unfold ProcessRequestBody. repeat keeps_step; auto with waf; apply keeps_same_run. Qed.

Lemma ProcessResponseBody_same : keeps same_bodies (ProcessResponseBody fs processors w).
Proof. unfold ProcessResponseBody. repeat keeps_step; auto with waf; apply keeps_same_run. Qed.
End bodies.

(** ** Request bodies *)

Section fed.
Context `{GoUnicode} `{MapOrder} `{StringData} `{LocalZone}.
Context (processors : gostring -> option BodyProcessor) (w : WAF).
Context (Hbp : forall name bp, processors name = Some bp -> bp_ok bp).
Context (Hops : waf_ops_ok w).
#[local] Set Default Proof Using "Type*".

(** The reader of a body gives all of it. *)
Lemma RequestBodyReader_all tx : Buf_inv (requestBodyBuffer tx) ->
  exists tx', RequestBodyReader true tx = Ok (inl (contents (requestBodyBuffer tx)), tx').
Proof using Type.
  intros Hi. destruct (fresh_reader_all _ Hi) as (b & E & _ & _).
  eexists. unfold RequestBodyReader.
  change (bind open_request_reader _ tx) with
    (request_reader true (length (readers (requestBodyBuffer tx)))
       (tx <| requestBodyBuffer := fst (Reader (requestBodyBuffer tx)) |>)).
  unfold request_reader.
  change (requestBodyBuffer (tx <| requestBodyBuffer := _ |>)) with (fst (Reader (requestBodyBuffer tx))).
  change (contents (fst (Reader _))) with (contents (requestBodyBuffer tx)). rewrite E. reflexivity.
Qed.

Lemma ResponseBodyReader_all tx : Buf_inv (responseBodyBuffer tx) ->
  exists chunks tx', ResponseBodyReader true tx = Ok (inl chunks, tx') /\
    concat chunks = contents (responseBodyBuffer tx).
Proof using Type.
  intros Hi. destruct (fresh_reader_all _ Hi) as (b & E & _ & _).
  eexists _, _. unfold ResponseBodyReader.
  change (bind open_response_reader _ tx) with
    (response_reader true (length (readers (responseBodyBuffer tx)))
       (tx <| responseBodyBuffer := fst (Reader (responseBodyBuffer tx)) |>)).
  unfold response_reader.
  change (responseBodyBuffer (tx <| responseBodyBuffer := _ |>)) with (fst (Reader (responseBodyBuffer tx))).
  change (contents (fst (Reader _))) with (contents (responseBodyBuffer tx)). rewrite E. split; [reflexivity|].
  apply concat_cut_chunks; [unfold copy_size|]; lia.
Qed.

(** What [ReadRequestBodyFrom] takes from a body, when it neither fails nor
    interrupts, is in the buffer. *)
Lemma ReadRequestBodyFrom_buffers b tx n tx' :
  accepts_request tx ->
  ReadRequestBodyFrom true processors os_ok w (body_of b) tx = Ok ((None, n, None), tx') ->
  Buf_inv (requestBodyBuffer tx') /\
  contents (requestBodyBuffer tx') = contents (requestBodyBuffer tx) ++ take (Z.to_nat n) b.
Proof.
  intros Ha. pose proof (accepts_tests tx Ha) as (E1 & E2 & E3 & El & Hm).
  destruct (overflow_tests tx 0 Ha) as (_ & _ & E6); [lia|pose proof (acc_limit _ Ha); lia|].
  destruct (CopyN_takes (body_of b) tx (RequestBodyLimit tx - zlen (contents (requestBodyBuffer tx))) Ha eq_refl)
    as (br & Ec & Hi & Hc); [lia|].
  rewrite concat_body_of in Ec, Hc. set (d := take _ b) in *.
  assert (forall t, same_bodies (tx <| requestBodyBuffer := br |>) t -> n = zlen d -> 
    Buf_inv (requestBodyBuffer t) /\ contents (requestBodyBuffer t) =
      contents (requestBodyBuffer tx) ++ take (Z.to_nat n) b) as Hend.
  { intros t [(E & _ & _ & Hi')%same_body_contents _] ->. split; [by apply Hi'|]. rewrite E.
    change (contents br = contents (requestBodyBuffer tx) ++ take (Z.to_nat (zlen d)) b). rewrite Hc. f_equal.
    unfold zlen, d. rewrite Nat2Z.id, length_take. destruct (decide (length b <= Z.to_nat
      (RequestBodyLimit tx - Z.of_nat (length (contents (requestBodyBuffer tx)))))%nat) as [Hle|Hgt];
      unfold zlen; [rewrite !take_ge by lia; done|]. f_equal. lia. }
  unfold ReadRequestBodyFrom. unfold bind at 1, gets at 1. cbn [obind fst snd].
  rewrite E1, E2, E3. cbn [rd_Len body_of]. rewrite E6. unfold bind at 1. rewrite Ec. cbn [obind fst snd].
  intros (l & t1 & E & (lim & t2 & E' & (? & t3 & E4 & E5)%bind_Ok)%bind_Ok)%bind_Ok.
  injection E as <- <-. injection E' as <- <-. cbv zeta in *.
  assert (same_bodies (tx <| requestBodyBuffer := br |>) t3) as Hs.
  { revert E4. apply (keeps_same_only (if _ : bool then _ else _)). keeps_step; [apply setSingle_only|keeps_step]. }
  destruct (_ && _); [done|]. apply bind_Ok in E5 as (err & t4 & E5 & (i & t5 & Ei & Er)%bind_Ok).
  injection Ei as _ <-. injection Er as _ <- _ <-. apply Hend; [|done]. etrans; [exact Hs|].
  destruct (_ || _); [|injection E5 as _ <-; reflexivity]. apply bind_Ok in E5 as (y & t6 & E5 & E7). injection E7 as _ <-.
  by eapply ProcessRequestBody_same.
Qed.

(** ** Response bodies *)

(** The transaction wants the response body, has [b] of it and room for [n]
    more bytes below the limit. *)
Record inspects (n : nat) (b : gostring) (tx : Transaction) : Prop := {
  ins_engine : RuleEngine tx <> RuleEngineOff;
  ins_access : ResponseBodyAccess tx = true;
  ins_mime : IsResponseBodyProcessable w tx = true;
  ins_interruption : interruption tx = None;
  ins_inv : Buf_inv (responseBodyBuffer tx);
  ins_contents : contents (responseBodyBuffer tx) = b;
  ins_room : ResponseBodyLimit tx = zlen b + Z.of_nat n + 1;
  ins_limit : ResponseBodyLimit tx <= Limit (options (responseBodyBuffer tx));
}.

Lemma WriteResponseBody_inspects d n b tx : inspects n b tx -> (length d <= n)%nat ->
  exists tx', WriteResponseBody true processors os_ok w d tx = Ok ((None, zlen d, None), tx') /\
    inspects (n - length d) (b ++ d) tx'.
Proof using Type.
  intros [He Ha Hp Hn Hi Hc Hr Hl] Hd. pose proof (inv_options _ Hi) as [[_ HL] _].
  pose proof (inv_length _ Hi) as Hlen. rewrite Hc in Hlen. pose proof (zlen_nonneg b).
  destruct (Write_fits (responseBodyBuffer tx) d) as (br & Ew & Hi' & Ho & Hc'); [done|unfold zlen in *; rewrite Hc; lia|].
  exists (tx <| responseBodyBuffer := br |>). split.
  - unfold WriteResponseBody, bind, gets. cbn [obind fst snd].
    rewrite bool_decide_eq_false_2 by done. rewrite Ha, Hlen. cbn [negb].
    rewrite (proj2 (Z.eqb_neq _ _)) by lia.
    rewrite wrap64_id by (unfold in_int64, maxInt64, zlen in *; lia).
    rewrite (proj2 (Z.leb_gt _ _)) by (unfold zlen in *; lia). cbn [andb ret obind fst snd].
    unfold slice_to. rewrite (proj2 (Z.ltb_ge (zlen d) 0)), (proj2 (Z.ltb_ge (zlen d) (zlen d))) by (unfold zlen; lia).
    cbn [orb ret obind fst snd]. unfold write_response.
    replace (take (Z.to_nat (zlen d)) d) with d by (unfold zlen; rewrite take_ge; [done|lia]).
    rewrite Ew. cbn [obind fst snd]. change (interruption (tx <| responseBodyBuffer := br |>)) with (interruption tx).
    by rewrite Hn.
  - constructor; try done; simpl.
    + by rewrite Hc', Hc.
    + change (ResponseBodyLimit tx = zlen (b ++ d) + Z.of_nat (n - length d) + 1). rewrite zlen_app.
      unfold zlen in *. lia.
    + change (ResponseBodyLimit tx <= Limit (options br)). by rewrite Ho.
Qed.
End fed.
