(* ===== verification/HttpProps.v ===== *)
(** * Properties of the HTTP middleware

    A response that is inspected reaches the client whole after the inspection,
    or not at all; the handler reads the body that the client sent, though the
    engine read it first.  The interceptor knows the transaction by its
    interface only, and the engine implements it. *)

From stdpp Require Import options.
From Stdlib Require Import Strings.Byte.
From S2P Require Import Prelude GoLib GoTime HttpParse Variables Types Collections BodyBuffer.
From S2P Require Import Transaction Macro Rule TransactionOps Actions RuleEval EvalFacts.
From S2P Require Import RuleGroup BodyProcessors Phases Engine PhaseFacts BodyFacts PhaseProps HttpMiddleware.
From S2P Require Import HttpEngine Examples.
Import types middleware.

#[local] Open Scope icpt_scope.

(** What a transaction promises to the interceptor while it inspects a
    response: in the state [inspecting n b] it wants the body, has [b] in its
    buffer and room for [n] more bytes. *)
Class Inspects (T Err : Type) `{TransactionAPI T Err} := {
  inspecting : nat -> gostring -> T -> Prop;
  inspecting_wants n b t : inspecting n b t ->
    IsInterrupted t = false /\ IsResponseBodyAccessible t = true /\ IsResponseBodyProcessable t = true;
  write_inspecting d n b t : inspecting n b t -> (length d <= n)%nat ->
    exists t', WriteResponseBody d t = Ok (None, length d, None, t') /\ inspecting (n - length d) (b ++ d) t';
  body_inspecting n b t t' : inspecting n b t -> ProcessResponseBody t = Ok (None, None, t') ->
    exists chunks t'', ResponseBodyReader t' = Ok (inl chunks, t'') /\ concat chunks = b;
}.

Section response.
Context {T Err : Type} `{Inspects T Err} `{ResponseWriter} `{GoRange}.
Implicit Type w : world T.

(** The bytes that the handler writes. *)
Definition written (l : list action) : gostring :=
  concat ((fun a => match a with DoWrite b => b | _ => [] end) <$> l).

(** The status is recorded, nothing was sent yet and the transaction has all
    that was written. *)
Record holding (code : Z) (n : nat) (b : gostring) w : Prop := {
  hold_tx : inspecting n b (tx w);
  hold_sent : sent w = [];
  hold_status : statusCode (icpt w) = code;
  hold_header : wroteHeader (icpt w) = true;
  hold_flush : isWriteHeaderFlush (icpt w) = false;
  hold_written : wroteBufferedBodyToDownstream (icpt w) = false;
  hold_flushing : allowFlushing (icpt w) = false;
}.

Lemma holding_headers code n b w k v :
  holding code n b w -> holding code n b (w <| headers := <[k := [v]]> (headers w) |>).
Proof using Type. by intros []. Qed.

Lemma Write_holding code n b d w : holding code n b w -> (length d <= n)%nat ->
  exists w', Write d w = Ok ((length d, None), w') /\ holding code (n - length d) (b ++ d) w'.
Proof using Type.
  intros [Ht Hs Hc Hw Hf Hb Ha] Hd. destruct (inspecting_wants _ _ _ Ht) as (E1 & E2 & E3).
  destruct (write_inspecting d n b _ Ht Hd) as (t' & Et & Ht').
  exists (w <| tx := t' |>). split; [|by constructor].
  unfold Write, ibind, iget, on_tx. cbn [obind fst snd]. rewrite E1, Hw. cbn [iret obind fst snd].
  rewrite E2, E3, Hb. cbn [andb negb]. rewrite Et. cbn [obind fst snd]. by rewrite Nat.eqb_refl.
Qed.

(** While the handler runs, nothing is sent. *)
Lemma handler_holding code l n b w : holding code n b w -> (length (written l) <= n)%nat ->
  exists w', ifor l act w = Ok (tt, w') /\ holding code (n - length (written l)) (b ++ written l) w'.
Proof using Type.
  revert n b w. induction l as [|a l IH]; intros n b w Hh Hl.
  { exists w. split; [done|]. unfold written. simpl. by rewrite app_nil_r, Nat.sub_0_r. }
  change (written (a :: l)) with ((match a with DoWrite d => d | _ => [] end) ++ written l) in *.
  cbn [ifor]. unfold ibind at 1. destruct a as [k v|c|d|]; cbn [act app] in *.
  - apply IH; [by apply holding_headers|done].
  - unfold WriteHeader, ibind, iget. cbn [obind fst snd]. rewrite (hold_header _ _ _ _ Hh). by apply IH.
  - rewrite length_app in Hl. destruct (Write_holding code n b d w Hh) as (w1 & E & Hh1); [lia|].
    destruct (IH _ _ _ Hh1) as (w2 & E2 & Hh2); [lia|]. exists w2. unfold ibind. rewrite E. split; [exact E2|].
    rewrite length_app, Nat.sub_add_distr, (assoc_L app). exact Hh2.
  - unfold Flush, ibind, iget. cbn [obind fst snd]. rewrite (hold_header _ _ _ _ Hh). cbn [iret obind fst snd].
    rewrite (hold_flushing _ _ _ _ Hh). by apply IH.
Qed.

(** A writer that takes everything. *)
Definition accepting : Prop := forall s b, w_Write s b = (length b, false).

Lemma copy_down_accepting chunks w : accepting ->
  exists w', copy_down chunks w = Ok (true, w') /\ sent w' = sent w ++ (SentBody <$> chunks) /\ icpt w' = icpt w.
Proof using Type.
  intros Hw. revert w. induction chunks as [|c cs IH]; intros w.
  { exists w. simpl. by rewrite app_nil_r. }
  destruct (IH (w <| sent := sent w ++ [SentBody c] |>)) as (w' & E & Hs & Hi).
  exists w'. split; [|split; [|done]; rewrite Hs; symmetry; apply (app_assoc (sent w) [SentBody c])].
  cbn [copy_down]. unfold write_down, ibind, iget, send, imodify. cbn [obind fst snd]. rewrite Hw.
  cbn [obind fst snd iret orb]. rewrite Nat.eqb_refl, take_ge by lia. exact E.
Qed.

End response.

(** ** The engine keeps the promise *)

Section engine.
Context `{GoUnicode} `{MapOrder} `{StringData} `{LocalZone}.
Context (ParseRequestURI : gostring -> URL + gostring).
Context (processors : gostring -> option BodyProcessor) (waf : WAF).
Context (Hbp : forall name bp, processors name = Some bp -> bp_ok bp).
Context (Hops : waf_ops_ok waf).
#[local] Set Default Proof Using "Type*".

#[global] Instance engine_inspects :
  @Inspects _ _ (engine_transaction ParseRequestURI true processors os_ok waf).
Proof.
  refine {| inspecting := inspects waf |}.
  - intros n b t [_ E1 E2 E3 _ _ _ _]. cbn. unfold TransactionOps.IsInterrupted. rewrite E3. by rewrite bool_decide_eq_false_2 by (by intros []).
  - intros d n b t Ht Hd. destruct (WriteResponseBody_inspects processors waf d n b t Ht Hd) as (t' & E & Ht').
    exists t'. split; [|done]. cbn [middleware.WriteResponseBody engine_transaction]. rewrite E. cbn [obind].
    unfold zlen. by rewrite Nat2Z.id.
  - intros n b t t' Ht. cbn [middleware.ProcessResponseBody middleware.ResponseBodyReader engine_transaction].
    destruct (Phases.ProcessResponseBody true processors waf t) as [[[it err] t1]|] eqn:E; [|done].
    cbn [obind]. intros E'. simplify_eq.
    destruct (ProcessResponseBody_same true processors waf Hbp Hops _ _ _ E) as [_ (Ec & _ & _ & Hi)%same_body_contents].
    destruct (ResponseBodyReader_all t') as (chunks & t2 & Er & Hc); [by apply Hi, Ht|].
    exists chunks, t2. split; [done|]. rewrite Hc, Ec. by destruct Ht.
Defined.

(** C17: The engine reads the request's body before the handler does.  When it
    neither interrupts nor fails, the handler still reads exactly the body that
    the client sent, also when the engine's limit cut what it inspected. *)
Theorem handler_reads_the_body_sent b w body w' :
  accepts_request (tx w) -> contents (requestBodyBuffer (tx w)) = [] ->
  @processRequestBody _ _ (engine_transaction ParseRequestURI true processors os_ok waf) (Some b) w
    = Ok ((inl None, body), w') ->
  body = Some b /\ sent w' = sent w /\ headers w' = headers w.
Proof.
  intros Ha Hc. unfold processRequestBody, ibind, on_tx, iret.
  cbn [middleware.ReadRequestBodyFrom middleware.RequestBodyReader engine_transaction].
  destruct (Phases.ReadRequestBodyFrom _ _ _ _ _ _) as [[[[it n] err] t1]|] eqn:E; [|done]. cbn [obind fst snd].
  destruct err as [e|]; [by intros ?; simplify_eq|]. destruct it as [it|]; [by intros ?; simplify_eq|].
  destruct (ReadRequestBodyFrom_buffers processors waf Hbp Hops b _ n t1 Ha E) as (Hi & Hb).
  rewrite Hc in Hb. cbn [app] in Hb.
  destruct (RequestBodyReader_all t1 Hi) as (t2 & Er).
  change (tx (w <| tx := t1 |>)) with t1. rewrite Er. cbn [obind fst snd]. intros E'. simplify_eq.
  split_and!; [|done..]. f_equal. rewrite Hb. apply take_drop.
Qed.
End engine.

(** ** Witnesses *)

Module http_witnesses.
Import demo.

#[local] Instance key_order : GoRange.
Proof. by refine {| range_map V m := map_to_list m |}. Defined.

#[local] Instance taking : ResponseWriter := {| w_Write s b := (length b, false); is_Flusher := true |}.

Definition no_uri : gostring -> URL + gostring := fun _ => inr [].

#[local] Instance api : TransactionAPI Transaction PhaseErr :=
  engine_transaction no_uri true demo.processors os_ok waf.

#[local] Instance api_inspects : Inspects Transaction PhaseErr :=
  engine_inspects no_uri demo.processors waf witnesses.processors_ok waf_ok.

(** A page whose header was recorded with the given status. *)
Definition page (code : Z) : world Transaction :=
  mkWorld (final (TransactionOps.AddResponseHeader (lit "Content-Type") (lit "text/html; charset=utf-8")) tx0) ∅ []
    (mkInterceptor code (lit "HTTP/1.1") false true false false).

Definition greeting : list action := [DoWrite (lit "hello"); DoFlush; DoWrite (lit " world")].

Lemma page_holding code : holding code 15 [] (page code).
Proof.
  constructor; [|done..]. change (inspects waf 15 [] (tx (page code))).
  split; [vm_compute; discriminate|by vm_compute|by vm_compute|by vm_compute| |done|by vm_compute|].
  - apply Buf_inv_new; vm_compute; split_and?; discriminate.
  - vm_compute. discriminate.
Qed.


(** The page is sent in one piece; a page with the status 304 is not sent, its
    status neither. *)
Example page_is_sent :
  obind ((ifor greeting act ;+ responseProcessor) (page 200)) (fun r => Ok (sent (snd r)))
  = Ok [SentHeader 200; SentBody (lit "hello world")].
Proof. by vm_compute. Qed.

Example not_modified_is_lost :
  obind ((ifor greeting act ;+ responseProcessor) (page 304)) (fun r => Ok (sent (snd r)))
  = Ok [].
Proof. by vm_compute. Qed.

(** A limit of 16 bytes with the action Partial; the body has 18. *)
Definition upload : world Transaction :=
  mkWorld tx0 ∅ [] (mkInterceptor 200 (lit "HTTP/1.1") false false false false).

#[local] Instance api_partial : TransactionAPI Transaction PhaseErr :=
  engine_transaction no_uri true demo.processors os_ok witnesses.waf_partial.

Definition uploaded : outcome ((option Interruption + PhaseErr) * option gostring * world Transaction) :=
  @processRequestBody _ _ api_partial (Some (lit "more than 16 bytes")) upload.

Lemma upload_passes : match uploaded with Ok ((inl None, _), _) => true | _ => false end = true.
Proof. by vm_compute. Qed.

Lemma handler_reads_the_body_sent_witness :
  match uploaded with
  | Ok ((inl None, body), w') => body = Some (lit "more than 16 bytes") /\ sent w' = []
  | _ => False
  end.
Proof.
  pose proof upload_passes as Hok. unfold uploaded in *.
  destruct (processRequestBody _ _) as [[[[[it|]|e] body] w']|] eqn:E; try discriminate Hok.
  destruct (handler_reads_the_body_sent no_uri demo.processors witnesses.waf_partial
    witnesses.processors_ok waf_ok (lit "more than 16 bytes") upload body w') as (Hb & Hs & _).
  - exact witnesses.tx0_accepts.
  - reflexivity.
  - exact E.
  - split; [exact Hb|exact Hs].
Defined.
End http_witnesses.
